(* ===== verification/_CoqProject ===== *)
-Q . S2P
Prelude.v
Flags.v
Config.v
StoreApi.v
StdStore.v
EtcdStore.v
StoreWrapper.v
StoreEquiv.v
Errgroup.v
TermSize.v
K8sUser.v
Channels.v
Connection.v
Server.v
ServerLoop.v
ConcurrentLogins.v
Templates.v
K8sApi.v
PortForward.v
SshKube.v
Isolation.v
Installer.v
ExecStream.v
VmApi.v
AgentTty.v
ExecEndToEnd.v
Bootstrapper.v
KubeadmConfig.v
Grader.v
GraderTime.v
Processes.v
PodFiles.v
PodCalls.v
Qemu.v
QemuDefs.v
QemuCreate.v
QemuRefs.v
QemuWrapper.v
Cli.v
