(* ===== verification/Prelude.v ===== *)
(** * Delegatio

    Delegatio gives the students of a course a Linux container each: they log in over ssh,
    a relay in a Kubernetes cluster creates their pod and forwards the session to an agent
    in it, and a grader runs their solutions. This library models the Go code of that
    system in Rocq and proves what makes its parts correct. Everything is a definition
    translated from the source; there is no axiom. Code of other modules (client-go, the
    etcd client, LDAP, helm, golang.org/x/crypto/ssh, gRPC) is a type class or a
    parameter, with its documented behaviour as the laws of a second class, and an
    instance on which concrete runs are evaluated.

    ** The parts and where they are

    - [Prelude] (this file): Go's errors and [errors.Is]/[errors.As], the monad
      [M S A := S -> res A * S] of functions that return, fail, panic or block ([defer],
      loops, [attempt] for an inspected error), strings, integer widths, the unspecified
      order of [range] over a map ([RangeOrder]), buffered channels, [sub_map] for a
      prefix of a key space, and [stable] for conditions that successful calls keep.
    - [Flags]: Go's package flag, by which the processes read their command lines.
    - [Config]: internal/config (types.go, global.go, commit.go) and encoding/json.
    - [StoreApi]: internal/store/store.go as the class [KVStore] with [KVStoreLaws],
      and the iterators of both backends.
    - [StdStore]: internal/store/stdstore.go. The state has both mutexes, a heap of maps
      and the open transactions, since [Commit] installs a transaction's own map.
    - [EtcdStore]: internal/store/etcdstore.go over [EtcdClient]/[EtcdLaws].
    - [StoreWrapper]: internal/storewrapper/storewrapper.go over [KVStore].
    - [StoreEquiv]: both backends behave alike for such clients.
    - [Errgroup]: golang.org/x/sync/errgroup for the command line's groups of goroutines,
      run under a schedule of turns.
    - [TermSize]: ssh/connection/channels/size.go and agent/vmapi/size.go.
    - [K8sUser]: ssh/kubernetes/user.go and the interface [K8sAPI] of the relay.
    - [Channels]: ssh/connection/channels and ssh/connection/payload. A channel's [Serve]
      is the step relation [serve_step]: one request, or a goroutine that the callbacks have
      started going on to its next [stage] (before, in and after its call of the API).
    - [Connection]: ssh/connection (connection.go, builder.go). [handleChannels] is the
      step relation [conn_step], in which every open channel takes [serve_step]s.
    - [Server]: ssh/server.go, ssh/ldap/ldap.go and ssh/util/util.go: the login callbacks
      over store and directory.
    - [ServerLoop]: ssh/server.go from the accept loop on: accepting, serving, counting and
      shutting down as the step relation [server_step].
    - [ConcurrentLogins]: the login callbacks of ssh/server.go call by call, many of them
      at once over one store, as the step relation [logins_step].
    - [Templates]: internal/k8sapi/templates and the contents of the two deployments.
    - [K8sApi]: internal/k8sapi over [KubeClient]/[KubeLaws].
    - [PortForward]: internal/k8sapi (portForward.go, exec.go). A forward with its three
      goroutines is the step relation [pf_step]; in a run of it ([pf_run]) data of both
      sides arrive at any time; [client_step] has several forwards at once.
    - [SshKube]: ssh/kubernetes/api.go, which implements [K8sAPI] by [K8sApi] and the
      agents' calls ([PodApi]).
    - [Isolation]: from [Server]'s login over [Connection] and [Channels] to [SshKube]: what
      an authenticated connection can reach.
    - [Installer]: cli/installer (installer.go, helm/helm.go) and cli/terminate.
    - [ExecStream]: agent/vmapi/vmapi.go, the relay's side of a remote command. Its three
      goroutines, their helpers and the errgroup are the step relation [exec_step].
    - [VmApi]: agent/vmapi (exec.go, file.go), the agent's side.
    - [AgentTty]: agent/vmapi/exec.go with a terminal: input and sizes on their way to it, in
      three goroutines, as [tty_step].
    - [ExecEndToEnd]: the relay of [ExecStream], the agent of [VmApi] and the process it has
      started, running at once ([call_step]).
    - [Bootstrapper]: cli/bootstrapper/kubernetes over [AgentClient]/[AgentLaws] (which
      [VmApi]'s agents implement), [Pki] and [TokenApi]; the joins run in an [Errgroup].
    - [KubeadmConfig]: internal/config/utils, kubeadm's configuration and its encoding.
    - [Grader]: grader/gradeapi with graders/graders.go and type1.go; [GraderTime] has the
      deadlines of the runs of a solution.
    - [Processes]: ssh/main.go, agent/server, agent/core, grader/server and grader/user, with
      their command lines and the constructors they call; the ssh server's signals are
      [ssh_signal_step].
    - [PodFiles]: the calls of agent/vmapi/vmapi.go that write a file into a pod.
    - [PodCalls]: [ExecStream] and [PortForward] as the two long running calls of [SshKube],
      for which a [Connection] waits.
    - [Qemu]: cli/infrastructure/qemu over [Libvirt]/[LibvirtLaws]: deletion, the upload
      loop, and the choice of an address.
    - [QemuDefs]: internal/config/definitions/qemu.go, every definition given to libvirt.
    - [QemuCreate]: the rest of cli/infrastructure/qemu (create.go, qemu.go, block.go,
      util.go) over [LibvirtCreate]/[LibvirtCreateLaws], in [Errgroup]s.
    - [QemuRefs]: the references to libvirt's objects that the two take and give back.
    - [QemuWrapper]: cli/infrastructure/qemu/wrapper.go, by which the methods of libvirt's
      package ([LibvirtGo]) become [Libvirt] and [LibvirtCreate].
    - [Cli]: cli/run.go, which composes [QemuCreate], [Bootstrapper] and [Installer], and
      cli/main.go, whose signals are [signal_step].

    A login runs through them so: [Server.PasswordCallback] or [PublicKeyCallback] reads
    and writes user records through [StoreWrapper] in the store that [SshKube.GetStore]
    reached with the credentials [Installer] left in a config map;
    [Connection.HandleGlobalConnection] asks [K8sAPI] for the user's resources and serves
    channels; [Channels.handleShell] calls [ExecuteCommandInPod], which is [SshKube]'s and
    ends in [ExecStream], whose messages [VmApi] answers. A cluster comes about so:
    [Cli.run] makes the machines by [QemuCreate], runs kubeadm on their agents by
    [Bootstrapper], installs the applications by [Installer], waits for the interrupt and
    removes the machines; the processes that then run in the cluster are [Processes].

    ** The theorems

    - Stores: [StdStore] refines an abstract store with one transaction at a time, and
      every allowed call completes; an etcd transaction reads its own writes and its
      commit installs what it saw; the backends agree, call by call and for whole
      transactions; the wrapper's records of each kind are kept apart and read back.
    - Logins: exactly which keys are accepted and as whom, no password login without an
      LDAP bind, what the first and the later logins store and hand on; with many logins at
      once, that records stay valid, that every key handed out logs in, and what a login
      that is interrupted between its two puts leaves for ever; the server returns over at
      most one connection, and can end once it is cancelled.
    - Sessions: a connection acts for the user who logged in and for no other, whatever its
      client sends (but sftp is asked of a pod named after the user's pod, which can be
      another user's); wait groups count the running goroutines, so a connection ends only
      when all of its channels' goroutines have; once cancelled it can end, whatever its
      shells and forwards are doing; what each request does; how a shell is run; when the keep-alive gives up; the size queue is a
      bounded queue.
    - Remote commands: data are relayed in order in every interleaving; after a
      cancellation at most one more message is delivered and the call can end; exit codes
      and terminal sizes survive the encoding; the call never returns nil. From end to end:
      what the process writes is passed on in order (an error of a write to the user's channel
      goes unnoticed), an exit code only after what the agent has of it, the process gets what
      the user types, and the terminal the sizes in their order; without a terminal and
      without input no exit code ever arrives.
    - Cluster: the objects a login creates and how they fit together; an installation
      stores the given configuration, its credentials lead the servers to the same store,
      only the expected chart is run, and no second installation succeeds; the services it
      makes lead to the ports the processes listen on, the ssh server starts with the key it
      stored, and the users' binary cannot start at all.
    - Port forwarding: everything a forward opens is released in order when it returns, it
      goes on only as long as something arrives and can return once it is over, one of its
      goroutines does not end, and concurrent forwards are told apart.
    - Files in pods: a login by password sends its key to the agent of the user's pod, whose
      file system then has it.
    - Grading: what full points require; that printing the argument is enough; that a grading
      ends fifteen seconds after its start at the latest, and after the processes that the
      solution has left behind, or never if one of those stays.
    - Machines: a clean-up spares every foreign object and leaves none of its own, also
      after a creation that failed half-way; a creation that succeeds, in any interleaving,
      has made every machine and reports each; the definitions fit together; what an upload
      writes; all this holds through the wrappers too, and one reference is not given back.
    - Bootstrap: kubeadm init runs once and first and every worker is joined once, in any
      interleaving, and every connection is closed; the configuration is a sequence of YAML
      documents and is the one init reads.
    - Command line: a run that succeeds has bootstrapped the machines it created, and
      however a run ends its last clean-up leaves nothing behind; signals are handled to
      the end; flags are read back as they were written.
    - Several theorems state a defect: their comments say what goes wrong.

    ** Bounds and fuel

    The client loop over an iterator ([StoreApi.iter_loop]) has one unit of fuel more than
    the iterator has keys, and [StoreApi.iterate_fold] shows that this is enough: the loop
    visits every key and returns. The upload loop has one more than the image has bytes
    ([Qemu.upload_loop_returns]). All other loops are structural on the list they go
    through. Step relations have no bound on their runs; that they can end is proved
    ([std_calls_progress], [Serve_can_finish], [handleChannels_can_finish],
    [cluster_connections_can_finish], [cancelled_server_can_finish],
    [cancelled_exec_can_finish], [exec_can_deliver_all]), and for the smaller ones that every
    run ends ([registerSignalHandler_ends], [ssh_signals_cancel_the_server],
    [size_loop_never_ends]), or takes at most twelve steps and one for each arrival
    ([forward_terminates]).
    A group of goroutines runs under a schedule, a list of turns, and is left waiting when
    the list is too short; [Errgroup.group_can_end] shows that every schedule can be
    completed, and its instances that the program's groups can
    ([JoinClusterCoordinator_can_return], [createInstances_can_return]). A loop that polls
    until a deadline is given the number of polls before it. Sizes of terminals and ports are
    integers cut to their width by [to_uint16] and [to_int32]; exit codes are parsed within
    64 bits.

    ** What is not modelled

    Logging, except for what the command lines choose of it; time, except for the runs of a
    solution and as ticks and deadlines that happen or not; the ssh handshake, gRPC's and
    the terminals' transport, with the options gRPC is dialled with (dialInsecure and
    grpcWithDialer); functions that only forward to a library or a constructor
    (EtcdStore.Close, NewKubernetes, NewQemu) and the text of ValueUnsetError; the code
    that protoc generates (agent/vmapi/vmproto, grader/gradeapi/gradeproto), whose messages
    are inductive types; and the Go interfaces without code. Of libvirt's and kubeadm's types
    the fields that the program sets are modelled, and their encodings are parameters.
    Everything else that the implementation's files define is modelled. *)
From stdpp Require Export base decidable option numbers pretty relations gmap sets strings list.

(** ** Go errors *)

(** Go error values, as far as the code inspects them.  [ErrVar] is a package
    level sentinel ([io.EOF], [ErrQueueFull], ...), identified by its variable;
    [ErrNew] is the result of [errors.New]/[fmt.Errorf] without [%w]; [ErrWrap]
    is [fmt.Errorf] with [%w]; [ErrJoin] is [errors.Join]; [ErrUnset] is a
    [*store.ValueUnsetError], a pointer, hence its address; [Errno] is
    [syscall.Errno]; [ErrStatus] is a gRPC or Kubernetes status error with its
    code or reason; [ErrExt] is any other error of code outside the repository. *)
Inductive error : Type :=
  | ErrVar (name : string)
  | ErrNew (msg : string)
  | ErrWrap (msg : string) (cause : error)
  | ErrJoin (errs : list error)
  | ErrUnset (addr : positive) (key : string)
  | Errno (n : Z)
  | ErrStatus (code msg : string)
  | ErrExt (msg : string).

(** The error followed by everything [Unwrap] reaches, in pre-order. *)
Fixpoint error_chain (e : error) : list error :=
  e :: match e with
       | ErrWrap _ c => error_chain c
       | ErrJoin es => flat_map error_chain es
       | _ => []
       end.

(** [err == target] for the comparable errors used as targets: sentinels by
    variable, pointers by address, [syscall.Errno] by number. *)
Definition same_error (target e : error) : bool :=
  match target, e with
  | ErrVar a, ErrVar b => bool_decide (a = b)
  | ErrUnset p _, ErrUnset q _ => bool_decide (p = q)
  | Errno a, Errno b => bool_decide (a = b)
  | _, _ => false
  end.

(** [errors.Is]. *)
Definition errors_Is (e target : error) : bool :=
  existsb (same_error target) (error_chain e).

(** [errors.As] with a [*store.ValueUnsetError] target. *)
Definition errors_As_unset (e : error) : bool :=
  existsb (λ c, match c with ErrUnset _ _ => true | _ => false end) (error_chain e).

Definition io_EOF : error := ErrVar "EOF".
Definition os_ErrNotExist : error := ErrVar "file does not exist".
Definition ctx_Canceled : error := ErrVar "context canceled".
Definition ctx_DeadlineExceeded : error := ErrVar "context deadline exceeded".

(** [errors.Join(errs...)]: [None] stands for a nil error. *)
Definition errors_Join (errs : list (option error)) : option error :=
  match omap id errs with
  | [] => None
  | es => Some (ErrJoin es)
  end.

(** ** Outcomes and the state monad of Go functions *)

(** How a call ends: it returns a value with a nil error, it returns a non-nil
    error, it panics (or the runtime throws), or it blocks forever. *)
Inductive res (A : Type) : Type :=
  | Ret (a : A)
  | Fail (e : error)
  | Panic
  | Blocked.
Arguments Ret {A} a.
Arguments Fail {A} e.
Arguments Panic {A}.
Arguments Blocked {A}.

(** The call comes back to its caller, with or without an error. *)
Definition returns {A} (r : res A) : Prop := match r with Ret _ | Fail _ => True | _ => False end.

Definition M (S A : Type) : Type := S → res A * S.

#[export] Instance M_ret {S} : MRet (M S) := λ A a s, (Ret a, s).
#[export] Instance M_bind {S} : MBind (M S) := λ A B f m s,
  match m s with
  | (Ret a, s') => f a s'
  | (Fail e, s') => (Fail e, s')
  | (Panic, s') => (Panic, s')
  | (Blocked, s') => (Blocked, s')
  end.

Definition fail {S A} (e : error) : M S A := λ s, (Fail e, s).
Definition panic {S A} : M S A := λ s, (Panic, s).
Definition block {S A} : M S A := λ s, (Blocked, s).
Definition gets {S A} (f : S → A) : M S A := λ s, (Ret (f s), s).
Definition modify {S} (f : S → S) : M S () := λ s, (Ret (), f s).

(** [v, err := f()]: the error becomes a value the caller inspects. *)
Definition attempt {S A} (m : M S A) : M S (error + A) := λ s,
  match m s with
  | (Ret a, s') => (Ret (inr a), s')
  | (Fail e, s') => (Ret (inl e), s')
  | (Panic, s') => (Panic, s')
  | (Blocked, s') => (Blocked, s')
  end.

(** [_ = f()]: the error is dropped. *)
Definition dropped {S A} (m : M S A) : M S () := attempt m ≫= λ _, mret ().

(** [return err] for an [error] that may be nil. *)
Definition of_err {S} (e : option error) : M S () :=
  match e with None => mret () | Some x => fail x end.

(** [defer d] around the rest [m] of the function: [d] runs when [m] returns,
    fails or panics; a panic or an unrecoverable block inside [d] takes over. *)
Definition defer {S A} (d : M S ()) (m : M S A) : M S A := λ s,
  match m s with
  | (Blocked, s') => (Blocked, s')
  | (r, s') =>
      match d s' with
      | (Panic, s'') => (Panic, s'')
      | (Blocked, s'') => (Blocked, s'')
      | (_, s'') => (r, s'')
      end
  end.

(** A computation on a part of the state. *)
Definition zoom {S T A} (get : S → T) (set : T → S → S) (m : M T A) : M S A := λ s,
  match m (get s) with (r, t) => (r, set t s) end.

(** A failed call that is logged by [DPanic], which panics in zap's development
    configuration. *)
Definition dpanic {S A} (m : M S A) : M S A :=
  r ← attempt m;
  match r with inl _ => panic | inr a => mret a end.

(** A [for _, x := range l] loop whose body may return early with an error. *)
Fixpoint for_each {S A} (l : list A) (body : A → M S ()) : M S () :=
  match l with
  | [] => mret ()
  | x :: l' => body x;; for_each l' body
  end.

(** A loop that threads local variables [acc] and may return early. *)
Fixpoint fold_m {S A B} (body : A → B → M S B) (l : list A) (acc : B) : M S B :=
  match l with
  | [] => mret acc
  | x :: l' => acc' ← body x acc; fold_m body l' acc'
  end.

(** ** Strings *)

(** A line feed. *)
Definition newline : string := String (Ascii.ascii_of_nat 10) EmptyString.

(** [strings.HasPrefix(s, p)]. *)
Definition HasPrefix (s p : string) : bool := String.prefix p s.

(** [s[n:]] for [n] at most the length. *)
Fixpoint str_drop (n : nat) (s : string) : string :=
  match n, s with
  | O, _ => s
  | S n', String _ s' => str_drop n' s'
  | S _, EmptyString => EmptyString
  end.

(** [strings.TrimPrefix(s, p)]. *)
Definition TrimPrefix (s p : string) : string :=
  if HasPrefix s p then str_drop (String.length p) s else s.

(** [strings.Contains(s, sub)]. *)
Fixpoint Contains (s sub : string) : bool :=
  HasPrefix s sub ||
  match s with
  | EmptyString => false
  | String _ s' => Contains s' sub
  end.

(** [net.JoinHostPort]. *)
Definition JoinHostPort (host port : string) : string :=
  if Contains host ":" then "[" +:+ host +:+ "]:" +:+ port else host +:+ ":" +:+ port.

(** [strings.TrimSpace] on ASCII text. *)
Definition is_space (a : Ascii.ascii) : bool :=
  let n := Ascii.nat_of_ascii a in
  bool_decide (n = 32 ∨ (9 ≤ n ∧ n ≤ 13))%nat.
Fixpoint TrimLeftSpace (s : string) : string :=
  match s with
  | String a s' => if is_space a then TrimLeftSpace s' else s
  | EmptyString => EmptyString
  end.
Fixpoint TrimRightSpace (s : string) : string :=
  match s with
  | String a s' =>
      match TrimRightSpace s' with
      | EmptyString => if is_space a then EmptyString else String a EmptyString
      | t => String a t
      end
  | EmptyString => EmptyString
  end.
Definition TrimSpace (s : string) : string := TrimRightSpace (TrimLeftSpace s).

(** [strconv.Itoa] and [fmt.Sprint] of an integer. *)
Definition Itoa (n : Z) : string := pretty n.

(** ** Integers *)

(** Conversions to fixed width integers wrap around. *)
Definition to_uint16 (x : Z) : Z := x `mod` 2 ^ 16.
Definition to_uint64 (x : Z) : Z := x `mod` 2 ^ 64.
Definition to_int32 (x : Z) : Z := (x + 2 ^ 31) `mod` 2 ^ 32 - 2 ^ 31.

(** ** Map iteration *)

(** The order in which [range] visits a Go map is unspecified: it is a
    parameter, of which only the set of visited entries is known. *)
Class RangeOrder : Type := {
  range : ∀ {V : Type}, gmap string V → list (string * V);
  range_perm : ∀ {V : Type} (m : gmap string V), range m ≡ₚ map_to_list m
}.

(** The instance used to evaluate concrete runs. *)
Definition range_canonical : RangeOrder :=
  {| range := λ V m, map_to_list m; range_perm := λ V m, reflexivity _ |}.

(** ** Channels *)

(** A buffered Go channel. *)
Record gochan (A : Type) : Type := GoChan {
  ch_buf : list A;
  ch_cap : nat;
  ch_closed : bool
}.
Arguments GoChan {A} _ _ _.
Arguments ch_buf {A} _.
Arguments ch_cap {A} _.
Arguments ch_closed {A} _.

Definition ch_make {A} (cap : nat) : gochan A := GoChan [] cap false.

(** [c <- x]: panics on a closed channel, blocks on a full one. *)
Definition ch_send {A} (x : A) : M (gochan A) () := λ c,
  if ch_closed c then (Panic, c)
  else if decide (length (ch_buf c) < ch_cap c)%nat
       then (Ret (), GoChan (ch_buf c ++ [x]) (ch_cap c) (ch_closed c))
       else (Blocked, c).

(** [<-c]: [None] is the zero value a closed and drained channel yields. *)
Definition ch_recv {A} : M (gochan A) (option A) := λ c,
  match ch_buf c with
  | x :: b => (Ret (Some x), GoChan b (ch_cap c) (ch_closed c))
  | [] => if ch_closed c then (Ret None, c) else (Blocked, c)
  end.

(** [close(c)]: panics when already closed. *)
Definition ch_close {A} : M (gochan A) () := λ c,
  if ch_closed c then (Panic, c) else (Ret (), GoChan (ch_buf c) (ch_cap c) true).

(** ** Automation *)

Create HintDb go discriminated.
Create Rewrite HintDb go_string.

(** Evaluate the monad's operations on a goal or hypothesis. *)
Ltac go_unfold :=
  cbn [mbind M_bind mret M_ret fail panic block gets modify attempt of_err defer zoom] in *.

Ltac go_run :=
  repeat (progress (go_unfold; simplify_eq/=) || case_match).

(** ** Generic lemmas *)

Lemma bind_Ret {S A B} (m : M S A) (f : A → M S B) s a s' :
  m s = (Ret a, s') → (m ≫= f) s = f a s'.
Proof. intros H. unfold mbind, M_bind. by rewrite H. Qed.

Lemma bind_Fail {S A B} (m : M S A) (f : A → M S B) s e s' :
  m s = (Fail e, s') → (m ≫= f) s = (Fail e, s').
Proof. intros H. unfold mbind, M_bind. by rewrite H. Qed.

Lemma bind_Ret_inv {S A B} (m : M S A) (f : A → M S B) s b s'' :
  (m ≫= f) s = (Ret b, s'') → ∃ a s', m s = (Ret a, s') ∧ f a s' = (Ret b, s'').
Proof. unfold mbind, M_bind. destruct (m s) as [[]]; naive_solver. Qed.

Lemma ran {S A} (m : M S A) s a : (m s).1 = Ret a → m s = (Ret a, (m s).2).
Proof. destruct (m s). simpl. by intros ->. Qed.

Lemma dpanic_Ret {S A} (m : M S A) s a s' : dpanic m s = (Ret a, s') → m s = (Ret a, s').
Proof.
  unfold dpanic, attempt, mbind, M_bind, panic. destruct (m s) as [[b|e| |] s1]; by intros [= -> ->].
Qed.

(** A failed call becomes a panic; it leaves the state where the call left it. *)
Lemma dpanic_state {S A} (m : M S A) s : (dpanic m s).2 = (m s).2.
Proof. unfold dpanic, attempt, mbind, M_bind. by destruct (m s) as [[b|e| |] s1]. Qed.

Lemma dpanic_Blocked {S A} (m : M S A) s : (m s).1 = Blocked → (dpanic m s).1 = Blocked.
Proof. unfold dpanic, attempt, mbind, M_bind. destruct (m s) as [r s1]. simpl. by intros ->. Qed.

Lemma dpanic_Fail {S A} (m : M S A) s e s' : m s = (Fail e, s') → dpanic m s = (Panic, s').
Proof. intros E. unfold dpanic, attempt, mbind, M_bind. by rewrite E. Qed.

Lemma defer_Ret_inv {S A} (d : M S ()) (m : M S A) s a s' :
  defer d m s = (Ret a, s') → ∃ s1, m s = (Ret a, s1) ∧ (d s1).2 = s'.
Proof.
  unfold defer. destruct (m s) as [r s1]. intros Hd. exists s1.
  destruct r, (d s1) as [[] s2]; by simplify_eq/=.
Qed.

Lemma for_each_app {S A} (l1 l2 : list A) (body : A → M S ()) s :
  for_each (l1 ++ l2) body s = (for_each l1 body;; for_each l2 body) s.
Proof.
  revert s; induction l1 as [|x l1 IH]; intros s; [done|].
  simpl. unfold mbind, M_bind in *. destruct (body x s) as [[] s']; done.
Qed.

(** A loop whose body always succeeds by applying [f] to the state. *)
Lemma for_each_fold {S A} (f : A → S → S) (body : A → M S ()) (l : list A) s :
  (∀ x s, x ∈ l → body x s = (Ret (), f x s)) →
  for_each l body s = (Ret (), foldl (λ s x, f x s) s l).
Proof.
  revert s; induction l as [|x l IH]; intros s Hb; [done|]. simpl.
  rewrite (bind_Ret _ _ _ () (f x s)); [|apply Hb; set_solver].
  apply IH. intros; apply Hb; set_solver.
Qed.

(** *** Conditions that a successful call keeps *)

Definition stable {S A} (P : S → Prop) (m : M S A) : Prop :=
  ∀ s a s', m s = (Ret a, s') → P s → P s'.

Section stable.
Context {S : Type} (P : S → Prop).

Lemma stable_ret {A} (a : A) : stable P (mret a).
Proof. intros s x s' [= _ ->]. done. Qed.

Lemma stable_fail {A} e : stable P (@fail S A e).
Proof. done. Qed.

Lemma stable_bind {A B} (m : M S A) (f : A → M S B) :
  stable P m → (∀ a, stable P (f a)) → stable P (m ≫= f).
Proof. intros Hm Hf s b s'' (a & s' & E & E')%bind_Ret_inv Hs. eapply Hf, Hm; eauto. Qed.

Lemma stable_for_each {A} (l : list A) (body : A → M S ()) :
  (∀ x, stable P (body x)) → stable P (for_each l body).
Proof. intros Hb. induction l; simpl; [apply stable_ret|apply stable_bind; auto]. Qed.
End stable.

Lemma stable_zoom {S T A} (get : S → T) set (P : T → Prop) (m : M T A) :
  (∀ s t, get (set t s) = t) → stable P m → stable (λ s, P (get s)) (zoom get set m).
Proof.
  intros Hg Hm s a s'. unfold zoom. destruct (m (get s)) as [r t] eqn:E. intros [= -> <-].
  rewrite Hg. by eapply Hm.
Qed.

Lemma stable_zoom_other {S T A} (get : S → T) set (P : S → Prop) (m : M T A) :
  (∀ s t, P s → P (set t s)) → stable P (zoom get set m).
Proof.
  intros Hg s a s'. unfold zoom. destruct (m (get s)) as [r t] eqn:E. intros [= -> <-]. auto.
Qed.

(** *** Runs of step relations *)

(** A condition that every step keeps holds after every run. *)
Lemma rtc_invariant {A} (R : relation A) (P : A → Prop) x y :
  (∀ x y, P x → R x y → P y) → P x → rtc R x y → P y.
Proof. intros HR Hx Hr. induction Hr; eauto. Qed.

(** A relation that decreases a measure, within an invariant, has no infinite run. *)
Lemma sn_measure_in {A} (R : relation A) (I : A → Prop) (f : A → nat) :
  (∀ x y, I x → R x y → I y ∧ (f y < f x)%nat) → ∀ x, I x → sn R x.
Proof.
  intros HR x. remember (f x) as n eqn:Hn. revert x Hn.
  induction (lt_wf n) as [n _ IH]. intros x -> Hx. constructor. intros y Hy.
  destruct (HR _ _ Hx Hy) as [Hi Hl]. by eapply IH.
Qed.

Lemma sn_measure {A} (R : relation A) (f : A → nat) :
  (∀ x y, R x y → (f y < f x)%nat) → ∀ x, sn R x.
Proof. intros HR x. apply (sn_measure_in R (λ _, True) f); [|done]. intros y z _ Hz. split; [done|by apply HR]. Qed.

(** *** Strings *)

Lemma str_app_cons a (s t : string) : String a s +:+ t = String a (s +:+ t).
Proof. reflexivity. Qed.

Lemma HasPrefix_app p s : HasPrefix (p +:+ s) p = true.
Proof.
  unfold HasPrefix. induction p as [|a p IH]; simpl; [by destruct s|].
  by destruct (Ascii.ascii_dec a a).
Qed.

Lemma HasPrefix_inv s p : HasPrefix s p = true → ∃ r, s = p +:+ r.
Proof.
  unfold HasPrefix. revert s; induction p as [|a p IH]; intros s H; [by exists s|].
  destruct s as [|b s]; [done|]. simpl in H.
  destruct (Ascii.ascii_dec a b) as [->|]; [|done].
  destruct (IH s H) as [r ->]. by exists r.
Qed.

Lemma str_drop_app p s : str_drop (String.length p) (p +:+ s) = s.
Proof. induction p; simpl; [by destruct s|done]. Qed.

Lemma TrimPrefix_app p s : TrimPrefix (p +:+ s) p = s.
Proof. unfold TrimPrefix. by rewrite HasPrefix_app, str_drop_app. Qed.

Lemma str_app_assoc (a b c : string) : (a +:+ b) +:+ c = a +:+ (b +:+ c).
Proof. induction a as [|x a IH]; [done|]. by rewrite !str_app_cons, IH. Qed.

Lemma str_app_inj (p a b : string) : p +:+ a = p +:+ b → a = b.
Proof. intros H. by rewrite <-(TrimPrefix_app p a), H, TrimPrefix_app. Qed.

#[export] Instance str_app_Inj p : Inj (=) (=) (λ k : string, p +:+ k).
Proof. intros a b. apply str_app_inj. Qed.

Lemma HasPrefix_app_l p k q : HasPrefix (p +:+ k) (p +:+ q) = HasPrefix k q.
Proof.
  unfold HasPrefix. induction p as [|a p IH]; [done|].
  rewrite !str_app_cons. simpl. by destruct (Ascii.ascii_dec a a).
Qed.

Lemma Contains_unfold s sub :
  Contains s sub =
    HasPrefix s sub || match s with EmptyString => false | String _ s' => Contains s' sub end.
Proof. by destruct s. Qed.

Lemma Contains_spec s sub :
  Contains s sub = true ↔ ∃ a b, s = a +:+ sub +:+ b.
Proof.
  induction s as [|c s IH]; rewrite Contains_unfold, orb_true_iff; split.
  - intros [(r & Hr)%HasPrefix_inv|?]; [|done]. exists "", r. exact Hr.
  - intros ([|c a] & b & H); [|by rewrite str_app_cons in H]. left.
    assert (H' : "" = sub +:+ b) by exact H.
    by destruct sub; [|rewrite str_app_cons in H'].
  - intros [(r & Hr)%HasPrefix_inv|(a & b & ->)%IH].
    + exists "", r. exact Hr.
    + by exists (String c a), b.
  - intros ([|c' a] & b & H).
    + left. change (String c s = sub +:+ b) in H. rewrite H. apply HasPrefix_app.
    + right. apply IH. rewrite str_app_cons in H. simplify_eq. by exists a, b.
Qed.

Lemma Itoa_inj n m : Itoa n = Itoa m → n = m.
Proof. apply (inj pretty). Qed.

(** *** Errors *)

Lemma substring_prefix n s : ∃ rest, s = String.substring 0 n s +:+ rest.
Proof.
  revert s. induction n as [|n IH]; intros s; [by exists s; destruct s|].
  destruct s as [|a s]; [by exists ""|]. destruct (IH s) as [r Hr]. exists r.
  simpl. rewrite str_app_cons. by f_equal.
Qed.

Lemma substring_full s : String.substring 0 (String.length s) s = s.
Proof. induction s as [|a s IH]; [done|]. simpl. by rewrite IH. Qed.

Lemma errors_Is_unset e p x : errors_As_unset e = false → errors_Is e (ErrUnset p x) = false.
Proof.
  unfold errors_As_unset, errors_Is. induction (error_chain e) as [|c l IH]; simpl; [done|].
  intros [Hc Hl]%orb_false_iff. rewrite IH by done. by destruct c.
Qed.

(** *** Integers *)

Lemma to_uint16_range x : (0 ≤ to_uint16 x < 2 ^ 16)%Z.
Proof. apply Z.mod_pos_bound. lia. Qed.

Lemma to_uint16_id x : (0 ≤ x < 2 ^ 16)%Z → to_uint16 x = x.
Proof. apply Z.mod_small. Qed.

Lemma to_int32_id x : (- 2 ^ 31 ≤ x < 2 ^ 31)%Z → to_int32 x = x.
Proof. intros H. unfold to_int32. rewrite Z.mod_small; lia. Qed.

(** *** Map iteration *)

Section range.
Context `{RangeOrder} {V : Type}.
Implicit Types m : gmap string V.

Lemma elem_of_range m k v : (k, v) ∈ range m ↔ m !! k = Some v.
Proof. rewrite range_perm. apply elem_of_map_to_list. Qed.

Lemma NoDup_range_keys m : NoDup (range m).*1.
Proof. rewrite range_perm. apply NoDup_fst_map_to_list. Qed.

Lemma range_keys_elem m k : k ∈ (range m).*1 ↔ is_Some (m !! k).
Proof.
  rewrite list_elem_of_fmap. split.
  - intros ([k' v] & -> & Hin). apply elem_of_range in Hin. eauto.
  - intros [v Hv]. exists (k, v). split; [done|]. by apply elem_of_range.
Qed.

Lemma length_range m : length (range m) = size m.
Proof. by rewrite range_perm, length_map_to_list. Qed.

Lemma map_size_insert_le k v m : (size (<[k := v]> m) ≤ S (size m))%nat.
Proof. rewrite map_size_insert. destruct (m !! k); simpl; lia. Qed.

Lemma map_size_delete_le k m : (size (delete k m) ≤ size m)%nat.
Proof. rewrite map_size_delete. destruct (m !! k); simpl; lia. Qed.

(** Inserting the entries of a map one by one, transformed, overrides with its image. *)
Lemma range_insert_union {W} (f : V → W) m (acc : gmap string W) :
  foldl (λ acc '(k, v), <[k := f v]> acc) acc (range m) = (f <$> m) ∪ acc.
Proof.
  assert (∀ l (acc : gmap string W), NoDup l.*1 →
    foldl (λ acc '(k, v), <[k := f v]> acc) acc l = (f <$> list_to_map l) ∪ acc) as Hgen.
  { clear acc. induction l as [|[k v] l IH]; intros acc Hnd; simpl.
    { by rewrite fmap_empty, (left_id_L ∅ (∪)). }
    apply NoDup_cons in Hnd as [Hk Hnd]. rewrite IH, fmap_insert by done.
    rewrite <-insert_union_l. symmetry. apply insert_union_r.
    by rewrite lookup_fmap, not_elem_of_list_to_map_1 by done. }
  rewrite Hgen by apply NoDup_range_keys. do 2 f_equal.
  transitivity (list_to_map (map_to_list m) : gmap string V).
  - apply list_to_map_proper; [apply NoDup_range_keys|apply range_perm].
  - apply list_to_map_to_list.
Qed.

(** Inserting them into an empty map copies it. *)
Lemma range_insert_all m :
  foldl (λ acc '(k, v), <[k := v]> acc) ∅ (range m) = m.
Proof. by rewrite (range_insert_union id), map_fmap_id, (right_id_L ∅ (∪)). Qed.
End range.

(** ** The part of a key space under a prefix *)

(** The entries whose key has prefix [p], under the rest of the key. *)
Definition sub_map {V} (p : string) (m : gmap string V) : gmap string V :=
  list_to_map ((λ '(k, v), (TrimPrefix k p, v)) <$>
                 filter (λ kv, HasPrefix kv.1 p = true) (map_to_list m)).

Section sub_map.
Context {V : Type}.
Implicit Types m : gmap string V.

Lemma sub_map_lookup p m k : sub_map p m !! k = m !! (p +:+ k).
Proof.
  unfold sub_map. set (l := filter _ (map_to_list m)).
  assert (∀ kv, kv ∈ l ↔ m !! kv.1 = Some kv.2 ∧ HasPrefix kv.1 p = true) as Hl.
  { intros [k' v']. unfold l. rewrite list_elem_of_filter, elem_of_map_to_list. naive_solver. }
  assert (NoDup ((λ '(k, v), (TrimPrefix k p, v)) <$> l).*1) as Hnd.
  { assert (((λ '(k, v), (TrimPrefix k p, v)) <$> l).*1 =
      (λ k, TrimPrefix k p) <$> l.*1) as ->.
    { rewrite <-!list_fmap_compose. apply list_fmap_ext. by intros ? [] ?. }
    apply NoDup_fmap_2_strong.
    - intros x y ([? ?] & -> & Hx%Hl)%list_elem_of_fmap ([? ?] & -> & Hy%Hl)%list_elem_of_fmap.
      simpl in *. destruct Hx as [_ [rx ->]%HasPrefix_inv], Hy as [_ [ry ->]%HasPrefix_inv].
      rewrite !TrimPrefix_app. by intros ->.
    - apply NoDup_fmap_fst.
      + intros x a b Ha%Hl Hb%Hl. simpl in *. destruct Ha, Hb. congruence.
      + apply NoDup_filter, NoDup_map_to_list. }
  apply option_eq. intros v. rewrite <-elem_of_list_to_map by done.
  rewrite list_elem_of_fmap. split.
  - intros ([k' v'] & [= -> ->] & [Hk Hp]%Hl). simpl in *.
    apply HasPrefix_inv in Hp as [r ->]. by rewrite TrimPrefix_app.
  - intros Hv. exists (p +:+ k, v). rewrite TrimPrefix_app.
    split; [done|]. apply Hl. simpl. by rewrite HasPrefix_app.
Qed.

Lemma sub_map_insert p m k v : sub_map p (<[p +:+ k := v]> m) = <[k := v]> (sub_map p m).
Proof.
  apply map_eq. intros i. rewrite sub_map_lookup. destruct (decide (i = k)) as [->|Hne].
  - by rewrite !lookup_insert_eq.
  - rewrite !lookup_insert_ne; [by rewrite sub_map_lookup|done|].
    by intros ?%str_app_inj.
Qed.

Lemma sub_map_delete p m k : sub_map p (delete (p +:+ k) m) = delete k (sub_map p m).
Proof.
  apply map_eq. intros i. rewrite sub_map_lookup. destruct (decide (i = k)) as [->|Hne].
  - by rewrite !lookup_delete_eq.
  - rewrite !lookup_delete_ne; [by rewrite sub_map_lookup|done|].
    by intros ?%str_app_inj.
Qed.

(** A write under another prefix is not seen. *)
Lemma sub_map_insert_other p m k v : HasPrefix k p = false →
  sub_map p (<[k := v]> m) = sub_map p m.
Proof.
  intros Hk. apply map_eq. intros i. rewrite !sub_map_lookup. apply lookup_insert_ne.
  intros ->. by rewrite HasPrefix_app in Hk.
Qed.
End sub_map.

#[export] Hint Resolve HasPrefix_app : go.
#[export] Hint Rewrite HasPrefix_app TrimPrefix_app @HasPrefix_app_l : go_string.
