(* ===== verification/Flags.v ===== *)
(** The command lines of the processes: the standard library's package flag with
    [flag.ExitOnError], for flags of type bool and string. [values] holds what was set, a
    bool as "true" or "false"; parsing ends at the first argument that is no flag. *)
From S2P Require Import Prelude.

Inductive flag_kind : Type := BoolFlag | StringFlag.

(** What [Parse] does: it sets the values and leaves the other arguments, or exits. *)
Inductive parsed : Type :=
  | Flags (values : gmap string string) (args : list string)
  | FlagExit (code : Z).

Definition is_minus (a : Ascii.ascii) : bool := bool_decide (Ascii.nat_of_ascii a = 45%nat).
Definition is_equals (a : Ascii.ascii) : bool := bool_decide (Ascii.nat_of_ascii a = 61%nat).

(** A name with the value after its first equals sign, if it has one. *)
Fixpoint cut_equals (s : string) : string * option string :=
  match s with
  | EmptyString => (EmptyString, None)
  | String a t => if is_equals a then (EmptyString, Some t)
                  else let (n, v) := cut_equals t in (String a n, v)
  end.

Inductive argument : Type :=
  | NoFlag
  | Terminator
  | BadSyntax
  | Named (name : string) (value : option string).

Definition named (name : string) : argument :=
  match name with
  | EmptyString => BadSyntax
  | String c _ => if is_minus c || is_equals c then BadSyntax
                  else let (n, v) := cut_equals name in Named n v
  end.

Definition argument_of (s : string) : argument :=
  match s with
  | String a (String b t) =>
      if negb (is_minus a) then NoFlag
      else if is_minus b then if decide (t = EmptyString) then Terminator else named t
      else named (String b t)
  | _ => NoFlag
  end.

(** [strconv.ParseBool]. *)
Definition ParseBool (s : string) : option bool :=
  if decide (s ∈ ["1"; "t"; "T"; "true"; "TRUE"; "True"]) then Some true
  else if decide (s ∈ ["0"; "f"; "F"; "false"; "FALSE"; "False"]) then Some false
  else None.
Definition FormatBool (b : bool) : string := if b then "true" else "false".

(** [flag.Parse] on the arguments after the program's name. *)
Fixpoint flag_Parse (formal : gmap string flag_kind) (values : gmap string string) (args : list string) : parsed :=
  match args with
  | [] => Flags values []
  | s :: args' =>
      match argument_of s with
      | NoFlag => Flags values args
      | Terminator => Flags values args'
      | BadSyntax => FlagExit 2
      | Named name value =>
          match formal !! name, value with
          | None, _ => if decide (name = "help" ∨ name = "h") then FlagExit 0 else FlagExit 2
          | Some BoolFlag, None => flag_Parse formal (<[name := "true"]> values) args'
          | Some BoolFlag, Some v =>
              match ParseBool v with
              | Some b => flag_Parse formal (<[name := FormatBool b]> values) args'
              | None => FlagExit 2
              end
          | Some StringFlag, Some v => flag_Parse formal (<[name := v]> values) args'
          | Some StringFlag, None =>
              match args' with
              | v :: args'' => flag_Parse formal (<[name := v]> values) args''
              | [] => FlagExit 2
              end
          end
      end
  end.

(** The value of a bool flag whose default is false. *)
Definition flag_on (values : gmap string string) (name : string) : bool :=
  bool_decide (values !! name = Some "true").

(** ** Lemmas *)

Section parse.
Variable formal : gmap string flag_kind.

(** One step of the loop: the parsing ends, or goes on with fewer arguments and one more
    value, whose flag is defined. *)
Inductive flag_step (values : gmap string string) (args : list string) : parsed → Prop :=
  | flag_end rest : rest `suffix_of` args → flag_step values args (Flags values rest)
  | flag_exit code : flag_step values args (FlagExit code)
  | flag_next s args1 args2 name v value : args = s :: args1 → args2 `suffix_of` args1 →
      argument_of s = Named name v → is_Some (formal !! name) →
      flag_step values args (flag_Parse formal (<[name := value]> values) args2).

Lemma flag_Parse_step values args : flag_step values args (flag_Parse formal values args).
Proof.
  destruct args as [|s args]; simpl; [by constructor|].
  destruct (argument_of s) as [| | |name v] eqn:Es; [by constructor|constructor; by exists [s]|by constructor|].
  destruct (formal !! name) as [[]|] eqn:Ef; [|destruct v|case_decide; constructor].
  - destruct v as [v|]; [destruct (ParseBool v); [|constructor]|]; by eapply flag_next.
  - by eapply flag_next.
  - destruct args as [|v args]; [constructor|]. eapply flag_next; [done| |done|done]. by exists [v].
Qed.

(** What is left is the end of the command line, and only defined flags are set. *)
Lemma flag_Parse_result args : ∀ values values' rest, flag_Parse formal values args = Flags values' rest →
  rest `suffix_of` args ∧ dom values' ⊆ dom values ∪ dom formal.
Proof.
  remember (length args) as n eqn:Hn. revert args Hn. induction n as [n IH] using lt_wf_ind.
  intros args -> values values' rest E. pose proof (flag_Parse_step values args) as Hs. rewrite E in Hs.
  inversion Hs as [? Hr| |s args1 args2 name v value -> Hsuf Ha Hf Hp]; simplify_eq; [split; [done|set_solver]|].
  destruct (IH (length args2)) with (args := args2) (values := <[name := value]> values) (values' := values') (rest := rest)
    as [Hr Hd]; [apply suffix_length in Hsuf; simpl; lia|done|done|].
  split.
  - etrans; [exact Hr|]. etrans; [exact Hsuf|]. by exists [s].
  - apply elem_of_dom in Hf. set_solver.
Qed.

(** A flag is only set by a command line that begins with one. *)
Lemma flag_Parse_first args values rest : flag_Parse formal ∅ args = Flags values rest → values ≠ ∅ →
  ∃ s args' name v, args = s :: args' ∧ argument_of s = Named name v ∧ rest `suffix_of` args'.
Proof.
  intros E Hv. pose proof (flag_Parse_step ∅ args) as Hs. rewrite E in Hs.
  inversion Hs as [| |s args1 args2 name v value -> Hsuf Ha Hf Hp]; simplify_eq.
  exists s, args1, name, v. split_and!; [done..|].
  destruct (flag_Parse_result args2 _ _ _ Hp) as [Hr _]. by etrans.
Qed.
End parse.

(** *** Writing flags *)

(** A name that can be written on a command line. *)
Fixpoint no_equals (s : string) : bool :=
  match s with EmptyString => true | String a t => negb (is_equals a) && no_equals t end.
Definition flag_name (s : string) : bool :=
  match s with EmptyString => false | String a _ => negb (is_minus a) && no_equals s end.

Definition write_flag (f : string * string) : string := "-" +:+ f.1 +:+ "=" +:+ f.2.

Lemma cut_equals_write n v : no_equals n = true → cut_equals (n +:+ "=" +:+ v) = (n, Some v).
Proof.
  induction n as [|a n IH]; [done|]. simpl. intros [Ha Hn]%andb_true_iff.
  apply negb_true_iff in Ha. rewrite Ha. by rewrite IH.
Qed.

Lemma argument_of_write f : flag_name f.1 = true → argument_of (write_flag f) = Named f.1 (Some f.2).
Proof.
  destruct f as [n v]. simpl. destruct n as [|a n]; [done|]. intros [Ha Hn]%andb_true_iff.
  pose proof (cut_equals_write (String a n) v Hn) as Hc. apply negb_true_iff in Ha.
  simpl in Hn. apply andb_true_iff in Hn as [He _]. apply negb_true_iff in He.
  simpl in Hc. rewrite He in Hc. unfold write_flag, argument_of. simpl. rewrite Ha, He. simpl. by destruct (cut_equals _); simplify_eq.
Qed.

(** ** Theorems *)

(** Parsing a command line that was written from string flags, followed by an argument that
    is none, gives the flags, the last one of a name winning, and the other arguments. *)
Theorem flag_Parse_reads_back formal flags args :
  Forall (λ f, flag_name f.1 = true ∧ formal !! f.1 = Some StringFlag) flags →
  match args with [] => True | s :: _ => argument_of s = NoFlag end →
  flag_Parse formal ∅ ((write_flag <$> flags) ++ args) = Flags (list_to_map (reverse flags)) args.
Proof.
  intros Hf Ha. assert (∀ values, flag_Parse formal values ((write_flag <$> flags) ++ args) =
    Flags (list_to_map (reverse flags) ∪ values) args) as Hgen; [|by rewrite Hgen, map_union_empty].
  induction Hf as [|f flags [Hn Hk] Hf IH]; intros values.
  - rewrite reverse_nil. simpl. rewrite map_empty_union. destruct args as [|s args]; [done|]. simpl. by rewrite Ha.
  - rewrite fmap_cons. cbn [app flag_Parse]. rewrite (argument_of_write f Hn), Hk, IH. f_equal.
    rewrite reverse_cons, list_to_map_app. simpl. rewrite <-map_union_assoc. f_equal.
    destruct f as [n v]. simpl. by rewrite insert_empty, <-insert_union_singleton_l.
Qed.
