(* ===== verification/Config.v ===== *)
(** internal/config: the constants and the records the components exchange, and the
    JSON codec (encoding/json, a parameter) of the values kept in the store.

    A Go [[]byte] and a Go [string] are both a [string] here; handles of objects of
    other packages (an ssh channel, a terminal size queue) are numbers. *)
From S2P Require Import Prelude.

(** ** global.go *)

Definition Version : string := "0.0.1".
Definition DefaultIP : string := "0.0.0.0".
Definition PublicAPIport : string := "9000".
Definition GradeAPIport : Z := 9027.

(** Durations are in nanoseconds. *)
Definition second : Z := 1000000000.
Definition DefaultTimeout : Z := 2 * 60 * second.
Definition CleanUpTimeout : Z := 10 * second.
Definition AuthenticatedUserID : string := "authenticated-uuid".
Definition AuthenticationType : string := "authType".
Definition AuthenticatedPrivKey : string := "privateKey".
Definition UserContainerImage : string := "ghcr.io/benschlueter/delegatio/archimage:0.1".
Definition SSHContainerImage : string := "ghcr.io/benschlueter/delegatio/ssh:0.1".
Definition GradingContainerImage : string := "ghcr.io/benschlueter/delegatio/grader:0.1".
Definition UserNamespace : string := "users".
Definition NodeNameEnvVariable : string := "NODE_NAME".
Definition AgentPort : Z := 9000.
Definition SSHServiceAccountName : string := "development-ssh".
Definition SSHPort : Z := 2200.
Definition SSHNamespaceName : string := "ssh".
Definition GraderNamespaceName : string := "grader".
Definition GraderServiceAccountName : string := "development-grader".
Definition NameSpaceFilePath : string := "/var/run/secrets/kubernetes.io/serviceaccount/namespace".

(** ** types.go *)

Record ClusterConfig : Type := MkClusterConfig { NumberOfWorkers : Z; NumberOfMasters : Z }.

Definition ClusterConfiguration : ClusterConfig := MkClusterConfig 2 1.

Record UserInformation : Type := MkUser {
  Username : string;
  RealName : string;
  Email : string;
  LegiNumber : string;
  Uuid : string;
  Gender : string;
  PrivKey : string;
  PubKey : string;
  Points : gmap string Z
}.

Record ContainerInformation : Type := MkContainer { ContainerName : string }.

Record UserConfiguration : Type := MkUserConfiguration {
  UUIDToUser : gmap string UserInformation;
  PubKeyToUser : gmap string UserInformation;
  Containers : gmap string ContainerInformation
}.

Record KubeExecConfig : Type := MkExecConfig {
  ex_Namespace : string;
  ex_UserIdentifier : string;
  ex_Command : string;
  ex_Communication : positive;
  ex_WinQueue : option positive;
  ex_Tty : bool
}.

Record KubeFileWriteConfig : Type := MkFileWriteConfig {
  fw_UserIdentifier : string;
  fw_Namespace : string;
  fw_FileName : string;
  fw_FilePath : string;
  fw_FileData : string
}.

Record KubeForwardConfig : Type := MkForwardConfig {
  pf_Namespace : string;
  pf_PodName : string;
  pf_Port : string;
  pf_Communication : positive
}.

Record KubeRessourceIdentifier : Type := MkIdentifier {
  ri_UserIdentifier : string;
  ri_Namespace : string;
  ri_ContainerIdentifier : string;
  ri_NodeName : string;
  ri_StorageClass : string
}.

(** [nil] byte slices are [None]: a store is created with TLS only when all three
    are present. *)
Record EtcdCredentials : Type := MkEtcdCredentials {
  PeerCertData : option string;
  KeyData : option string;
  CaCertData : option string
}.

Record NodeInformation : Type := MkNodeInformation {
  Masters : gmap string string;
  Workers : gmap string string
}.

#[export] Instance UserInformation_eq_dec : EqDecision UserInformation.
Proof. solve_decision. Defined.
#[export] Instance ContainerInformation_eq_dec : EqDecision ContainerInformation.
Proof. solve_decision. Defined.
#[export] Instance EtcdCredentials_eq_dec : EqDecision EtcdCredentials.
Proof. solve_decision. Defined.

(** [var userData config.UserInformation]. *)
Definition zero_user : UserInformation := MkUser "" "" "" "" "" "" "" "" ∅.

(** ** encoding/json *)

(** [json.Marshal] of a value, and [json.Unmarshal] into a zero-valued target. *)
Class Json (A : Type) : Type := {
  json_Marshal : A → error + string;
  json_Unmarshal : string → error + A
}.

(** Its documentation promises a round trip for the values [json_ok] (the strings of
    which are valid UTF-8); a decoding error is an error of that package. *)
Class JsonLaws (A : Type) `{Json A} : Type := {
  json_ok : A → Prop;
  json_round_trip a : json_ok a →
    ∃ s, json_Marshal a = inr s ∧ json_Unmarshal s = inr a
}.

(** [GetExampleConfig]; [WriteFile] writes [config.json] and its error, like that of
    the encoder, panics. *)
Definition GetExampleConfig {S} `{Json UserConfiguration}
    (WriteFile : string → string → M S ()) : M S UserConfiguration :=
  let globalConfig := MkUserConfiguration ∅ ∅ {["testchallenge1" := MkContainer ""]} in
  match json_Marshal globalConfig with
  | inl _ => panic
  | inr out =>
      r ← attempt (WriteFile "config.json" out);
      match r with inl _ => panic | inr _ => mret globalConfig end
  end.

(** ** commit.go *)

(** The settings of [debug.ReadBuildInfo], when there are any. *)
Definition Commit (info : option (list (string * string))) : string :=
  match info with
  | None => ""
  | Some settings =>
      match List.find (λ kv, bool_decide (kv.1 = "vcs.revision")) settings with
      | Some (_, v) => v
      | None => ""
      end
  end.

(** ** Codecs to evaluate on *)

(** Values with a single string, coded as that string. *)
Definition uuid_json : Json UserInformation := {|
  json_Marshal u := inr (Uuid u);
  json_Unmarshal s := inr (MkUser "" "" "" "" s "" "" "" ∅)
|}.

Program Definition uuid_json_laws : @JsonLaws UserInformation uuid_json := {|
  json_ok u := u = MkUser "" "" "" "" (Uuid u) "" "" "" ∅
|}.
Next Obligation. intros u Hu. exists (Uuid u). split; [done|]. simpl. by rewrite <-Hu. Qed.

Definition name_json : Json ContainerInformation := {|
  json_Marshal c := inr (ContainerName c);
  json_Unmarshal s := inr (MkContainer s)
|}.

Program Definition name_json_laws : @JsonLaws ContainerInformation name_json := {|
  json_ok _ := True
|}.
Next Obligation. intros [n] _. by exists n. Qed.
