(* ===== verification/StoreApi.v ===== *)
(** The interfaces of internal/store/store.go: iterators (the two concrete
    iterator types share their code), the operations a store offers to its
    clients ([KVStore]) and what it promises about them ([KVStoreLaws]).  The
    client code (StoreWrapper, Server) is verified against [KVStoreLaws];
    StdStore and EtcdStore discharge it. *)
From S2P Require Import Prelude.

(** ** Iterators *)

(** [StdIterator] of stdstore.go: a position in a list of keys. *)
Record StdIterator : Type := MkStdIterator { idx : nat; keys : list string }.

(** [EtcdIterator] of etcdstore.go has the same fields and the same methods. *)
Definition EtcdIterator : Type := StdIterator.

(** [HasNext]. *)
Definition HasNext (i : StdIterator) : bool := bool_decide (idx i < length (keys i))%nat.

(** [GetNext]. *)
Definition GetNext : M StdIterator string := λ i,
  if decide (length (keys i) ≤ idx i)%nat then
    (Fail (ErrNew ("index out of range [" +:+ Itoa (Z.of_nat (idx i)) +:+ "] with length "
                     +:+ Itoa (Z.of_nat (length (keys i))))), i)
  else match keys i !! idx i with
       | Some val => (Ret val, MkStdIterator (S (idx i)) (keys i))
       | None => (Panic, i)
       end.

Definition EtcdIterator_HasNext : EtcdIterator → bool := HasNext.
Definition EtcdIterator_GetNext : M EtcdIterator string := GetNext.

(** The client loop [for it.HasNext() { key, err := it.GetNext(); if err != nil
    { return err }; body }], which threads the variables [acc]; [fuel] bounds the
    iterations, and running out of it shows as [Blocked]. *)
Fixpoint iter_loop {S B} (fuel : nat) (it : StdIterator)
    (body : string → B → M S B) (acc : B) : M S B :=
  match fuel with
  | O => block
  | S fuel' =>
      if HasNext it then
        match GetNext it with
        | (Ret key, it') => acc' ← body key acc; iter_loop fuel' it' body acc'
        | (Fail e, _) => fail e
        | (Panic, _) => panic
        | (Blocked, _) => block
        end
      else mret acc
  end.

(** Enough fuel for every iterator: one more than its keys. *)
Definition iterate {S B} (it : StdIterator) (body : string → B → M S B) (acc : B) : M S B :=
  iter_loop (1 + length (keys it)) it body acc.

(** ** The store interface *)

(** The methods of [store.Store] its clients use; [kv_new] is the allocation of
    a Go object by the client, whose address is new. *)
Class KVStore (S : Type) : Type := {
  kv_Get : string → M S string;
  kv_Put : string → string → M S ();
  kv_Delete : string → M S ();
  kv_Iterator : string → M S StdIterator;
  kv_new : M S positive
}.

(** An outcome caused by the backend (an unreachable etcd), never one that says
    that a value is unset. *)
Definition fault {A} (r : res A) : Prop :=
  r = Panic ∨ ∃ e, r = Fail e ∧ errors_As_unset e = false.

(** What a store promises: [kv_view] is its content, [kv_up] says that the
    backend answers.  A call on a reachable backend does what the name says; a
    call on an unreachable one may fail, and then a write may or may not have
    been applied. *)
Class KVStoreLaws (S : Type) `{KVStore S} : Type := {
  kv_inv : S → Prop;
  kv_up : S → Prop;
  kv_view : S → gmap string string;

  kv_Get_law s k r s' : kv_inv s → kv_Get k s = (r, s') →
    kv_inv s' ∧ (kv_up s → kv_up s') ∧ kv_view s' = kv_view s ∧
    (match kv_view s !! k with
     | Some v => r = Ret v
     | None => ∃ p, r = Fail (ErrUnset p k)
     end ∨ (¬ kv_up s ∧ fault r));

  kv_Put_law s k v r s' : kv_inv s → kv_Put k v s = (r, s') →
    kv_inv s' ∧ (kv_up s → kv_up s') ∧
    ((r = Ret () ∧ kv_view s' = <[k := v]> (kv_view s)) ∨
     (¬ kv_up s ∧ fault r ∧
      (kv_view s' = kv_view s ∨ kv_view s' = <[k := v]> (kv_view s))));

  kv_Delete_law s k r s' : kv_inv s → kv_Delete k s = (r, s') →
    kv_inv s' ∧ (kv_up s → kv_up s') ∧
    ((r = Ret () ∧ kv_view s' = delete k (kv_view s)) ∨
     (¬ kv_up s ∧ fault r ∧
      (kv_view s' = kv_view s ∨ kv_view s' = delete k (kv_view s))));

  kv_Iterator_law s p r s' : kv_inv s → kv_Iterator p s = (r, s') →
    kv_inv s' ∧ (kv_up s → kv_up s') ∧ kv_view s' = kv_view s ∧
    ((∃ ks, r = Ret (MkStdIterator 0 ks) ∧ NoDup ks ∧
        ∀ k, k ∈ ks ↔ is_Some (kv_view s !! k) ∧ HasPrefix k p = true) ∨
     (¬ kv_up s ∧ fault r));

  kv_new_law s : kv_inv s → ∃ p s', kv_new s = (Ret p, s') ∧
    kv_inv s' ∧ (kv_up s → kv_up s') ∧ kv_view s' = kv_view s;

  (** An address allocated after an error was returned is not in that error. *)
  kv_new_fresh s k e s' p s'' x : kv_inv s → kv_Get k s = (Fail e, s') →
    kv_new s' = (Ret p, s'') → errors_Is e (ErrUnset p x) = false
}.

(** ** Lemmas *)

Lemma HasNext_lt i : HasNext i = true ↔ (idx i < length (keys i))%nat.
Proof. unfold HasNext. by rewrite bool_decide_eq_true. Qed.

Lemma GetNext_Ret i k :
  keys i !! idx i = Some k → GetNext i = (Ret k, MkStdIterator (S (idx i)) (keys i)).
Proof.
  intros Hk. pose proof (lookup_lt_Some _ _ _ Hk) as Hlt.
  unfold GetNext. rewrite decide_False by lia. by rewrite Hk.
Qed.

Lemma GetNext_exhausted i :
  (length (keys i) ≤ idx i)%nat → ∃ e, GetNext i = (Fail e, i).
Proof. intros H. unfold GetNext. rewrite decide_True by done. eauto. Qed.

(** The client loop visits the remaining keys, in order, and stops. *)
Lemma iter_loop_fold {S B} fuel it (body : string → B → M S B) acc s :
  (length (keys it) - idx it < fuel)%nat →
  iter_loop fuel it body acc s = fold_m body (drop (idx it) (keys it)) acc s.
Proof.
  revert it acc s; induction fuel as [|fuel IH]; intros it acc s Hf; [lia|]. simpl.
  destruct (HasNext it) eqn:Hn.
  - apply HasNext_lt in Hn. destruct (lookup_lt_is_Some_2 _ _ Hn) as [k Hk].
    rewrite (GetNext_Ret _ _ Hk), (drop_S _ _ _ Hk). simpl.
    unfold mbind, M_bind. destruct (body k acc s) as [[b| | |] s']; [|done..].
    rewrite IH; simpl; [done|lia].
  - rewrite drop_ge; [done|]. destruct (decide (idx it < length (keys it))%nat) as [Hlt|]; [|lia].
    apply HasNext_lt in Hlt. congruence.
Qed.

Lemma iterate_fold {S B} ks (body : string → B → M S B) acc s :
  iterate (MkStdIterator 0 ks) body acc s = fold_m body ks acc s.
Proof. unfold iterate. rewrite iter_loop_fold; simpl; [done|lia]. Qed.

(** What the laws give on a reachable backend. *)
Section up.
Context {S : Type} `{KVStoreLaws S}.

Lemma kv_Get_up s k : kv_inv s → kv_up s →
  ∃ s', kv_inv s' ∧ kv_up s' ∧ kv_view s' = kv_view s ∧
    match kv_view s !! k with
    | Some v => kv_Get k s = (Ret v, s')
    | None => ∃ p, kv_Get k s = (Fail (ErrUnset p k), s')
    end.
Proof.
  intros Hi Hu. destruct (kv_Get k s) as [r s'] eqn:E.
  destruct (kv_Get_law _ _ _ _ Hi E) as (?&?&?&[Hr|[]]); [|done].
  exists s'. repeat split; auto. destruct (kv_view s !! k); naive_solver.
Qed.

Lemma kv_Put_up s k v : kv_inv s → kv_up s →
  ∃ s', kv_Put k v s = (Ret (), s') ∧ kv_inv s' ∧ kv_up s' ∧
    kv_view s' = <[k := v]> (kv_view s).
Proof.
  intros Hi Hu. destruct (kv_Put k v s) as [r s'] eqn:E.
  destruct (kv_Put_law _ _ _ _ _ Hi E) as (?&?&[[-> ?]|[]]); [|done]. eauto 10.
Qed.

Lemma kv_Delete_up s k : kv_inv s → kv_up s →
  ∃ s', kv_Delete k s = (Ret (), s') ∧ kv_inv s' ∧ kv_up s' ∧
    kv_view s' = delete k (kv_view s).
Proof.
  intros Hi Hu. destruct (kv_Delete k s) as [r s'] eqn:E.
  destruct (kv_Delete_law _ _ _ _ Hi E) as (?&?&[[-> ?]|[]]); [|done]. eauto 10.
Qed.

Lemma kv_Iterator_up s p : kv_inv s → kv_up s →
  ∃ ks s', kv_Iterator p s = (Ret (MkStdIterator 0 ks), s') ∧ kv_inv s' ∧ kv_up s' ∧
    kv_view s' = kv_view s ∧ NoDup ks ∧
    ∀ k, k ∈ ks ↔ is_Some (kv_view s !! k) ∧ HasPrefix k p = true.
Proof.
  intros Hi Hu. destruct (kv_Iterator p s) as [r s'] eqn:E.
  destruct (kv_Iterator_law _ _ _ _ Hi E) as (?&?&?&[(ks&->&?&?)|[]]); [|done]. eauto 12.
Qed.
End up.
