(* ===== verification/StdStore.v ===== *)
(** internal/store/stdstore.go: the in-memory store.

    The two mutexes, the Go map objects and the transaction objects live in an
    explicit heap, so that the aliasing of [Commit] (the store adopts the map of
    the transaction) and a second [Rollback] behave as in Go.  A call that waits
    for a mutex nobody releases ends in [Blocked]; unlocking an unlocked mutex and
    dereferencing nil end in [Panic]. *)
From S2P Require Import Prelude StoreApi.

(** ** State *)

(** [stdTransaction]: whether [store] is non-nil (there is one store), and the
    address of the map [data]. *)
Record stdTransaction : Type := MkTx { tx_store : bool; tx_data : positive }.

(** [StdStore], with the Go heap it lives in: the map objects, the transaction
    objects and the next free address. *)
Record StdStore : Type := MkStdStore {
  heap : gmap positive (gmap string string);
  txs : gmap positive stdTransaction;
  next : positive;
  data : positive;
  mut : bool;
  txmut : bool
}.

Definition set_heap h s := MkStdStore h (txs s) (next s) (data s) (mut s) (txmut s).
Definition set_txs t s := MkStdStore (heap s) t (next s) (data s) (mut s) (txmut s).
Definition set_next n s := MkStdStore (heap s) (txs s) n (data s) (mut s) (txmut s).
Definition set_data d s := MkStdStore (heap s) (txs s) (next s) d (mut s) (txmut s).
Definition set_mut b s := MkStdStore (heap s) (txs s) (next s) (data s) b (txmut s).
Definition set_txmut b s := MkStdStore (heap s) (txs s) (next s) (data s) (mut s) b.

(** Reading a nil map yields no entries, writing to one panics. *)
Definition map_at (d : positive) (s : StdStore) : gmap string string :=
  default ∅ (heap s !! d).
Definition map_write (d : positive) (f : gmap string string → gmap string string)
    : M StdStore () := λ s,
  match heap s !! d with
  | Some m => (Ret (), set_heap (<[d := f m]> (heap s)) s)
  | None => (Panic, s)
  end.

(** ** Memory and locks *)

Definition new_ptr : M StdStore positive := λ s, (Ret (next s), set_next (Pos.succ (next s)) s).
Definition new_map : M StdStore positive :=
  d ← new_ptr; modify (λ s, set_heap (<[d := ∅]> (heap s)) s);; mret d.
Definition new_tx (tx : stdTransaction) : M StdStore positive :=
  t ← new_ptr; modify (λ s, set_txs (<[t := tx]> (txs s)) s);; mret t.

Definition mut_Lock : M StdStore () := λ s,
  if mut s then (Blocked, s) else (Ret (), set_mut true s).
Definition mut_Unlock : M StdStore () := λ s,
  if mut s then (Ret (), set_mut false s) else (Panic, s).
Definition txmut_Lock : M StdStore () := λ s,
  if txmut s then (Blocked, s) else (Ret (), set_txmut true s).
Definition txmut_Unlock : M StdStore () := λ s,
  if txmut s then (Ret (), set_txmut false s) else (Panic, s).

(** [NewStdStore]. *)
Definition NewStdStore : StdStore :=
  MkStdStore {[1%positive := ∅]} ∅ 2%positive 1%positive false false.

(** [value, ok := m[request]] followed by the construction of the result. *)
Definition lookup_result (m : gmap string string) (request : string) : M StdStore string :=
  match m !! request with
  | Some value => mret value
  | None => p ← new_ptr; fail (ErrUnset p request)
  end.

(** ** Transactions *)

Section operations.
Context `{RangeOrder}.

(** The keys a [range] loop collects: those with the prefix. *)
Definition collect_keys (m : gmap string string) (prefix : string) : list string :=
  filter (λ k, HasPrefix k prefix = true) (range m).*1.

Definition BeginTransaction : M StdStore positive :=
  d ← new_map;
  t ← new_tx (MkTx true d);
  txmut_Lock;;
  mut_Lock;;
  src ← gets (λ s, map_at (data s) s);
  for_each (range src) (λ '(k, v), map_write d (<[k := v]>));;
  mut_Unlock;;
  mret t.

(** The unexported [commit] method of the store. *)
Definition commit (d : positive) : M StdStore () :=
  mut_Lock;; modify (set_data d);; mut_Unlock;; txmut_Unlock.

(** A transaction pointer is dereferenced. *)
Definition tx_at (t : positive) : M StdStore stdTransaction := λ s,
  match txs s !! t with Some tx => (Ret tx, s) | None => (Panic, s) end.

Definition tx_Get (t : positive) (request : string) : M StdStore string :=
  tx ← tx_at t;
  m ← gets (map_at (tx_data tx));
  lookup_result m request.

Definition tx_Put (t : positive) (request requestData : string) : M StdStore () :=
  tx ← tx_at t; map_write (tx_data tx) (<[request := requestData]>).

(** [delete(t.data, key)] does nothing on a nil map. *)
Definition tx_Delete (t : positive) (key : string) : M StdStore () :=
  tx ← tx_at t;
  modify (λ s, set_heap (alter (delete key) (tx_data tx) (heap s)) s).

Definition tx_Iterator (t : positive) (prefix : string) : M StdStore StdIterator :=
  tx ← tx_at t;
  m ← gets (map_at (tx_data tx));
  mret (MkStdIterator 0 (collect_keys m prefix)).

(** [Commit]: [t.store.commit] on a nil store panics. *)
Definition tx_Commit (t : positive) : M StdStore () :=
  tx ← tx_at t;
  if tx_store tx then
    commit (tx_data tx);;
    modify (λ s, set_txs (<[t := MkTx false (tx_data tx)]> (txs s)) s)
  else panic.

Definition tx_Rollback (t : positive) : M StdStore () :=
  tx ← tx_at t;
  if tx_store tx then txmut_Unlock else mret ().

(** ** The store *)

Definition Get (request : string) : M StdStore string :=
  mut_Lock;;
  m ← gets (λ s, map_at (data s) s);
  mut_Unlock;;
  lookup_result m request.

Definition Put (request requestData : string) : M StdStore () :=
  tx ← BeginTransaction;
  defer (tx_Rollback tx) (tx_Put tx request requestData;; tx_Commit tx).

Definition Delete (key : string) : M StdStore () :=
  tx ← BeginTransaction;
  defer (tx_Rollback tx) (tx_Delete tx key;; tx_Commit tx).

Definition Iterator (prefix : string) : M StdStore StdIterator :=
  mut_Lock;;
  m ← gets (λ s, map_at (data s) s);
  mut_Unlock;;
  mret (MkStdIterator 0 (collect_keys m prefix)).

(** [Transfer]: the mutex is released on success only. *)
Definition Transfer {T} `{KVStore T} : M (StdStore * T) () :=
  let std {A} (m : M StdStore A) : M (StdStore * T) A := zoom fst (λ s w, (s, snd w)) m in
  let other {A} (m : M T A) : M (StdStore * T) A := zoom snd (λ t w, (fst w, t)) m in
  std mut_Lock;;
  m ← std (gets (λ s, map_at (data s) s));
  for_each (range m) (λ '(key, value), other (kv_Put key value));;
  std mut_Unlock.

#[export] Instance std_KVStore : KVStore StdStore := {
  kv_Get := Get;
  kv_Put := Put;
  kv_Delete := Delete;
  kv_Iterator := Iterator;
  kv_new := new_ptr
}.

(** ** Calls as data, and the abstract store *)

Inductive call : Type :=
  | CGet (k : string)
  | CPut (k v : string)
  | CDelete (k : string)
  | CIterator (p : string)
  | CBegin
  | CTxGet (t : positive) (k : string)
  | CTxPut (t : positive) (k v : string)
  | CTxDelete (t : positive) (k : string)
  | CTxIterator (t : positive) (p : string)
  | CCommit (t : positive)
  | CRollback (t : positive).

Inductive answer : Type :=
  | AUnit
  | AVal (v : string)
  | AUnset (k : string)
  | AKeys (ks : list string)
  | ATx (t : positive).

(** A lookup's answer, with the unset error as a value. *)
Definition get_answer (m : M StdStore string) : M StdStore answer :=
  r ← attempt m;
  match r with
  | inr v => mret (AVal v)
  | inl (ErrUnset _ k) => mret (AUnset k)
  | inl e => fail e
  end.

Definition do_call (c : call) : M StdStore answer :=
  match c with
  | CGet k => get_answer (Get k)
  | CPut k v => Put k v;; mret AUnit
  | CDelete k => Delete k;; mret AUnit
  | CIterator p => i ← Iterator p; mret (AKeys (keys i))
  | CBegin => t ← BeginTransaction; mret (ATx t)
  | CTxGet t k => get_answer (tx_Get t k)
  | CTxPut t k v => tx_Put t k v;; mret AUnit
  | CTxDelete t k => tx_Delete t k;; mret AUnit
  | CTxIterator t p => i ← tx_Iterator t p; mret (AKeys (keys i))
  | CCommit t => tx_Commit t;; mret AUnit
  | CRollback t => tx_Rollback t;; mret AUnit
  end.

(** The abstract store: the committed content, and the open transaction with its
    private content. *)
Record spec : Type := MkSpec {
  committed : gmap string string;
  active : option (positive * gmap string string)
}.

Definition lookup_answer (m : gmap string string) (k : string) : answer :=
  match m !! k with Some v => AVal v | None => AUnset k end.

(** [ks] lists the keys of [m] with prefix [p], each once, in any order. *)
Definition lists_keys (m : gmap string string) (p : string) (ks : list string) : Prop :=
  NoDup ks ∧ ∀ k, k ∈ ks ↔ is_Some (m !! k) ∧ HasPrefix k p = true.

Inductive spec_step : spec → call → answer → spec → Prop :=
  | spec_get a k : spec_step a (CGet k) (lookup_answer (committed a) k) a
  | spec_put m k v :
      spec_step (MkSpec m None) (CPut k v) AUnit (MkSpec (<[k := v]> m) None)
  | spec_delete m k :
      spec_step (MkSpec m None) (CDelete k) AUnit (MkSpec (delete k m) None)
  | spec_iterator a p ks :
      lists_keys (committed a) p ks → spec_step a (CIterator p) (AKeys ks) a
  | spec_begin m t : spec_step (MkSpec m None) CBegin (ATx t) (MkSpec m (Some (t, m)))
  | spec_txget m t w k :
      spec_step (MkSpec m (Some (t, w))) (CTxGet t k) (lookup_answer w k)
                (MkSpec m (Some (t, w)))
  | spec_txput m t w k v :
      spec_step (MkSpec m (Some (t, w))) (CTxPut t k v) AUnit
                (MkSpec m (Some (t, <[k := v]> w)))
  | spec_txdelete m t w k :
      spec_step (MkSpec m (Some (t, w))) (CTxDelete t k) AUnit
                (MkSpec m (Some (t, delete k w)))
  | spec_txiterator m t w p ks :
      lists_keys w p ks →
      spec_step (MkSpec m (Some (t, w))) (CTxIterator t p) (AKeys ks)
                (MkSpec m (Some (t, w)))
  | spec_commit m t w :
      spec_step (MkSpec m (Some (t, w))) (CCommit t) AUnit (MkSpec w None)
  | spec_rollback m t w :
      spec_step (MkSpec m (Some (t, w))) (CRollback t) AUnit (MkSpec m None).

(** A client uses a transaction only while it is open. *)
Definition allowed (a : spec) (c : call) : Prop :=
  match c with
  | CTxGet t _ | CTxPut t _ _ | CTxDelete t _ | CTxIterator t _ | CCommit t | CRollback t =>
      ∃ w, active a = Some (t, w)
  | _ => True
  end.

(** The calls that wait for the open transaction to end. *)
Definition waits (a : spec) (c : call) : Prop :=
  match c with
  | CPut _ _ | CDelete _ | CBegin => is_Some (active a)
  | _ => False
  end.

(** A sequence of completed calls, in the order in which they took effect. *)
Inductive std_run : StdStore → list (call * answer) → StdStore → Prop :=
  | std_run_nil s : std_run s [] s
  | std_run_cons s c r s' l s'' :
      do_call c s = (Ret r, s') → std_run s' l s'' → std_run s ((c, r) :: l) s''.

(** The runs of the abstract store. *)
Inductive spec_run : spec → list (call * answer) → spec → Prop :=
  | spec_run_nil a : spec_run a [] a
  | spec_run_cons a c r a' l a'' :
      spec_step a c r a' → spec_run a' l a'' → spec_run a ((c, r) :: l) a''.

(** The discipline along a sequence: it only looks at which transaction is open. *)
Fixpoint disciplined (a : option positive) (l : list (call * answer)) : Prop :=
  match l with
  | [] => True
  | (c, r) :: l' =>
      match c, r with
      | CTxGet t _, _ | CTxPut t _ _, _ | CTxDelete t _, _ | CTxIterator t _, _ =>
          a = Some t ∧ disciplined a l'
      | CCommit t, _ | CRollback t, _ => a = Some t ∧ disciplined None l'
      | CBegin, ATx t => disciplined (Some t) l'
      | _, _ => disciplined a l'
      end
  end.

End operations.

(** The invariant between calls: [mut] is free, the store's map exists, and
    nothing lives at or above [next]. *)
Record wf (s : StdStore) : Prop := {
  wf_mut : mut s = false;
  wf_data : is_Some (heap s !! data s);
  wf_heap p : (next s ≤ p)%positive → heap s !! p = None;
  wf_txs p : (next s ≤ p)%positive → txs s !! p = None
}.

(** The relation between the store and the abstract store. *)
Definition refines (s : StdStore) (a : spec) : Prop :=
  wf s ∧ map_at (data s) s = committed a ∧
  match active a with
  | None => txmut s = false
  | Some (t, w) =>
      txmut s = true ∧ ∃ d, txs s !! t = Some (MkTx true d) ∧ heap s !! d = Some w ∧ d ≠ data s
  end.

(** The state after [Put] or [Delete]: a transaction whose map the store adopted. *)
Definition after_write (f : gmap string string → gmap string string) (s : StdStore) : StdStore :=
  MkStdStore (<[next s := f (map_at (data s) s)]> (heap s))
             (<[Pos.succ (next s) := MkTx false (next s)]> (txs s))
             (Pos.succ (Pos.succ (next s))) (next s) false false.


(** ** The store promises what its clients rely on *)

(** Between calls and outside transactions: both mutexes are free. *)
Definition std_inv (s : StdStore) : Prop := wf s ∧ txmut s = false.

(** ** Lemmas on the operations *)

Lemma wf_init : wf NewStdStore.
Proof.
  split; simpl; [done|rewrite lookup_singleton_eq; eauto| |done].
  intros p Hp. apply lookup_singleton_ne. lia.
Qed.

Lemma wf_next_le s p : wf s → (next s ≤ p)%positive → wf (set_next p s).
Proof.
  intros [] Hp. split; simpl; [done..| |]; intros q Hq.
  - apply wf_heap0. lia.
  - apply wf_txs0. lia.
Qed.

Lemma map_at_Some d m s : heap s !! d = Some m → map_at d s = m.
Proof. intros H. unfold map_at. by rewrite H. Qed.

Lemma lookup_result_eq m k s :
  lookup_result m k s =
    match m !! k with
    | Some v => (Ret v, s)
    | None => (Fail (ErrUnset (next s) k), set_next (Pos.succ (next s)) s)
    end.
Proof. unfold lookup_result. by destruct (m !! k). Qed.

Lemma Get_eq k s : mut s = false → Get k s = lookup_result (map_at (data s) s) k s.
Proof.
  intros Hm. unfold Get, mut_Lock, mut_Unlock, gets, mbind, M_bind. rewrite Hm.
  destruct s; simpl in *; by subst.
Qed.

Lemma map_writes_eq `{RangeOrder} d (l : list (string * string)) m s :
  heap s !! d = Some m →
  for_each l (λ '(k, v), map_write d (<[k := v]>)) s =
    (Ret (), set_heap (<[d := foldl (λ acc '(k, v), <[k := v]> acc) m l]> (heap s)) s).
Proof.
  revert m s; induction l as [|[k v] l IH]; intros m s Hd; simpl.
  - rewrite insert_id by done. by destruct s.
  - erewrite bind_Ret; [|unfold map_write; by rewrite Hd].
    erewrite IH; [|simpl; apply lookup_insert_eq]. unfold set_heap. simpl.
    by rewrite insert_insert_eq.
Qed.

Section lemmas.
Context `{RangeOrder}.

Lemma BeginTransaction_blocked s : txmut s = true →
  ∃ s', BeginTransaction s = (Blocked, s').
Proof.
  intros Hx. unfold BeginTransaction, new_map, new_tx, new_ptr, modify, txmut_Lock,
    mbind, M_bind, mret, M_ret. simpl. rewrite Hx. eauto.
Qed.

(** The transaction gets a private copy of the committed map. *)
Lemma BeginTransaction_eq s : wf s → txmut s = false →
  BeginTransaction s =
    (Ret (Pos.succ (next s)),
     MkStdStore (<[next s := map_at (data s) s]> (heap s))
                (<[Pos.succ (next s) := MkTx true (next s)]> (txs s))
                (Pos.succ (Pos.succ (next s))) (data s) false true).
Proof.
  intros Hwf Hx. unfold BeginTransaction, new_map, new_tx, new_ptr, txmut_Lock, mut_Lock.
  unfold mbind at 1 2 3 4 5 6 7 8. unfold M_bind, modify, gets, mret, M_ret. simpl.
  rewrite Hx. simpl. rewrite (wf_mut _ Hwf). simpl.
  unfold mbind, M_bind. rewrite (map_writes_eq _ _ ∅); [|apply lookup_insert_eq].
  unfold mut_Unlock, mret, M_ret, set_heap, set_mut. simpl.
  rewrite insert_insert_eq.
  assert (data s ≠ next s) as Hne.
  { intros Heq. destruct (wf_data _ Hwf) as [m Hm].
    rewrite Heq, (wf_heap _ Hwf) in Hm by lia. done. }
  unfold map_at. simpl. rewrite lookup_insert_ne by done.
  by rewrite range_insert_all.
Qed.

Lemma tx_Put_eq t d m k v s : txs s !! t = Some (MkTx true d) → heap s !! d = Some m →
  tx_Put t k v s = (Ret (), set_heap (<[d := <[k := v]> m]> (heap s)) s).
Proof.
  intros Ht Hd. unfold tx_Put, tx_at, map_write, mbind, M_bind. rewrite Ht. simpl.
  by rewrite Hd.
Qed.

Lemma tx_Delete_eq t d m k s : txs s !! t = Some (MkTx true d) → heap s !! d = Some m →
  tx_Delete t k s = (Ret (), set_heap (<[d := delete k m]> (heap s)) s).
Proof.
  intros Ht Hd. unfold tx_Delete, tx_at, modify, mbind, M_bind. rewrite Ht. simpl.
  do 2 f_equal. apply map_eq. intros i. destruct (decide (i = d)) as [->|].
  - by rewrite lookup_alter_eq, lookup_insert_eq, Hd.
  - by rewrite lookup_alter_ne, lookup_insert_ne.
Qed.

Lemma tx_Commit_eq t d s :
  txs s !! t = Some (MkTx true d) → mut s = false → txmut s = true →
  tx_Commit t s =
    (Ret (), MkStdStore (heap s) (<[t := MkTx false d]> (txs s)) (next s) d false false).
Proof.
  intros Ht Hm Hx. unfold tx_Commit, tx_at, mbind, M_bind. rewrite Ht. simpl.
  unfold commit, mut_Lock, mut_Unlock, txmut_Unlock, modify, mbind, M_bind. rewrite Hm. simpl.
  by rewrite Hx.
Qed.

Lemma tx_Commit_done t d s : txs s !! t = Some (MkTx false d) →
  tx_Commit t s = (Panic, s) ∧ tx_Rollback t s = (Ret (), s).
Proof.
  intros Ht. unfold tx_Commit, tx_Rollback, tx_at, mbind, M_bind. by rewrite Ht.
Qed.

Lemma tx_Rollback_eq t d s : txs s !! t = Some (MkTx true d) → txmut s = true →
  tx_Rollback t s = (Ret (), set_txmut false s).
Proof.
  intros Ht Hx. unfold tx_Rollback, tx_at, txmut_Unlock, mbind, M_bind. rewrite Ht. simpl.
  by rewrite Hx.
Qed.

Lemma Put_eq k v s : wf s → txmut s = false →
  Put k v s = (Ret (), after_write (<[k := v]>) s).
Proof.
  intros Hwf Hx. unfold Put. erewrite bind_Ret by (by apply BeginTransaction_eq).
  unfold defer. erewrite bind_Ret by (eapply tx_Put_eq; simpl; apply lookup_insert_eq).
  rewrite (tx_Commit_eq _ (next s)) by (simpl; by rewrite ?lookup_insert_eq). simpl.
  rewrite !insert_insert_eq.
  by rewrite (proj2 (tx_Commit_done _ (next s) _ (lookup_insert_eq _ _ _))).
Qed.

Lemma Delete_eq k s : wf s → txmut s = false →
  Delete k s = (Ret (), after_write (delete k) s).
Proof.
  intros Hwf Hx. unfold Delete. erewrite bind_Ret by (by apply BeginTransaction_eq).
  unfold defer. erewrite bind_Ret by (eapply tx_Delete_eq; simpl; apply lookup_insert_eq).
  rewrite (tx_Commit_eq _ (next s)) by (simpl; by rewrite ?lookup_insert_eq). simpl.
  rewrite !insert_insert_eq.
  by rewrite (proj2 (tx_Commit_done _ (next s) _ (lookup_insert_eq _ _ _))).
Qed.

Lemma collect_keys_spec m p : lists_keys m p (collect_keys m p).
Proof.
  unfold collect_keys. split.
  - apply NoDup_filter, NoDup_range_keys.
  - intros k. rewrite list_elem_of_filter, range_keys_elem. tauto.
Qed.

Lemma get_answer_lookup m k s (op : M StdStore string) :
  op s = lookup_result m k s →
  get_answer op s =
    (Ret (lookup_answer m k),
     match m !! k with Some _ => s | None => set_next (Pos.succ (next s)) s end).
Proof.
  intros Hop. unfold get_answer, attempt, mbind, M_bind. rewrite Hop, lookup_result_eq.
  unfold lookup_answer. by destruct (m !! k).
Qed.

(** ** Preservation of the relation *)

Lemma refines_next s a : refines s a → refines (set_next (Pos.succ (next s)) s) a.
Proof. intros (Hwf & ?). split; [apply wf_next_le; [done|lia]|done]. Qed.

Lemma refines_lookup {A} (o : option A) s a : refines s a →
  refines (match o with Some _ => s | None => set_next (Pos.succ (next s)) s end) a.
Proof. destruct o; [done|apply refines_next]. Qed.

Lemma data_lt_next s : wf s → (data s < next s)%positive.
Proof.
  intros Hwf. destruct (wf_data _ Hwf) as [m Hm].
  destruct (decide (data s < next s)%positive); [done|].
  rewrite (wf_heap _ Hwf) in Hm; [done|lia].
Qed.

Lemma begin_refines s m : refines s (MkSpec m None) →
  ∃ t s', BeginTransaction s = (Ret t, s') ∧ refines s' (MkSpec m (Some (t, m))).
Proof.
  intros (Hwf & Hm & Hx). simpl in *.
  eexists _, _. split; [by apply BeginTransaction_eq|].
  pose proof (data_lt_next _ Hwf) as Hlt. destruct (wf_data _ Hwf) as [m' Hm'].
  split; [split; simpl|split; simpl].
  - done.
  - rewrite lookup_insert_ne by lia. eauto.
  - intros p Hp. rewrite lookup_insert_ne by lia. apply (wf_heap _ Hwf). lia.
  - intros p Hp. rewrite lookup_insert_ne by lia. apply (wf_txs _ Hwf). lia.
  - unfold map_at. simpl. rewrite lookup_insert_ne by lia. done.
  - split; [done|]. exists (next s). rewrite !lookup_insert_eq, Hm. repeat split. lia.
Qed.

Lemma write_refines f s m : refines s (MkSpec m None) →
  refines (after_write f s) (MkSpec (f m) None).
Proof.
  intros (Hwf & Hm & Hx). simpl in *. split; [split; simpl|split; simpl].
  - done.
  - rewrite lookup_insert_eq. eauto.
  - intros p Hp. rewrite lookup_insert_ne by lia. apply (wf_heap _ Hwf). lia.
  - intros p Hp. rewrite lookup_insert_ne by lia. apply (wf_txs _ Hwf). lia.
  - unfold map_at at 1. simpl. by rewrite lookup_insert_eq, Hm.
  - done.
Qed.

(** A write to the map of the open transaction leaves the committed map alone. *)
Lemma tx_write_refines s m t d w w' :
  refines s (MkSpec m (Some (t, w))) → txs s !! t = Some (MkTx true d) →
  heap s !! d = Some w → d ≠ data s →
  refines (set_heap (<[d := w']> (heap s)) s) (MkSpec m (Some (t, w'))).
Proof.
  intros (Hwf & Hm & Hx & _) Ht Hd Hne. simpl in *.
  assert (d < next s)%positive.
  { destruct (decide (d < next s)%positive); [done|].
    rewrite (wf_heap _ Hwf) in Hd; [done|lia]. }
  split; [split; simpl|split; simpl].
  - apply Hwf.
  - rewrite lookup_insert_ne by done. apply Hwf.
  - intros p Hp. rewrite lookup_insert_ne by lia. by apply Hwf.
  - apply Hwf.
  - unfold map_at. simpl. by rewrite lookup_insert_ne.
  - split; [done|]. exists d. by rewrite lookup_insert_eq.
Qed.

Lemma commit_refines s m t d w :
  refines s (MkSpec m (Some (t, w))) → txs s !! t = Some (MkTx true d) →
  heap s !! d = Some w →
  refines (MkStdStore (heap s) (<[t := MkTx false d]> (txs s)) (next s) d false false)
          (MkSpec w None).
Proof.
  intros (Hwf & Hm & Hx & _) Ht Hd. simpl in *.
  assert (t < next s)%positive.
  { destruct (decide (t < next s)%positive); [done|].
    rewrite (wf_txs _ Hwf) in Ht; [done|lia]. }
  split; [split; simpl|split; simpl].
  - done.
  - eauto.
  - apply Hwf.
  - intros p Hp. rewrite lookup_insert_ne by lia. by apply Hwf.
  - unfold map_at. simpl. by rewrite Hd.
  - done.
Qed.

(** ** Simulation of one call *)

Lemma tx_Get_eq t d w k s : txs s !! t = Some (MkTx true d) → heap s !! d = Some w →
  tx_Get t k s = lookup_result w k s.
Proof.
  intros Ht Hd. unfold tx_Get, tx_at, gets, mbind, M_bind. rewrite Ht. simpl.
  by rewrite (map_at_Some _ _ _ Hd).
Qed.

Lemma Iterator_eq p s : mut s = false →
  Iterator p s = (Ret (MkStdIterator 0 (collect_keys (map_at (data s) s) p)), s).
Proof.
  intros Hm. unfold Iterator, mut_Lock, mut_Unlock, gets, mbind, M_bind. rewrite Hm.
  destruct s; simpl in *; by subst.
Qed.

Lemma tx_Iterator_eq t d w p s : txs s !! t = Some (MkTx true d) → heap s !! d = Some w →
  tx_Iterator t p s = (Ret (MkStdIterator 0 (collect_keys w p)), s).
Proof.
  intros Ht Hd. unfold tx_Iterator, tx_at, gets, mbind, M_bind. rewrite Ht. simpl.
  by rewrite (map_at_Some _ _ _ Hd).
Qed.

Lemma rollback_refines s m t w :
  refines s (MkSpec m (Some (t, w))) → refines (set_txmut false s) (MkSpec m None).
Proof. intros ([] & Hm & _). by split; [split|]. Qed.

Lemma tx_call_simulated s m t w c : refines s (MkSpec m (Some (t, w))) →
  match c with
  | CTxGet t' _ | CTxPut t' _ _ | CTxDelete t' _ | CTxIterator t' _
  | CCommit t' | CRollback t' => t' = t
  | _ => False
  end →
  ∃ r s' a', do_call c s = (Ret r, s') ∧ spec_step (MkSpec m (Some (t, w))) c r a' ∧
    refines s' a'.
Proof.
  intros Hr Hc. pose proof Hr as (Hwf & Hm & Hx & d & Ht & Hd & Hne). simpl in *.
  destruct c; try done; subst; simpl.
  - erewrite (get_answer_lookup w) by (by eapply tx_Get_eq).
    eexists _, _, _. split_and!; [done|constructor|by apply refines_lookup].
  - erewrite bind_Ret by (by eapply tx_Put_eq).
    eexists _, _, _. split_and!; [done|constructor|by eapply tx_write_refines].
  - erewrite bind_Ret by (by eapply tx_Delete_eq).
    eexists _, _, _. split_and!; [done|constructor|by eapply tx_write_refines].
  - erewrite bind_Ret by (by eapply tx_Iterator_eq).
    eexists _, _, _. split_and!; [done|constructor; apply collect_keys_spec|done].
  - erewrite bind_Ret by (eapply tx_Commit_eq; [done|apply Hwf|done]).
    eexists _, _, _. split_and!; [done|constructor|by eapply commit_refines].
  - erewrite bind_Ret by (by eapply tx_Rollback_eq).
    eexists _, _, _. split_and!; [done|constructor|by eapply rollback_refines].
Qed.

Lemma call_simulated s a c : refines s a → allowed a c → ¬ waits a c →
  ∃ r s' a', do_call c s = (Ret r, s') ∧ spec_step a c r a' ∧ refines s' a'.
Proof.
  intros Hr Ha Hw. pose proof Hr as (Hwf & Hm & Hx).
  destruct c; try (destruct Ha as [w Hw']; destruct a as [m act]; simpl in Hw'; subst act;
    by eapply tx_call_simulated).
  all: try (destruct a as [m [tw|]]; [by destruct Hw; eexists|]); simpl in *.
  - erewrite (get_answer_lookup (committed a)) by (rewrite Get_eq by apply Hwf; by rewrite Hm).
    eexists _, _, _. split_and!; [done|constructor|by apply refines_lookup].
  - erewrite bind_Ret by (by apply Put_eq).
    eexists _, _, _. split_and!; [done|constructor|by apply write_refines].
  - erewrite bind_Ret by (by apply Delete_eq).
    eexists _, _, _. split_and!; [done|constructor|by apply write_refines].
  - erewrite bind_Ret by (apply Iterator_eq, Hwf). rewrite Hm.
    eexists _, _, _. split_and!; [done|constructor; apply collect_keys_spec|done].
  - destruct (begin_refines _ _ Hr) as (t & s' & Hb & Hr').
    erewrite bind_Ret by done. eexists _, _, _. split_and!; [done|constructor|done].
Qed.

Lemma call_waits s a c : refines s a → waits a c → ∃ s', do_call c s = (Blocked, s').
Proof.
  intros (Hwf & Hm & Hx) Hw.
  assert (∃ s', BeginTransaction s = (Blocked, s')) as [s' Hb].
  { apply BeginTransaction_blocked. destruct c; try done; destruct Hw as [[t w] Hw];
      rewrite Hw in Hx; apply Hx. }
  exists s'. destruct c; try done; simpl; unfold Put, Delete, mbind, M_bind; by rewrite Hb.
Qed.

Lemma spec_step_disciplined a c r a' l :
  spec_step a c r a' → disciplined (fst <$> active a) ((c, r) :: l) →
  allowed a c ∧ disciplined (fst <$> active a') l.
Proof. destruct 1; simpl; naive_solver. Qed.

Lemma disciplined_allowed a c r l :
  disciplined (fst <$> active a) ((c, r) :: l) → allowed a c.
Proof. destruct a as [m [[t w]|]], c; naive_solver. Qed.

Lemma std_inv_refines s : std_inv s ↔ refines s (MkSpec (map_at (data s) s) None).
Proof. unfold std_inv, refines. simpl. tauto. Qed.

Lemma std_inv_write f s : std_inv s →
  std_inv (after_write f s) ∧
  map_at (data (after_write f s)) (after_write f s) = f (map_at (data s) s).
Proof.
  intros Hi. apply std_inv_refines, (write_refines f) in Hi as (Hwf & Hm & Hx). done.
Qed.

Lemma std_Get_law s k r s' : std_inv s → Get k s = (r, s') →
  std_inv s' ∧ map_at (data s') s' = map_at (data s) s ∧ (next s ≤ next s')%positive ∧
  match map_at (data s) s !! k with
  | Some v => r = Ret v
  | None => r = Fail (ErrUnset (next s) k) ∧ (next s < next s')%positive
  end.
Proof.
  intros [Hwf Hx]. rewrite Get_eq by apply Hwf. rewrite lookup_result_eq.
  destruct (map_at (data s) s !! k); intros ?; simplify_eq; split_and!; try done; simpl; try lia.
  split; [|done]. apply wf_next_le; [done|lia].
Qed.

End lemmas.

#[export] Program Instance std_KVStoreLaws `{RangeOrder} : KVStoreLaws StdStore := {
  kv_inv := std_inv;
  kv_up := λ _, True;
  kv_view := λ s, map_at (data s) s
}.
Next Obligation.
  intros ? s k r s' Hi E. destruct (std_Get_law _ _ _ _ Hi E) as (?&?&_&Hr).
  split_and!; [done..|]. left. destruct (_ !! k); naive_solver.
Qed.
Next Obligation.
  intros ? s k v r s' Hi E. simpl in E. rewrite Put_eq in E by apply Hi. simplify_eq.
  destruct (std_inv_write (<[k:=v]>) _ Hi). auto.
Qed.
Next Obligation.
  intros ? s k r s' Hi E. simpl in E. rewrite Delete_eq in E by apply Hi. simplify_eq.
  destruct (std_inv_write (delete k) _ Hi). auto.
Qed.
Next Obligation.
  intros ? s p r s' Hi E. simpl in E. rewrite Iterator_eq in E by apply Hi. simplify_eq.
  split_and!; [done..|]. left. eexists. split; [done|]. apply collect_keys_spec.
Qed.
Next Obligation.
  intros ? s [Hwf Hx]. eexists _, _. split; [done|]. split_and!; [|done..].
  split; [apply wf_next_le; [done|simpl; lia]|done].
Qed.
Next Obligation.
  intros ? s k e s' p s'' x Hi E Hp. simpl in *. unfold new_ptr in Hp. simplify_eq.
  destruct (std_Get_law _ _ _ _ Hi E) as (_&_&_&Hr). destruct (_ !! k); [done|].
  destruct Hr as [[= ->] Hlt]. unfold errors_Is. simpl.
  rewrite bool_decide_eq_false_2; [done|]. lia.
Qed.

(** ** Theorems *)

Section theorems.
Context `{RangeOrder}.

(** C1: every sequence of completed calls on a new store, in which a
    transaction is used only between its [BeginTransaction] and its [Commit] or
    [Rollback], is a run of the abstract store: reads see the committed content,
    the open transaction sees its private copy, [Commit] installs the copy as a
    whole and [Rollback] discards it. *)
Theorem std_refines_spec l s :
  std_run NewStdStore l s → disciplined None l →
  ∃ a, spec_run (MkSpec ∅ None) l a ∧ refines s a.
Proof.
  assert (refines NewStdStore (MkSpec ∅ None)) as Hr.
  { split; [apply wf_init|done]. }
  intros Hrun Hd.
  assert (disciplined (fst <$> active (MkSpec ∅ None)) l) as Hd' by done.
  clear Hd. revert Hr Hd'. generalize (MkSpec ∅ None) as a. revert Hrun. generalize NewStdStore as s0. intros s0 Hrun.
  induction Hrun as [s0|s0 c r s1 l s2 Hc Hrun IH]; intros a Hr Hd.
  { exists a. split; [constructor|done]. }
  pose proof (disciplined_allowed _ _ _ _ Hd) as Ha.
  assert (¬ waits a c) as Hw.
  { intros Hw. destruct (call_waits _ _ _ Hr Hw) as [s' Hb]. congruence. }
  destruct (call_simulated _ _ _ Hr Ha Hw) as (r' & s' & a' & Hc' & Hs & Hr').
  rewrite Hc in Hc'. simplify_eq.
  destruct (spec_step_disciplined _ _ _ _ _ Hs Hd) as [_ Hd'].
  destruct (IH _ Hr' Hd') as (a'' & Hrun' & Hr''). exists a''. split; [by econstructor|done].
Qed.

(** No allowed call ever panics or fails; the calls that open a transaction
    wait exactly while another one is open, every other call completes. *)
Theorem std_calls_progress s a c : refines s a → allowed a c →
  (waits a c ∧ ∃ s', do_call c s = (Blocked, s')) ∨
  (¬ waits a c ∧ ∃ r s' a', do_call c s = (Ret r, s') ∧ spec_step a c r a' ∧ refines s' a').
Proof.
  intros Hr Ha. destruct (active a) as [tw|] eqn:Hact.
  - destruct c; try (right; split; [by intros []|apply call_simulated; by try intros []]); left;
      (split; [simpl; rewrite Hact; eauto|]); apply (call_waits s a); simpl;
      rewrite ?Hact; eauto.
  - right. assert (¬ waits a c) as Hw.
    { destruct c; simpl; rewrite ?Hact; try tauto; by intros []. }
    split; [done|by apply call_simulated].
Qed.

(** [Transfer] returns the new store's error with the mutex of the old store
    still locked, after which every read of the old store waits forever. *)
Theorem Transfer_error_keeps_lock {T} `{KVStore T} (s : StdStore) (t : T) e w :
  Transfer (s, t) = (Fail e, w) →
  mut (fst w) = true ∧ ∀ k, Get k (fst w) = (Blocked, fst w).
Proof.
  intros Hf. assert (mut (fst w) = true) as Hm.
  { revert Hf. unfold Transfer, zoom, mut_Lock, gets, mbind, M_bind. simpl.
    destruct (mut s) eqn:Hm; [done|]. simpl.
    generalize (range (map_at (data s) (set_mut true s))) as l. intros l.
    assert (mut (set_mut true s) = true) as Hm' by done. revert Hm'.
    generalize (set_mut true s) as s1. intros s1 Hm1. revert t.
    induction l as [|[k v] l IH]; intros t; simpl.
    - unfold mut_Unlock. simpl. by rewrite Hm1.
    - unfold mbind, M_bind. simpl. destruct (kv_Put k v t) as [[] t']; simpl; try done.
      + apply IH.
      + intros ?. by simplify_eq. }
  split; [done|]. intros k. unfold Get, mut_Lock, mbind, M_bind. by rewrite Hm.
Qed.

(** [Rollback] does not clear the transaction's store pointer, so a second
    [Rollback] of a finished transaction releases the lock of the transaction that
    is open by then, and a further transaction can be opened beside it. *)
Theorem Rollback_twice_breaks_exclusion s m : refines s (MkSpec m None) →
  ∃ t1 t2 t3 s', std_run s [(CBegin, ATx t1); (CRollback t1, AUnit); (CBegin, ATx t2);
                            (CRollback t1, AUnit); (CBegin, ATx t3)] s' ∧
    t2 ≠ t3 ∧ (tx_store <$> txs s' !! t2) = Some true ∧ (tx_store <$> txs s' !! t3) = Some true.
Proof.
  intros Hr.
  assert (∀ s, wf s → txmut s = false →
    ∃ s', BeginTransaction s = (Ret (Pos.succ (next s)), s') ∧ wf s' ∧ txmut s' = true ∧
      (Pos.succ (next s) < next s')%positive ∧
      txs s' = <[Pos.succ (next s) := MkTx true (next s)]> (txs s)) as Hbegin.
  { intros s0 Hwf Hx.
    destruct (begin_refines s0 (map_at (data s0) s0)) as (t & s' & Hb & Hr'); [done|].
    rewrite BeginTransaction_eq in Hb by done. simplify_eq.
    eexists. split; [by apply BeginTransaction_eq|].
    split_and!; [apply Hr'|done|simpl; lia|done]. }
  destruct Hr as (Hwf & _ & Hx).
  destruct (Hbegin _ Hwf Hx) as (s1 & B1 & Hwf1 & Hx1 & Hn1 & Ht1).
  set (t1 := Pos.succ (next s)) in *.
  assert (wf (set_txmut false s1)) as Hwf1' by (destruct Hwf1; by split).
  destruct (Hbegin _ Hwf1' eq_refl) as (s2 & B2 & Hwf2 & Hx2 & Hn2 & Ht2).
  simpl in *. set (t2 := Pos.succ (next s1)) in *.
  assert (wf (set_txmut false s2)) as Hwf2' by (destruct Hwf2; by split).
  destruct (Hbegin _ Hwf2' eq_refl) as (s3 & B3 & Hwf3 & Hx3 & Hn3 & Ht3).
  simpl in *. set (t3 := Pos.succ (next s2)) in *.
  exists t1, t2, t3, s3. split; [|split_and!].
  - econstructor; [simpl; by rewrite (bind_Ret _ _ _ _ _ B1)|].
    econstructor; [simpl; erewrite bind_Ret; [done|]; apply (tx_Rollback_eq _ (next s));
      [by rewrite Ht1, lookup_insert_eq|done]|].
    econstructor; [simpl; by rewrite (bind_Ret _ _ _ _ _ B2)|].
    econstructor; [simpl; erewrite bind_Ret; [done|]; apply (tx_Rollback_eq _ (next s))|].
    + rewrite Ht2, lookup_insert_ne, Ht1, lookup_insert_eq by (unfold t1, t2; lia). done.
    + done.
    + econstructor; [simpl; by rewrite (bind_Ret _ _ _ _ _ B3)|constructor].
  - unfold t2, t3. lia.
  - rewrite Ht3, lookup_insert_ne, Ht2, lookup_insert_eq by (unfold t2, t3; lia). done.
  - by rewrite Ht3, lookup_insert_eq.
Qed.

(** [Commit] makes the store adopt the transaction's own map, so a [Put] on the
    finished transaction changes the committed content, without any lock. *)
Theorem Put_after_Commit_changes_store s m t w k v : refines s (MkSpec m (Some (t, w))) →
  ∃ s1 s2, tx_Commit t s = (Ret (), s1) ∧ refines s1 (MkSpec w None) ∧
    tx_Put t k v s1 = (Ret (), s2) ∧ map_at (data s2) s2 = <[k := v]> w.
Proof.
  intros Hr. pose proof Hr as (Hwf & Hm & Hx & d & Ht & Hd & Hne).
  eexists _, _. split; [eapply tx_Commit_eq; [done|apply Hwf|done]|].
  split; [by eapply commit_refines|].
  split; [unfold tx_Put, tx_at, map_write, mbind, M_bind; simpl;
    rewrite lookup_insert_eq; simpl; by rewrite Hd|].
  unfold map_at. simpl. by rewrite lookup_insert_eq.
Qed.

(** [Transfer] to a reachable store copies every entry over what that store
    holds, and leaves the source unchanged and unlocked. *)
Theorem Transfer_copies {T} `{KVStoreLaws T} (s : StdStore) (t : T) :
  wf s → kv_inv t → kv_up t →
  ∃ t', Transfer (s, t) = (Ret (), (s, t')) ∧ kv_inv t' ∧ kv_up t' ∧
    kv_view t' = map_at (data s) s ∪ kv_view t.
Proof.
  intros Hwf Hi Hu. unfold Transfer, zoom, mut_Lock, gets, mbind, M_bind. simpl.
  rewrite (wf_mut _ Hwf). simpl.
  set (s1 := set_mut true s). change (map_at (data s) s1) with (map_at (data s) s).
  assert (∀ l t, kv_inv t → kv_up t → NoDup l.*1 → ∃ t',
    for_each l (λ '(key, value) (w : StdStore * T),
        let (r, t0) := kv_Put key value w.2 in (r, (w.1, t0))) (s1, t) = (Ret (), (s1, t')) ∧
    kv_inv t' ∧ kv_up t' ∧ kv_view t' = list_to_map l ∪ kv_view t) as Hloop.
  { clear Hi Hu t. induction l as [|[k v] l IH]; intros t Hi Hu Hnd; simpl.
    { exists t. by rewrite (left_id_L ∅ (∪)). }
    apply NoDup_cons in Hnd as [Hk Hnd].
    destruct (kv_Put_up t k v Hi Hu) as (t1 & Hp & Hi1 & Hu1 & Hv1).
    unfold mbind, M_bind. simpl. rewrite Hp.
    destruct (IH t1 Hi1 Hu1 Hnd) as (t2 & Hl & Hi2 & Hu2 & Hv2). exists t2.
    split_and!; [done..|]. rewrite Hv2, Hv1. apply map_eq. intros i.
    rewrite !lookup_union. destruct (decide (i = k)) as [->|].
    - rewrite !lookup_insert_eq, not_elem_of_list_to_map_1 by done.
      by destruct (kv_view t !! k).
    - by rewrite !lookup_insert_ne by done. }
  destruct (Hloop (range (map_at (data s) s)) t Hi Hu) as (t' & Hl & ? & ? & Hv);
    [apply NoDup_range_keys|].
  exists t'. rewrite Hl. unfold mut_Unlock. simpl. split_and!; [|done..|].
  - do 3 f_equal. destruct s; simpl in *. unfold set_mut. simpl.
    destruct Hwf; simpl in *. by subst.
  - rewrite Hv. f_equal. rewrite <-(list_to_map_to_list (map_at (data s) s)).
    apply list_to_map_proper; [|rewrite range_perm; by rewrite list_to_map_to_list].
    apply NoDup_range_keys.
Qed.

End theorems.

(** ** Concrete runs *)

(** A store none of whose calls succeeds. *)
Definition unreachable_store : KVStore () := {|
  kv_Get _ := fail (ErrExt "unavailable");
  kv_Put _ _ := fail (ErrExt "unavailable");
  kv_Delete _ := fail (ErrExt "unavailable");
  kv_Iterator _ := fail (ErrExt "unavailable");
  kv_new := mret 1%positive
|}.

Lemma new_refines : refines NewStdStore (MkSpec ∅ None).
Proof. split; [apply wf_init|done]. Qed.

(** A store with one entry, and a new store in which a transaction is open. *)
Definition demo_store : StdStore :=
  snd (let R := range_canonical in Put "challenge-a" "1" NewStdStore).
Definition begun_store : StdStore :=
  snd (let R := range_canonical in BeginTransaction NewStdStore).

Lemma begun_refines : refines begun_store (MkSpec ∅ (Some (3%positive, ∅))).
Proof.
  destruct (@begin_refines range_canonical _ _ new_refines) as (t & s' & Hb & Hr').
  assert (@BeginTransaction range_canonical NewStdStore = (Ret 3%positive, begun_store)) as E
    by (vm_compute; reflexivity).
  rewrite E in Hb. by simplify_eq.
Qed.

Lemma std_refines_spec_witness :
  let R := range_canonical in
  ∃ s a, spec_run (MkSpec ∅ None)
    [(CBegin, ATx 3); (CTxPut 3 "k" "v", AUnit); (CGet "k", AUnset "k"); (CCommit 3, AUnit);
     (CGet "k", AVal "v")] a ∧ refines s a.
Proof.
  intros R.
  edestruct (std_refines_spec
    [(CBegin, ATx 3); (CTxPut 3 "k" "v", AUnit); (CGet "k", AUnset "k"); (CCommit 3, AUnit);
     (CGet "k", AVal "v")]) as (a & Hrun & Hr); [|simpl; tauto|eauto].
  repeat (eapply std_run_cons; [vm_compute; reflexivity|]). apply std_run_nil.
Defined.

Lemma std_calls_progress_witness :
  let R := range_canonical in
  waits (MkSpec ∅ (Some (3%positive, ∅))) (CPut "k" "v") ∧
  ∃ s', do_call (CPut "k" "v") begun_store = (Blocked, s').
Proof.
  intros R.
  destruct (std_calls_progress begun_store (MkSpec ∅ (Some (3%positive, ∅))) (CPut "k" "v")
    begun_refines I) as [H|[H _]]; [exact H|].
  exfalso. apply H. simpl. eauto.
Defined.

Lemma Transfer_error_keeps_lock_witness :
  let R := range_canonical in
  let w := (set_mut true demo_store, ()) in
  @Transfer _ _ unreachable_store (demo_store, ()) = (Fail (ErrExt "unavailable"), w) ∧
  Get "challenge-a" (fst w) = (Blocked, fst w).
Proof.
  intros R w.
  assert (@Transfer _ _ unreachable_store (demo_store, ()) = (Fail (ErrExt "unavailable"), w)) as E
    by (vm_compute; reflexivity).
  split; [exact E|]. exact (proj2 (Transfer_error_keeps_lock _ _ _ _ E) "challenge-a").
Defined.

Lemma Rollback_twice_breaks_exclusion_witness :
  let R := range_canonical in
  ∃ t1 t2 t3 s', std_run NewStdStore
    [(CBegin, ATx t1); (CRollback t1, AUnit); (CBegin, ATx t2);
     (CRollback t1, AUnit); (CBegin, ATx t3)] s' ∧ t2 ≠ t3.
Proof.
  intros R. destruct (Rollback_twice_breaks_exclusion _ _ new_refines)
    as (t1 & t2 & t3 & s' & H & Hne & _). eauto 10.
Defined.

Lemma Put_after_Commit_changes_store_witness :
  let R := range_canonical in
  ∃ s1 s2, tx_Commit 3 begun_store = (Ret (), s1) ∧ tx_Put 3 "k" "v" s1 = (Ret (), s2) ∧
    map_at (data s2) s2 = {["k" := "v"]}.
Proof.
  intros R. destruct (Put_after_Commit_changes_store _ _ _ _ "k" "v" begun_refines)
    as (s1 & s2 & H1 & _ & H2 & H3). exists s1, s2. split; [exact H1|]. split; [exact H2|].
  rewrite H3. reflexivity.
Defined.

Lemma Transfer_copies_witness :
  let R := range_canonical in
  ∃ t' : StdStore, Transfer (NewStdStore, NewStdStore) = (Ret (), (NewStdStore, t')) ∧
    kv_view t' = ∅.
Proof.
  intros R. destruct (Transfer_copies NewStdStore NewStdStore wf_init) as (t' & H & _ & _ & Hv).
  - split; [apply wf_init|reflexivity].
  - exact I.
  - exists t'. split; [exact H|]. rewrite Hv. reflexivity.
Defined.
