(* ===== verification/EtcdStore.v ===== *)
(** internal/store/etcdstore.go: the store backed by etcd.

    The etcd client library is a parameter ([EtcdClient]) of which [EtcdLaws]
    states the documented behaviour.  [EtcdWorld] is the client together with the
    Go allocator; a transaction ([EtcdTransaction]) is a record beside it. *)
From S2P Require Import Prelude StoreApi.

Definition etcdPrefix : string := "delegatioRegion".

(** ** The etcd client *)

(** [clientv3.GetResponse]. *)
Record GetResponse : Type := MkResp { Count : Z; Kvs : list (string * string) }.

(** [clientv3.Op]. *)
Inductive etcd_op : Type :=
  | OpPut (k v : string)
  | OpDelete (k : string).

Definition op_key (o : etcd_op) : string := match o with OpPut k _ => k | OpDelete k => k end.

Definition apply_op (m : gmap string string) (o : etcd_op) : gmap string string :=
  match o with OpPut k v => <[k := v]> m | OpDelete k => delete k m end.

(** The calls of clientv3 and its concurrency package the store makes.  A session
    is named by a number; the locker of a session is named by the session. *)
Class EtcdClient (S : Type) : Type := {
  etcd_Get : string → bool → bool → M S GetResponse;  (* key, WithPrefix, WithKeysOnly *)
  etcd_Put : string → string → M S ();
  etcd_Delete : string → M S ();
  etcd_Txn : list etcd_op → M S ();
  etcd_NewSession : M S positive;
  etcd_Lock : positive → string → M S ();
  etcd_Unlock : positive → M S ();
  etcd_Close : positive → M S ()
}.

Definition plain_fault {A} (r : res A) : Prop := ∃ e, r = Fail e ∧ errors_As_unset e = false.

(** The documented behaviour relied on.  [etcd_kv] is the server's key space,
    [etcd_up] says that the server answers. *)
Class EtcdLaws (S : Type) `{EtcdClient S} : Type := {
  etcd_kv : S → gmap string string;
  etcd_up : S → Prop;
  (** The server's [--max-txn-ops]. *)
  etcd_max_txn_ops : nat;

  etcd_Get_key s k r s' : etcd_Get k false false s = (r, s') →
    etcd_kv s' = etcd_kv s ∧ (etcd_up s → etcd_up s') ∧
    (r = Ret (match etcd_kv s !! k with
              | Some v => MkResp 1 [(k, v)]
              | None => MkResp 0 []
              end) ∨ (¬ etcd_up s ∧ plain_fault r));

  etcd_Get_prefix s p ko r s' : etcd_Get p true ko s = (r, s') →
    etcd_kv s' = etcd_kv s ∧ (etcd_up s → etcd_up s') ∧
    ((∃ kvs, r = Ret (MkResp (Z.of_nat (length kvs)) kvs) ∧ NoDup kvs.*1 ∧
        ∀ k, k ∈ kvs.*1 ↔ is_Some (etcd_kv s !! k) ∧ HasPrefix k p = true)
     ∨ (¬ etcd_up s ∧ plain_fault r));

  etcd_Put_law s k v r s' : etcd_Put k v s = (r, s') →
    (etcd_up s → etcd_up s') ∧
    ((r = Ret () ∧ etcd_kv s' = <[k := v]> (etcd_kv s)) ∨
     (¬ etcd_up s ∧ plain_fault r ∧
      (etcd_kv s' = etcd_kv s ∨ etcd_kv s' = <[k := v]> (etcd_kv s))));

  etcd_Delete_law s k r s' : etcd_Delete k s = (r, s') →
    (etcd_up s → etcd_up s') ∧
    ((r = Ret () ∧ etcd_kv s' = delete k (etcd_kv s)) ∨
     (¬ etcd_up s ∧ plain_fault r ∧
      (etcd_kv s' = etcd_kv s ∨ etcd_kv s' = delete k (etcd_kv s))));

  (** A transaction of admissible size in which no key occurs twice is applied as
      a whole. *)
  etcd_Txn_law s ops r s' : NoDup (op_key <$> ops) → (length ops ≤ etcd_max_txn_ops)%nat →
    etcd_Txn ops s = (r, s') →
    (etcd_up s → etcd_up s') ∧
    ((r = Ret () ∧ etcd_kv s' = foldl apply_op (etcd_kv s) ops) ∨
     (¬ etcd_up s ∧ plain_fault r ∧
      (etcd_kv s' = etcd_kv s ∨ etcd_kv s' = foldl apply_op (etcd_kv s) ops)));
  (** A larger one is refused. *)
  etcd_Txn_refused s ops r s' : (etcd_max_txn_ops < length ops)%nat → etcd_Txn ops s = (r, s') →
    (etcd_up s → etcd_up s') ∧ etcd_kv s' = etcd_kv s ∧ plain_fault r;

  (** Sessions and the lock touch no key of the store's own data: the lock's keys
      start with the prefix, a slash and the lease. *)
  etcd_NewSession_law s r s' : etcd_NewSession s = (r, s') →
    (etcd_up s → etcd_up s' ∧ ∃ i, r = Ret i) ∧ etcd_kv s' = etcd_kv s;
  etcd_Lock_law s i r s' : etcd_Lock i etcdPrefix s = (r, s') →
    (etcd_up s → etcd_up s' ∧ (r = Ret () ∨ r = Blocked)) ∧
    ∀ k, HasPrefix k (etcdPrefix +:+ "/") = false → etcd_kv s' !! k = etcd_kv s !! k;
  etcd_Unlock_law s i r s' : etcd_Unlock i s = (r, s') →
    (etcd_up s → etcd_up s' ∧ r = Ret ()) ∧
    ∀ k, HasPrefix k (etcdPrefix +:+ "/") = false → etcd_kv s' !! k = etcd_kv s !! k;
  etcd_Close_law s i r s' : etcd_Close i s = (r, s') →
    (etcd_up s → etcd_up s' ∧ r = Ret ()) ∧
    ∀ k, HasPrefix k (etcdPrefix +:+ "/") = false → etcd_kv s' !! k = etcd_kv s !! k
}.

(** ** State *)

(** The client held by [EtcdStore], and the allocator of Go objects. *)
Record EtcdWorld (S : Type) : Type := MkWorld { client : S; fresh : positive }.
Arguments MkWorld {S} _ _.
Arguments client {S} _.
Arguments fresh {S} _.

(** [EtcdTransaction]. *)
Record EtcdTransaction : Type := MkEtcdTx {
  dataInsert : gmap string string;
  dataDelete : gmap string ();
  ongoingTransaction : bool;
  session : positive
}.

Section operations.
Context {S : Type} `{EtcdClient S} `{RangeOrder}.
Abbreviation W := (EtcdWorld S).

Definition with_client {A} (m : M S A) : M W A :=
  zoom client (λ c w, MkWorld c (fresh w)) m.

Definition etcd_new : M W positive := λ w, (Ret (fresh w), MkWorld (client w) (Pos.succ (fresh w))).

Definition unset {A} (request : string) : M W A :=
  p ← etcd_new; fail (ErrUnset p request).

(** ** EtcdStore *)

(** [NewEtcdStore]: TLS is configured when all three credentials are given;
    [X509KeyPair] and [clientv3_New] are library calls. *)
Record etcd_config : Type := MkCfg {
  cfg_endpoints : list string;
  cfg_tls : option (string * (string * string))
}.

Definition NewEtcdStore (X509KeyPair : string → string → option error)
    (clientv3_New : etcd_config → error + S)
    (endpoints : list string) (caCert cert key : option string) : error + S :=
  match caCert, cert, key with
  | Some ca, Some ce, Some ke =>
      match X509KeyPair ce ke with
      | Some err => inl err
      | None => clientv3_New (MkCfg endpoints (Some (ca, (ce, ke))))
      end
  | _, _, _ => clientv3_New (MkCfg endpoints None)
  end.

(** [EtcdStoreFactory] and its [New]. *)
Record EtcdStoreFactory : Type := MkFactory {
  Endpoint : string;
  ForceTLS : bool;
  fcaCert : option string;
  fcert : option string;
  fkey : option string
}.

Definition Factory_New (X509KeyPair : string → string → option error)
    (clientv3_New : etcd_config → error + S) (f : EtcdStoreFactory) : error + S :=
  NewEtcdStore X509KeyPair clientv3_New [Endpoint f] (fcaCert f) (fcert f) (fkey f).

Definition EtcdGet (request : string) : M W string :=
  values ← with_client (etcd_Get (etcdPrefix +:+ request) false false);
  if decide (Count values = 0%Z) then unset request
  else if decide (Count values = 1%Z) then
    match Kvs values with
    | (_, v) :: _ => mret v
    | [] => panic
    end
  else fail (ErrNew ("got multiple entries for key [" +:+ request +:+ "] in etcd")).

Definition EtcdPut (request requestData : string) : M W () :=
  with_client (etcd_Put (etcdPrefix +:+ request) requestData).

(** The error is looked at after [resp.Kvs]: on an error the response is nil. *)
Definition EtcdIter (prefix : string) : M W EtcdIterator :=
  r ← attempt (with_client (etcd_Get (etcdPrefix +:+ prefix) true true));
  match r with
  | inl _ => panic
  | inr resp => mret (MkStdIterator 0 ((λ kv, TrimPrefix kv.1 etcdPrefix) <$> Kvs resp))
  end.

(** [EtcdStore.Transfer] is not implemented and panics. *)
Definition EtcdTransfer : M W () := panic.

Definition EtcdDelete (key : string) : M W () :=
  with_client (etcd_Delete (etcdPrefix +:+ key)).

Definition EtcdBegin : M W EtcdTransaction :=
  sess ← with_client etcd_NewSession;
  with_client (etcd_Lock sess etcdPrefix);;
  mret (MkEtcdTx ∅ ∅ true sess).

#[export] Instance etcd_KVStore : KVStore W := {
  kv_Get := EtcdGet;
  kv_Put := EtcdPut;
  kv_Delete := EtcdDelete;
  kv_Iterator := EtcdIter;
  kv_new := etcd_new
}.

(** ** EtcdTransaction: methods on the world and the transaction *)

Definition in_world {A} (m : M W A) : M (W * EtcdTransaction) A :=
  zoom fst (λ w x, (w, snd x)) m.
Definition tx_gets {A} (f : EtcdTransaction → A) : M (W * EtcdTransaction) A :=
  gets (λ x, f (snd x)).
Definition tx_modify (f : EtcdTransaction → EtcdTransaction) : M (W * EtcdTransaction) () :=
  modify (λ x, (fst x, f (snd x))).

Definition EtcdTx_Get (request : string) : M (W * EtcdTransaction) string :=
  t ← tx_gets id;
  if ongoingTransaction t then
    match dataInsert t !! request with
    | Some value => mret value
    | None =>
        match dataDelete t !! request with
        | Some _ => in_world (unset request)
        | None => in_world (EtcdGet request)
        end
    end
  else fail (ErrNew "EtcdTransaction Pointer is nil, but Get function is called").

Definition EtcdTx_Put (request requestData : string) : M (W * EtcdTransaction) () :=
  t ← tx_gets id;
  if ongoingTransaction t then
    tx_modify (λ t, MkEtcdTx (<[request := requestData]> (dataInsert t)) (dataDelete t)
                             (ongoingTransaction t) (session t))
  else fail (ErrNew "EtcdTransaction Pointer is nil, but Put function is called").

Definition EtcdTx_Delete (key : string) : M (W * EtcdTransaction) () :=
  t ← tx_gets id;
  if ongoingTransaction t then
    tx_modify (λ t, MkEtcdTx (delete key (dataInsert t)) (<[key := ()]> (dataDelete t))
                             (ongoingTransaction t) (session t))
  else fail (ErrNew "EtcdTransaction Pointer is nil, but Delete function is called").

Definition EtcdTx_Iterator (prefix : string) : M (W * EtcdTransaction) EtcdIterator :=
  resp ← in_world (with_client (etcd_Get (etcdPrefix +:+ prefix) true false));
  t ← tx_gets id;
  let stored := filter (λ key, dataDelete t !! key = None)
                       ((λ kv, TrimPrefix kv.1 etcdPrefix) <$> Kvs resp) in
  let inserted := filter (λ k, HasPrefix k prefix = true) (range (dataInsert t)).*1 in
  mret (MkStdIterator 0 (stored ++ inserted)).

(** The operations [Commit] collects. *)
Definition commit_ops (t : EtcdTransaction) : list etcd_op :=
  ((λ '(k, v), OpPut (etcdPrefix +:+ k) v) <$> range (dataInsert t)) ++
  ((λ k, OpDelete (etcdPrefix +:+ k)) <$>
     filter (λ k, dataInsert t !! k = None) (range (dataDelete t)).*1).

Definition end_tx (t : EtcdTransaction) : EtcdTransaction :=
  MkEtcdTx (dataInsert t) (dataDelete t) false (session t).

Definition EtcdTx_Commit : M (W * EtcdTransaction) () :=
  t ← tx_gets id;
  if ongoingTransaction t then
    in_world (with_client (etcd_Txn (commit_ops t)));;
    attempt (in_world (with_client (etcd_Close (session t))));;
    in_world (with_client (etcd_Unlock (session t)));;
    tx_modify end_tx
  else fail (ErrNew "no ongoing transaction").

Definition EtcdTx_Rollback : M (W * EtcdTransaction) () :=
  t ← tx_gets id;
  (if ongoingTransaction t then
     attempt (in_world (with_client (etcd_Close (session t))));;
     in_world (with_client (etcd_Unlock (session t)))
   else mret ());;
  tx_modify end_tx.

(** The writes of a transaction, and a sequence of them. *)
Inductive tx_write : Type :=
  | WPut (k v : string)
  | WDelete (k : string).

Definition do_write (w : tx_write) : M (W * EtcdTransaction) () :=
  match w with WPut k v => EtcdTx_Put k v | WDelete k => EtcdTx_Delete k end.

End operations.

(** The abstract effect of a write. *)
Definition apply_write (m : gmap string string) (w : tx_write) : gmap string string :=
  match w with WPut k v => <[k := v]> m | WDelete k => delete k m end.

(** The store's keys in the server's key space, without their prefix. *)
Definition etcd_view (m : gmap string string) : gmap string string := sub_map etcdPrefix m.

(** What a transaction sees: its inserts, then the stored entries not deleted. *)
Definition tx_view (t : EtcdTransaction) (m : gmap string string) : gmap string string :=
  dataInsert t ∪ filter (λ kv, dataDelete t !! kv.1 = None) m.

(** ** Lemmas *)

Lemma etcd_view_lookup m k : etcd_view m !! k = m !! (etcdPrefix +:+ k).
Proof. apply sub_map_lookup. Qed.

Lemma trimmed_fst (kvs : list (string * string)) :
  (λ kv, TrimPrefix kv.1 etcdPrefix) <$> kvs = (λ k, TrimPrefix k etcdPrefix) <$> kvs.*1.
Proof. by rewrite <-list_fmap_compose. Qed.

(** The keys of a prefix query, as the iterators list them. *)
Lemma trimmed_keys m p (ks : list string) : NoDup ks →
  (∀ k, k ∈ ks ↔ is_Some (m !! k) ∧ HasPrefix k (etcdPrefix +:+ p) = true) →
  NoDup ((λ k, TrimPrefix k etcdPrefix) <$> ks) ∧
  ∀ k, k ∈ (λ k, TrimPrefix k etcdPrefix) <$> ks ↔
       is_Some (etcd_view m !! k) ∧ HasPrefix k p = true.
Proof.
  intros Hnd Hks.
  assert (∀ x, x ∈ ks → ∃ y, x = etcdPrefix +:+ y ∧ HasPrefix y p = true) as Hpre.
  { intros x Hx%Hks. destruct Hx as [_ Hx]. pose proof Hx as Hx'.
    apply HasPrefix_inv in Hx as [y ->]. rewrite str_app_assoc in Hx' |- *.
    exists (p +:+ y). by rewrite HasPrefix_app_l in Hx'. }
  split.
  - apply NoDup_fmap_2_strong; [|done].
    intros x y (x' & -> & _)%Hpre (y' & -> & _)%Hpre. rewrite !TrimPrefix_app. by intros ->.
  - intros k. rewrite etcd_view_lookup, list_elem_of_fmap. split.
    + intros (x & -> & Hx). destruct (Hpre _ Hx) as (y & -> & Hy).
      rewrite TrimPrefix_app. split; [by apply Hks|done].
    + intros [Hs Hp]. exists (etcdPrefix +:+ k). rewrite TrimPrefix_app. split; [done|].
      apply Hks. by rewrite HasPrefix_app_l.
Qed.

Lemma etcd_view_insert m k v :
  etcd_view (<[etcdPrefix +:+ k := v]> m) = <[k := v]> (etcd_view m).
Proof. apply sub_map_insert. Qed.

Lemma etcd_view_delete m k :
  etcd_view (delete (etcdPrefix +:+ k) m) = delete k (etcd_view m).
Proof. apply sub_map_delete. Qed.

(** *** Applying a list of operations *)

Lemma foldl_apply_op_other ops m K :
  K ∉ op_key <$> ops → foldl apply_op m ops !! K = m !! K.
Proof.
  revert m; induction ops as [|o ops IH]; intros m HK; simpl in *; [done|].
  rewrite IH by set_solver. destruct o; simpl in *.
  - apply lookup_insert_ne. set_solver.
  - apply lookup_delete_ne. set_solver.
Qed.

Lemma foldl_apply_op_in ops m o : NoDup (op_key <$> ops) → o ∈ ops →
  foldl apply_op m ops !! op_key o = match o with OpPut _ v => Some v | OpDelete _ => None end.
Proof.
  revert m; induction ops as [|o' ops IH]; intros m Hnd Ho; [by apply elem_of_nil in Ho|].
  simpl in *. apply NoDup_cons in Hnd as [Hk Hnd]. apply elem_of_cons in Ho as [->|Ho].
  - rewrite foldl_apply_op_other by done.
    destruct o'; simpl; [apply lookup_insert_eq|apply lookup_delete_eq].
  - by apply IH.
Qed.

Section commit.
Context `{RangeOrder}.
Implicit Types t : EtcdTransaction.

Lemma commit_ops_keys t : op_key <$> commit_ops t =
  (λ k, etcdPrefix +:+ k) <$>
    ((range (dataInsert t)).*1 ++ filter (λ k, dataInsert t !! k = None) (range (dataDelete t)).*1).
Proof.
  unfold commit_ops. rewrite !fmap_app, <-!list_fmap_compose. f_equal.
  apply list_fmap_ext. by intros ? [].
Qed.

Lemma commit_ops_NoDup t : NoDup (op_key <$> commit_ops t).
Proof.
  rewrite commit_ops_keys. apply (NoDup_fmap _). apply NoDup_app. split_and!.
  - apply NoDup_range_keys.
  - intros k [v Hv]%range_keys_elem. rewrite list_elem_of_filter. naive_solver.
  - apply NoDup_filter, NoDup_range_keys.
Qed.

Lemma commit_ops_length t :
  (length (commit_ops t) ≤ size (dataInsert t) + size (dataDelete t))%nat.
Proof.
  unfold commit_ops. rewrite length_app, !length_fmap, <-!length_range.
  pose proof (length_filter (λ k, dataInsert t !! k = None) (range (dataDelete t)).*1).
  rewrite length_fmap in *. lia.
Qed.

Lemma tx_view_lookup t m k : tx_view t m !! k =
  match dataInsert t !! k with
  | Some v => Some v
  | None => match dataDelete t !! k with Some _ => None | None => m !! k end
  end.
Proof.
  unfold tx_view. rewrite lookup_union. destruct (dataInsert t !! k) as [v|] eqn:Hi; simpl.
  { by destruct (filter _ _ !! k). }
  rewrite (left_id_L None _). destruct (dataDelete t !! k) as [[]|] eqn:Hd.
  - apply map_lookup_filter_None. right. intros v ? ?. simpl in *. congruence.
  - destruct (m !! k) as [v|] eqn:Hm.
    + apply map_lookup_filter_Some. done.
    + apply map_lookup_filter_None. by left.
Qed.

(** Committing installs exactly what the transaction saw. *)
Lemma commit_ops_view t m :
  etcd_view (foldl apply_op m (commit_ops t)) = tx_view t (etcd_view m).
Proof.
  apply map_eq. intros k. rewrite etcd_view_lookup, tx_view_lookup, etcd_view_lookup.
  pose proof (commit_ops_NoDup t) as Hnd.
  destruct (dataInsert t !! k) as [v|] eqn:Hi.
  { apply (foldl_apply_op_in _ _ (OpPut (etcdPrefix +:+ k) v) Hnd).
    unfold commit_ops. apply elem_of_app. left. apply list_elem_of_fmap.
    exists (k, v). split; [done|]. by apply elem_of_range. }
  destruct (dataDelete t !! k) as [[]|] eqn:Hd.
  { apply (foldl_apply_op_in _ _ (OpDelete (etcdPrefix +:+ k)) Hnd).
    unfold commit_ops. apply elem_of_app. right. apply list_elem_of_fmap.
    exists k. split; [done|]. apply list_elem_of_filter. split; [done|].
    apply range_keys_elem. eauto. }
  apply foldl_apply_op_other. rewrite commit_ops_keys.
  intros (k' & ->%str_app_inj & Hk')%list_elem_of_fmap.
  apply elem_of_app in Hk' as [[v Hv]%range_keys_elem|Hk']; [congruence|].
  apply list_elem_of_filter in Hk' as [_ [v Hv]%range_keys_elem]. congruence.
Qed.

End commit.

(** *** The methods under the client's laws *)

Section laws.
Context {S : Type} `{EtcdLaws S} `{RangeOrder}.
Abbreviation W := (EtcdWorld S).
Implicit Types (w : W) (t : EtcdTransaction).

Lemma with_client_eq {A} (m : M S A) w r c' :
  m (client w) = (r, c') → with_client m w = (r, MkWorld c' (fresh w)).
Proof. intros E. unfold with_client, zoom. by rewrite E. Qed.

Lemma EtcdGet_spec k w r w' : EtcdGet k w = (r, w') →
  etcd_kv (client w') = etcd_kv (client w) ∧ (etcd_up (client w) → etcd_up (client w')) ∧
  (match etcd_view (etcd_kv (client w)) !! k with
   | Some v => r = Ret v
   | None => r = Fail (ErrUnset (fresh w) k) ∧ fresh w' = Pos.succ (fresh w)
   end ∨ (¬ etcd_up (client w) ∧ plain_fault r)).
Proof.
  rewrite etcd_view_lookup. unfold EtcdGet, mbind, M_bind.
  destruct (etcd_Get (etcdPrefix +:+ k) false false (client w)) as [r0 c'] eqn:E.
  rewrite (with_client_eq _ _ _ _ E). destruct (etcd_Get_key _ _ _ _ E) as (Hkv & Hup & Hr).
  destruct Hr as [->|(Hnu & e & -> & He)].
  - destruct (etcd_kv (client w) !! (etcdPrefix +:+ k)) as [v|]; simpl;
      unfold unset, etcd_new, mret, M_ret, mbind, M_bind, fail;
      intros ?; simplify_eq/=; split_and!; auto.
  - intros ?; simplify_eq/=. split_and!; [done..|]. right. split; [done|]. by exists e.
Qed.

Lemma EtcdIter_spec p w r w' : EtcdIter p w = (r, w') →
  etcd_kv (client w') = etcd_kv (client w) ∧ (etcd_up (client w) → etcd_up (client w')) ∧
  ((∃ ks, r = Ret (MkStdIterator 0 ks) ∧ NoDup ks ∧
      ∀ k, k ∈ ks ↔ is_Some (etcd_view (etcd_kv (client w)) !! k) ∧ HasPrefix k p = true)
   ∨ (¬ etcd_up (client w) ∧ r = Panic)).
Proof.
  unfold EtcdIter, attempt, mret, M_ret, panic, mbind, M_bind.
  destruct (etcd_Get (etcdPrefix +:+ p) true true (client w)) as [r0 c'] eqn:E.
  rewrite (with_client_eq _ _ _ _ E). destruct (etcd_Get_prefix _ _ _ _ _ E) as (Hkv & Hup & Hr).
  destruct Hr as [(kvs & -> & Hnd & Hks)|(Hnu & e & -> & He)]; simpl; intros ?; simplify_eq/=.
  - split_and!; [done..|]. left. eexists. split; [done|].
    rewrite trimmed_fst. by apply trimmed_keys.
  - split_and!; [done..|]. by right.
Qed.

End laws.

#[export] Program Instance etcd_KVStoreLaws {S} `{EtcdLaws S} `{RangeOrder} :
    KVStoreLaws (EtcdWorld S) := {
  kv_inv := λ _, True;
  kv_up := λ w, etcd_up (client w);
  kv_view := λ w, etcd_view (etcd_kv (client w))
}.
Next Obligation.
  intros S ? ? ? w k r w' _ E. destruct (EtcdGet_spec _ _ _ _ E) as (Hkv & Hup & Hr).
  rewrite Hkv. split_and!; [done..|]. destruct Hr as [Hr|[Hnu Hr]]; [left|right].
  - destruct (_ !! k); naive_solver.
  - split; [done|]. by right.
Qed.
Next Obligation.
  intros S ? ? ? w k v r w' _ E. simpl in E. unfold EtcdPut, with_client, zoom in E.
  destruct (etcd_Put _ v (client w)) as [r0 c'] eqn:Ep. simplify_eq/=.
  destruct (etcd_Put_law _ _ _ _ _ Ep) as (Hup & Hr). split_and!; [done..|].
  destruct Hr as [[-> Hkv]|(Hnu & Hf & Hkv)]; [left|right].
  - by rewrite Hkv, etcd_view_insert.
  - split_and!; [done|by right|]. destruct Hkv as [-> | ->]; [by left|right].
    apply etcd_view_insert.
Qed.
Next Obligation.
  intros S ? ? ? w k r w' _ E. simpl in E. unfold EtcdDelete, with_client, zoom in E.
  destruct (etcd_Delete _ (client w)) as [r0 c'] eqn:Ep. simplify_eq/=.
  destruct (etcd_Delete_law _ _ _ _ Ep) as (Hup & Hr). split_and!; [done..|].
  destruct Hr as [[-> Hkv]|(Hnu & Hf & Hkv)]; [left|right].
  - by rewrite Hkv, etcd_view_delete.
  - split_and!; [done|by right|]. destruct Hkv as [-> | ->]; [by left|right].
    apply etcd_view_delete.
Qed.
Next Obligation.
  intros S ? ? ? w p r w' _ E. destruct (EtcdIter_spec _ _ _ _ E) as (Hkv & Hup & Hr).
  rewrite Hkv. split_and!; [done..|]. destruct Hr as [Hr|[Hnu ->]]; [by left|right].
  split; [done|]. by left.
Qed.
Next Obligation. intros S ? ? ? w _. eexists _, _. split; [done|]. done. Qed.
Next Obligation.
  intros S ? ? ? w k e w' p w'' x _ E Hp. simpl in *.
  unfold etcd_new in Hp. simplify_eq.
  destruct (EtcdGet_spec _ _ _ _ E) as (_ & _ & [Hr|(_ & e' & [= ->] & He)]).
  - destruct (_ !! k); [done|]. destruct Hr as [[= ->] Hf]. unfold errors_Is. simpl.
    rewrite bool_decide_eq_false_2; [done|]. rewrite Hf. lia.
  - by apply errors_Is_unset.
Qed.

(** ** A server to evaluate on *)

(** A server that holds its key space in a map, with free locks; when it is down
    every call fails and changes nothing. *)
Record map_server : Type := MkServer { srv_kv : gmap string string; srv_up : bool }.

Definition served {A} (m : M (gmap string string) A) : M map_server A := λ s,
  if srv_up s then zoom srv_kv (λ m s, MkServer m (srv_up s)) m s
  else (Fail (ErrExt "unavailable"), s).

Definition server_get (k : string) (prefix : bool) (m : gmap string string) : GetResponse :=
  if prefix then
    let kvs := filter (λ kv, HasPrefix kv.1 k = true) (map_to_list m) in
    MkResp (Z.of_nat (length kvs)) kvs
  else match m !! k with Some v => MkResp 1 [(k, v)] | None => MkResp 0 [] end.

#[export] Instance map_server_client : EtcdClient map_server := {
  etcd_Get k p _ := served (gets (server_get k p));
  etcd_Put k v := served (modify <[k := v]>);
  etcd_Delete k := served (modify (delete k));
  etcd_Txn ops := if decide (128 < length ops)%nat then fail (ErrExt "too many operations in txn request")
                  else served (modify (λ m, foldl apply_op m ops));
  etcd_NewSession := served (mret 1%positive);
  etcd_Lock _ _ := served (mret ());
  etcd_Unlock _ := served (mret ());
  etcd_Close _ := served (mret ())
}.

Ltac server_run :=
  intros [m u]; intros; simpl in *;
  unfold served, zoom, gets, modify, mret, M_ret, plain_fault in *; simpl in *;
  destruct u; simplify_eq/=;
  repeat (split; [intros; solve [done | eauto]|]); eauto 8;
  try (right; split; [done|]; eauto); try (split; [intros; split; eauto|]; done).

#[export] Program Instance map_server_laws : EtcdLaws map_server := {
  etcd_kv := srv_kv;
  etcd_up := λ s, srv_up s = true;
  etcd_max_txn_ops := 128
}.
Next Obligation. server_run. Qed.
Next Obligation.
  intros [m u] p ko r s' E. simpl in *. unfold served, zoom, gets in E. simpl in E.
  destruct u; simplify_eq/=; (split_and!; [done..|]); [left|right].
  - eexists. split; [done|]. split.
    + apply NoDup_fmap_fst; [|apply NoDup_filter, NoDup_map_to_list].
      intros k v1 v2 [_ H1%elem_of_map_to_list]%list_elem_of_filter
        [_ H2%elem_of_map_to_list]%list_elem_of_filter. congruence.
    + intros k. rewrite list_elem_of_fmap. split.
      * intros ([k' v] & -> & [Hp Hk%elem_of_map_to_list]%list_elem_of_filter). eauto.
      * intros [[v Hv] Hp]. exists (k, v). split; [done|].
        apply list_elem_of_filter. split; [done|]. by apply elem_of_map_to_list.
  - split; [done|]. by eexists.
Qed.
Next Obligation. server_run. Qed.
Next Obligation. server_run. Qed.
Next Obligation.
  intros s ops r s' Hnd Hlen. simpl in *. rewrite decide_False by lia. clear Hlen Hnd.
  revert s r s'. server_run.
Qed.
Next Obligation.
  intros s ops r s' Hlen. simpl in *. rewrite decide_True by lia. intros [= <- <-].
  split_and!; [done..|]. by eexists.
Qed.
Next Obligation. server_run. Qed.
Next Obligation. server_run. Qed.
Next Obligation. server_run. Qed.
Next Obligation. server_run. Qed.

(** ** Theorems *)

Section theorems.
Context {S : Type} `{EtcdLaws S} `{RangeOrder}.
Implicit Types (w : EtcdWorld S) (t : EtcdTransaction).

Lemma in_world_eq {A} (m : M (EtcdWorld S) A) w t r w' :
  m w = (r, w') → in_world m (w, t) = (r, (w', t)).
Proof. intros E. unfold in_world, zoom. simpl. by rewrite E. Qed.

Lemma tx_gets_bind {B} (f : EtcdTransaction → M (EtcdWorld S * EtcdTransaction) B) w t :
  (tx_gets id ≫= f) (w, t) = f t (w, t).
Proof. reflexivity. Qed.

(** A write inside the transaction changes what the transaction sees, and nothing else. *)
Lemma do_write_view x w t : ongoingTransaction t = true →
  ∃ t', do_write x (w, t) = (Ret (), (w, t')) ∧ ongoingTransaction t' = true ∧
    session t' = session t ∧ ∀ m, tx_view t' m = apply_write (tx_view t m) x.
Proof.
  intros Ho. destruct x as [k v|k]; simpl;
    unfold EtcdTx_Put, EtcdTx_Delete, tx_gets, gets, tx_modify, modify, mbind, M_bind; simpl;
    rewrite Ho; (eexists; split; [done|]); split_and!; try done;
    intros m; apply map_eq; intros i; rewrite !tx_view_lookup; simpl.
  - destruct (decide (i = k)) as [->|]; [by rewrite !lookup_insert_eq|].
    by rewrite !lookup_insert_ne, tx_view_lookup by done.
  - destruct (decide (i = k)) as [->|].
    + by rewrite !lookup_delete_eq, lookup_insert_eq.
    + by rewrite !lookup_delete_ne, lookup_insert_ne, tx_view_lookup by done.
Qed.

Lemma do_writes_view xs w t : ongoingTransaction t = true →
  ∃ t', for_each xs do_write (w, t) = (Ret (), (w, t')) ∧ ongoingTransaction t' = true ∧
    ∀ m, tx_view t' m = foldl apply_write (tx_view t m) xs.
Proof.
  revert t; induction xs as [|x xs IH]; intros t Ho; simpl.
  { eexists. split; [done|]. done. }
  destruct (do_write_view x w t Ho) as (t1 & E & Ho1 & _ & Hv).
  destruct (IH _ Ho1) as (t2 & E2 & Ho2 & Hv2). exists t2.
  rewrite (bind_Ret _ _ _ _ _ E). split_and!; [done..|]. intros m. by rewrite Hv2, Hv.
Qed.

Lemma slash_key k : HasPrefix k "/" = false →
  HasPrefix (etcdPrefix +:+ k) (etcdPrefix +:+ "/") = false.
Proof. by rewrite HasPrefix_app_l. Qed.

Lemma EtcdTx_Get_view w t k : etcd_up (client w) → ongoingTransaction t = true →
  ∃ w', etcd_kv (client w') = etcd_kv (client w) ∧
    match tx_view t (etcd_view (etcd_kv (client w))) !! k with
    | Some v => EtcdTx_Get k (w, t) = (Ret v, (w', t))
    | None => EtcdTx_Get k (w, t) = (Fail (ErrUnset (fresh w) k), (w', t))
    end.
Proof.
  intros Hu Ho. rewrite tx_view_lookup.
  unfold EtcdTx_Get. rewrite tx_gets_bind, Ho.
  destruct (dataInsert t !! k) as [v|] eqn:Hi; [by exists w|].
  destruct (dataDelete t !! k) as [[]|] eqn:Hd.
  - by exists (MkWorld (client w) (Pos.succ (fresh w))).
  - destruct (EtcdGet k w) as [r w'] eqn:E.
    destruct (EtcdGet_spec _ _ _ _ E) as (Hkv & _ & [Hr|[]]); [|done].
    exists w'. split; [done|]. rewrite (in_world_eq _ _ _ _ _ E).
    destruct (etcd_view _ !! k); destruct_and?; by subst.
Qed.

(** A read inside a transaction sees the transaction's own writes over the
    stored content. *)
Theorem EtcdTx_Get_reads_own_writes w t k : etcd_up (client w) → ongoingTransaction t = true →
  ∃ w', etcd_kv (client w') = etcd_kv (client w) ∧
    match tx_view t (etcd_view (etcd_kv (client w))) !! k with
    | Some v => EtcdTx_Get k (w, t) = (Ret v, (w', t))
    | None => EtcdTx_Get k (w, t) = (Fail (ErrUnset (fresh w) k), (w', t))
    end.
Proof. apply EtcdTx_Get_view. Qed.

Lemma EtcdTx_Commit_eq w t : etcd_up (client w) → ongoingTransaction t = true →
  (length (commit_ops t) ≤ etcd_max_txn_ops)%nat →
  ∃ w', EtcdTx_Commit (w, t) = (Ret (), (w', end_tx t)) ∧ etcd_up (client w') ∧
    ∀ k, HasPrefix k "/" = false →
      etcd_view (etcd_kv (client w')) !! k = tx_view t (etcd_view (etcd_kv (client w))) !! k.
Proof.
  intros Hu Ho Hlen.
  unfold EtcdTx_Commit. rewrite tx_gets_bind, Ho.
  destruct (etcd_Txn (commit_ops t) (client w)) as [r1 c1] eqn:E1.
  destruct (etcd_Txn_law _ _ _ _ (commit_ops_NoDup t) Hlen E1) as [Hu1 [[-> Hkv1]|[]]]; [|done].
  erewrite bind_Ret by (apply in_world_eq, with_client_eq, E1). simpl.
  destruct (etcd_Close (session t) c1) as [r2 c2] eqn:E2.
  destruct (etcd_Close_law _ _ _ _ E2) as [Hu2 Hkv2]. destruct (Hu2 (Hu1 Hu)) as [Hup2 ->].
  unfold attempt. unfold mbind at 1, M_bind at 1.
  rewrite (in_world_eq _ _ _ _ _ (with_client_eq _ (MkWorld c1 (fresh w)) _ _ E2)).
  destruct (etcd_Unlock (session t) c2) as [r3 c3] eqn:E3.
  destruct (etcd_Unlock_law _ _ _ _ E3) as [Hu3 Hkv3]. destruct (Hu3 Hup2) as [Hup3 ->].
  erewrite bind_Ret by (apply in_world_eq, with_client_eq, E3). simpl.
  eexists. split; [done|]. split; [done|]. intros k Hk. simpl.
  rewrite etcd_view_lookup, Hkv3, Hkv2 by (by apply slash_key).
  by rewrite <-etcd_view_lookup, Hkv1, commit_ops_view.
Qed.

Lemma EtcdTx_Commit_fails w t e c' : ongoingTransaction t = true →
  etcd_Txn (commit_ops t) (client w) = (Fail e, c') →
  EtcdTx_Commit (w, t) = (Fail e, (MkWorld c' (fresh w), t)).
Proof.
  intros Ho E. unfold EtcdTx_Commit. rewrite tx_gets_bind, Ho.
  erewrite bind_Fail; [done|]. by apply in_world_eq, with_client_eq.
Qed.

(** A key reads in the store as it did in the transaction when the views agree on it. *)
Lemma reads_agree w w' t k : etcd_up (client w) → etcd_up (client w') → ongoingTransaction t = true →
  etcd_view (etcd_kv (client w')) !! k = tx_view t (etcd_view (etcd_kv (client w))) !! k →
  ∀ v, (EtcdTx_Get k (w, t)).1 = Ret v ↔ (EtcdGet k w').1 = Ret v.
Proof.
  intros Hu Hu' Ho Hv v. destruct (EtcdTx_Get_view w t k Hu Ho) as (w1 & _ & E).
  destruct (EtcdGet k w') as [r w2] eqn:E2.
  destruct (EtcdGet_spec _ _ _ _ E2) as (_ & _ & [Hr|[]]); [|done]. rewrite Hv in Hr.
  destruct (tx_view _ _ !! k); rewrite E; simpl; [by rewrite Hr|]. by destruct Hr as [-> _].
Qed.

(** C2: [Commit] on a server that answers sends one server transaction in which no key
    occurs twice. If it has no more operations than the server allows, the transaction
    ends and the store holds what the transaction saw: every key reads afterwards as it
    did through the transaction's [Get] before, except for the keys that start with a
    slash, which are those of the lock. If it has more, [Commit] fails, the store is as it
    was and the transaction stays open. *)
Theorem EtcdTx_Commit_installs_view w t : etcd_up (client w) → ongoingTransaction t = true →
  NoDup (op_key <$> commit_ops t) ∧
  if decide (length (commit_ops t) ≤ etcd_max_txn_ops)%nat then
    ∃ w', EtcdTx_Commit (w, t) = (Ret (), (w', end_tx t)) ∧ etcd_up (client w') ∧
      ∀ k, HasPrefix k "/" = false →
        etcd_view (etcd_kv (client w')) !! k = tx_view t (etcd_view (etcd_kv (client w))) !! k ∧
        ∀ v, (EtcdTx_Get k (w, t)).1 = Ret v ↔ (EtcdGet k w').1 = Ret v
  else
    ∃ e w', EtcdTx_Commit (w, t) = (Fail e, (w', t)) ∧ etcd_up (client w') ∧
      etcd_kv (client w') = etcd_kv (client w).
Proof.
  intros Hu Ho. split; [apply commit_ops_NoDup|]. case_decide as Hlen.
  - destruct (EtcdTx_Commit_eq w t Hu Ho Hlen) as (w' & E & Hu' & Hv).
    exists w'. split_and!; [done..|]. intros k Hk. specialize (Hv k Hk). split; [done|].
    by apply (reads_agree w w' t k).
  - destruct (etcd_Txn (commit_ops t) (client w)) as [r c'] eqn:E.
    destruct (etcd_Txn_refused _ _ _ _ (proj1 (Nat.nle_gt _ _) Hlen) E) as (Hu' & Hkv & e & -> & _).
    exists e, (MkWorld c' (fresh w)). split_and!; [by apply EtcdTx_Commit_fails|by apply Hu'|done].
Qed.

(** When the server rejects the transaction or cannot be reached, [Commit]
    returns the error and leaves the transaction open, for [Rollback] to end. *)
Theorem EtcdTx_Commit_error_stays_open w t e c' : ongoingTransaction t = true →
  etcd_Txn (commit_ops t) (client w) = (Fail e, c') →
  EtcdTx_Commit (w, t) = (Fail e, (MkWorld c' (fresh w), t)).
Proof. apply EtcdTx_Commit_fails. Qed.

(** Once ended, a transaction refuses reads, writes and a second [Commit],
    none of which change anything, and [Rollback] does nothing. *)
Theorem EtcdTx_ended w t k v : ongoingTransaction t = false →
  (∃ e, EtcdTx_Get k (w, t) = (Fail e, (w, t))) ∧
  (∃ e, EtcdTx_Put k v (w, t) = (Fail e, (w, t))) ∧
  (∃ e, EtcdTx_Delete k (w, t) = (Fail e, (w, t))) ∧
  (∃ e, EtcdTx_Commit (w, t) = (Fail e, (w, t))) ∧
  EtcdTx_Rollback (w, t) = (Ret (), (w, t)).
Proof.
  intros Ho. destruct t as [i d o s]; simpl in Ho; subst. repeat split; eauto.
Qed.

(** The iterator of a transaction lists the keys the transaction sees, but it
    lists a key twice exactly when the key is stored, not deleted, and written again. *)
Theorem EtcdTx_Iterator_keys w t p : etcd_up (client w) →
  let m := etcd_view (etcd_kv (client w)) in
  ∃ ks w', EtcdTx_Iterator p (w, t) = (Ret (MkStdIterator 0 ks), (w', t)) ∧
    (∀ k, k ∈ ks ↔ is_Some (tx_view t m !! k) ∧ HasPrefix k p = true) ∧
    (NoDup ks ↔ ∀ k, HasPrefix k p = true → is_Some (m !! k) → dataDelete t !! k = None →
                     dataInsert t !! k = None).
Proof.
  intros Hu m. unfold EtcdTx_Iterator.
  destruct (etcd_Get (etcdPrefix +:+ p) true false (client w)) as [r c'] eqn:E.
  destruct (etcd_Get_prefix _ _ _ _ _ E) as (Hkv & _ & [(kvs & -> & Hnd & Hks)|[]]); [|done].
  erewrite bind_Ret by (apply in_world_eq, with_client_eq, E).
  unfold tx_gets, gets, mbind, M_bind. simpl. eexists _, _. split; [done|].
  rewrite trimmed_fst.
  set (st := (λ k, TrimPrefix k etcdPrefix) <$> kvs.*1).
  destruct (trimmed_keys _ _ _ Hnd Hks) as [Hst Hst']. fold st in Hst, Hst'.
  split.
  - intros k. rewrite elem_of_app, !list_elem_of_filter, Hst', range_keys_elem, tx_view_lookup.
    destruct (dataInsert t !! k) as [v|], (dataDelete t !! k) as [[]|];
      split; intros; destruct_and?; destruct_or?; destruct_and?; eauto; naive_solver.
  - rewrite NoDup_app. split.
    + intros (_ & Hdis & _) k Hp Hm Hd. apply eq_None_not_Some. intros Hi.
      apply (Hdis k); [|]; apply list_elem_of_filter; (split; [done|]).
      * by apply Hst'.
      * by apply range_keys_elem.
    + intros Hall. split_and!.
      * by apply NoDup_filter.
      * intros k [Hd [Hm Hp]%Hst']%list_elem_of_filter [_ Hi%range_keys_elem]%list_elem_of_filter.
        rewrite (Hall k) in Hi by done. by apply is_Some_None in Hi.
      * apply NoDup_filter, NoDup_range_keys.
Qed.

End theorems.

(** ** Concrete runs *)

Definition demo_world : EtcdWorld map_server :=
  MkWorld (MkServer {["delegatioRegionchallenge-a" := "1"; "delegatioRegionuuid-b" := "2"]} true) 1.
Definition down_world : EtcdWorld map_server := MkWorld (MkServer ∅ false) 1.
Definition demo_tx : EtcdTransaction :=
  MkEtcdTx {["challenge-a" := "3"]} {["uuid-b" := ()]} true 1.
Definition demo_ended : EtcdTransaction := MkEtcdTx ∅ ∅ false 1.

Lemma EtcdTx_Get_reads_own_writes_witness :
  tx_view demo_tx (etcd_view (etcd_kv (client demo_world))) !! "challenge-a" = Some "3" ∧
  ∃ w', etcd_kv (client w') = etcd_kv (client demo_world) ∧
    EtcdTx_Get "challenge-a" (demo_world, demo_tx) = (Ret "3", (w', demo_tx)).
Proof.
  split; [reflexivity|].
  exact (EtcdTx_Get_reads_own_writes demo_world demo_tx "challenge-a" eq_refl eq_refl).
Defined.

Lemma EtcdTx_Commit_installs_view_witness :
  let R := range_canonical in
  ∃ w', EtcdTx_Commit (demo_world, demo_tx) = (Ret (), (w', end_tx demo_tx)) ∧
    etcd_view (etcd_kv (client w')) !! "challenge-a" = Some "3" ∧
    etcd_view (etcd_kv (client w')) !! "uuid-b" = None ∧ (EtcdGet "challenge-a" w').1 = Ret "3".
Proof.
  intros R.
  assert (length (commit_ops demo_tx) ≤ etcd_max_txn_ops)%nat as Hlen
    by (apply Nat.leb_le; vm_compute; reflexivity).
  destruct (EtcdTx_Commit_installs_view (H0 := map_server_laws) demo_world demo_tx eq_refl eq_refl) as [_ Hc].
  rewrite decide_True in Hc by exact Hlen.
  destruct Hc as (w' & Hc & _ & Hv). exists w'. split; [exact Hc|]. split_and!.
  - rewrite (proj1 (Hv "challenge-a" eq_refl)). vm_compute. reflexivity.
  - rewrite (proj1 (Hv "uuid-b" eq_refl)). vm_compute. reflexivity.
  - apply (proj2 (Hv "challenge-a" eq_refl)). vm_compute. reflexivity.
Defined.

Lemma EtcdTx_Commit_error_stays_open_witness :
  let R := range_canonical in
  EtcdTx_Commit (down_world, demo_tx) = (Fail (ErrExt "unavailable"), (down_world, demo_tx)).
Proof.
  intros R.
  apply (EtcdTx_Commit_error_stays_open down_world demo_tx (ErrExt "unavailable") (client down_world)
    eq_refl). vm_compute. reflexivity.
Defined.

Lemma EtcdTx_ended_witness :
  let R := range_canonical in
  ∃ e, EtcdTx_Commit (demo_world, demo_ended) = (Fail e, (demo_world, demo_ended)).
Proof. intros R. apply (EtcdTx_ended demo_world demo_ended "k" "v" eq_refl). Defined.

Lemma EtcdTx_Iterator_keys_witness :
  let R := range_canonical in
  ∃ ks w', EtcdTx_Iterator "challenge-" (demo_world, demo_tx) =
      (Ret (MkStdIterator 0 ks), (w', demo_tx)) ∧ ¬ NoDup ks.
Proof.
  intros R. destruct (EtcdTx_Iterator_keys (H0 := map_server_laws) demo_world demo_tx "challenge-" eq_refl)
    as (ks & w' & Hi & _ & Hnd).
  exists ks, w'. split; [exact Hi|]. rewrite Hnd. intros Hall.
  specialize (Hall "challenge-a" eq_refl ltac:(vm_compute; eauto) eq_refl).
  vm_compute in Hall. discriminate.
Defined.
