(* ===== verification/StoreWrapper.v ===== *)
(** internal/storewrapper/storewrapper.go: typed access to a store.

    The wrapper is verified against the interface [KVStoreLaws]; [records] is its
    abstract state: the records of each kind, under their own names. *)
From S2P Require Import Prelude Config StoreApi.

Definition challengeLocationPrefix : string := "challenge-".
Definition publicKeyPrefix : string := "publickey-".
Definition uuidKeyPrefix : string := "uuid-".
Definition privKeyLocation : string := "privkey-ssh".

Section operations.
Context {S : Type} `{KVStore S}.

(** [json.Marshal] and [json.Unmarshal] as calls. *)
Definition marshal {A} `{Json A} (target : A) : M S string :=
  match json_Marshal target with inl e => fail e | inr s => mret s end.
Definition unmarshal {A} `{Json A} (data : string) : M S A :=
  match json_Unmarshal data with inl e => fail e | inr a => mret a end.

Definition PutChallengeData {A} `{Json A} (challengeName : string) (target : A) : M S () :=
  challengeData ← marshal target;
  kv_Put (challengeLocationPrefix +:+ challengeName) challengeData.

Definition GetChallengeData {A} `{Json A} (challengeName : string) : M S A :=
  challengeData ← kv_Get (challengeLocationPrefix +:+ challengeName);
  unmarshal challengeData.

(** The target of [errors.Is] is a new [&store.ValueUnsetError{}]. *)
Definition ChallengeExists (challengeName : string) : M S bool :=
  r ← attempt (kv_Get (challengeLocationPrefix +:+ challengeName));
  p ← kv_new;
  match r with
  | inl err => if errors_Is err (ErrUnset p "") then mret false else fail err
  | inr _ => mret true
  end.

(** The loop of [GetAllChallenges] and [GetAllPublicKeys]. *)
Definition get_all {A} (prefix : string) (get : string → M S A) : M S (gmap string A) :=
  it ← kv_Iterator prefix;
  iterate it (λ key acc,
    let key := TrimPrefix key prefix in
    value ← get key;
    mret (<[key := value]> acc)) ∅.

Definition GetAllChallenges `{Json ContainerInformation}
    : M S (gmap string ContainerInformation) :=
  get_all challengeLocationPrefix GetChallengeData.

Definition PutDataIdxByPubKey {A} `{Json A} (pubkey : string) (target : A) : M S () :=
  publicKeyData ← marshal target;
  kv_Put (publicKeyPrefix +:+ pubkey) publicKeyData.

Definition PutDataIdxByUuid {A} `{Json A} (uuid : string) (target : A) : M S () :=
  publicKeyData ← marshal target;
  kv_Put (uuidKeyPrefix +:+ uuid) publicKeyData.

Definition GetPublicKeyData {A} `{Json A} (publickey : string) : M S A :=
  publicKeyData ← kv_Get (publicKeyPrefix +:+ publickey);
  unmarshal publicKeyData.

Definition GetPublicKeyUuid {A} `{Json A} (uuid : string) : M S A :=
  uuidData ← kv_Get (uuidKeyPrefix +:+ uuid);
  unmarshal uuidData.

Definition PublicKeyExists (publicKey : string) : M S bool :=
  r ← attempt (kv_Get (publicKeyPrefix +:+ publicKey));
  match r with
  | inl err => if errors_As_unset err then mret false else fail err
  | inr _ => mret true
  end.

Definition UuidExists (uuid : string) : M S bool :=
  r ← attempt (kv_Get (uuidKeyPrefix +:+ uuid));
  match r with
  | inl err => if errors_As_unset err then mret false else fail err
  | inr _ => mret true
  end.

Definition GetAllPublicKeys `{Json UserInformation} : M S (gmap string UserInformation) :=
  get_all publicKeyPrefix GetPublicKeyData.

Definition GetAllKeys : M S (list string) :=
  it ← kv_Iterator "";
  iterate it (λ key acc, mret (acc ++ [key])) [].

Definition PutPrivKey (privkey : string) : M S () := kv_Put privKeyLocation privkey.

Definition GetPrivKey : M S string := kv_Get privKeyLocation.

End operations.

(** ** The abstract state *)

(** The records of each kind, as stored (encoded). *)
Record records : Type := MkRecords {
  challenges : gmap string string;
  publickeys : gmap string string;
  uuids : gmap string string;
  privkey : option string
}.

Definition records_of (m : gmap string string) : records := {|
  challenges := sub_map challengeLocationPrefix m;
  publickeys := sub_map publicKeyPrefix m;
  uuids := sub_map uuidKeyPrefix m;
  privkey := m !! privKeyLocation
|}.

Definition set_challenge k v r :=
  MkRecords (<[k := v]> (challenges r)) (publickeys r) (uuids r) (privkey r).
Definition set_publickey k v r :=
  MkRecords (challenges r) (<[k := v]> (publickeys r)) (uuids r) (privkey r).
Definition set_uuid k v r :=
  MkRecords (challenges r) (publickeys r) (<[k := v]> (uuids r)) (privkey r).
Definition set_privkey v r :=
  MkRecords (challenges r) (publickeys r) (uuids r) (Some v).

(** The decoded records of a kind, when all of them decode. *)
Definition decodes {A} `{Json A} (m : gmap string string) (d : gmap string A) : Prop :=
  ∀ k, match m !! k with
       | Some s => ∃ a, json_Unmarshal s = inr a ∧ d !! k = Some a
       | None => d !! k = None
       end.

(** ** Lemmas *)

(** The kinds' keys are apart: none of the prefixes is a prefix of another. *)
Lemma records_of_challenge k v m :
  records_of (<[challengeLocationPrefix +:+ k := v]> m) = set_challenge k v (records_of m).
Proof.
  unfold records_of, set_challenge. simpl.
  rewrite sub_map_insert, !sub_map_insert_other by reflexivity.
  by rewrite lookup_insert_ne by discriminate.
Qed.

Lemma records_of_publickey k v m :
  records_of (<[publicKeyPrefix +:+ k := v]> m) = set_publickey k v (records_of m).
Proof.
  unfold records_of, set_publickey. simpl.
  rewrite sub_map_insert, !sub_map_insert_other by reflexivity.
  by rewrite lookup_insert_ne by discriminate.
Qed.

Lemma records_of_uuid k v m :
  records_of (<[uuidKeyPrefix +:+ k := v]> m) = set_uuid k v (records_of m).
Proof.
  unfold records_of, set_uuid. simpl.
  rewrite sub_map_insert, !sub_map_insert_other by reflexivity.
  by rewrite lookup_insert_ne by discriminate.
Qed.

Lemma records_of_privkey v m :
  records_of (<[privKeyLocation := v]> m) = set_privkey v (records_of m).
Proof.
  unfold records_of, set_privkey. simpl.
  rewrite !sub_map_insert_other by reflexivity. by rewrite lookup_insert_eq.
Qed.

Section up.
Context {S : Type} `{KVStoreLaws S}.

(** A reachable store whose content is [m]. *)
Definition holds (s : S) (m : gmap string string) : Prop :=
  kv_inv s ∧ kv_up s ∧ kv_view s = m.

Lemma marshal_eq {A} `{JsonLaws A} (a : A) (s : S) : json_ok a →
  ∃ d, marshal a s = (Ret d, s) ∧ json_Unmarshal d = inr a.
Proof. intros (d & E & Hd)%json_round_trip. exists d. unfold marshal. by rewrite E. Qed.

Lemma put_holds s m k v : holds s m →
  ∃ s', kv_Put k v s = (Ret (), s') ∧ holds s' (<[k := v]> m).
Proof.
  intros (Hi & Hu & <-). destruct (kv_Put_up s k v Hi Hu) as (s' & E & Hi' & Hu' & Hv).
  exists s'. by repeat split.
Qed.

Lemma get_holds s m k : holds s m → ∃ s', holds s' m ∧
  match m !! k with
  | Some v => kv_Get k s = (Ret v, s')
  | None => ∃ p, kv_Get k s = (Fail (ErrUnset p k), s')
  end.
Proof.
  intros (Hi & Hu & <-). destruct (kv_Get_up s k Hi Hu) as (s' & Hi' & Hu' & Hv & E).
  exists s'. split; [by repeat split|done].
Qed.

(** Storing an encodable value under a key, then reading it back. *)
Lemma put_value s m (f : string → M S ()) p k {A} `{JsonLaws A} (a : A) :
  f = (λ k, d ← marshal a; kv_Put (p +:+ k) d) → json_ok a → holds s m →
  ∃ d s', f k s = (Ret (), s') ∧ json_Unmarshal d = inr a ∧ holds s' (<[p +:+ k := d]> m).
Proof.
  intros -> Ha Hs. destruct (marshal_eq a s Ha) as (d & E & Hd).
  destruct (put_holds s m (p +:+ k) d Hs) as (s' & E' & Hs'). exists d, s'.
  by rewrite (bind_Ret _ _ _ _ _ E).
Qed.

Lemma get_value s m k {A} `{Json A} (a : A) d : holds s m → m !! k = Some d →
  json_Unmarshal d = inr a → ∃ s', (x ← kv_Get k; unmarshal x) s = (Ret a, s') ∧ holds s' m.
Proof.
  intros Hs Hk Hd. destruct (get_holds s m k Hs) as (s' & Hs' & E). rewrite Hk in E.
  exists s'. rewrite (bind_Ret _ _ _ _ _ E). unfold unmarshal. by rewrite Hd.
Qed.

Lemma exists_value s m k : holds s m →
  ∃ s', (r ← attempt (kv_Get k);
         match r with
         | inl err => if errors_As_unset err then mret false else fail err
         | inr _ => mret true
         end) s = (Ret (bool_decide (is_Some (m !! k))), s') ∧ holds s' m.
Proof.
  intros Hs. destruct (get_holds s m k Hs) as (s' & Hs' & E). exists s'. split; [|done].
  unfold attempt, mbind, M_bind. destruct (m !! k) as [v|].
  - by rewrite E.
  - by destruct E as [p ->].
Qed.

(** The [get_all] loop over the keys still to visit. *)
Lemma get_all_loop {A} `{Json A} p m ks (acc : gmap string A) s d : holds s m →
  (∀ k, k ∈ ks → is_Some (m !! k) ∧ HasPrefix k p = true) → decodes (sub_map p m) d →
  ∃ s', fold_m (λ key acc,
      value ← (x ← kv_Get (p +:+ TrimPrefix key p); unmarshal x);
      mret (<[TrimPrefix key p := value]> acc)) ks acc s =
    (Ret (filter (λ kv, p +:+ kv.1 ∈ ks) d ∪ acc), s') ∧ holds s' m.
Proof.
  intros Hs Hks Hd. revert s acc Hs Hks; induction ks as [|k ks IH]; intros s acc Hs Hks; simpl.
  { exists s. split; [|done]. unfold mret, M_ret. do 2 f_equal.
    assert (filter (λ kv, p +:+ kv.1 ∈ @nil string) d = ∅) as ->.
    { apply map_empty. intros i. apply map_lookup_filter_None. right.
      intros x _. apply not_elem_of_nil. }
    by rewrite (left_id_L ∅ (∪)). }
  destruct (Hks k) as [[v Hk] Hp]; [by left|].
  apply HasPrefix_inv in Hp as [k' ->]. autorewrite with go_string.
  pose proof (Hd k') as Hk'. rewrite sub_map_lookup, Hk in Hk'. destruct Hk' as (a & Ha & Hda).
  destruct (get_value s m _ a v Hs Hk Ha) as (s1 & E1 & Hs1).
  unfold mbind at 1, M_bind at 1. rewrite (bind_Ret _ _ _ _ _ E1). unfold mret at 1, M_ret at 1.
  destruct (IH s1 (<[k' := a]> acc) Hs1) as (s2 & E2 & Hs2).
  { intros i Hi. apply Hks. by right. }
  exists s2. split; [|done]. rewrite E2. do 2 f_equal. apply map_eq. intros i.
  apply option_eq. intros x. rewrite !lookup_union_Some_raw, !map_lookup_filter_Some.
  rewrite !map_lookup_filter_None. simpl.
  destruct (decide (i = k')) as [->|Hne].
  - rewrite lookup_insert_eq. split.
    + intros [[? ?]|[_ ?]]; left; (split; [congruence|set_solver]).
    + intros [[? ?]|[[?|Hno] ?]]; [|congruence|].
      * destruct (decide (p +:+ k' ∈ ks)); [by left|right].
        split; [|congruence]. right. set_solver.
      * exfalso. apply (Hno a Hda). by left.
  - rewrite lookup_insert_ne by done.
    assert (p +:+ i ∈ (p +:+ k') :: ks ↔ p +:+ i ∈ ks) as Heq.
    { rewrite elem_of_cons. split; [|by right]. intros [?%str_app_inj|?]; done. }
    setoid_rewrite Heq. done.
Qed.
End up.

Section get_all.
Context {S : Type} `{KVStoreLaws S}.

(** On a reachable store whose records of the kind decode, the loop returns them all. *)
Lemma get_all_eq {A} `{Json A} p (get : string → M S A) s m d :
  get = (λ k, x ← kv_Get (p +:+ k); unmarshal x) → holds s m → decodes (sub_map p m) d →
  ∃ s', get_all p get s = (Ret d, s') ∧ holds s' m.
Proof.
  intros -> (Hi & Hu & Hv) Hd. subst m.
  destruct (kv_Iterator_up s p Hi Hu) as (ks & s1 & E & Hi1 & Hu1 & Hv1 & _ & Hks).
  destruct (get_all_loop p (kv_view s) ks ∅ s1 d) as (s2 & E2 & Hs2); [done|by apply Hks|done|].
  exists s2. split; [|done]. unfold get_all. rewrite (bind_Ret _ _ _ _ _ E), iterate_fold.
  etransitivity; [exact E2|]. do 2 f_equal. rewrite (right_id_L ∅ (∪)).
  apply map_filter_id. intros k a Hk. simpl. apply Hks. split; [|apply HasPrefix_app].
  specialize (Hd k). rewrite sub_map_lookup in Hd.
  destruct (kv_view s !! (p +:+ k)); [eauto|congruence].
Qed.

Lemma collect_loop ks (acc : list string) (s : S) :
  fold_m (λ key acc, mret (acc ++ [key])) ks acc s = (Ret (acc ++ ks), s).
Proof.
  revert acc; induction ks as [|k ks IH]; intros acc; simpl; [by rewrite app_nil_r|].
  unfold mbind, M_bind, mret at 1, M_ret at 1. rewrite IH. by rewrite <-app_assoc.
Qed.

Lemma all_keys_holds (s : S) m : holds s m →
  ∃ ks s', GetAllKeys s = (Ret ks, s') ∧ holds s' m ∧ NoDup ks ∧ ∀ k, k ∈ ks ↔ is_Some (m !! k).
Proof.
  intros (Hi & Hu & <-).
  destruct (kv_Iterator_up s "" Hi Hu) as (ks & s1 & E & Hi1 & Hu1 & Hv & Hnd & Hks).
  exists ks, s1. unfold GetAllKeys. rewrite (bind_Ret _ _ _ _ _ E), iterate_fold, collect_loop.
  split_and!; [done..|]. intros k. rewrite Hks. split; [by intros []|intros ?; split; [done|]].
  by destruct k.
Qed.
End get_all.

(** ** Theorems *)

Section theorems.
Context {S : Type} `{KVStoreLaws S}.

(** On a reachable store each [Put] of the wrapper succeeds and updates the one
    record it names, of its own kind; every record of the other kinds and the ssh
    key are as before. *)
Theorem puts_update_one_record {A} `{JsonLaws A} s m k (a : A) key : holds s m → json_ok a →
  (∃ d s', PutChallengeData k a s = (Ret (), s') ∧ json_Unmarshal d = inr a ∧
     records_of (kv_view s') = set_challenge k d (records_of m)) ∧
  (∃ d s', PutDataIdxByPubKey k a s = (Ret (), s') ∧ json_Unmarshal d = inr a ∧
     records_of (kv_view s') = set_publickey k d (records_of m)) ∧
  (∃ d s', PutDataIdxByUuid k a s = (Ret (), s') ∧ json_Unmarshal d = inr a ∧
     records_of (kv_view s') = set_uuid k d (records_of m)) ∧
  (∃ s', PutPrivKey key s = (Ret (), s') ∧
     records_of (kv_view s') = set_privkey key (records_of m)).
Proof.
  intros Hs Ha. split_and!.
  - destruct (put_value s m (λ k, PutChallengeData k a) _ k a eq_refl Ha Hs) as (d & s' & E & Hd & _ & _ & Hv).
    exists d, s'. by rewrite Hv, records_of_challenge.
  - destruct (put_value s m (λ k, PutDataIdxByPubKey k a) _ k a eq_refl Ha Hs) as (d & s' & E & Hd & _ & _ & Hv).
    exists d, s'. by rewrite Hv, records_of_publickey.
  - destruct (put_value s m (λ k, PutDataIdxByUuid k a) _ k a eq_refl Ha Hs) as (d & s' & E & Hd & _ & _ & Hv).
    exists d, s'. by rewrite Hv, records_of_uuid.
  - destruct (put_holds s m privKeyLocation key Hs) as (s' & E & _ & _ & Hv).
    exists s'. by rewrite Hv, records_of_privkey.
Qed.

(** What is put under a name is what the matching [Get] returns. *)
Theorem records_round_trip {A} `{JsonLaws A} s m k (a : A) key : holds s m → json_ok a →
  (∃ s' s'', PutChallengeData k a s = (Ret (), s') ∧ GetChallengeData k s' = (Ret a, s'')) ∧
  (∃ s' s'', PutDataIdxByPubKey k a s = (Ret (), s') ∧ GetPublicKeyData k s' = (Ret a, s'')) ∧
  (∃ s' s'', PutDataIdxByUuid k a s = (Ret (), s') ∧ GetPublicKeyUuid k s' = (Ret a, s'')) ∧
  (∃ s' s'', PutPrivKey key s = (Ret (), s') ∧ GetPrivKey s' = (Ret key, s'')).
Proof.
  intros Hs Ha.
  assert (∀ (f : string → M S ()) p, f = (λ k, d ← marshal a; kv_Put (p +:+ k) d) →
    ∃ s' s'', f k s = (Ret (), s') ∧ (x ← kv_Get (p +:+ k); unmarshal x) s' = (Ret a, s'')) as Hrt.
  { intros f p Hf. destruct (put_value s m f p k a Hf Ha Hs) as (d & s' & E & Hd & Hs').
    destruct (get_value s' _ (p +:+ k) a d Hs') as (s'' & E' & _);
      [apply lookup_insert_eq|done|]. eauto. }
  split_and!; [by apply (Hrt (λ k, PutChallengeData k a))|by apply (Hrt (λ k, PutDataIdxByPubKey k a))
              |by apply (Hrt (λ k, PutDataIdxByUuid k a))|].
  destruct (put_holds s m privKeyLocation key Hs) as (s' & E & Hs').
  destruct (get_holds s' _ privKeyLocation Hs') as (s'' & _ & E').
  rewrite lookup_insert_eq in E'. eauto.
Qed.

(** [GetAllPublicKeys] and [GetAllChallenges] return exactly the records of their
    kind, decoded, under their own names, and leave the store as it is. *)
Theorem get_all_records `{Json UserInformation} `{Json ContainerInformation} s m users conts :
  holds s m →
  decodes (publickeys (records_of m)) users → decodes (challenges (records_of m)) conts →
  (∃ s', GetAllPublicKeys s = (Ret users, s') ∧ kv_view s' = m) ∧
  (∃ s', GetAllChallenges s = (Ret conts, s') ∧ kv_view s' = m).
Proof.
  intros Hs Hu Hc. split.
  - destruct (get_all_eq publicKeyPrefix GetPublicKeyData s m users eq_refl Hs Hu)
      as (s' & E & _ & _ & Hv). by exists s'.
  - destruct (get_all_eq challengeLocationPrefix GetChallengeData s m conts eq_refl Hs Hc)
      as (s' & E & _ & _ & Hv). by exists s'.
Qed.

(** [PublicKeyExists] and [UuidExists] say on a reachable store whether the record
    is there. *)
Theorem exists_exact s m k : holds s m →
  (∃ s', PublicKeyExists k s =
     (Ret (bool_decide (is_Some (publickeys (records_of m) !! k))), s') ∧ kv_view s' = m) ∧
  (∃ s', UuidExists k s =
     (Ret (bool_decide (is_Some (uuids (records_of m) !! k))), s') ∧ kv_view s' = m).
Proof.
  intros Hs. simpl. rewrite !sub_map_lookup. split.
  - destruct (exists_value s m (publicKeyPrefix +:+ k) Hs) as (s' & E & _ & _ & Hv). by exists s'.
  - destruct (exists_value s m (uuidKeyPrefix +:+ k) Hs) as (s' & E & _ & _ & Hv). by exists s'.
Qed.

(** [ChallengeExists] compares the store's error with the address of a new error
    value, so it never answers false: on a reachable store a missing challenge is
    reported as the error of the lookup. *)
Theorem ChallengeExists_never_false s k : kv_inv s →
  (∀ s', ChallengeExists k s ≠ (Ret false, s')) ∧
  (kv_up s → challenges (records_of (kv_view s)) !! k = None →
   ∃ p s', ChallengeExists k s = (Fail (ErrUnset p (challengeLocationPrefix +:+ k)), s')).
Proof.
  intros Hi. simpl. rewrite sub_map_lookup. set (key := challengeLocationPrefix +:+ k).
  assert (∀ e s1, kv_Get key s = (Fail e, s1) → ∃ s2, ChallengeExists k s = (Fail e, s2)) as Hfail.
  { intros e s1 E. destruct (kv_Get_law _ _ _ _ Hi E) as (Hi1 & _).
    destruct (kv_new_law s1 Hi1) as (p & s2 & En & _). exists s2.
    unfold ChallengeExists, attempt, mbind, M_bind. fold key. rewrite E, En.
    by rewrite (kv_new_fresh s key e s1 p s2 "" Hi E En). }
  split.
  - intros s' Hc. destruct (kv_Get key s) as [r s1] eqn:E.
    assert (∀ e, r ≠ Fail e) as Hr.
    { intros e ->. destruct (Hfail e s1 eq_refl) as [s2 E2]. congruence. }
    revert Hc. unfold ChallengeExists, attempt, mbind, M_bind. fold key. rewrite E.
    destruct r as [v|e| |]; [|by destruct (Hr e)|done..]. by destruct (kv_new s1) as [[] ?].
  - intros Hu Hk. destruct (kv_Get_up s key Hi Hu) as (s1 & _ & _ & _ & E). rewrite Hk in E.
    destruct E as [p E]. destruct (Hfail _ _ E) as [s2 ->]. eauto.
Qed.

(** [GetAllKeys] lists every key of the store, each once. *)
Theorem GetAllKeys_complete s m : holds s m →
  ∃ ks s', GetAllKeys s = (Ret ks, s') ∧ kv_view s' = m ∧ NoDup ks ∧
    ∀ k, k ∈ ks ↔ is_Some (m !! k).
Proof.
  intros Hs. destruct (all_keys_holds s m Hs) as (ks & s' & E & (_ & _ & Hv) & Hn).
  by exists ks, s'.
Qed.

End theorems.

(** ** Concrete runs, on the in-memory store *)

From S2P Require Import StdStore.

Definition alice : UserInformation := MkUser "" "" "" "" "alice-1" "" "" "" ∅.

Lemma new_store_holds : let R := range_canonical in holds NewStdStore ∅.
Proof. intros R. exact (conj (conj wf_init eq_refl) (conj I eq_refl)). Qed.

Lemma puts_update_one_record_witness :
  let R := range_canonical in let J := uuid_json in
  ∃ d s', PutDataIdxByUuid "alice-1" alice NewStdStore = (Ret (), s') ∧
    records_of (kv_view s') = set_uuid "alice-1" d (records_of ∅).
Proof.
  intros R J.
  destruct (puts_update_one_record (H2 := uuid_json_laws) _ _ "alice-1" alice "key"
    new_store_holds eq_refl) as (_ & _ & (d & s' & E & _ & Hr) & _).
  exists d, s'. auto.
Defined.

Lemma records_round_trip_witness :
  let R := range_canonical in let J := uuid_json in
  ∃ s' s'', PutDataIdxByPubKey "pk" alice NewStdStore = (Ret (), s') ∧
    GetPublicKeyData "pk" s' = (Ret alice, s'').
Proof.
  intros R J.
  exact (proj1 (proj2 (records_round_trip (H2 := uuid_json_laws) _ _ "pk" alice "key"
    new_store_holds eq_refl))).
Defined.

(** A store that holds one user. *)
Definition user_store : StdStore :=
  snd (let R := range_canonical in let J := uuid_json in PutDataIdxByPubKey "pk" alice NewStdStore).

Lemma user_store_holds :
  let R := range_canonical in holds user_store {["publickey-pk" := "alice-1"]}.
Proof.
  intros R. destruct (put_holds _ _ "publickey-pk" "alice-1" new_store_holds) as (s' & E & Hs').
  replace user_store with s'; [exact Hs'|]. exact (f_equal snd (eq_sym E)).
Qed.

Lemma user_store_users :
  let J := uuid_json in
  decodes (publickeys (records_of {["publickey-pk" := "alice-1"]})) {["pk" := alice]}.
Proof.
  intros J k. simpl. rewrite sub_map_lookup.
  destruct (decide (k = "pk")) as [->|Hne]; [by exists alice|].
  rewrite !lookup_singleton_ne; [done|congruence|]. by intros ?%(str_app_inj publicKeyPrefix _ k).
Qed.

Lemma user_store_challenges :
  let J := name_json in
  decodes (challenges (records_of {["publickey-pk" := "alice-1"]})) (∅ : gmap string ContainerInformation).
Proof. intros J k. simpl. rewrite sub_map_lookup, lookup_singleton_ne; [done|discriminate]. Qed.

Lemma get_all_records_witness :
  let R := range_canonical in let J := uuid_json in let J' := name_json in
  ∃ s', GetAllPublicKeys user_store = (Ret {["pk" := alice]}, s').
Proof.
  intros R J J'.
  destruct (get_all_records _ _ {["pk" := alice]} ∅ user_store_holds user_store_users
    user_store_challenges) as [(s' & E & _) _].
  exists s'. exact E.
Defined.

Lemma exists_exact_witness :
  let R := range_canonical in
  ∃ s', PublicKeyExists "pk" user_store = (Ret true, s').
Proof.
  intros R. destruct (exists_exact _ _ "pk" user_store_holds) as [(s' & E & _) _].
  exists s'. exact E.
Defined.

Lemma ChallengeExists_never_false_witness :
  let R := range_canonical in
  ∃ p s', ChallengeExists "c" NewStdStore = (Fail (ErrUnset p "challenge-c"), s').
Proof.
  intros R. exact (proj2 (ChallengeExists_never_false NewStdStore "c"
    (conj wf_init eq_refl)) I eq_refl).
Defined.

Lemma GetAllKeys_complete_witness :
  let R := range_canonical in
  ∃ ks s', GetAllKeys user_store = (Ret ks, s') ∧ "publickey-pk" ∈ ks.
Proof.
  intros R. destruct (GetAllKeys_complete _ _ user_store_holds) as (ks & s' & E & _ & _ & Hks).
  exists ks, s'. split; [exact E|]. apply Hks. rewrite lookup_singleton_eq. eauto.
Defined.
