(* ===== verification/StoreEquiv.v ===== *)
(** The backends behind the [store.Store] interface are interchangeable.

    [backends_agree] compares StdStore and EtcdStore with a map on sequences of the
    interface's calls (both keep the promises of [KVStoreLaws], by which it is proved);
    [transactions_agree] compares their transactions, which are outside that interface. *)
From S2P Require Import Prelude StoreApi StdStore EtcdStore.

(** ** Single calls *)

Inductive kv_call : Type :=
  | KGet (k : string)
  | KPut (k v : string)
  | KDelete (k : string)
  | KIterator (p : string).

Inductive kv_answer : Type :=
  | KVal (v : string)
  | KUnset (k : string)
  | KDone
  | KKeys (ks : list string).

(** The caller's view of a call: which error was returned, not its address. *)
Definition one_call {S} (get : string → M S string) (put : string → string → M S ())
    (del : string → M S ()) (iter : string → M S StdIterator) (c : kv_call) : M S kv_answer :=
  match c with
  | KGet k =>
      r ← attempt (get k);
      match r with
      | inr v => mret (KVal v)
      | inl (ErrUnset _ k') => mret (KUnset k')
      | inl e => fail e
      end
  | KPut k v => put k v;; mret KDone
  | KDelete k => del k;; mret KDone
  | KIterator p => it ← iter p; mret (KKeys (keys it))
  end.

Fixpoint all_calls {S} (call : kv_call → M S kv_answer) (cs : list kv_call) : M S (list kv_answer) :=
  match cs with
  | [] => mret []
  | c :: cs' => a ← call c; l ← all_calls call cs'; mret (a :: l)
  end.

(** The calls on the two backends, by the methods of each. *)
Definition std_call `{RangeOrder} : kv_call → M StdStore kv_answer := one_call Get Put Delete Iterator.
Definition etcd_call {T} `{EtcdClient T} : kv_call → M (EtcdWorld T) kv_answer :=
  one_call EtcdGet EtcdPut EtcdDelete EtcdIter.

(** The reference: a map. *)
Definition map_call (c : kv_call) (m : gmap string string) : kv_answer * gmap string string :=
  match c with
  | KGet k => (match m !! k with Some v => KVal v | None => KUnset k end, m)
  | KPut k v => (KDone, <[k := v]> m)
  | KDelete k => (KDone, delete k m)
  | KIterator p => (KKeys (filter (λ k, HasPrefix k p = true) (map_to_list m).*1), m)
  end.

Fixpoint map_calls (cs : list kv_call) (m : gmap string string) : list kv_answer * gmap string string :=
  match cs with
  | [] => ([], m)
  | c :: cs' => let (l, m') := map_calls cs' (map_call c m).2 in ((map_call c m).1 :: l, m')
  end.

(** The same answer, up to the order in which an iterator lists the keys. *)
Definition same_answer (a b : kv_answer) : Prop :=
  match a, b with
  | KKeys l, KKeys l' => l ≡ₚ l'
  | _, _ => a = b
  end.

#[export] Instance same_answer_equiv : Equivalence same_answer.
Proof.
  split.
  - intros []; simpl; reflexivity.
  - intros [] []; simpl; try done; congruence.
  - intros [] [] []; simpl; try done; try congruence. by intros ->.
Qed.

(** ** Transactions: begin, write, commit *)

Section transactions.
Context {T : Type} `{EtcdClient T} `{RangeOrder}.

Definition std_write (t : positive) (w : tx_write) : M StdStore () :=
  match w with WPut k v => tx_Put t k v | WDelete k => tx_Delete t k end.

Definition std_transaction (ws : list tx_write) : M StdStore () :=
  t ← BeginTransaction; for_each ws (std_write t);; tx_Commit t.

(** The methods of a transaction object the caller holds. *)
Definition on_tx {A} (t : EtcdTransaction) (m : M (EtcdWorld T * EtcdTransaction) A)
    : M (EtcdWorld T) A := λ w, match m (w, t) with (r, (w', _)) => (r, w') end.

Definition etcd_transaction (ws : list tx_write) : M (EtcdWorld T) () :=
  t ← EtcdBegin; on_tx t (for_each ws do_write;; EtcdTx_Commit).
End transactions.

(** ** Lemmas *)

Lemma same_keys (m : gmap string string) p l l' : NoDup l → NoDup l' →
  (∀ k, k ∈ l ↔ is_Some (m !! k) ∧ HasPrefix k p = true) →
  (∀ k, k ∈ l' ↔ is_Some (m !! k) ∧ HasPrefix k p = true) → l ≡ₚ l'.
Proof. intros Hl Hl' H H'. apply NoDup_Permutation; [done..|]. intros k. by rewrite H, H'. Qed.

Section answers.
Context {S : Type} `{L : KVStoreLaws S}.
Abbreviation call := (one_call kv_Get kv_Put kv_Delete kv_Iterator).

(** A reachable store whose content is [m]. *)
Definition is_map (m : gmap string string) (s : S) : Prop := kv_inv s ∧ kv_up s ∧ kv_view s = m.

(** A store that keeps the promises of the interface answers as the map does. *)
Lemma call_as_map c s m : is_map m s →
  ∃ a s', call c s = (Ret a, s') ∧ same_answer a (map_call c m).1 ∧ is_map (map_call c m).2 s'.
Proof.
  intros (Hi & Hu & <-). destruct c as [k|k v|k|p]; simpl.
  - destruct (kv_Get_up s k Hi Hu) as (s' & ? & ? & Hv & E).
    unfold attempt, mbind, M_bind. destruct (kv_view s !! k) as [v|].
    + rewrite E. exists (KVal v), s'. by split_and!.
    + destruct E as [p ->]. exists (KUnset k), s'. by split_and!.
  - destruct (kv_Put_up s k v Hi Hu) as (s' & E & ? & ? & Hv).
    rewrite (bind_Ret _ _ _ _ _ E). by exists KDone, s'.
  - destruct (kv_Delete_up s k Hi Hu) as (s' & E & ? & ? & Hv).
    rewrite (bind_Ret _ _ _ _ _ E). by exists KDone, s'.
  - destruct (kv_Iterator_up s p Hi Hu) as (l & s' & E & ? & ? & Hv & Hn & Hl).
    rewrite (bind_Ret _ _ _ _ _ E). exists (KKeys l), s'. split_and!; try done. simpl.
    eapply same_keys; [done| |exact Hl|].
    + apply NoDup_filter, NoDup_fst_map_to_list.
    + intros k. rewrite list_elem_of_filter, list_elem_of_fmap. split.
      * intros (Hp & [k' v] & -> & Hk%elem_of_map_to_list). eauto.
      * intros [[v Hk] Hp]. split; [done|]. exists (k, v). by rewrite elem_of_map_to_list.
Qed.

Lemma calls_as_map cs s m : is_map m s →
  ∃ l s', all_calls call cs s = (Ret l, s') ∧ Forall2 same_answer l (map_calls cs m).1 ∧
    is_map (map_calls cs m).2 s'.
Proof.
  revert s m; induction cs as [|c cs IH]; intros s m Hs; simpl; [by exists [], s|].
  destruct (call_as_map c s m Hs) as (a & s1 & E & Ha & Hs1).
  destruct (IH s1 _ Hs1) as (l & s2 & E2 & Hl & Hs2). exists (a :: l), s2.
  rewrite (bind_Ret _ _ _ _ _ E), (bind_Ret _ _ _ _ _ E2).
  destruct (map_calls cs _) as [lm m']. by split_and!; [|constructor|].
Qed.
End answers.

Section std_transaction.
Context `{RangeOrder}.

Lemma std_writes_refine ws t s m w : refines s (MkSpec m (Some (t, w))) →
  ∃ s', for_each ws (std_write t) s = (Ret (), s') ∧
    refines s' (MkSpec m (Some (t, foldl apply_write w ws))).
Proof.
  revert s w; induction ws as [|x ws IH]; intros s w Hr; simpl; [by exists s|].
  pose proof Hr as (_ & _ & _ & d & Ht & Hd & Hne).
  assert (∃ s', std_write t x s = (Ret (), s') ∧
    refines s' (MkSpec m (Some (t, apply_write w x)))) as (s' & E & Hr').
  { destruct x as [k v|k]; simpl; eexists; split;
      [by eapply tx_Put_eq|by eapply tx_write_refines
      |by eapply tx_Delete_eq|by eapply tx_write_refines]. }
  rewrite (bind_Ret _ _ _ _ _ E). by apply IH.
Qed.

Lemma std_transaction_eq ws s : std_inv s →
  ∃ s', std_transaction ws s = (Ret (), s') ∧ std_inv s' ∧
    map_at (data s') s' = foldl apply_write (map_at (data s) s) ws.
Proof.
  intros Hi%std_inv_refines. destruct (begin_refines _ _ Hi) as (t & s1 & Hb & Hr1).
  destruct (std_writes_refine ws _ _ _ _ Hr1) as (s2 & E2 & Hr2).
  unfold std_transaction. rewrite (bind_Ret _ _ _ _ _ Hb), (bind_Ret _ _ _ _ _ E2).
  pose proof Hr2 as (Hwf2 & _ & Hx2 & d & Ht & Hd & _).
  pose proof (commit_refines _ _ _ _ _ Hr2 Ht Hd) as (Hwf3 & Hm3 & Hx3).
  eexists. split; [eapply tx_Commit_eq; [done|apply Hwf2|done]|].
  split; [by split|done].
Qed.
End std_transaction.

Lemma foldl_apply_write_agree (m m' : gmap string string) ws k :
  m !! k = m' !! k → foldl apply_write m ws !! k = foldl apply_write m' ws !! k.
Proof.
  revert m m'; induction ws as [|x ws IH]; intros m m' Hk; simpl; [done|]. apply IH.
  destruct x as [j v|j]; simpl; destruct (decide (k = j)) as [->|].
  - by rewrite !lookup_insert_eq.
  - by rewrite !lookup_insert_ne.
  - by rewrite !lookup_delete_eq.
  - by rewrite !lookup_delete_ne.
Qed.

Section etcd_transaction.
Context {T : Type} `{EtcdLaws T} `{RangeOrder}.

(** A transaction holds at most one operation per write. *)
Lemma do_writes_size xs (w : EtcdWorld T) t r w' t' : for_each xs do_write (w, t) = (r, (w', t')) →
  (size (dataInsert t') + size (dataDelete t') ≤
     size (dataInsert t) + size (dataDelete t) + length xs)%nat.
Proof.
  revert w t; induction xs as [|x xs IH]; intros w t; simpl.
  { intros ?. unfold mret, M_ret in *. simplify_eq. lia. }
  unfold mbind, M_bind. destruct x as [k v|k]; simpl;
    unfold EtcdTx_Put, EtcdTx_Delete; rewrite tx_gets_bind; destruct (ongoingTransaction t) eqn:Ho;
    simpl; intros E; try (unfold fail in E; simplify_eq; lia).
  - apply IH in E. simpl in E. pose proof (map_size_insert_le k v (dataInsert t)). lia.
  - apply IH in E. simpl in E. pose proof (map_size_insert_le k () (dataDelete t)).
    pose proof (map_size_delete_le k (dataInsert t)). lia.
Qed.

Lemma etcd_transaction_eq ws (w : EtcdWorld T) c1 i c2 :
  etcd_up (client w) → (length ws ≤ etcd_max_txn_ops)%nat →
  etcd_NewSession (client w) = (Ret i, c1) → etcd_Lock i etcdPrefix c1 = (Ret (), c2) →
  ∃ w', etcd_transaction ws w = (Ret (), w') ∧ etcd_up (client w') ∧
    ∀ k, HasPrefix k "/" = false →
      kv_view w' !! k = foldl apply_write (kv_view w) ws !! k.
Proof.
  intros Hu Hlen E1 E2.
  destruct (etcd_NewSession_law _ _ _ E1) as [Hn Hkv1]. destruct (Hn Hu) as [Hu1 _].
  destruct (etcd_Lock_law _ _ _ _ E2) as [Hl Hkv2]. destruct (Hl Hu1) as [Hu2 _].
  set (w2 := MkWorld c2 (fresh w)). set (t0 := MkEtcdTx ∅ ∅ true i).
  assert (EtcdBegin w = (Ret t0, w2)) as Eb.
  { unfold EtcdBegin. rewrite (bind_Ret _ _ _ _ _ (with_client_eq _ _ _ _ E1)).
    by rewrite (bind_Ret _ _ _ _ _ (with_client_eq _ (MkWorld c1 (fresh w)) _ _ E2)). }
  destruct (do_writes_view ws w2 t0 eq_refl) as (t & Ew & Ho & Hv).
  destruct (EtcdTx_Commit_eq w2 t Hu2 Ho) as (w' & Ec & Hu' & Hv').
  { rewrite commit_ops_length. pose proof (do_writes_size _ _ _ _ _ _ Ew) as Hs.
    simpl in Hs. rewrite !map_size_empty in Hs. lia. }
  exists w'. split_and!; [|done|].
  - unfold etcd_transaction. rewrite (bind_Ret _ _ _ _ _ Eb). unfold on_tx.
    rewrite (bind_Ret _ _ _ _ _ Ew). by rewrite Ec.
  - intros k Hk. simpl. rewrite (Hv' k Hk), Hv. apply foldl_apply_write_agree.
    rewrite tx_view_lookup. unfold t0; simpl. rewrite !lookup_empty, !etcd_view_lookup.
    rewrite Hkv2, Hkv1; [done|by apply slash_key].
Qed.
End etcd_transaction.

(** ** Theorems *)

(** C4: on both backends every sequence of [Get], [Put], [Delete] and [Iterator] calls
    succeeds and is answered as by a map: with the same values, the same unset keys and
    the same keys under a prefix in some order; and both hold that map afterwards. The
    in-memory store is to be in no transaction and the etcd server to answer. *)
Theorem backends_agree {T} `{EtcdLaws T} `{RangeOrder} cs (s : StdStore) (w : EtcdWorld T) m :
  std_inv s → map_at (data s) s = m → etcd_up (client w) → etcd_view (etcd_kv (client w)) = m →
  ∃ l1 s' l2 w', all_calls std_call cs s = (Ret l1, s') ∧ all_calls etcd_call cs w = (Ret l2, w') ∧
    Forall2 same_answer l1 (map_calls cs m).1 ∧ Forall2 same_answer l2 (map_calls cs m).1 ∧
    std_inv s' ∧ map_at (data s') s' = (map_calls cs m).2 ∧
    etcd_up (client w') ∧ etcd_view (etcd_kv (client w')) = (map_calls cs m).2.
Proof.
  intros Hi Hm Hu Hv.
  destruct (calls_as_map cs s m) as (l1 & s' & E1 & Hl1 & Hi' & _ & Hm'); [by split_and!|].
  destruct (calls_as_map cs w m) as (l2 & w' & E2 & Hl2 & _ & Hu' & Hv'); [by split_and!|].
  exists l1, s', l2, w'. by split_and!.
Qed.

(** C3: a transaction that writes and commits does the same on both backends: on
    stores with the same content, when the etcd server answers, grants the lock and
    admits the transaction's size, both succeed and the stores agree on every key
    outside the lock's own. *)
Theorem transactions_agree {T} `{EtcdLaws T} `{RangeOrder} ws (s : StdStore) (w : EtcdWorld T) c1 i c2 :
  std_inv s → etcd_up (client w) → (length ws ≤ etcd_max_txn_ops)%nat →
  etcd_NewSession (client w) = (Ret i, c1) → etcd_Lock i etcdPrefix c1 = (Ret (), c2) →
  (∀ k, HasPrefix k "/" = false → kv_view s !! k = kv_view w !! k) →
  ∃ s' w', std_transaction ws s = (Ret (), s') ∧ etcd_transaction ws w = (Ret (), w') ∧
    std_inv s' ∧ etcd_up (client w') ∧
    ∀ k, HasPrefix k "/" = false → kv_view s' !! k = kv_view w' !! k.
Proof.
  intros Hi Hu Hlen Hsess Hlock Hv.
  destruct (std_transaction_eq ws s Hi) as (s' & Es & Hi' & Hvs).
  destruct (etcd_transaction_eq ws w c1 i c2 Hu Hlen Hsess Hlock) as (w' & Ew & Hu' & Hvw).
  exists s', w'. split_and!; [done..|]. intros k Hk. rewrite (Hvw k Hk). simpl in *.
  rewrite Hvs. by apply foldl_apply_write_agree; apply Hv.
Qed.

(** ** Concrete runs *)

Lemma backends_agree_witness :
  let R := range_canonical in
  let cs := [KPut "challenge-a" "1"; KGet "challenge-a"; KIterator "challenge-"; KGet "b"] in
  ∃ l1 s' l2 w', all_calls std_call cs NewStdStore = (Ret l1, s') ∧
    all_calls etcd_call cs (MkWorld (MkServer ∅ true) 1%positive) = (Ret l2, w') ∧
    Forall2 same_answer l1 [KDone; KVal "1"; KKeys ["challenge-a"]; KUnset "b"] ∧
    Forall2 same_answer l2 [KDone; KVal "1"; KKeys ["challenge-a"]; KUnset "b"].
Proof.
  intros R cs. destruct (backends_agree (H0 := map_server_laws) cs NewStdStore
    (MkWorld (MkServer ∅ true) 1%positive) ∅ (conj wf_init eq_refl) eq_refl eq_refl)
    as (l1 & s' & l2 & w' & E1 & E2 & H1 & H2 & _).
  - unfold etcd_view, sub_map. simpl. by rewrite map_to_list_empty.
  - exists l1, s', l2, w'. split; [exact E1|]. split; [exact E2|]. split; [exact H1|exact H2].
Defined.

Lemma transactions_agree_witness :
  let R := range_canonical in
  ∃ s' w', std_transaction [WPut "a" "1"; WDelete "b"] NewStdStore = (Ret (), s') ∧
    etcd_transaction [WPut "a" "1"; WDelete "b"] (MkWorld (MkServer ∅ true) 1%positive)
      = (Ret (), w') ∧
    kv_view s' !! "a" = kv_view w' !! "a".
Proof.
  intros R.
  destruct (transactions_agree (H0 := map_server_laws) [WPut "a" "1"; WDelete "b"] NewStdStore
    (MkWorld (MkServer ∅ true) 1%positive) (MkServer ∅ true) 1%positive (MkServer ∅ true))
    as (s' & w' & E1 & E2 & _ & _ & Hv).
  - exact (conj wf_init eq_refl).
  - reflexivity.
  - apply Nat.leb_le. reflexivity.
  - reflexivity.
  - reflexivity.
  - intros k _. simpl. unfold etcd_view, sub_map. by rewrite map_to_list_empty.
  - exists s', w'. split; [exact E1|]. split; [exact E2|]. apply Hv. reflexivity.
Defined.
