(* ===== verification/Errgroup.v ===== *)
(** golang.org/x/sync/errgroup as the command line uses it: goroutines on a shared state,
    a [Wait] for all of them, the first error, and the context that it cancels.

    A goroutine is a value of [T] that says where it is; [next] is its next call and
    [outcome] is what it has returned. They run under a schedule, a list of turns, so that
    a statement for all schedules is one for all interleavings; a schedule that ends too
    early leaves [Wait] waiting, and [group_can_end] shows that it can be completed. *)
From S2P Require Import Prelude.

Record group (S T : Type) : Type := MkGroup {
  shared : S;
  threads : list T;
  first_err : option error
}.
Arguments MkGroup {S T}.
Arguments shared {S T}.
Arguments threads {S T}.
Arguments first_err {S T}.

Section group.
Context {S T : Type}.
Variables (next : option error → T → M S T) (outcome : T → option (option error)).
Abbreviation G := (group S T).

(** The error of the group's context, for the goroutines that look at it. *)
Definition group_ctx (g : G) : option error :=
  match first_err g with Some _ => Some ctx_Canceled | None => None end.

(** The goroutine [i] takes a turn; one that has returned takes none. *)
Definition group_step (i : nat) : M G () := λ g,
  match threads g !! i with
  | None => (Ret (), g)
  | Some t =>
      if outcome t is Some _ then (Ret (), g)
      else
        match next (group_ctx g) t (shared g) with
        | (Ret t', s) =>
            (Ret (), MkGroup s (<[i := t']> (threads g))
               (match first_err g, outcome t' with None, Some err => err | e, _ => e end))
        | (Fail e, s) => (Fail e, MkGroup s (threads g) (first_err g))
        | (Panic, s) => (Panic, MkGroup s (threads g) (first_err g))
        | (Blocked, s) => (Blocked, MkGroup s (threads g) (first_err g))
        end
  end.

Definition has_ended (t : T) : bool := if outcome t is Some _ then true else false.

(** [g.Wait()] once the schedule is over. *)
Definition group_Wait : M G () := λ g,
  if forallb has_ended (threads g) then of_err (first_err g) g else (Blocked, g).

Definition group_turns (schedule : list nat) : M G () := for_each schedule group_step.
Definition group_run (schedule : list nat) : M G () := group_turns schedule;; group_Wait.

(** ** Lemmas *)

Lemma group_step_at g i t t' s' : threads g !! i = Some t → outcome t = None →
  next (group_ctx g) t (shared g) = (Ret t', s') →
  group_step i g = (Ret (), MkGroup s' (<[i := t']> (threads g))
    (match first_err g, outcome t' with None, Some err => err | e, _ => e end)).
Proof. intros Hi Ho E. unfold group_step. by rewrite Hi, Ho, E. Qed.

Lemma group_step_skip g i :
  (threads g !! i = None ∨ ∃ t, threads g !! i = Some t ∧ is_Some (outcome t)) →
  group_step i g = (Ret (), g).
Proof. unfold group_step. by intros [->|(t & -> & o & ->)]. Qed.

(** A condition that every turn keeps, and under which turns come back. *)
Definition turn_keeps (P : G → Prop) : Prop :=
  ∀ g i, P g → ∃ g', group_step i g = (Ret (), g') ∧ P g'.

Lemma group_turns_keep P schedule g : turn_keeps P → P g →
  ∃ g', group_turns schedule g = (Ret (), g') ∧ P g'.
Proof.
  intros HP. revert g; induction schedule as [|i schedule IH]; intros g Hg; [by exists g|].
  destruct (HP g i Hg) as (g1 & E & Hg1). destruct (IH g1 Hg1) as (g' & E' & Hg').
  exists g'. unfold group_turns in *. simpl. by rewrite (bind_Ret _ _ _ _ _ E).
Qed.

(** To keep [P] it is enough to keep it in the turns of goroutines that have not ended. *)
Lemma turn_keeps_intro (P : G → Prop) :
  (∀ g i t, P g → threads g !! i = Some t → outcome t = None →
     ∃ t' s', next (group_ctx g) t (shared g) = (Ret t', s') ∧
       P (MkGroup s' (<[i := t']> (threads g))
            (match first_err g, outcome t' with None, Some err => err | e, _ => e end))) →
  turn_keeps P.
Proof.
  intros HP g i Hg. destruct (threads g !! i) as [t|] eqn:Hi;
    [|exists g; split; [apply group_step_skip; by left|done]].
  destruct (outcome t) as [o|] eqn:Ho.
  { exists g. split; [|done]. apply group_step_skip. right. exists t. by rewrite Ho. }
  destruct (HP g i t Hg Hi Ho) as (t' & s' & E & HP'). eexists. split; [by eapply group_step_at|done].
Qed.

(** An error that a goroutine has returned is not lost. *)
Definition errors_kept (g : G) : Prop :=
  ∀ i t e, threads g !! i = Some t → outcome t = Some (Some e) → is_Some (first_err g).

Lemma errors_kept_turn g i t' s' : errors_kept g →
  errors_kept (MkGroup s' (<[i := t']> (threads g))
    (match first_err g, outcome t' with None, Some err => err | e, _ => e end)).
Proof.
  intros He j t e [(<- & <- & _)|[_ Hj]]%list_lookup_insert_Some Ho; simpl.
  - rewrite Ho. destruct (first_err g); eauto.
  - destruct (He j t e Hj Ho) as [x ->]. eauto.
Qed.

(** [Wait] has returned nil: every goroutine has ended, and none with an error. *)
Lemma group_Wait_Ret g g' : errors_kept g → group_Wait g = (Ret (), g') →
  g' = g ∧ first_err g = None ∧ ∀ t, t ∈ threads g → outcome t = Some None.
Proof.
  intros He. unfold group_Wait. destruct (forallb has_ended (threads g)) eqn:Hall; [|done].
  destruct (first_err g) as [e|] eqn:Hf; [done|]. intros [= <-]. split; [done|]. split; [done|]. intros t Ht.
  pose proof (proj1 (forallb_forall _ _) Hall t (proj1 (list_elem_of_In _ _) Ht)) as Hend.
  unfold has_ended in Hend. destruct (outcome t) as [[e|]|] eqn:Ho; [|done..].
  apply list_elem_of_lookup_1 in Ht as [i Hi]. destruct (He i t e Hi Ho) as [x Hx]. congruence.
Qed.

Lemma group_Wait_returns g r g' : group_Wait g = (r, g') → returns r →
  g' = g ∧ ∀ t, t ∈ threads g → is_Some (outcome t).
Proof.
  unfold group_Wait. destruct (forallb has_ended (threads g)) eqn:Hall; [|by intros [= <- <-]].
  intros E _. split; [unfold of_err, mret, M_ret, fail in E; by destruct (first_err g); simplify_eq|].
  intros t Ht. pose proof (proj1 (forallb_forall _ _) Hall t (proj1 (list_elem_of_In _ _) Ht)) as Hend.
  unfold has_ended in Hend. by destruct (outcome t).
Qed.

Lemma group_Wait_outcome g r g' : group_Wait g = (r, g') → r = Blocked ∨ returns r.
Proof.
  unfold group_Wait. destruct (forallb has_ended (threads g)); [|by intros [= <- <-]; left].
  unfold of_err, mret, M_ret, fail. by destruct (first_err g); intros [= <- <-]; right.
Qed.

(** *** Every schedule can be completed *)

Section can_end.
Variables (P : G → Prop) (nearer : relation T).
Hypothesis nearer_wf : ∀ t, sn nearer t.
Hypothesis turns : ∀ g i t, P g → threads g !! i = Some t → outcome t = None →
  ∃ t' s', next (group_ctx g) t (shared g) = (Ret t', s') ∧
    P (MkGroup s' (<[i := t']> (threads g))
         (match first_err g, outcome t' with None, Some err => err | e, _ => e end)) ∧
    (is_Some (outcome t') ∨ nearer t t').

(** One goroutine can be driven to its end; the others stay where they are. *)
Lemma goroutine_can_end g i t : P g → threads g !! i = Some t →
  ∃ schedule g' t', group_turns schedule g = (Ret (), g') ∧ P g' ∧
    threads g' = <[i := t']> (threads g) ∧ is_Some (outcome t').
Proof.
  revert g. induction (nearer_wf t) as [t _ IH]. intros g Hg Hi.
  destruct (outcome t) as [o|] eqn:Ho.
  { exists [], g, t. split_and!; [done..| |by eexists]. by rewrite list_insert_id. }
  destruct (turns g i t Hg Hi Ho) as (t' & s' & E & HP & Hend).
  pose proof (group_step_at g i t t' s' Hi Ho E) as Es.
  set (g1 := MkGroup s' _ _) in *.
  assert (threads g1 !! i = Some t') as Hi1 by (apply list_lookup_insert_eq; by eapply lookup_lt_Some).
  destruct Hend as [Hend|Hn].
  - exists [i], g1, t'. unfold group_turns. simpl. by rewrite (bind_Ret _ _ _ _ _ Es).
  - destruct (IH t' Hn g1 HP Hi1) as (schedule & g' & t'' & E' & HP' & Ht & Ho').
    exists (i :: schedule), g', t''. unfold group_turns in *. simpl.
    rewrite (bind_Ret _ _ _ _ _ Es). split_and!; [done..| |done].
    rewrite Ht. simpl. by rewrite list_insert_insert_eq.
Qed.

Lemma goroutines_can_end g n : P g → (n ≤ length (threads g))%nat →
  ∃ schedule g', group_turns schedule g = (Ret (), g') ∧ P g' ∧
    length (threads g') = length (threads g) ∧
    ∀ i t, (i < n)%nat → threads g' !! i = Some t → is_Some (outcome t).
Proof.
  intros Hg. induction n as [|n IH]; intros Hn.
  { exists [], g. split_and!; [done..|]. lia. }
  destruct IH as (sched & g1 & E1 & Hg1 & Hl1 & Hd1); [lia|].
  destruct (lookup_lt_is_Some_2 (threads g1) n) as [t Hi]; [lia|].
  destruct (goroutine_can_end g1 n t Hg1 Hi) as (sched2 & g2 & t' & E2 & Hg2 & Ht2 & Ho).
  exists (sched ++ sched2), g2. unfold group_turns in *.
  rewrite for_each_app, (bind_Ret _ _ _ _ _ E1). split_and!; [done|done| |].
  - by rewrite Ht2, length_insert.
  - intros i t0 Hlt. rewrite Ht2. intros [(<- & <- & _)|[Hne Hi']]%list_lookup_insert_Some; [done|].
    apply (Hd1 i); [lia|done].
Qed.

(** Whatever has been run, there is a way on with which [Wait] returns. *)
Lemma group_can_end g schedule : P g → ∃ more, returns (group_run (schedule ++ more) g).1.
Proof.
  intros Hg. assert (turn_keeps P) as HP.
  { apply turn_keeps_intro. intros g0 i t H0 Hi Ho.
    destruct (turns g0 i t H0 Hi Ho) as (t' & s' & ? & ? & _). eauto. }
  destruct (group_turns_keep P schedule g HP Hg) as (g1 & E1 & Hg1).
  destruct (goroutines_can_end g1 (length (threads g1)) Hg1) as (more & g2 & E2 & _ & Hl & Hd); [done|].
  exists more. unfold group_run.
  assert (group_turns (schedule ++ more) g = (Ret (), g2)) as E.
  { unfold group_turns in *. by rewrite for_each_app, (bind_Ret _ _ _ _ _ E1). }
  rewrite (bind_Ret _ _ _ _ _ E). unfold group_Wait.
  assert (forallb has_ended (threads g2) = true) as ->.
  { apply forallb_forall. intros t (i & Hi)%list_elem_of_In%list_elem_of_lookup_1.
    unfold has_ended. destruct (Hd i t) as [o ->]; [|done..].
    rewrite <-Hl. by eapply lookup_lt_Some. }
  by destruct (first_err g2).
Qed.
End can_end.
End group.
