(* ===== verification/TermSize.v ===== *)
(** ssh/connection/channels/size.go: the queue of terminal sizes between the ssh
    requests and the remote command; agent/vmapi/size.go has the same queue
    again, in the agent's package. *)
From S2P Require Import Prelude.

(** [remotecommand.TerminalSize]: two [uint16]. *)
Record TerminalSize : Type := MkSize { Width : Z; Height : Z }.

#[export] Instance TerminalSize_eq_dec : EqDecision TerminalSize.
Proof. solve_decision. Defined.

Record TerminalSizeHandler : Type := MkHandler {
  queue : gochan TerminalSize;
  closed : bool;
  capacity : nat
}.

Definition set_queue (q : gochan TerminalSize) (w : TerminalSizeHandler) : TerminalSizeHandler :=
  MkHandler q (closed w) (capacity w).

Definition ErrQueueFull : error := ErrVar "winsize: queue is full".
Definition ErrQueueClosed : error := ErrVar "chan is closed, cannot append data".

Definition NewTerminalSizeHandler (cap : nat) : TerminalSizeHandler :=
  MkHandler (ch_make cap) false cap.

(** [Next]: nil once the queue is closed and drained. *)
Definition Next : M TerminalSizeHandler (option TerminalSize) :=
  zoom queue set_queue ch_recv.

(** The check of [Fill], under the mutex, and its send. *)
Definition Fill_check : M TerminalSizeHandler () := λ w,
  if closed w then (Fail ErrQueueClosed, w)
  else if decide (length (ch_buf (queue w)) = capacity w) then (Fail ErrQueueFull, w)
  else (Ret (), w).
Definition Fill_send (data : TerminalSize) : M TerminalSizeHandler () :=
  zoom queue set_queue (ch_send data).

(** [Fill]: [mux] keeps other calls of [Fill] and [Close] out, not those of [Next]. *)
Definition Fill (data : TerminalSize) : M TerminalSizeHandler () :=
  Fill_check;; Fill_send data.

Definition Close : M TerminalSizeHandler () :=
  c ← gets closed;
  if (c : bool) then mret ()
  else modify (λ w, MkHandler (queue w) true (capacity w));; zoom queue set_queue ch_close.

(** ** agent/vmapi/size.go

    The type and its methods are those of the ssh package, over a [TerminalSize] of the
    package's own with the same two [uint16]. *)

Definition agent_NewTerminalSizeHandler (cap : nat) : TerminalSizeHandler := NewTerminalSizeHandler cap.
Definition agent_Next : M TerminalSizeHandler (option TerminalSize) := Next.
Definition agent_Fill (data : TerminalSize) : M TerminalSizeHandler () := Fill data.
Definition agent_Close : M TerminalSizeHandler () := Close.

(** ** Calls as data, and the abstract queue *)

Inductive size_call : Type := CFill (d : TerminalSize) | CNext | CClose.

Inductive size_answer : Type :=
  | ADone
  | ARefused (e : error)
  | ASize (d : option TerminalSize)
  | AWaits.

Definition size_do (c : size_call) (w : TerminalSizeHandler) : option (size_answer * TerminalSizeHandler) :=
  match c with
  | CFill d =>
      match Fill d w with
      | (Ret _, w') => Some (ADone, w')
      | (Fail e, w') => Some (ARefused e, w')
      | _ => None
      end
  | CNext =>
      match Next w with
      | (Ret d, w') => Some (ASize d, w')
      | (Blocked, w') => Some (AWaits, w')
      | _ => None
      end
  | CClose => match Close w with (Ret _, w') => Some (ADone, w') | _ => None end
  end.

(** A bounded first-in first-out queue with an end mark. *)
Record fifo : Type := MkFifo { items : list TerminalSize; ended : bool; bound : nat }.

Definition fifo_do (c : size_call) (q : fifo) : size_answer * fifo :=
  match c with
  | CFill d =>
      if ended q then (ARefused ErrQueueClosed, q)
      else if decide (length (items q) < bound q)%nat
           then (ADone, MkFifo (items q ++ [d]) (ended q) (bound q))
           else (ARefused ErrQueueFull, q)
  | CNext =>
      match items q with
      | d :: l => (ASize (Some d), MkFifo l (ended q) (bound q))
      | [] => (if ended q then ASize None else AWaits, q)
      end
  | CClose => (ADone, MkFifo (items q) true (bound q))
  end.

Fixpoint size_run (cs : list size_call) (w : TerminalSizeHandler)
    : option (list size_answer * TerminalSizeHandler) :=
  match cs with
  | [] => Some ([], w)
  | c :: cs' =>
      match size_do c w with
      | Some (a, w') =>
          match size_run cs' w' with Some (l, w'') => Some (a :: l, w'') | None => None end
      | None => None
      end
  end.

Fixpoint fifo_run (cs : list size_call) (q : fifo) : list size_answer * fifo :=
  match cs with
  | [] => ([], q)
  | c :: cs' =>
      let (a, q') := fifo_do c q in let (l, q'') := fifo_run cs' q' in (a :: l, q'')
  end.

(** The handler is the channel the fifo describes. *)
Definition is_fifo (w : TerminalSizeHandler) (q : fifo) : Prop :=
  w = MkHandler (GoChan (items q) (bound q) (ended q)) (ended q) (bound q) ∧
  (length (items q) ≤ bound q)%nat.

(** ** Lemmas *)

Lemma Fill_eq d w q : is_fifo w q →
  Fill d w =
    match fifo_do (CFill d) q with
    | (ARefused e, _) => (Fail e, w)
    | (_, q') => (Ret (), MkHandler (GoChan (items q') (bound q) false) false (bound q))
    end.
Proof.
  intros [-> Hle]. unfold Fill, Fill_check, Fill_send, zoom, ch_send, mbind, M_bind. simpl.
  destruct (ended q); [done|]. simpl.
  destruct (decide (length (items q) = bound q)); simpl;
    destruct (decide (length (items q) < bound q)%nat); try lia; done.
Qed.

Lemma size_do_fifo c w q : is_fifo w q →
  ∃ w', size_do c w = Some ((fifo_do c q).1, w') ∧ is_fifo w' (fifo_do c q).2.
Proof.
  intros Hq. destruct c as [d| |]; simpl.
  - rewrite (Fill_eq _ _ _ Hq). destruct q as [l e b], Hq as [-> Hle]; simpl in *.
    destruct e; [by eexists|].
    destruct (decide _); simpl; eexists; (split; [done|]); [|done].
    split; simpl; [done|rewrite length_app; simpl; lia].
  - destruct q as [l e b], Hq as [-> Hle]. unfold Next, zoom, ch_recv. simpl in *.
    destruct l as [|d l]; simpl; [by destruct e; eexists|].
    eexists. split; [done|]. split; [done|]. simpl in *. lia.
  - destruct q as [l e b], Hq as [-> Hle].
    unfold Close, gets, modify, zoom, ch_close, mret, M_ret, mbind, M_bind.
    simpl in *. by destruct e; eexists.
Qed.

(** ** Theorems *)

(** C32: A new terminal size queue behaves as a first-in first-out queue bounded by its
    capacity: no call panics, [Fill] is refused exactly when the queue is closed or
    full and never blocks, [Next] waits exactly on an open empty queue, and closing
    twice is harmless. *)
Theorem TerminalSizeHandler_is_fifo cs cap :
  ∃ w, size_run cs (NewTerminalSizeHandler cap) = Some ((fifo_run cs (MkFifo [] false cap)).1, w) ∧
    is_fifo w (fifo_run cs (MkFifo [] false cap)).2.
Proof.
  assert (is_fifo (NewTerminalSizeHandler cap) (MkFifo [] false cap)) as Hq by (split; [done|simpl; lia]).
  revert Hq. generalize (NewTerminalSizeHandler cap), (MkFifo [] false cap).
  induction cs as [|c cs IH]; intros w q Hq; simpl; [by exists w|].
  destruct (size_do_fifo c w q Hq) as (w1 & E1 & Hq1). rewrite E1.
  destruct (fifo_do c q) as [a q1]. destruct (IH w1 q1 Hq1) as (w2 & E2 & Hq2).
  simpl. rewrite E2. destruct (fifo_run cs q1) as [l q2]. by exists w2.
Qed.

(** [Next] does not take the mutex; whatever it takes out between the check of
    [Fill] and the send, the send finds room and does not block with the mutex held. *)
Theorem Fill_send_never_blocks w q n d :
  is_fifo w q → Fill_check w = (Ret (), w) →
  ∃ w', Fill_send d (set_queue (GoChan (drop n (items q)) (bound q) (ended q)) w) = (Ret (), w').
Proof.
  intros [-> Hle]. unfold Fill_check, Fill_send, zoom, ch_send. simpl.
  destruct (ended q); [done|]. destruct (decide (length (items q) = bound q)); [done|]. intros _.
  rewrite decide_True by (rewrite length_drop; lia). eauto.
Qed.

(** ** Concrete runs *)

Lemma Fill_send_never_blocks_witness :
  Fill_check (NewTerminalSizeHandler 1) = (Ret (), NewTerminalSizeHandler 1) ∧
  ∃ w', Fill_send (MkSize 80 24) (NewTerminalSizeHandler 1) = (Ret (), w').
Proof.
  split; [reflexivity|].
  exact (Fill_send_never_blocks (NewTerminalSizeHandler 1) (MkFifo [] false 1) 0 (MkSize 80 24)
    (conj eq_refl (Nat.le_0_l 1)) eq_refl).
Defined.
