(* ===== verification/K8sUser.v ===== *)
(** ssh/kubernetes: the operations the ssh server asks of Kubernetes (interface
    [K8sAPI] of api.go) and the user they are asked for (user.go).  Connection and
    Channels are verified against the interface; SshKube implements it. *)
From S2P Require Import Prelude Config.

(** ** api.go: the interface [K8sAPI] *)

(** The two long running calls get the context: whether it is done by the time the call has
    to end. As long as it is not they may block. *)
Class K8sAPI (T : Type) : Type := {
  CreateAndWaitForRessources : KubeRessourceIdentifier → M T ();
  ExecuteCommandInPod : bool → KubeExecConfig → M T ();
  CreatePodPortForward : bool → KubeForwardConfig → M T ();
  WriteFileInPod : KubeFileWriteConfig → M T ()
}.

(** What its clients rely on to terminate: once the context of the caller is cancelled the
    two long running calls return. *)
Class K8sAPIReturns (T : Type) `{K8sAPI T} : Prop := {
  Execute_returns conf t : ∃ r t', ExecuteCommandInPod true conf t = (r, t') ∧ r ≠ Panic ∧ r ≠ Blocked;
  Forward_returns conf t : ∃ r t', CreatePodPortForward true conf t = (r, t') ∧ r ≠ Panic ∧ r ≠ Blocked
}.

(** ** user.go: [K8sAPIUserWrapper]; the embedded [K8sAPI] is the class. *)

Record K8sAPIUserWrapper : Type := MkUserWrapper { UserInformationOf : KubeRessourceIdentifier }.

Definition NewK8sAPIUserWrapper (userInfo : KubeRessourceIdentifier) : K8sAPIUserWrapper :=
  MkUserWrapper userInfo.

Definition GetUserInformation (k : K8sAPIUserWrapper) : KubeRessourceIdentifier :=
  UserInformationOf k.

Definition GetNamespace (k : K8sAPIUserWrapper) : string := ri_Namespace (UserInformationOf k).

Definition GetAuthenticatedUserID (k : K8sAPIUserWrapper) : string :=
  ri_UserIdentifier (UserInformationOf k).

(** [GetNodeName]: [Getenv] is the process environment. *)
Definition GetNodeName (Getenv : string → string) : string := Getenv NodeNameEnvVariable.

(** ** An interface to evaluate on: it records the calls and fails as told *)

Record call_log : Type := MkLog {
  executed : list KubeExecConfig;
  forwarded : list KubeForwardConfig;
  written : list KubeFileWriteConfig;
  created : list KubeRessourceIdentifier;
  outcome : option error
}.

Definition logged (f : call_log → call_log) : M call_log () := modify f;; e ← gets outcome; of_err e.

#[export] Instance call_log_api : K8sAPI call_log := {
  CreateAndWaitForRessources c := logged (λ l, MkLog (executed l) (forwarded l) (written l)
                                                (created l ++ [c]) (outcome l));
  ExecuteCommandInPod _ c := logged (λ l, MkLog (executed l ++ [c]) (forwarded l) (written l)
                                         (created l) (outcome l));
  CreatePodPortForward _ c := logged (λ l, MkLog (executed l) (forwarded l ++ [c]) (written l)
                                         (created l) (outcome l));
  WriteFileInPod c := logged (λ l, MkLog (executed l) (forwarded l) (written l ++ [c])
                                    (created l) (outcome l))
}.

#[export] Instance call_log_returns : K8sAPIReturns call_log.
Proof.
  split; intros conf [e f w c [o|]]; eexists _, _; by split_and!.
Qed.
