(* ===== verification/Channels.v ===== *)
(** ssh/connection/channels and ssh/connection/payload: the handler of one ssh channel.

    A handler is built by [Build] from the callbacks a skeleton installs; [Serve]
    dispatches the channel's requests to them and waits for the goroutines they
    start.  The callbacks are state transformers on [ChanState]; [Serve] is a step
    relation ([serve_step]) because its goroutines run beside it.  Logging is left
    out.  The ssh library's [Unmarshal] is a parameter ([Payloads]). *)
From S2P Require Import Prelude Config K8sUser TermSize.

(** ** payload.go *)

Record PtyRequest : Type := MkPty {
  Term : string;
  pty_WidthColumns : Z;
  pty_HeightRows : Z;
  pty_WidthPixels : Z;
  pty_HeightPixels : Z;
  ModeList : string
}.

Record WindowChangeRequest : Type := MkWinCh {
  wc_WidthColumns : Z;
  wc_HeightRows : Z;
  wc_WidthPixels : Z;
  wc_HeightPixels : Z
}.

Record SubsystemRequest : Type := MkSubsys { Subsystem : string }.

Record ForwardTCPChannelOpen : Type := MkForward {
  HostToConnect : string;
  PortToConnect : Z;
  OriginatorAddress : string;
  OriginatorPort : Z
}.

(** [ssh.Unmarshal] at the types it is used at. *)
Class Payloads : Type := {
  Unmarshal_pty : string → option PtyRequest;
  Unmarshal_winch : string → option WindowChangeRequest;
  Unmarshal_subsys : string → option SubsystemRequest;
  Unmarshal_forward : string → option ForwardTCPChannelOpen
}.

(** ** State *)

(** [ssh.Request]. *)
Record Request : Type := MkRequest { Type_ : string; WantReply : bool; Payload : string }.

(** What the handler does to the ssh channel. *)
Inductive event : Type :=
  | Replied (req : Request) (ok : bool)
  | Wrote (text : string)
  | WroteReason (before : string) (e : error) (after : string)
  | ClosedChannel.

(** The goroutines a callback starts, and how far one of them is: not yet scheduled, in its
    call of the Kubernetes side, back from it, or before its deferred function. *)
Inductive task : Type :=
  | HandleShell
  | HandleSubsystem (cmd : string)
  | HandlePortForward.

Inductive call : Type :=
  | Exec (conf : KubeExecConfig)
  | Forward (conf : KubeForwardConfig).

Inductive stage : Type :=
  | Begin
  | InCall (k : call)
  | Called (r : error + ())
  | Leaving.

(** [callbackData], without its logger and wait group. *)
Record callbackData : Type := MkCallbackData {
  channel : positive;
  ptyReqData : option PtyRequest;
  directTCPIPData : option ForwardTCPChannelOpen;
  terminalResizer : TerminalSizeHandler;
  user : K8sAPIUserWrapper
}.

(** The data of the callbacks, the wait group's counter, the goroutines started and
    not yet finished, what was done to the channel, and the Kubernetes side. *)
Record ChanState (T : Type) : Type := MkChanState {
  reqData : callbackData;
  wg : nat;
  live : list (task * stage);
  events : list event;
  api : T
}.
Arguments MkChanState {T} _ _ _ _ _.
Arguments reqData {T} _.
Arguments wg {T} _.
Arguments live {T} _.
Arguments events {T} _.
Arguments api {T} _.

Definition set_pty p (rd : callbackData) : callbackData :=
  MkCallbackData (channel rd) p (directTCPIPData rd) (terminalResizer rd) (user rd).
Definition set_resizer r (rd : callbackData) : callbackData :=
  MkCallbackData (channel rd) (ptyReqData rd) (directTCPIPData rd) r (user rd).

Section channels.
Context {T : Type} `{K8sAPI T} `{Payloads}.
Abbreviation CS := (ChanState T).

Definition set_reqData rd (c : CS) : CS := MkChanState rd (wg c) (live c) (events c) (api c).
Definition set_wg n (c : CS) : CS := MkChanState (reqData c) n (live c) (events c) (api c).
Definition set_live l (c : CS) : CS := MkChanState (reqData c) (wg c) l (events c) (api c).
Definition emit e (c : CS) : CS := MkChanState (reqData c) (wg c) (live c) (events c ++ [e]) (api c).
Definition set_api t (c : CS) : CS := MkChanState (reqData c) (wg c) (live c) (events c) t.

Definition Reply (req : Request) (ok : bool) : M CS () := modify (emit (Replied req ok)).
Definition channel_Write (text : string) : M CS () := modify (emit (Wrote text)).
Definition channel_Close : M CS () := modify (emit ClosedChannel).
Definition in_api {A} (m : M T A) : M CS A := zoom api set_api m.
Definition in_resizer {A} (m : M TerminalSizeHandler A) : M CS A :=
  zoom (λ c, terminalResizer (reqData c)) (λ r c, set_reqData (set_resizer r (reqData c)) c) m.

(** [rd.wg.Add(1)] followed by [go f]. *)
Definition spawn (t : task) : M CS () :=
  modify (λ c, set_live (live c ++ [(t, Begin)]) (set_wg (1 + wg c)%nat c)).
(** [wg.Done]: a negative counter panics. *)
Definition wg_Done : M CS () := λ c,
  match wg c with O => (Panic, c) | S n => (Ret (), set_wg n c) end.

(** ** callback.go *)

Definition size_of_pty (p : PtyRequest) : TerminalSize :=
  MkSize (to_uint16 (pty_WidthColumns p)) (to_uint16 (pty_HeightRows p)).

(** The queue of the configuration is the handler's own, named by its channel. *)
Definition shell_conf (rd : callbackData) (tty : bool) : KubeExecConfig :=
  MkExecConfig (GetNamespace (user rd)) (GetAuthenticatedUserID (user rd)) "bash"
               (channel rd) (Some (channel rd)) tty.

Definition handleShell (ctx : bool) : M CS () :=
  defer (channel_Close;; wg_Done) (
    pty ← gets (λ c, ptyReqData (reqData c));
    tty ← match pty with
          | Some p => attempt (in_resizer (Fill (size_of_pty p)));; mret true
          | None => mret false
          end;
    rd ← gets reqData;
    r ← attempt (in_api (ExecuteCommandInPod ctx (shell_conf rd tty)));
    match r with
    | inl err => modify (emit (WroteReason "closing connection, reason: " err " | "))
    | inr _ => channel_Write ("graceful termination" +:+ newline)
    end).

Definition subSysMap : gmap string string := {["sftp" := "/usr/lib/ssh/sftp-server"]}.

Definition subsystem_conf (rd : callbackData) (command : string) : KubeExecConfig :=
  MkExecConfig (GetNamespace (user rd)) (GetAuthenticatedUserID (user rd) +:+ "-statefulset-0")
               command (channel rd) (Some (channel rd)) false.

Definition handleSubsystem (ctx : bool) (cmd : string) : M CS () :=
  defer (channel_Close;; wg_Done) (
    match subSysMap !! cmd with
    | None => mret ()
    | Some parsedSubsystem =>
        rd ← gets reqData;
        r ← attempt (in_api (ExecuteCommandInPod ctx (subsystem_conf rd parsedSubsystem)));
        match r with
        | inl err => modify (emit (WroteReason "closing connection, reason: " err ""))
        | inr _ => mret ()
        end
    end).

Definition forward_conf (rd : callbackData) (d : ForwardTCPChannelOpen) : KubeForwardConfig :=
  MkForwardConfig (GetNamespace (user rd)) (GetAuthenticatedUserID (user rd) +:+ "-statefulset-0")
                  (Itoa (PortToConnect d)) (channel rd).

Definition handlePortForward (ctx : bool) : M CS () :=
  defer (channel_Close;; wg_Done) (
    rd ← gets reqData;
    match directTCPIPData rd with
    | None => panic
    | Some d => attempt (in_api (CreatePodPortForward ctx (forward_conf rd d)));; mret ()
    end).

(** The goroutine of a task, under a context that is done or not. *)
Definition run_task (ctx : bool) (t : task) : M CS () :=
  match t with
  | HandleShell => handleShell ctx
  | HandleSubsystem cmd => handleSubsystem ctx cmd
  | HandlePortForward => handlePortForward ctx
  end.

(** The same in the pieces between which other goroutines run ([run_task_pieces]): what comes
    before the call, the call, and what comes after it. *)
Definition before_call (t : task) : M CS (option call) :=
  match t with
  | HandleShell =>
      pty ← gets (λ c, ptyReqData (reqData c));
      tty ← match pty with
            | Some p => attempt (in_resizer (Fill (size_of_pty p)));; mret true
            | None => mret false
            end;
      gets (λ c, Some (Exec (shell_conf (reqData c) tty)))
  | HandleSubsystem cmd =>
      gets (λ c, match subSysMap !! cmd with
                 | None => None
                 | Some parsedSubsystem => Some (Exec (subsystem_conf (reqData c) parsedSubsystem))
                 end)
  | HandlePortForward =>
      rd ← gets reqData;
      match directTCPIPData rd with
      | None => panic
      | Some d => mret (Some (Forward (forward_conf rd d)))
      end
  end.

Definition do_call (ctx : bool) (k : call) : M T () :=
  match k with
  | Exec conf => ExecuteCommandInPod ctx conf
  | Forward conf => CreatePodPortForward ctx conf
  end.

Definition after_call (t : task) (r : error + ()) : M CS () :=
  match t, r with
  | HandleShell, inl err => modify (emit (WroteReason "closing connection, reason: " err " | "))
  | HandleShell, inr _ => channel_Write ("graceful termination" +:+ newline)
  | HandleSubsystem _, inl err => modify (emit (WroteReason "closing connection, reason: " err ""))
  | _, _ => mret ()
  end.

(** ** builder.go *)

Definition callback : Type := Request → M CS ().

Record Builder : Type := MkBuilder {
  b_channelType : string;
  b_channel : option positive;
  b_requests : option positive;
  b_logger : option positive;
  b_directTCPIPData : option ForwardTCPChannelOpen;
  b_k8sAPIUser : option K8sAPIUserWrapper;
  b_onStartup : list (M CS ());
  b_onRequest : list callback;
  b_onReqShell : list callback;
  b_onReqPty : list callback;
  b_onReqWinCh : list callback;
  b_onReqSubSys : list callback;
  b_onReqDefault : list callback
}.

Definition NewBuilder : Builder := MkBuilder "" None None None None None [] [] [] [] [] [] [].

Definition WithChannelType t b := MkBuilder t (b_channel b) (b_requests b) (b_logger b)
  (b_directTCPIPData b) (b_k8sAPIUser b) (b_onStartup b) (b_onRequest b) (b_onReqShell b)
  (b_onReqPty b) (b_onReqWinCh b) (b_onReqSubSys b) (b_onReqDefault b).
Definition SetChannel c b := MkBuilder (b_channelType b) (Some c) (b_requests b) (b_logger b)
  (b_directTCPIPData b) (b_k8sAPIUser b) (b_onStartup b) (b_onRequest b) (b_onReqShell b)
  (b_onReqPty b) (b_onReqWinCh b) (b_onReqSubSys b) (b_onReqDefault b).
Definition SetRequests r b := MkBuilder (b_channelType b) (b_channel b) (Some r) (b_logger b)
  (b_directTCPIPData b) (b_k8sAPIUser b) (b_onStartup b) (b_onRequest b) (b_onReqShell b)
  (b_onReqPty b) (b_onReqWinCh b) (b_onReqSubSys b) (b_onReqDefault b).
Definition SetLog l b := MkBuilder (b_channelType b) (b_channel b) (b_requests b) (Some l)
  (b_directTCPIPData b) (b_k8sAPIUser b) (b_onStartup b) (b_onRequest b) (b_onReqShell b)
  (b_onReqPty b) (b_onReqWinCh b) (b_onReqSubSys b) (b_onReqDefault b).
Definition SetDirectTCPIPData d b := MkBuilder (b_channelType b) (b_channel b) (b_requests b)
  (b_logger b) (Some d) (b_k8sAPIUser b) (b_onStartup b) (b_onRequest b) (b_onReqShell b)
  (b_onReqPty b) (b_onReqWinCh b) (b_onReqSubSys b) (b_onReqDefault b).
Definition SetK8sUserAPI u b := MkBuilder (b_channelType b) (b_channel b) (b_requests b)
  (b_logger b) (b_directTCPIPData b) (Some u) (b_onStartup b) (b_onRequest b) (b_onReqShell b)
  (b_onReqPty b) (b_onReqWinCh b) (b_onReqSubSys b) (b_onReqDefault b).
Definition SetOnStartup f b := MkBuilder (b_channelType b) (b_channel b) (b_requests b)
  (b_logger b) (b_directTCPIPData b) (b_k8sAPIUser b) (b_onStartup b ++ [f]) (b_onRequest b)
  (b_onReqShell b) (b_onReqPty b) (b_onReqWinCh b) (b_onReqSubSys b) (b_onReqDefault b).
Definition SetOnRequest f b := MkBuilder (b_channelType b) (b_channel b) (b_requests b)
  (b_logger b) (b_directTCPIPData b) (b_k8sAPIUser b) (b_onStartup b) (b_onRequest b ++ [f])
  (b_onReqShell b) (b_onReqPty b) (b_onReqWinCh b) (b_onReqSubSys b) (b_onReqDefault b).
Definition SetOnReqShell f b := MkBuilder (b_channelType b) (b_channel b) (b_requests b)
  (b_logger b) (b_directTCPIPData b) (b_k8sAPIUser b) (b_onStartup b) (b_onRequest b)
  (b_onReqShell b ++ [f]) (b_onReqPty b) (b_onReqWinCh b) (b_onReqSubSys b) (b_onReqDefault b).
Definition SetOnReqPty f b := MkBuilder (b_channelType b) (b_channel b) (b_requests b)
  (b_logger b) (b_directTCPIPData b) (b_k8sAPIUser b) (b_onStartup b) (b_onRequest b)
  (b_onReqShell b) (b_onReqPty b ++ [f]) (b_onReqWinCh b) (b_onReqSubSys b) (b_onReqDefault b).
Definition SetOnReqWinCh f b := MkBuilder (b_channelType b) (b_channel b) (b_requests b)
  (b_logger b) (b_directTCPIPData b) (b_k8sAPIUser b) (b_onStartup b) (b_onRequest b)
  (b_onReqShell b) (b_onReqPty b) (b_onReqWinCh b ++ [f]) (b_onReqSubSys b) (b_onReqDefault b).
Definition SetOnReqSubSys f b := MkBuilder (b_channelType b) (b_channel b) (b_requests b)
  (b_logger b) (b_directTCPIPData b) (b_k8sAPIUser b) (b_onStartup b) (b_onRequest b)
  (b_onReqShell b) (b_onReqPty b) (b_onReqWinCh b) (b_onReqSubSys b ++ [f]) (b_onReqDefault b).
Definition SetOnReqDefault f b := MkBuilder (b_channelType b) (b_channel b) (b_requests b)
  (b_logger b) (b_directTCPIPData b) (b_k8sAPIUser b) (b_onStartup b) (b_onRequest b)
  (b_onReqShell b) (b_onReqPty b) (b_onReqWinCh b) (b_onReqSubSys b) (b_onReqDefault b ++ [f]).

(** [Handler]. *)
Record Handler : Type := MkChanHandler {
  h_requests : positive;
  h_reqData : callbackData;
  funcMap : gmap string (list callback);
  onEveryReqCallback : list callback;
  onDefaultCallback : list callback;
  onStartupCallback : list (M CS ())
}.

Definition Build (b : Builder) : error + Handler :=
  match b_channel b, b_requests b, b_logger b, b_k8sAPIUser b with
  | None, _, _, _ => inl (ErrNew "channel is nil")
  | _, None, _, _ => inl (ErrNew "requests is nil")
  | _, _, None, _ => inl (ErrNew "logger is nil")
  | _, _, _, None => inl (ErrNew "k8sAPIUser is nil")
  | Some channel, Some requests, Some _, Some u =>
      if bool_decide (b_channelType b = "direct-tcpip") && bool_decide (b_directTCPIPData b = None)
      then inl (ErrNew "directTCPIPData is nil")
      else inr {|
        h_requests := requests;
        h_reqData := MkCallbackData channel None (b_directTCPIPData b)
                                    (NewTerminalSizeHandler 10) u;
        funcMap := {["shell" := b_onReqShell b; "pty-req" := b_onReqPty b;
                     "window-change" := b_onReqWinCh b; "subsystem" := b_onReqSubSys b]};
        onEveryReqCallback := b_onRequest b;
        onDefaultCallback := b_onReqDefault b;
        onStartupCallback := b_onStartup b
      |}
  end.

(** ** session.go *)

Definition reject_request : callback := λ req, Reply req false.
Definition log_request : callback := λ _, mret ().

Definition on_shell : callback := λ req,
  spawn HandleShell;; Reply req true.

Definition on_subsystem : callback := λ req,
  match Unmarshal_subsys (Payload req) with
  | None => mret ()
  | Some subSys => spawn (HandleSubsystem (Subsystem subSys));; Reply req true
  end.

Definition size_of_winch (w : WindowChangeRequest) : TerminalSize :=
  MkSize (to_uint16 (wc_WidthColumns w)) (to_uint16 (wc_HeightRows w)).

(** An error of [Fill] is only logged. *)
Definition on_window_change : callback := λ req,
  match Unmarshal_winch (Payload req) with
  | None => mret ()
  | Some windowChange => attempt (in_resizer (Fill (size_of_winch windowChange)));; mret ()
  end.

Definition on_pty : callback := λ req,
  match Unmarshal_pty (Payload req) with
  | None => mret ()
  | Some ptyReq =>
      modify (λ c, set_reqData (set_pty (Some ptyReq) (reqData c)) c);; Reply req true
  end.

Definition SessionBuilderSkeleton : Builder :=
  let builder := WithChannelType "session" NewBuilder in
  let builder := SetOnStartup (mret ()) builder in
  let builder := SetOnReqDefault reject_request builder in
  let builder := SetOnReqShell on_shell builder in
  let builder := SetOnReqSubSys on_subsystem builder in
  let builder := SetOnReqWinCh on_window_change builder in
  let builder := SetOnReqPty on_pty builder in
  SetOnRequest log_request builder.

(** ** directtcpip.go *)

Definition DirectTCPIPBuilderSkeleton : Builder :=
  let builder := WithChannelType "direct-tcpip" NewBuilder in
  let builder := SetOnReqDefault reject_request builder in
  let builder := SetOnRequest log_request builder in
  SetOnStartup (spawn HandlePortForward) builder.

(** ** channel.go: [Serve] *)

(** One request of the loop. *)
Definition handle_request (h : Handler) (req : Request) : M CS () :=
  match funcMap h !! Type_ req with
  | Some callbackFuncions => for_each callbackFuncions (λ f, f req)
  | None => for_each (onDefaultCallback h) (λ f, f req)
  end;;
  for_each (onEveryReqCallback h) (λ f, f req).

Definition startup (h : Handler) : M CS () := for_each (onStartupCallback h) id.

(** Where [Serve] is: in its loop, in the deferred function waiting for the wait
    group, or finished, having sent on [serveCloseDone]. *)
Inductive serve_phase : Type := Serving | Waiting | Finished.

(** The requests received and not yet taken, whether their channel is still open,
    whether the context is cancelled, and the state of the callbacks. *)
Record ServeState : Type := MkServe {
  requests : list Request;
  open : bool;
  cancelled : bool;
  phase : serve_phase;
  chan : CS
}.

Inductive serve_step (h : Handler) : ServeState → ServeState → Prop :=
  | step_request req rs o c cs cs' :
      handle_request h req cs = (Ret (), cs') →
      serve_step h (MkServe (req :: rs) o c Serving cs) (MkServe rs o c Serving cs')
  | step_ctx_done rs o cs :
      serve_step h (MkServe rs o true Serving cs) (MkServe rs o true Waiting cs)
  | step_closed c cs :
      serve_step h (MkServe [] false c Serving cs) (MkServe [] false true Waiting cs)
  | step_done rs o c cs :
      wg cs = O → serve_step h (MkServe rs o c Waiting cs) (MkServe rs o true Finished cs)
  (* the goroutines, each in its own time *)
  | step_begin rs o c ph cs t l1 l2 k cs' :
      live cs = l1 ++ (t, Begin) :: l2 → before_call t cs = (Ret k, cs') →
      serve_step h (MkServe rs o c ph cs)
        (MkServe rs o c ph (set_live (l1 ++ (t, from_option InCall Leaving k) :: l2) cs'))
  | step_call rs o c ph cs t k l1 l2 r cs' :
      live cs = l1 ++ (t, InCall k) :: l2 → attempt (in_api (do_call c k)) cs = (Ret r, cs') →
      serve_step h (MkServe rs o c ph cs) (MkServe rs o c ph (set_live (l1 ++ (t, Called r) :: l2) cs'))
  | step_called rs o c ph cs t r l1 l2 cs' :
      live cs = l1 ++ (t, Called r) :: l2 → after_call t r cs = (Ret (), cs') →
      serve_step h (MkServe rs o c ph cs) (MkServe rs o c ph (set_live (l1 ++ (t, Leaving) :: l2) cs'))
  | step_leave rs o c ph cs t l1 l2 cs' :
      live cs = l1 ++ (t, Leaving) :: l2 → (channel_Close;; wg_Done) (set_live (l1 ++ l2) cs) = (Ret (), cs') →
      serve_step h (MkServe rs o c ph cs) (MkServe rs o c ph cs')
  (* a command that runs asks for the next size *)
  | step_next rs o c ph cs t conf d cs' :
      (t, InCall (Exec conf)) ∈ live cs → in_resizer Next cs = (Ret d, cs') →
      serve_step h (MkServe rs o c ph cs) (MkServe rs o c ph cs')
  | step_receive req rs c ph cs :
      serve_step h (MkServe rs true c ph cs) (MkServe (rs ++ [req]) true c ph cs)
  | step_peer_closes rs o c ph cs :
      serve_step h (MkServe rs o c ph cs) (MkServe rs false c ph cs)
  | step_cancel rs o c ph cs :
      serve_step h (MkServe rs o c ph cs) (MkServe rs o true ph cs).

(** A call of [Serve] on a handler: the start-up callbacks, then the loop. *)
Inductive serves (h : Handler) (t : T) : ServeState → Prop :=
  | serves_start cs :
      startup h (MkChanState (h_reqData h) O [] [] t) = (Ret (), cs) →
      serves h t (MkServe [] true false Serving cs)
  | serves_step s s' : serves h t s → serve_step h s s' → serves h t s'.

(** The invariant of a handler whose forwarding data is [d]: the wait group counts the
    live goroutines, the size queue is well formed, and a port forwarding goroutine
    has the data it dereferences. *)
Record chan_ok (d : option ForwardTCPChannelOpen) (n : nat) (c : CS) : Prop := {
  ok_wg : wg c = (n + length (live c))%nat;
  ok_resizer : ∃ q, is_fifo (terminalResizer (reqData c)) q;
  ok_data : directTCPIPData (reqData c) = d;
  ok_forward : HandlePortForward ∈ (live c).*1 → is_Some d
}.

(** The callbacks a skeleton may hold return and keep the invariant. *)
Definition well_behaved (d : option ForwardTCPChannelOpen) (f : M CS ()) : Prop :=
  ∀ c, chan_ok d 0 c → ∃ c', f c = (Ret (), c') ∧ chan_ok d 0 c'.
Definition well_behaved_callback d (f : callback) : Prop := ∀ req, well_behaved d (f req).

Record good_handler (h : Handler) : Prop := {
  good_startup : Forall (well_behaved (directTCPIPData (h_reqData h))) (onStartupCallback h);
  good_every : Forall (well_behaved_callback (directTCPIPData (h_reqData h))) (onEveryReqCallback h);
  good_default : Forall (well_behaved_callback (directTCPIPData (h_reqData h))) (onDefaultCallback h);
  good_funcMap k l : funcMap h !! k = Some l →
    Forall (well_behaved_callback (directTCPIPData (h_reqData h))) l;
  good_resizer : ∃ q, is_fifo (terminalResizer (h_reqData h)) q
}.

End channels.

Arguments Builder T : clear implicits.
Arguments Handler T : clear implicits.
Arguments ServeState T : clear implicits.

(** ** Lemmas *)

Create HintDb chan discriminated.

Section lemmas.
Context {T : Type} `{K8sAPI T} `{Payloads}.
Abbreviation CS := (ChanState T).
Implicit Types (c : CS) (h : Handler T) (d : option ForwardTCPChannelOpen).

Lemma well_behaved_ret d : well_behaved (T := T) d (mret ()).
Proof. intros c Hc. by exists c. Qed.

Lemma well_behaved_bind d (f g : M CS ()) :
  well_behaved d f → well_behaved d g → well_behaved d (f;; g).
Proof.
  intros Hf Hg c Hc. destruct (Hf c Hc) as (c1 & E1 & Hc1).
  destruct (Hg c1 Hc1) as (c2 & E2 & Hc2). exists c2. by rewrite (bind_Ret _ _ _ _ _ E1).
Qed.

Lemma well_behaved_modify d (f : CS → CS) :
  (∀ c, chan_ok d 0 c → chan_ok d 0 (f c)) → well_behaved d (modify f).
Proof. intros Hf c Hc. exists (f c). split; [done|by apply Hf]. Qed.

Lemma well_behaved_reply d req ok : well_behaved (T := T) d (Reply req ok).
Proof. apply well_behaved_modify. by intros c []. Qed.

Lemma well_behaved_spawn d t : (t = HandlePortForward → is_Some d) →
  well_behaved (T := T) d (spawn t).
Proof.
  intros Ht. apply well_behaved_modify. intros c []. split; simpl; [|done..|].
  - rewrite length_app. simpl. lia.
  - rewrite fmap_app. intros [?|Hin%list_elem_of_singleton]%elem_of_app; [auto|by apply Ht].
Qed.

(** [Fill]'s outcome is only logged, and it keeps the queue well formed. *)
Lemma fill_queue sz c q : is_fifo (terminalResizer (reqData c)) q → ∃ r w,
  attempt (in_resizer (Fill sz)) c = (Ret r, set_reqData (set_resizer w (reqData c)) c) ∧
  is_fifo w (fifo_do (CFill sz) q).2.
Proof.
  intros Hq. destruct (size_do_fifo (CFill sz) _ q Hq) as (w & E & Hw').
  simpl in E. unfold attempt, in_resizer, zoom. revert E.
  destruct (Fill sz (terminalResizer (reqData c))) as [[] w1]; intros ?; simplify_eq/=;
    eexists _, _; split; done.
Qed.

Lemma fill_ok d n sz c : chan_ok d n c → ∃ r w q,
  attempt (in_resizer (Fill sz)) c = (Ret r, set_reqData (set_resizer w (reqData c)) c) ∧
  is_fifo w q.
Proof.
  intros [_ [q Hq] _ _]. destruct (fill_queue sz c q Hq) as (r & w & E & Hw). eauto 10.
Qed.

Lemma well_behaved_fill d sz : well_behaved (T := T) d (attempt (in_resizer (Fill sz));; mret ()).
Proof.
  intros c Hc. destruct (fill_ok d 0 sz c Hc) as (r & w & q & E & Hw).
  rewrite (bind_Ret _ _ _ _ _ E). eexists. split; [done|]. destruct Hc. split; simpl; eauto.
Qed.

#[local] Hint Resolve well_behaved_ret well_behaved_reply well_behaved_fill : chan.

Lemma on_shell_ok d : well_behaved_callback (T := T) d on_shell.
Proof. intros req. apply well_behaved_bind; [by apply well_behaved_spawn|auto with chan]. Qed.

Lemma on_subsystem_ok d : well_behaved_callback (T := T) d on_subsystem.
Proof.
  intros req. unfold on_subsystem. destruct (Unmarshal_subsys _); [|auto with chan].
  apply well_behaved_bind; [by apply well_behaved_spawn|auto with chan].
Qed.

Lemma on_window_change_ok d : well_behaved_callback (T := T) d on_window_change.
Proof. intros req. unfold on_window_change. destruct (Unmarshal_winch _); auto with chan. Qed.

Lemma on_pty_ok d : well_behaved_callback (T := T) d on_pty.
Proof.
  intros req. unfold on_pty. destruct (Unmarshal_pty _); [|auto with chan].
  apply well_behaved_bind; [|auto with chan]. apply well_behaved_modify. by intros c [].
Qed.

Lemma reject_request_ok d : well_behaved_callback (T := T) d reject_request.
Proof. intros req. apply well_behaved_reply. Qed.

Lemma log_request_ok d : well_behaved_callback (T := T) d log_request.
Proof. intros req. apply well_behaved_ret. Qed.

Lemma for_each_ok {A} d (l : list A) (f : A → M CS ()) :
  Forall (λ x, well_behaved d (f x)) l → well_behaved d (for_each l f).
Proof.
  induction 1 as [|x l Hx Hl IH]; simpl; [apply well_behaved_ret|by apply well_behaved_bind].
Qed.

Lemma handle_request_ok h req : good_handler h →
  well_behaved (directTCPIPData (h_reqData h)) (handle_request h req).
Proof.
  intros [_ He Hd Hm _]. unfold handle_request. apply well_behaved_bind.
  - destruct (funcMap h !! Type_ req) as [l|] eqn:E; apply for_each_ok;
      (eapply Forall_impl; [by eauto|]); auto.
  - apply for_each_ok. eapply Forall_impl; [exact He|]. auto.
Qed.

(** *** The goroutines *)

(** The deferred function of a goroutine: close the channel, leave the wait group. *)
Definition leave (c : CS) : CS := set_wg (pred (wg c)) (emit ClosedChannel c).

Lemma defer_leave (m : M CS ()) c c1 r : m c = (r, c1) → r ≠ Blocked → wg c1 ≠ O →
  defer (channel_Close;; wg_Done) m c = (r, leave c1).
Proof.
  intros E Hr Hw. unfold defer. rewrite E.
  assert ((channel_Close;; wg_Done) c1 = (Ret (), leave c1)) as Ed.
  { unfold wg_Done, leave, mbind, M_bind. simpl. by destruct (wg c1). }
  rewrite Ed. by destruct r.
Qed.

Lemma leave_ok d c : chan_ok d 1 c → chan_ok d 0 (leave c).
Proof. intros []. split; simpl; [|done..]. rewrite ok_wg0. simpl. lia. Qed.

Lemma attempt_in_api {A} (m : M T A) c r t' : m (api c) = (r, t') → r ≠ Panic → r ≠ Blocked →
  ∃ x, attempt (in_api m) c = (Ret x, set_api t' c) ∧
    match r, x with Ret a, inr b => a = b | Fail e, inl e' => e = e' | _, _ => False end.
Proof.
  intros E Hp Hb. unfold attempt, in_api, zoom. rewrite E.
  destruct r; try done; eexists; (split; [done|done]).
Qed.

Lemma chan_ok_api d n c t' : chan_ok d n c → chan_ok d n (set_api t' c).
Proof. by intros []. Qed.

Lemma chan_ok_emit d n c e : chan_ok d n c → chan_ok d n (emit e c).
Proof. by intros []. Qed.

Lemma chan_ok_resizer d n c w q : is_fifo w q → chan_ok d n c →
  chan_ok d n (set_reqData (set_resizer w (reqData c)) c).
Proof. intros Hw []. split; simpl; eauto. Qed.

(** What a shell goroutine finds when it starts. *)
Definition pty_queue (w : TerminalSizeHandler) (pty : option PtyRequest) : TerminalSizeHandler :=
  match pty with Some p => (Fill (size_of_pty p) w).2 | None => w end.
Definition shell_start (c : CS) : CS :=
  set_reqData (set_resizer (pty_queue (terminalResizer (reqData c)) (ptyReqData (reqData c)))
                           (reqData c)) c.
Definition shell_message (r : res ()) : event :=
  match r with
  | Fail e => WroteReason "closing connection, reason: " e " | "
  | _ => Wrote ("graceful termination" +:+ newline)
  end.

Lemma shell_start_ok d n c : chan_ok d n c → chan_ok d n (shell_start c).
Proof.
  intros Hc. unfold shell_start. pose proof Hc as [_ [q Hq] _ _].
  destruct (ptyReqData (reqData c)) as [p|]; simpl; [|by eapply chan_ok_resizer].
  destruct (size_do_fifo (CFill (size_of_pty p)) _ q Hq) as (w & E & Hw). simpl in E.
  eapply chan_ok_resizer; [|done].
  destruct (Fill _ _) as [[] w']; simplify_eq/=; eauto.
Qed.

Lemma shell_tty d c : chan_ok d 1 c →
  match ptyReqData (reqData c) with
  | Some p => attempt (in_resizer (Fill (size_of_pty p)));; mret true
  | None => mret false
  end c = (Ret (bool_decide (is_Some (ptyReqData (reqData c)))), shell_start c).
Proof.
  intros Hc. unfold shell_start. destruct (ptyReqData (reqData c)) as [p|] eqn:Hp; simpl.
  - destruct (fill_ok d 1 (size_of_pty p) c Hc) as (r & w & q & E & Hw).
    rewrite (bind_Ret _ _ _ _ _ E). unfold mret, M_ret. do 2 f_equal.
    revert E. unfold attempt, in_resizer, zoom.
    destruct (Fill _ _) as [[] ?]; simpl; intros ?; simplify_eq; done.
  - destruct c as [[] ?]; simpl in *. by subst.
Qed.

Lemma handleShell_eq d ctx c r t' : chan_ok d 1 c →
  ExecuteCommandInPod ctx
    (shell_conf (reqData c) (bool_decide (is_Some (ptyReqData (reqData c))))) (api c) = (r, t') →
  r ≠ Panic → r ≠ Blocked →
  handleShell ctx c = (Ret (), leave (emit (shell_message r) (set_api t' (shell_start c)))).
Proof.
  intros Hc E Hp Hb. unfold handleShell. apply defer_leave; [|done|].
  - erewrite bind_Ret by reflexivity. rewrite (bind_Ret _ _ _ _ _ (shell_tty d c Hc)).
    erewrite bind_Ret by reflexivity.
    destruct (attempt_in_api _ (shell_start c) r t' E Hp Hb) as (x & Ex & Hx).
    erewrite bind_Ret by exact Ex. by destruct r as [[]| | |], x as [|[]]; subst.
  - simpl. rewrite (ok_wg _ _ _ Hc). lia.
Qed.

Definition subsystem_message (r : res ()) (c : CS) : CS :=
  match r with Fail e => emit (WroteReason "closing connection, reason: " e "") c | _ => c end.

Lemma handleSubsystem_eq d ctx c cmd command r t' : chan_ok d 1 c → subSysMap !! cmd = Some command →
  ExecuteCommandInPod ctx (subsystem_conf (reqData c) command) (api c) = (r, t') →
  r ≠ Panic → r ≠ Blocked →
  handleSubsystem ctx cmd c = (Ret (), leave (subsystem_message r (set_api t' c))).
Proof.
  intros Hc Hcmd E Hp Hb. unfold handleSubsystem. rewrite Hcmd. apply defer_leave; [|done|].
  - erewrite bind_Ret by reflexivity.
    destruct (attempt_in_api _ c r t' E Hp Hb) as (x & Ex & Hx).
    erewrite bind_Ret by exact Ex. by destruct r as [[]| | |], x as [|[]]; subst.
  - destruct r; simpl; rewrite (ok_wg _ _ _ Hc); lia.
Qed.

Lemma handleSubsystem_unknown d ctx c cmd : chan_ok d 1 c → subSysMap !! cmd = None →
  handleSubsystem ctx cmd c = (Ret (), leave c).
Proof.
  intros Hc Hcmd. unfold handleSubsystem. rewrite Hcmd. apply defer_leave; [done..|].
  rewrite (ok_wg _ _ _ Hc). lia.
Qed.

(** The pieces are the goroutine. *)
Lemma run_task_pieces ctx t c :
  run_task ctx t c =
    defer (channel_Close;; wg_Done) (
      k ← before_call t;
      match k with
      | None => mret ()
      | Some k => r ← attempt (in_api (do_call ctx k)); after_call t r
      end) c.
Proof.
  assert (∀ df (m m' : M CS ()), m c = m' c → defer df m c = defer df m' c) as Hd.
  { intros df m m' E. unfold defer. by rewrite E. }
  destruct t as [|cmd|]; simpl; unfold handleShell, handleSubsystem, handlePortForward; apply Hd;
    unfold gets, mret, M_ret, mbind, M_bind.
  - destruct (ptyReqData (reqData c)) as [p|];
      [destruct (attempt (in_resizer _) c) as [[x|e| |] c1]; try done|].
    all: by destruct (attempt (in_api _) _) as [[[]| | |] ?].
  - destruct (subSysMap !! cmd); [|done]. by destruct (attempt (in_api _) _) as [[[]| | |] ?].
  - by destruct (directTCPIPData (reqData c)).
Qed.

(** *** One piece at a time *)

Lemma before_call_ok d t c : chan_ok d 0 c → t ∈ (live c).*1 → ∃ k c',
  before_call t c = (Ret k, c') ∧ chan_ok d 0 c' ∧ live c' = live c.
Proof.
  intros Hc Ht. destruct t as [|cmd|]; simpl.
  - unfold gets, mbind, M_bind. destruct (ptyReqData (reqData c)) as [p|]; [|by exists (Some (Exec (shell_conf (reqData c) false))), c].
    destruct (fill_ok d 0 (size_of_pty p) c Hc) as (r & w & q & -> & Hw). simpl.
    eexists _, _. split; [done|]. split; [by eapply chan_ok_resizer|done].
  - eexists _, c. by split_and!.
  - destruct (ok_forward _ _ _ Hc Ht) as [f ->]. unfold gets, mbind, M_bind.
    rewrite (ok_data _ _ _ Hc). simpl. eexists _, c. by split_and!.
Qed.

Lemma before_call_live t c k c' : before_call t c = (Ret k, c') → live c' = live c.
Proof.
  destruct t as [|cmd|]; simpl; unfold gets, mbind, M_bind; [|by intros [= _ <-]|].
  - destruct (ptyReqData (reqData c)) as [p|]; [|by intros [= _ <-]].
    unfold attempt, in_resizer, zoom. destruct (Fill _ _) as [[] w]; simpl; by intros [= _ <-].
  - destruct (directTCPIPData (reqData c)); [by intros [= _ <-]|done].
Qed.

Lemma after_call_ok t r c : ∃ evs, after_call t r c =
  (Ret (), MkChanState (reqData c) (wg c) (live c) (events c ++ evs) (api c)).
Proof.
  assert (c = MkChanState (reqData c) (wg c) (live c) (events c ++ []) (api c)) as Hc
    by (rewrite app_nil_r; by destruct c).
  destruct t, r; simpl; try (exists []; by rewrite <-Hc); by eexists.
Qed.

Lemma chan_ok_events d n c evs : chan_ok d n c →
  chan_ok d n (MkChanState (reqData c) (wg c) (live c) evs (api c)).
Proof. by intros []. Qed.

(** A goroutine goes on to another stage. *)
Lemma chan_ok_stage d c l1 t st st' l2 : chan_ok d 0 c → live c = l1 ++ (t, st) :: l2 →
  chan_ok d 0 (set_live (l1 ++ (t, st') :: l2) c).
Proof.
  intros [Hw Hq Hd Hf] Hl. rewrite Hl in Hw, Hf. split; simpl; [|done..|].
  - rewrite Hw, !length_app. done.
  - intros Hin. apply Hf. rewrite fmap_app in *. exact Hin.
Qed.

(** It leaves. *)
Lemma chan_ok_leave d c l1 t st l2 : chan_ok d 0 c → live c = l1 ++ (t, st) :: l2 →
  (channel_Close;; wg_Done) (set_live (l1 ++ l2) c) = (Ret (), leave (set_live (l1 ++ l2) c)) ∧
  chan_ok d 0 (leave (set_live (l1 ++ l2) c)).
Proof.
  intros [Hw Hq Hd Hf] Hl. rewrite Hl in Hw, Hf. rewrite length_app in Hw. simpl in Hw. split.
  - unfold leave, wg_Done, mbind, M_bind. simpl. destruct (wg c); [lia|done].
  - split; simpl; [|done..|].
    + rewrite Hw, length_app. lia.
    + intros Hin. apply Hf. rewrite fmap_app in *. rewrite fmap_cons. simpl.
      apply elem_of_app in Hin as [?|?]; apply elem_of_app; [by left|right; by right].
Qed.

End lemmas.

Section serve.
Context {T : Type} `{K8sAPIReturns T} `{Payloads}.
Abbreviation CS := (ChanState T).
Implicit Types (c : CS) (h : Handler T) (d : option ForwardTCPChannelOpen).

Lemma do_call_returns k t : ∃ r t', do_call true k t = (r, t') ∧ r ≠ Panic ∧ r ≠ Blocked.
Proof. destruct k as [conf|conf]; [apply Execute_returns|apply Forward_returns]. Qed.

Lemma next_ok d sz c c' : chan_ok d 0 c → in_resizer Next c = (Ret sz, c') → chan_ok d 0 c'.
Proof.
  intros Hc E. pose proof Hc as [_ [q Hq] _ _].
  destruct (size_do_fifo CNext _ q Hq) as (w & Ew & Hw). simpl in Ew.
  unfold in_resizer, zoom in E. destruct (Next (terminalResizer (reqData c))) as [[] w'];
    simplify_eq/=. by eapply chan_ok_resizer.
Qed.

Definition serve_inv d (s : ServeState T) : Prop :=
  chan_ok d 0 (chan s) ∧ (phase s = Finished → live (chan s) = []) ∧ (phase s ≠ Serving → cancelled s = true).

Lemma serve_step_inv h s s' : good_handler h →
  serve_step h s s' → serve_inv (directTCPIPData (h_reqData h)) s →
  serve_inv (directTCPIPData (h_reqData h)) s'.
Proof.
  intros Hh Hs (Hc & Hf & Hca). destruct Hs as
    [req rs o c cs cs' E|rs o cs|c cs|rs o c cs Hw|rs o c ph cs t l1 l2 k cs' Hl E
    |rs o c ph cs t k l1 l2 r cs' Hl E|rs o c ph cs t r l1 l2 cs' Hl E|rs o c ph cs t l1 l2 cs' Hl E
    |rs o c ph cs t conf sz cs' Hl E|req rs c ph cs|rs o c ph cs|rs o c ph cs];
    simpl in *; try (by split_and!);
    try (assert (ph ≠ Finished) as Hph by (intros Hp; rewrite (Hf Hp) in Hl; by destruct l1)).
  - destruct (handle_request_ok h req Hh cs Hc) as (cs1 & E1 & Hc1). rewrite E in E1. simplify_eq. by split_and!.
  - split_and!; [done| |done]. intros _. pose proof (ok_wg _ _ _ Hc) as Hn. rewrite Hw in Hn.
    apply nil_length_inv. simpl in *. lia.
  - destruct (before_call_ok _ t cs Hc) as (k' & c' & E' & Hc' & Hl').
    { rewrite Hl, fmap_app. apply elem_of_app. right. by left. }
    rewrite E in E'. simplify_eq. split; [|by split]. eapply chan_ok_stage; [done|by rewrite Hl'].
  - split; [|by split]. unfold attempt, in_api, zoom in E.
    destruct (do_call c k (api cs)) as [[] t']; simplify_eq/=;
      (eapply chan_ok_stage; [by apply chan_ok_api|done]).
  - split; [|by split]. destruct (after_call_ok t r cs) as [evs E']. rewrite E in E'. simplify_eq.
    eapply chan_ok_stage; [by apply chan_ok_events|done].
  - split; [|by split]. destruct (chan_ok_leave _ _ _ _ _ _ Hc Hl) as [E' Hc']. rewrite E in E'. by simplify_eq.
  - split; [by eapply next_ok|]. split; [|done]. intros Hp. rewrite (Hf Hp) in Hl. by apply elem_of_nil in Hl.
Qed.

(** [Serve] starts in a state of the invariant, whatever the Kubernetes side. *)
Lemma startup_ok h t : good_handler h →
  ∃ c, startup h (MkChanState (h_reqData h) O [] [] t) = (Ret (), c) ∧
    chan_ok (directTCPIPData (h_reqData h)) 0 c.
Proof.
  intros Hh. apply (for_each_ok _ (onStartupCallback h) id (good_startup _ Hh)).
  split; simpl; [done|apply Hh|done|]. intros Hin. by apply elem_of_nil in Hin.
Qed.

Lemma serves_inv h t s : good_handler h → serves h t s →
  serve_inv (directTCPIPData (h_reqData h)) s.
Proof.
  intros Hh. induction 1 as [cs E|s s' _ IH Hs]; [|by eapply serve_step_inv].
  destruct (startup_ok h t Hh) as (c' & E' & Hc'). rewrite E' in E. simplify_eq. by split_and!.
Qed.

(** Once the context is done, a goroutine at any stage can be run to its end. *)
Lemma end_goroutine h d rs o ph c t st l : chan_ok d 0 c → live c = (t, st) :: l →
  ∃ c', rtc (serve_step h) (MkServe rs o true ph c) (MkServe rs o true ph c') ∧
    chan_ok d 0 c' ∧ live c' = l.
Proof.
  assert (∀ c, chan_ok d 0 c → live c = (t, Leaving) :: l → ∃ c',
    rtc (serve_step h) (MkServe rs o true ph c) (MkServe rs o true ph c') ∧ chan_ok d 0 c' ∧ live c' = l) as HL.
  { intros c1 Hc Hl. destruct (chan_ok_leave _ _ [] _ _ _ Hc Hl) as [E Hc']. eexists.
    split; [by eapply rtc_once, (step_leave _ _ _ _ _ _ _ [])|done]. }
  assert (∀ c r, chan_ok d 0 c → live c = (t, Called r) :: l → ∃ c',
    rtc (serve_step h) (MkServe rs o true ph c) (MkServe rs o true ph c') ∧ chan_ok d 0 c' ∧ live c' = l) as HR.
  { intros c1 r Hc Hl. destruct (after_call_ok t r c1) as [evs E].
    destruct (HL (set_live ([] ++ (t, Leaving) :: l) (MkChanState (reqData c1) (wg c1) (live c1) (events c1 ++ evs) (api c1))))
      as (c' & Hr & Hc'); [by eapply chan_ok_stage, Hl; apply chan_ok_events|done|].
    exists c'. split; [|done]. eapply rtc_l; [by eapply (step_called _ _ _ _ _ _ _ _ [])|exact Hr]. }
  assert (∀ c k, chan_ok d 0 c → live c = (t, InCall k) :: l → ∃ c',
    rtc (serve_step h) (MkServe rs o true ph c) (MkServe rs o true ph c') ∧ chan_ok d 0 c' ∧ live c' = l) as HC.
  { intros c1 k Hc Hl. destruct (do_call_returns k (api c1)) as (r & t' & E & Hp & Hb).
    destruct (attempt_in_api _ c1 r t' E Hp Hb) as (x & Ex & _).
    destruct (HR (set_live ([] ++ (t, Called x) :: l) (set_api t' c1)) x) as (c' & Hr & Hc');
      [by eapply chan_ok_stage, Hl; apply chan_ok_api|done|].
    exists c'. split; [|done]. eapply rtc_l; [by eapply (step_call _ _ _ _ _ _ _ _ [])|exact Hr]. }
  intros Hc Hl. destruct st as [|k|r|]; [|eauto..].
  destruct (before_call_ok d t c Hc) as (k & c1 & E & Hc1 & Hl1); [rewrite Hl; by left|].
  assert (chan_ok d 0 (set_live ([] ++ (t, from_option InCall Leaving k) :: l) c1)) as Hc2
    by (eapply (chan_ok_stage _ _ []); [done|by rewrite Hl1]).
  assert (∃ c', rtc (serve_step h) (MkServe rs o true ph (set_live ([] ++ (t, from_option InCall Leaving k) :: l) c1))
    (MkServe rs o true ph c') ∧ chan_ok d 0 c' ∧ live c' = l) as (c' & Hr & Hc') by (destruct k; eauto).
  exists c'. split; [|done]. eapply rtc_l; [by eapply (step_begin _ _ _ _ _ _ _ [])|exact Hr].
Qed.

(** So all of them can, one after the other. *)
Lemma drain h d rs o ph c : chan_ok d 0 c →
  ∃ c', rtc (serve_step h) (MkServe rs o true ph c) (MkServe rs o true ph c') ∧
    chan_ok d 0 c' ∧ live c' = [].
Proof.
  remember (live c) as l eqn:Hl. revert c Hl. induction l as [|[t st] l IH]; intros c Hl Hc.
  { exists c. by split_and!. }
  destruct (end_goroutine h d rs o ph c t st l Hc (eq_sym Hl)) as (c1 & Hr1 & Hc1 & Hl1).
  destruct (IH c1 (eq_sym Hl1) Hc1) as (c2 & Hr2 & Hc2 & Hl2).
  exists c2. split_and!; [by etrans|done..].
Qed.

Lemma finish h d rs o c : chan_ok d 0 c →
  ∃ s', rtc (serve_step h) (MkServe rs o true Waiting c) s' ∧ phase s' = Finished.
Proof.
  intros Hc. destruct (drain h d rs o Waiting c Hc) as (c' & Hr & Hc' & Hl).
  eexists. split; [eapply rtc_r; [exact Hr|apply step_done]|done].
  rewrite (ok_wg _ _ _ Hc'), Hl. done.
Qed.

(** Handling the requests that are left. *)
Lemma serve_requests h rs o ca c : good_handler h →
  chan_ok (directTCPIPData (h_reqData h)) 0 c →
  ∃ c', rtc (serve_step h) (MkServe rs o ca Serving c) (MkServe [] o ca Serving c') ∧
    chan_ok (directTCPIPData (h_reqData h)) 0 c'.
Proof.
  intros Hh. revert c; induction rs as [|req rs IH]; intros c Hc; [by exists c|].
  destruct (handle_request_ok h req Hh c Hc) as (c1 & E1 & Hc1).
  destruct (IH c1 Hc1) as (c2 & Hr & Hc2). exists c2. split; [|done].
  eapply rtc_l; [by apply step_request|done].
Qed.

Lemma can_finish h s : good_handler h → serve_inv (directTCPIPData (h_reqData h)) s →
  cancelled s = true ∨ open s = false ∨ phase s ≠ Serving →
  ∃ s', rtc (serve_step h) s s' ∧ phase s' = Finished.
Proof.
  intros Hh (Hc & _ & Hca) Hend.
  destruct s as [rs o ca [| |] c]; simpl in *; [| |by eexists].
  - destruct Hend as [->|[->|?]]; [| |done].
    + destruct (finish h _ rs o c Hc) as (s' & Hr & Hp). exists s'. split; [|done].
      eapply rtc_l; [apply step_ctx_done|done].
    + destruct (serve_requests h rs false ca c Hh Hc) as (c' & Hr & Hc').
      destruct (finish h _ [] false c' Hc') as (s' & Hr' & Hp). exists s'. split; [|done].
      etrans; [exact Hr|]. eapply rtc_l; [apply step_closed|done].
  - rewrite Hca by done. by eapply finish.
Qed.

End serve.

(** *** The skeletons *)

Section skeletons.
Context {T : Type} `{K8sAPI T} `{Payloads}.

(** [Build] of a builder whose callbacks are well behaved. *)
Record good_builder (d : option ForwardTCPChannelOpen) (b : Builder T) : Prop := {
  gb_startup : Forall (well_behaved d) (b_onStartup b);
  gb_request : Forall (well_behaved_callback d) (b_onRequest b);
  gb_shell : Forall (well_behaved_callback d) (b_onReqShell b);
  gb_pty : Forall (well_behaved_callback d) (b_onReqPty b);
  gb_winch : Forall (well_behaved_callback d) (b_onReqWinCh b);
  gb_subsys : Forall (well_behaved_callback d) (b_onReqSubSys b);
  gb_default : Forall (well_behaved_callback d) (b_onReqDefault b)
}.

Lemma Build_good (b : Builder T) h :
  good_builder (b_directTCPIPData b) b → Build b = inr h → good_handler h.
Proof.
  intros []. unfold Build.
  destruct (b_channel b), (b_requests b), (b_logger b), (b_k8sAPIUser b); try done.
  destruct (_ && _); [done|]. intros ?; simplify_eq/=. split; simpl; try done.
  - intros i l Hk. repeat (apply lookup_insert_Some in Hk as [[<- <-]|[_ Hk]]; [done|]).
    by apply lookup_singleton_Some in Hk as [<- <-].
  - exists (MkFifo [] false 10). split; [done|simpl; lia].
Qed.

(** How a built handler dispatches. *)
Lemma Build_dispatch (b : Builder T) h req : Build b = inr h →
  handle_request h req =
    (for_each (if decide (Type_ req = "shell") then b_onReqShell b
               else if decide (Type_ req = "pty-req") then b_onReqPty b
               else if decide (Type_ req = "window-change") then b_onReqWinCh b
               else if decide (Type_ req = "subsystem") then b_onReqSubSys b
               else b_onReqDefault b) (λ f, f req);;
     for_each (b_onRequest b) (λ f, f req)) ∧
  onStartupCallback h = b_onStartup b.
Proof.
  unfold Build. destruct (b_channel b), (b_requests b), (b_logger b), (b_k8sAPIUser b); try done.
  destruct (_ && _); [done|]. intros ?; simplify_eq/=. split; [|done].
  unfold handle_request. simpl. generalize (Type_ req). intros i. f_equal.
  repeat (destruct (decide (i = _)) as [->|];
    [by rewrite ?lookup_insert_ne, ?lookup_insert_eq, ?lookup_singleton_eq by done|]).
  by rewrite !lookup_insert_ne, lookup_singleton_ne by done.
Qed.

(** The callbacks do not depend on the other fields. *)
Lemma good_setters d u lg ch rq (b : Builder T) : good_builder d b →
  good_builder d (SetK8sUserAPI u (SetLog lg (SetChannel ch (SetRequests rq b)))).
Proof. intros []. by split. Qed.

Lemma good_set_data d x (b : Builder T) :
  good_builder d b → good_builder d (SetDirectTCPIPData x b).
Proof. intros []. by split. Qed.

Lemma session_good d : good_builder d (SessionBuilderSkeleton (T := T)).
Proof.
  split; simpl; repeat constructor;
    first [apply well_behaved_ret|apply log_request_ok|apply on_shell_ok|apply on_pty_ok
          |apply on_window_change_ok|apply on_subsystem_ok|apply reject_request_ok].
Qed.

Lemma direct_good d : is_Some d → good_builder d (DirectTCPIPBuilderSkeleton (T := T)).
Proof.
  intros Hd. split; simpl; repeat constructor;
    first [by apply well_behaved_spawn|apply log_request_ok|apply reject_request_ok].
Qed.

End skeletons.

(** ** Theorems *)

Section theorems.
Context {T : Type} `{K8sAPIReturns T} `{Payloads}.
Implicit Types (c : ChanState T) (h : Handler T).

(** [Serve] finishes only after every goroutine its callbacks started has finished:
    in every state reachable in [Serve] the wait group counts the live goroutines,
    and when [Serve] has finished there are none. *)
Theorem Serve_waits_for_goroutines h t s : good_handler h → serves h t s →
  wg (chan s) = length (live (chan s)) ∧ (phase s = Finished → live (chan s) = []).
Proof. intros Hh Hs. destruct (serves_inv h t s Hh Hs) as (Hc & Hf & _). by split; [apply Hc|]. Qed.

(** Once its context is cancelled or the request channel is closed, [Serve] can
    always run to its end: no callback panics or blocks, and the goroutines leave the
    wait group when the Kubernetes calls return. *)
Theorem Serve_can_finish h t s : good_handler h → serves h t s →
  cancelled s = true ∨ open s = false ∨ phase s ≠ Serving →
  ∃ s', rtc (serve_step h) s s' ∧ phase s' = Finished.
Proof. intros Hh Hs. apply can_finish; [done|by eapply serves_inv]. Qed.

(** A shell request, with or without an earlier pty request, runs bash in the
    user's pod: on a terminal exactly when a pty was requested, whose size, cut to 16
    bits, is then the next one in the queue; the outcome is written to the channel, the
    channel is closed and the goroutine leaves the wait group. *)
Theorem handleShell_runs_bash d ctx c r t' : chan_ok d 1 c →
  let pty := ptyReqData (reqData c) in
  let conf := MkExecConfig (GetNamespace (user (reqData c)))
                (GetAuthenticatedUserID (user (reqData c))) "bash"
                (channel (reqData c)) (Some (channel (reqData c))) (bool_decide (is_Some pty)) in
  ExecuteCommandInPod ctx conf (api c) = (r, t') → r ≠ Panic → r ≠ Blocked →
  ∃ c', handleShell ctx c = (Ret (), c') ∧ api c' = t' ∧ wg c = S (wg c') ∧
    events c' = events c ++ [shell_message r; ClosedChannel] ∧
    ∀ q, is_fifo (terminalResizer (reqData c)) q →
      is_fifo (terminalResizer (reqData c'))
        (match pty with Some p => (fifo_do (CFill (size_of_pty p)) q).2 | None => q end).
Proof.
  intros Hc pty conf E Hp Hb. eexists. split; [by eapply handleShell_eq|]. simpl.
  rewrite (ok_wg _ _ _ Hc), <-app_assoc. split_and!; [done..|]. intros q Hq.
  unfold pty_queue, pty. destruct (ptyReqData (reqData c)) as [p|]; [|done].
  destruct (size_do_fifo (CFill (size_of_pty p)) _ q Hq) as (w & Ew & Hw). simpl in Ew.
  destruct (Fill _ _) as [[] w']; simplify_eq/=; done.
Qed.

(** An sftp request runs the sftp server without a terminal for the identifier
    "<user>-statefulset-0"; a subsystem of another name only closes the channel. *)
Theorem handleSubsystem_runs_sftp d ctx c r t' : chan_ok d 1 c →
  let conf := MkExecConfig (GetNamespace (user (reqData c)))
                (GetAuthenticatedUserID (user (reqData c)) +:+ "-statefulset-0")
                "/usr/lib/ssh/sftp-server"
                (channel (reqData c)) (Some (channel (reqData c))) false in
  ExecuteCommandInPod ctx conf (api c) = (r, t') → r ≠ Panic → r ≠ Blocked →
  (∃ c', handleSubsystem ctx "sftp" c = (Ret (), c') ∧ api c' = t' ∧ wg c = S (wg c') ∧
     events c' = events c ++
       match r with Fail e => [WroteReason "closing connection, reason: " e ""] | _ => [] end ++
       [ClosedChannel]) ∧
  ∀ cmd, cmd ≠ "sftp" → ∃ c', handleSubsystem ctx cmd c = (Ret (), c') ∧ api c' = api c ∧
    events c' = events c ++ [ClosedChannel].
Proof.
  intros Hc conf E Hp Hb. split.
  - eexists. split; [by eapply handleSubsystem_eq|]. rewrite (ok_wg _ _ _ Hc).
    destruct r; simpl; rewrite ?(ok_wg _ _ _ Hc), <-?app_assoc; by split_and!.
  - intros cmd Hcmd. eexists. split; [eapply handleSubsystem_unknown; [done|]|done].
    unfold subSysMap. by rewrite lookup_singleton_ne.
Qed.

End theorems.

(** ** Concrete runs *)

Definition demo_user : K8sAPIUserWrapper :=
  NewK8sAPIUserWrapper (MkIdentifier "alice-1" "users" "" "" "").
Definition demo_log : call_log := MkLog [] [] [] [] None.
Definition demo_pty : PtyRequest := MkPty "xterm" 65616 24 0 0 "".
Definition no_payloads : Payloads := {|
  Unmarshal_pty _ := None; Unmarshal_winch _ := None;
  Unmarshal_subsys _ := None; Unmarshal_forward _ := None |}.

(** A session on which a pty was requested, with its shell goroutine running. *)
Definition demo_chan : ChanState call_log :=
  MkChanState (MkCallbackData 1 (Some demo_pty) None (NewTerminalSizeHandler 10) demo_user)
              1 [] [] demo_log.

Lemma demo_chan_ok : chan_ok None 1 demo_chan.
Proof.
  split; [reflexivity| |reflexivity|].
  - exists (MkFifo [] false 10). split; [done|simpl; lia].
  - intros H. by apply elem_of_nil in H.
Qed.

(** The session handler and the state in which its [Serve] starts. *)
Definition demo_builder : Builder call_log :=
  SetK8sUserAPI demo_user (SetLog 1%positive (SetChannel 1%positive
    (SetRequests 1%positive (SessionBuilderSkeleton (T := call_log) (H0 := no_payloads))))).
Definition demo_handler : Handler call_log :=
  match Build demo_builder with
  | inr h => h
  | inl _ => MkChanHandler 1 (reqData demo_chan) ∅ [] [] []
  end.

Lemma demo_build : Build demo_builder = inr demo_handler.
Proof. unfold demo_handler. destruct (Build demo_builder) eqn:E; [discriminate E|reflexivity]. Qed.

Lemma demo_handler_good : good_handler demo_handler.
Proof.
  apply (Build_good demo_builder); [|apply demo_build].
  apply good_setters, session_good.
Qed.

Lemma demo_serves : ∃ s, serves demo_handler demo_log s ∧ cancelled s = true.
Proof.
  eexists. split; [|shelve]. eapply serves_step; [|apply step_cancel].
  apply serves_start. vm_compute. reflexivity.
  Unshelve. reflexivity.
Qed.

Lemma Serve_waits_for_goroutines_witness :
  ∃ s, serves demo_handler demo_log s ∧ wg (chan s) = length (live (chan s)).
Proof.
  destruct demo_serves as (s & Hs & _). exists s. split; [exact Hs|].
  exact (proj1 (Serve_waits_for_goroutines _ _ _ demo_handler_good Hs)).
Defined.

Lemma Serve_can_finish_witness :
  ∃ s s', serves demo_handler demo_log s ∧ rtc (serve_step demo_handler) s s' ∧
    phase s' = Finished.
Proof.
  destruct demo_serves as (s & Hs & Hca). exists s.
  destruct (Serve_can_finish _ _ _ demo_handler_good Hs (or_introl Hca)) as (s' & Hr & Hp).
  exists s'. auto.
Defined.

Lemma handleShell_runs_bash_witness :
  ∃ c', handleShell false demo_chan = (Ret (), c') ∧
    is_fifo (terminalResizer (reqData c')) (MkFifo [MkSize 80 24] false 10).
Proof.
  destruct (handleShell_runs_bash (H := call_log_api) None false demo_chan (Ret ())
    (MkLog [MkExecConfig "users" "alice-1" "bash" 1 (Some 1%positive) true] [] [] [] None)
    demo_chan_ok eq_refl ltac:(discriminate) ltac:(discriminate)) as (c' & E & _ & _ & _ & Hq).
  exists c'. split; [exact E|]. apply (Hq (MkFifo [] false 10)). split; [done|simpl; lia].
Defined.

Lemma handleSubsystem_runs_sftp_witness :
  ∃ c', handleSubsystem false "sftp" demo_chan = (Ret (), c') ∧ events c' = [ClosedChannel].
Proof.
  destruct (handleSubsystem_runs_sftp (H := call_log_api) None false demo_chan (Ret ())
    (MkLog [MkExecConfig "users" "alice-1-statefulset-0" "/usr/lib/ssh/sftp-server" 1
              (Some 1%positive) false] [] [] [] None)
    demo_chan_ok eq_refl ltac:(discriminate) ltac:(discriminate)) as [(c' & E & _ & _ & Ev) _].
  exists c'. split; [exact E|exact Ev].
Defined.
