(* ===== verification/Connection.v ===== *)
(** ssh/connection: the handler of one authenticated ssh connection.

    [Build] makes the handler; [HandleGlobalConnection] prepares the user's pod and
    then serves the channels the client opens.  The loop of [handleChannels] and its
    goroutines are the step relation [conn_step], in which every served channel takes
    the steps of [serve_step]. *)
From S2P Require Import Prelude Config K8sUser TermSize Channels.

(** ** The connection as the ssh library hands it over *)

(** [ssh.ServerConn]: nil [Permissions], or permissions with nil [Extensions]. *)
Record ServerConn : Type := MkConn {
  User : string;
  SessionID : string;
  Permissions : option (option (gmap string string))
}.

(** [ssh.NewChannel], with the answer [Accept] gives. *)
Record NewChannel : Type := MkNewChannel {
  ChannelType : string;
  ExtraData : string;
  Accept : error + (positive * positive)
}.

Inductive RejectionReason : Type := UnknownChannelType | ConnectionFailed.

Inductive conn_event : Type :=
  | Accepted (nc : NewChannel)
  | Rejected (nc : NewChannel) (reason : RejectionReason) (message : string).

(** A lookup in [Permissions.Extensions]. *)
Definition Extensions (c : ServerConn) : gmap string string :=
  default ∅ (default None (Permissions c)).

(** ** builder.go *)

(** The builder's fields: channels and the logger are handles. *)
Record Builder : Type := MkBuilder {
  globalRequests : option positive;
  channel : option positive;
  connection : option ServerConn;
  log : option positive;
  k8sHelper : option positive
}.

Definition NewBuilder : Builder := MkBuilder None None None None None.

Definition SetK8sHelper h s :=
  MkBuilder (globalRequests s) (channel s) (connection s) (log s) (Some h).
Definition SetConnection c s :=
  MkBuilder (globalRequests s) (channel s) (Some c) (log s) (k8sHelper s).
Definition SetChannel c s :=
  MkBuilder (globalRequests s) (Some c) (connection s) (log s) (k8sHelper s).
Definition SetGlobalRequests r s :=
  MkBuilder (Some r) (channel s) (connection s) (log s) (k8sHelper s).
Definition SetLogger l s :=
  MkBuilder (globalRequests s) (channel s) (connection s) (Some l) (k8sHelper s).

Section connection.
Context {T : Type} `{K8sAPI T} `{Payloads}.

Definition writeFileToContainer (conn : ServerConn) (api : K8sAPIUserWrapper) : M T () :=
  if decide (default "" (Extensions conn !! AuthenticationType) ≠ "pw") then mret ()
  else WriteFileInPod (MkFileWriteConfig
         (default "" (Extensions conn !! AuthenticatedUserID)) UserNamespace
         "delegatio_priv_key" "/root/.ssh"
         (default "" (Extensions conn !! AuthenticatedPrivKey))).

Definition newSession (log channel requests : positive) (api : K8sAPIUserWrapper)
    : error + Channels.Handler T :=
  let builder := SessionBuilderSkeleton in
  let builder := SetRequests requests builder in
  let builder := Channels.SetChannel channel builder in
  let builder := SetLog log builder in
  let builder := SetK8sUserAPI api builder in
  Channels.Build builder.

Definition newDirectTCPIP (log channel requests : positive) (api : K8sAPIUserWrapper)
    (data : ForwardTCPChannelOpen) : error + Channels.Handler T :=
  let builder := DirectTCPIPBuilderSkeleton in
  let builder := SetRequests requests builder in
  let builder := Channels.SetChannel channel builder in
  let builder := SetLog log builder in
  let builder := SetK8sUserAPI api builder in
  let builder := SetDirectTCPIPData data builder in
  Channels.Build builder.

(** [Handler] of connection.go; [keepAliveInterval] is in seconds. *)
Record Handler : Type := MkConnHandler {
  h_connection : ServerConn;
  h_globalRequests : positive;
  h_channel : positive;
  h_log : positive;
  maxKeepAliveRetries : nat;
  keepAliveInterval : Z;
  newSessionHandler : positive → positive → positive → K8sAPIUserWrapper →
    error + Channels.Handler T;
  newDirectTCPIPHandler : positive → positive → positive → K8sAPIUserWrapper →
    ForwardTCPChannelOpen → error + Channels.Handler T;
  h_writeFileToContainer : ServerConn → K8sAPIUserWrapper → M T ();
  h_user : K8sAPIUserWrapper
}.

Definition Build (s : Builder) : error + Handler :=
  match connection s, channel s, globalRequests s with
  | Some conn, Some ch, Some reqs =>
      match Permissions conn with
      | Some (Some extensions) =>
          match extensions !! AuthenticatedUserID with
          | None => inl (ErrNew "no authenticated user id found")
          | Some userID =>
              match k8sHelper s with
              | None => inl (ErrNew "no k8s helper provided is nil")
              | Some _ =>
                  match log s with
                  | None => inl (ErrNew "no logger provided")
                  | Some lg => inr {|
                      h_connection := conn;
                      h_globalRequests := reqs;
                      h_channel := ch;
                      h_log := lg;
                      maxKeepAliveRetries := 3;
                      keepAliveInterval := 10;
                      newSessionHandler := newSession;
                      newDirectTCPIPHandler := newDirectTCPIP;
                      h_writeFileToContainer := writeFileToContainer;
                      h_user := NewK8sAPIUserWrapper
                        (MkIdentifier userID UserNamespace (User conn) "" "")
                    |}
                  end
              end
          end
      | _ => inl (ErrNew "connection malformed, permissions or extensions is nil")
      end
  | _, _, _ => inl (ErrNew "connection, channel or globalRequests is nil")
  end.

(** ** connection.go: keep-alive and global requests *)

(** The outcome of one keep-alive request. *)
Inductive tick : Type := Answered | NoAnswer.

(** The loop of [keepAlive] over the ticks until its context is done: [None] when it
    cancels the connection's context itself, else the failures in a row. *)
Fixpoint keepAlive_loop (maxRetries retries : nat) (ticks : list tick) : option nat :=
  match ticks with
  | [] => Some retries
  | t :: ticks' =>
      let retries := match t with NoAnswer => S retries | Answered => O end in
      if decide (maxRetries < retries)%nat then None else keepAlive_loop maxRetries retries ticks'
  end.

Definition keepAlive (c : Handler) (ticks : list tick) : option nat :=
  keepAlive_loop (maxKeepAliveRetries c) 0 ticks.

(** The loop of [handleGlobalRequests] over the requests it receives. *)
Definition handleGlobalRequests : list Request → M (list event) () := λ reqs,
  for_each reqs (λ req, if WantReply req then modify (λ evs, evs ++ [Replied req false]) else mret ()).

(** ** connection.go: channels *)

(** What [handleChannelTypeSession] does before [Serve]: the events, and the handler
    to serve, if any. *)
Definition handleChannelTypeSession (c : Handler) (nc : NewChannel)
    : list conn_event * option (Channels.Handler T) :=
  match Accept nc with
  | inl _ => ([], None)
  | inr (channel, requests) =>
      match newSessionHandler c (h_log c) channel requests (h_user c) with
      | inl _ => ([Accepted nc], None)
      | inr handler => ([Accepted nc], Some handler)
      end
  end.

Definition handleChannelTypeDirectTCPIP (c : Handler) (nc : NewChannel)
    : list conn_event * option (Channels.Handler T) :=
  match Unmarshal_forward (ExtraData nc) with
  | None => ([Rejected nc ConnectionFailed
                ("could not unmarshel extradata in channel: " +:+ ChannelType nc)], None)
  | Some tcpipData =>
      match Accept nc with
      | inl _ => ([], None)
      | inr (channel, requests) =>
          match newDirectTCPIPHandler c (h_log c) channel requests (h_user c) tcpipData with
          | inl _ => ([Accepted nc], None)
          | inr handler => ([Accepted nc], Some handler)
          end
      end
  end.

Definition handleChannel (c : Handler) (nc : NewChannel)
    : list conn_event * option (Channels.Handler T) :=
  if decide (ChannelType nc = "session") then handleChannelTypeSession c nc
  else if decide (ChannelType nc = "direct-tcpip") then handleChannelTypeDirectTCPIP c nc
  else ([Rejected nc UnknownChannelType ("unknown channel type: " +:+ ChannelType nc)], None).

(** The goroutines of [handleChannels]: one not yet scheduled, or one in [Serve]. *)
Inductive goroutine : Type :=
  | GChannel (nc : NewChannel)
  | GServe (h : Channels.Handler T) (s : ServeState T).

(** The channels opened and not yet taken, whether more may come, the context, the
    phase of [handleChannels], its wait group, its goroutines, what was answered, and
    the Kubernetes side all goroutines share. *)
Record ConnState : Type := MkConnState {
  incoming : list NewChannel;
  more : bool;
  ctx_done : bool;
  conn_phase : serve_phase;
  conn_wg : nat;
  goroutines : list goroutine;
  conn_events : list conn_event;
  conn_api : T
}.

Definition with_api (t : T) (s : ServeState T) : ServeState T :=
  MkServe (requests s) (open s) (cancelled s) (phase s) (set_api t (chan s)).

Inductive conn_step (c : Handler) : ConnState → ConnState → Prop :=
  | conn_take nc inc o ca w gs ev t :
      conn_step c (MkConnState (nc :: inc) o ca Serving w gs ev t)
                  (MkConnState inc o ca Serving (S w) (gs ++ [GChannel nc]) ev t)
  | conn_ctx_done inc o w gs ev t :
      conn_step c (MkConnState inc o true Serving w gs ev t)
                  (MkConnState inc o true Waiting w gs ev t)
  | conn_closed ca w gs ev t :
      conn_step c (MkConnState [] false ca Serving w gs ev t)
                  (MkConnState [] false true Waiting w gs ev t)
  | conn_done inc o ca gs ev t :
      conn_step c (MkConnState inc o ca Waiting O gs ev t)
                  (MkConnState inc o ca Finished O gs ev t)
  | conn_refused inc o ca ph w l1 nc l2 ev ev' t :
      handleChannel c nc = (ev', None) →
      conn_step c (MkConnState inc o ca ph (S w) (l1 ++ GChannel nc :: l2) ev t)
                  (MkConnState inc o ca ph w (l1 ++ l2) (ev ++ ev') t)
  | conn_serve inc o ca ph w l1 nc l2 ev ev' t h cs :
      handleChannel c nc = (ev', Some h) →
      startup h (MkChanState (h_reqData h) O [] [] t) = (Ret (), cs) →
      conn_step c (MkConnState inc o ca ph w (l1 ++ GChannel nc :: l2) ev t)
                  (MkConnState inc o ca ph w
                     (l1 ++ GServe h (MkServe [] true false Serving cs) :: l2) (ev ++ ev') (api cs))
  | conn_inner inc o ca ph w l1 h s s' l2 ev t :
      serve_step h (with_api t s) s' →
      (* the context of a channel is cancelled with the connection's *)
      (cancelled s' = cancelled s ∨ phase s' ≠ phase s ∨ ca = true) →
      conn_step c (MkConnState inc o ca ph w (l1 ++ GServe h s :: l2) ev t)
                  (MkConnState inc o ca ph w (l1 ++ GServe h s' :: l2) ev (api (chan s')))
  | conn_finished inc o ca ph w l1 h s l2 ev t :
      phase s = Finished →
      conn_step c (MkConnState inc o ca ph (S w) (l1 ++ GServe h s :: l2) ev t)
                  (MkConnState inc o ca ph w (l1 ++ l2) ev t)
  | conn_receive nc inc ca ph w gs ev t :
      conn_step c (MkConnState inc true ca ph w gs ev t)
                  (MkConnState (inc ++ [nc]) true ca ph w gs ev t)
  | conn_peer_closes inc o ca ph w gs ev t :
      conn_step c (MkConnState inc o ca ph w gs ev t)
                  (MkConnState inc false ca ph w gs ev t)
  | conn_cancel inc o ca ph w gs ev t :
      conn_step c (MkConnState inc o ca ph w gs ev t)
                  (MkConnState inc o true ph w gs ev t).

(** The states [handleChannels] goes through. *)
Definition handles (c : Handler) (t : T) (s : ConnState) : Prop :=
  rtc (conn_step c) (MkConnState [] true false Serving O [] [] t) s.

(** ** connection.go: [HandleGlobalConnection] *)

Inductive global_event : Type :=
  | StartKeepAlive | StartGlobalRequests | ServeChannels
  | StopGlobalRequests | StopKeepAlive | CloseConnection.

Definition did (e : global_event) : M (T * list global_event) () :=
  modify (λ s, (fst s, snd s ++ [e])).
Definition on_api {A} (m : M T A) : M (T * list global_event) A :=
  zoom fst (λ t s, (t, snd s)) m.

Definition HandleGlobalConnection (Getenv : string → string) (c : Handler)
    : M (T * list global_event) () :=
  defer (did CloseConnection) (
    did StartKeepAlive;;
    defer (did StopKeepAlive) (
      did StartGlobalRequests;;
      defer (did StopGlobalRequests) (
        r ← attempt (on_api (CreateAndWaitForRessources
              (MkIdentifier (GetAuthenticatedUserID (h_user c)) (GetNamespace (h_user c)) ""
                            (GetNodeName Getenv) "")));
        match r with
        | inl _ => mret ()
        | inr _ =>
            attempt (on_api (h_writeFileToContainer c (h_connection c) (h_user c)));;
            did ServeChannels
        end))).

(** The handlers the connection makes are good ones. *)
Record good_conn (c : Handler) : Prop := {
  good_session lg ch rq u h : newSessionHandler c lg ch rq u = inr h → good_handler h;
  good_direct lg ch rq u d h : newDirectTCPIPHandler c lg ch rq u d = inr h → good_handler h
}.

Definition goroutine_ok (g : goroutine) : Prop :=
  match g with
  | GChannel _ => True
  | GServe h s => good_handler h ∧ serve_inv (directTCPIPData (h_reqData h)) s
  end.

Record conn_inv (s : ConnState) : Prop := {
  inv_wg : conn_wg s = length (goroutines s);
  inv_goroutines : Forall goroutine_ok (goroutines s);
  inv_finished : conn_phase s = Finished → goroutines s = [];
  inv_done : conn_phase s ≠ Serving → ctx_done s = true
}.

End connection.

Arguments Handler T : clear implicits.
Arguments ConnState T : clear implicits.

(** ** Lemmas *)

Section lemmas.
Context {T : Type} `{K8sAPIReturns T} `{Payloads}.
Implicit Types (c : Handler T) (s : ConnState T).

Lemma newSession_good lg ch rq u h : newSession (T := T) lg ch rq u = inr h → good_handler h.
Proof.
  unfold newSession. cbv zeta. intros E. refine (Build_good _ h _ E).
  apply good_setters, session_good.
Qed.

Lemma newDirectTCPIP_good lg ch rq u d h :
  newDirectTCPIP (T := T) lg ch rq u d = inr h → good_handler h.
Proof.
  unfold newDirectTCPIP. cbv zeta. intros E. refine (Build_good _ h _ E).
  apply good_set_data, good_setters, direct_good. by exists d.
Qed.

Lemma good_conn_of_Build b c : Build b = inr c → good_conn c.
Proof.
  unfold Build. repeat (case_match; try done). intros [= <-]. split; simpl; intros.
  - by eapply newSession_good.
  - by eapply newDirectTCPIP_good.
Qed.

Lemma handleChannel_good c nc ev h : good_conn c → handleChannel c nc = (ev, Some h) → good_handler h.
Proof.
  intros [Hs Hd]. unfold handleChannel, handleChannelTypeSession, handleChannelTypeDirectTCPIP.
  repeat (case_match; simplify_eq/=; try done); intros [= <- <-]; eauto.
Qed.

Lemma serve_inv_api d t (s : ServeState T) : serve_inv d s → serve_inv d (with_api t s).
Proof. intros (Hc & Hf & Hca). split; [by apply chan_ok_api|by split]. Qed.

Lemma goroutine_serves c nc ev h t cs : good_conn c → handleChannel c nc = (ev, Some h) →
  startup h (MkChanState (h_reqData h) O [] [] t) = (Ret (), cs) →
  goroutine_ok (GServe h (MkServe [] true false Serving cs)).
Proof.
  intros Hc Hh%handleChannel_good Hs; [|done]. split; [done|].
  destruct (startup_ok h t Hh) as (cs' & E & Hok). rewrite Hs in E. simplify_eq. by split_and!.
Qed.

Lemma conn_step_inv c s s' : good_conn c → conn_step c s s' → conn_inv s → conn_inv s'.
Proof.
  intros Hc Hs [Hw Hg Hf Hd]. destruct Hs; simpl in *; split; simpl; try done;
    rewrite ?length_app in *; simpl in *; rewrite ?length_app; simpl; try lia;
    rewrite ?Forall_app, ?Forall_cons in *; try tauto;
    try (by intros E; specialize (Hf E); destruct l1).
  - by split_and!.
  - intros _. by apply nil_length_inv.
  - intros _. by apply Hd.
  - split_and!; [tauto| |tauto]. by eapply goroutine_serves.
  - destruct Hg as (? & [Hh Hi] & ?). split_and!; [done|split; [done|]|done].
    eapply serve_step_inv; [done..|]. by apply serve_inv_api.
Qed.

(** A goroutine that is no longer there has been refused its channel, or has served it to the
    end. *)
Definition goroutine_ended (c : Handler T) (g : goroutine (T := T)) : Prop :=
  match g with
  | GChannel nc => (handleChannel c nc).2 = None
  | GServe h v => phase v = Finished ∧ live (chan v) = []
  end.

Lemma removed_is (g g' : goroutine (T := T)) l1 l2 : l1 ++ g' :: l2 ≡ₚ g :: l1 ++ l2 → g = g'.
Proof.
  intros Hp. symmetry. apply Permutation_length_1, (Permutation_app_inv_r (l1 ++ l2)). simpl.
  by rewrite Permutation_middle.
Qed.

Lemma gone_ended c s s' g : conn_inv s → conn_step c s s' →
  goroutines s ≡ₚ g :: goroutines s' → goroutine_ended c g.
Proof.
  intros [_ Hg _ _] Hs Hp. pose proof (Permutation_length Hp) as Hl.
  destruct Hs; simpl in *; rewrite ?length_app in Hl; simpl in Hl; rewrite ?length_app in Hl; simpl in Hl; try lia.
  - apply removed_is in Hp as ->. simpl. by match goal with E : handleChannel _ _ = _ |- _ => rewrite E end.
  - apply removed_is in Hp as ->. rewrite Forall_app, Forall_cons in Hg.
    destruct Hg as (_ & [_ (_ & Hf & _)] & _). split; auto.
Qed.

Lemma handles_inv c t s : good_conn c → handles c t s → conn_inv s.
Proof.
  intros Hc. apply (rtc_ind_r conn_inv).
  - by split.
  - intros s1 s2 _ Hs Hi. by eapply conn_step_inv.
Qed.








(** *** The builder *)

Lemma Build_spec (b : Builder) c : Build b = inr c ↔
  ∃ conn ch reqs ext uid k lg,
    b = MkBuilder (Some reqs) (Some ch) (Some conn) (Some lg) (Some k) ∧
    Permissions conn = Some (Some ext) ∧ ext !! AuthenticatedUserID = Some uid ∧
    c = MkConnHandler conn reqs ch lg 3 10 newSession newDirectTCPIP writeFileToContainer
          (NewK8sAPIUserWrapper (MkIdentifier uid UserNamespace (User conn) "" "")).
Proof.
  unfold Build. destruct b as [reqs ch conn lg k]; simpl. split.
  - repeat (case_match; try done). intros [= <-]. by eexists _, _, _, _, _, _, _.
  - intros (conn' & ch' & reqs' & ext & uid & k' & lg' & [= -> -> -> -> ->] & Hp & He & ->).
    by rewrite Hp, He.
Qed.

(** *** Keep-alive *)

Lemma keepAlive_loop_split m r ticks : (r ≤ m)%nat →
  keepAlive_loop m r ticks = None ↔
    (∃ b, ticks = replicate (S m - r) NoAnswer ++ b) ∨
    (∃ a b, ticks = a ++ replicate (S m) NoAnswer ++ b).
Proof.
  revert r; induction ticks as [|x ticks IH]; intros r Hr; cbn [keepAlive_loop].
  { split; [done|]. replace (S m - r)%nat with (S (m - r)) by lia.
    intros [[b Hb]|(a & b & Hb)]; [done|by destruct a]. }
  destruct x; cbn zeta.
  - rewrite decide_False by lia. rewrite IH by lia. rewrite Nat.sub_0_r.
    replace (S m - r)%nat with (S (m - r)) by lia. split.
    + intros [[b ->]|(a & b & ->)]; right; [by exists [Answered], b|by exists (Answered :: a), b].
    + intros [[b Hb]|([|y a] & b & Hb)]; [done..|]. simplify_eq/=. right. by exists a, b.
  - destruct (decide (m < S r)%nat) as [Hm|Hm].
    + split; [intros _|done]. left. exists ticks. by replace (S m - r)%nat with 1%nat by lia.
    + rewrite IH by lia. replace (S m - r)%nat with (S (S m - S r)) by lia. split.
      * intros [[b ->]|(a & b & ->)]; [left; by exists b|right; by exists (NoAnswer :: a), b].
      * intros [[b Hb]|([|y a] & b & Hb)]; simplify_eq/=; [left; by exists b| |right; by exists a, b].
        left. exists (replicate r NoAnswer ++ b). rewrite app_assoc, <-replicate_add.
        f_equal. f_equal. lia.
Qed.

End lemmas.

(** ** Theorems *)

Section theorems.
Context {T : Type} `{K8sAPIReturns T} `{Payloads}.
Implicit Types (c : Handler T) (cs : ChanState T) (b : Builder).

(** [Build] succeeds exactly on a complete builder whose connection is
    authenticated, and the handler then acts for the authenticated user, in the users'
    namespace. *)
Theorem Build_authenticated b c : Build b = inr c ↔
  ∃ conn ch reqs ext uid k lg,
    b = MkBuilder (Some reqs) (Some ch) (Some conn) (Some lg) (Some k) ∧
    Permissions conn = Some (Some ext) ∧ ext !! AuthenticatedUserID = Some uid ∧
    c = MkConnHandler conn reqs ch lg 3 10 newSession newDirectTCPIP writeFileToContainer
          (NewK8sAPIUserWrapper (MkIdentifier uid UserNamespace (User conn) "" "")).
Proof. apply Build_spec. Qed.

(** A built handler gives up on a client exactly when four keep-alive requests in a
    row get no answer. *)
Theorem keepAlive_gives_up_after_four b c ticks : Build b = inr c →
  keepAlive c ticks = None ↔ ∃ before after, ticks = before ++ replicate 4 NoAnswer ++ after.
Proof.
  intros (conn & ch & reqs & ext & uid & k & lg & -> & _ & _ & ->)%Build_spec.
  unfold keepAlive. simpl. rewrite keepAlive_loop_split by lia. split; [|by right].
  intros [[a ->]|?]; [by exists [], a|done].
Qed.

(** C19: [handleChannels] finishes only when every goroutine it started for a channel has
    finished, and none of those finishes before every goroutine that its channel's callbacks
    started: in every state the two kinds of wait groups count what still runs, and a
    goroutine of [handleChannels] goes away only when its channel was refused or, in the
    phase after [Serve], with no goroutine of the channel left. *)
Theorem handleChannels_waits b c t s : Build b = inr c → handles c t s →
  conn_wg s = length (goroutines s) ∧ (conn_phase s = Finished → goroutines s = []) ∧
  (∀ h v, GServe h v ∈ goroutines s →
     wg (chan v) = length (live (chan v)) ∧ (phase v = Finished → live (chan v) = [])) ∧
  (∀ s' g, conn_step c s s' → goroutines s ≡ₚ g :: goroutines s' →
     match g with
     | GChannel nc => (handleChannel c nc).2 = None
     | GServe h v => phase v = Finished ∧ live (chan v) = []
     end).
Proof.
  intros Hb Hs. pose proof (handles_inv c t s (good_conn_of_Build _ _ Hb) Hs) as Hi.
  split_and!; [apply Hi..| |intros s' g Hs' Hp; exact (gone_ended c s s' g Hi Hs' Hp)].
  intros h v Hin. pose proof (inv_goroutines _ Hi) as Hg.
  rewrite Forall_forall in Hg. destruct (Hg _ Hin) as [_ (Hc & Hf & _)]. split; [apply Hc|done].
Qed.


(** [HandleGlobalConnection] serves channels only after the user's resources are
    created and running, writes the private key first for a password login and for
    no other, and always stops its two goroutines, in order, and closes the
    connection. *)
Theorem HandleGlobalConnection_sequence Getenv b c t r t1 : Build b = inr c →
  CreateAndWaitForRessources (MkIdentifier (GetAuthenticatedUserID (h_user c)) UserNamespace ""
    (Getenv NodeNameEnvVariable) "") t = (r, t1) → r ≠ Panic → r ≠ Blocked →
  (∀ f t2, (WriteFileInPod f t2).1 ≠ Panic ∧ (WriteFileInPod f t2).1 ≠ Blocked) →
  ∃ t2, HandleGlobalConnection Getenv c (t, []) =
    (Ret (), (t2, [StartKeepAlive; StartGlobalRequests] ++
                  match r with Ret _ => [ServeChannels] | _ => [] end ++
                  [StopGlobalRequests; StopKeepAlive; CloseConnection])) ∧
  match r with
  | Ret _ =>
      if decide (Extensions (h_connection c) !! AuthenticationType = Some "pw")
      then ∃ f r2, fw_UserIdentifier f = GetAuthenticatedUserID (h_user c) ∧
        fw_FileName f = "delegatio_priv_key" ∧
        fw_FileData f = default "" (Extensions (h_connection c) !! AuthenticatedPrivKey) ∧
        WriteFileInPod f t1 = (r2, t2)
      else t2 = t1
  | _ => t2 = t1
  end.
Proof.
  intros (conn & ch & reqs & ext & uid & k & lg & -> & Hp & He & ->)%Build_spec E Hnp Hnb Hw.
  simpl in *. unfold HandleGlobalConnection, defer, did, on_api, attempt, zoom, modify, mbind, M_bind.
  simpl. unfold GetNodeName, GetNamespace in *. simpl in *. unfold GetAuthenticatedUserID in *.
  simpl in *. rewrite E. destruct r as [[]|e| |]; try done; [|by exists t1].
  unfold writeFileToContainer.
  assert (Extensions conn = ext) as Hext by (unfold Extensions; by rewrite Hp).
  rewrite Hext. destruct (decide (ext !! AuthenticationType = Some "pw")) as [Hpw|Hpw].
  - rewrite Hpw. rewrite decide_False by (intros Hn; by apply Hn). simpl. rewrite He. simpl.
    set (f := MkFileWriteConfig _ _ _ _ _). specialize (Hw f t1).
    destruct (WriteFileInPod f t1) as [[[]| | |] t2] eqn:Ew; destruct Hw; try done;
      exists t2; (split; [done|]); by eexists f, _.
  - rewrite decide_True; [by exists t1|].
    destruct (ext !! AuthenticationType); simpl; congruence.
Qed.

(** The answers of a session: a shell request starts one goroutine and is accepted;
    a pty or subsystem request is accepted when its payload parses and gets no answer
    otherwise; a size change changes only the queue and gets no answer; everything else
    is refused, without any other effect. *)
Theorem session_dispatch lg ch rq u h req cs : newSession lg ch rq u = inr h →
  (Type_ req = "shell" →
     handle_request h req cs = (spawn HandleShell;; Reply req true) cs) ∧
  (Type_ req = "pty-req" → handle_request h req cs =
     match Unmarshal_pty (Payload req) with
     | None => (Ret (), cs)
     | Some p => (Ret (), emit (Replied req true) (set_reqData (set_pty (Some p) (reqData cs)) cs))
     end) ∧
  (Type_ req = "subsystem" → handle_request h req cs =
     match Unmarshal_subsys (Payload req) with
     | None => (Ret (), cs)
     | Some s => (spawn (HandleSubsystem (Subsystem s));; Reply req true) cs
     end) ∧
  (Type_ req = "window-change" → ∀ q, is_fifo (terminalResizer (reqData cs)) q →
     ∃ w, handle_request h req cs = (Ret (), set_reqData (set_resizer w (reqData cs)) cs) ∧
       is_fifo w (match Unmarshal_winch (Payload req) with
                  | None => q
                  | Some sz => (fifo_do (CFill (size_of_winch sz)) q).2
                  end)) ∧
  (Type_ req ∉ ["shell"; "pty-req"; "subsystem"; "window-change"] →
     handle_request h req cs = (Ret (), emit (Replied req false) cs)).
Proof.
  unfold newSession. cbv zeta. intros Hb. destruct (Build_dispatch _ _ req Hb) as [-> _].
  cbn -[decide]. split_and!.
  - intros ->. done.
  - intros ->. simpl. unfold on_pty. by destruct (Unmarshal_pty _).
  - intros ->. simpl. unfold on_subsystem. by destruct (Unmarshal_subsys _).
  - intros -> q Hq. simpl. unfold on_window_change. destruct (Unmarshal_winch _) as [sz|].
    + destruct (fill_queue (size_of_winch sz) cs q Hq) as (r & w & E & Hw). exists w.
      split; [|done]. unfold mbind, M_bind. by rewrite E.
    + exists (terminalResizer (reqData cs)). split; [|done]. by destruct cs as [[]].
  - intros Hn. rewrite !decide_False by set_solver. done.
Qed.

(** A direct-tcpip channel starts one port forwarding goroutine and refuses requests,
    except that the four session requests get no answer at all, even when the client
    wants one: the dispatch table has an empty entry for them. *)
Theorem direct_tcpip_dispatch lg ch rq u d h req cs : newDirectTCPIP lg ch rq u d = inr h →
  startup h cs = spawn HandlePortForward cs ∧
  (Type_ req ∈ ["shell"; "pty-req"; "subsystem"; "window-change"] →
     handle_request h req cs = (Ret (), cs)) ∧
  (Type_ req ∉ ["shell"; "pty-req"; "subsystem"; "window-change"] →
     handle_request h req cs = (Ret (), emit (Replied req false) cs)).
Proof.
  unfold newDirectTCPIP. cbv zeta. intros Hb.
  destruct (Build_dispatch _ _ req Hb) as [-> Hs]. unfold startup. rewrite Hs.
  cbn -[decide elem_of]. split_and!; [done| |].
  - intros Hin. repeat (apply elem_of_cons in Hin as [->|Hin]; [done|]). by apply elem_of_nil in Hin.
  - intros Hn. rewrite !decide_False by set_solver. done.
Qed.

End theorems.

(** ** Concrete runs *)

Definition demo_conn : ServerConn :=
  MkConn "alice" "sid" (Some (Some {["authType" := "pw"; "authenticated-uuid" := "alice-1";
                                     "privateKey" := "key"]})).
Definition demo_conn_builder : Builder :=
  MkBuilder (Some 1%positive) (Some 2%positive) (Some demo_conn) (Some 3%positive) (Some 4%positive).
Definition demo_conn_handler : Handler call_log :=
  let P := no_payloads in
  MkConnHandler demo_conn 1 2 3 3 10 newSession newDirectTCPIP writeFileToContainer
    (NewK8sAPIUserWrapper (MkIdentifier "alice-1" UserNamespace "alice" "" "")).

Lemma demo_conn_built : let P := no_payloads in Build demo_conn_builder = inr demo_conn_handler.
Proof. intros P. apply Build_spec. by eexists _, _, _, _, _, _, _. Qed.

Lemma demo_handles : let P := no_payloads in
  ∃ s, handles demo_conn_handler demo_log s ∧ ctx_done s = true.
Proof. intros P. eexists. split; [eapply rtc_once, conn_cancel|reflexivity]. Qed.

Lemma keepAlive_gives_up_after_four_witness :
  let P := no_payloads in
  keepAlive demo_conn_handler [NoAnswer; Answered; NoAnswer; NoAnswer; NoAnswer; NoAnswer] = None.
Proof.
  intros P. apply (proj2 (keepAlive_gives_up_after_four _ _ _ demo_conn_built)).
  exists [NoAnswer; Answered], []. reflexivity.
Defined.

Lemma handleChannels_waits_witness :
  let P := no_payloads in
  ∃ s, handles demo_conn_handler demo_log s ∧ conn_wg s = length (goroutines s).
Proof.
  intros P. destruct demo_handles as (s & Hs & _). exists s. split; [exact Hs|].
  exact (proj1 (handleChannels_waits _ _ _ _ demo_conn_built Hs)).
Defined.


Lemma HandleGlobalConnection_sequence_witness :
  let P := no_payloads in
  ∃ t2, HandleGlobalConnection (λ _, "node") demo_conn_handler (demo_log, []) =
    (Ret (), (t2, [StartKeepAlive; StartGlobalRequests; ServeChannels;
                   StopGlobalRequests; StopKeepAlive; CloseConnection])).
Proof.
  intros P.
  destruct (HandleGlobalConnection_sequence (λ _, "node") _ _ demo_log (Ret ())
    (MkLog [] [] [] [MkIdentifier "alice-1" "users" "" "node" ""] None) demo_conn_built
    eq_refl ltac:(discriminate) ltac:(discriminate)) as (t2 & E & _).
  - intros f [ex fw w cr [o|]]; split; discriminate.
  - exists t2. exact E.
Defined.

Definition demo_session : Channels.Handler call_log :=
  let P := no_payloads in
  match newSession 3 1 2 demo_user with inr h => h | inl _ => demo_handler end.
Definition demo_forward : Channels.Handler call_log :=
  let P := no_payloads in
  match newDirectTCPIP 3 1 2 demo_user (MkForward "localhost" 8080 "" 0) with
  | inr h => h | inl _ => demo_handler end.

Lemma demo_session_built : let P := no_payloads in newSession 3 1 2 demo_user = inr demo_session.
Proof. intros P. unfold demo_session. destruct (newSession _ _ _ _) eqn:E; [discriminate E|reflexivity]. Qed.

Lemma demo_forward_built : let P := no_payloads in
  newDirectTCPIP 3 1 2 demo_user (MkForward "localhost" 8080 "" 0) = inr demo_forward.
Proof. intros P. unfold demo_forward. destruct (newDirectTCPIP _ _ _ _ _) eqn:E; [discriminate E|reflexivity]. Qed.

Lemma session_dispatch_witness :
  handle_request demo_session (MkRequest "env" true "") demo_chan =
    (Ret (), emit (Replied (MkRequest "env" true "") false) demo_chan).
Proof.
  refine (proj2 (proj2 (proj2 (proj2 (session_dispatch _ _ _ _ _ (MkRequest "env" true "")
    demo_chan demo_session_built)))) _).
  rewrite !not_elem_of_cons. repeat split; try discriminate. apply not_elem_of_nil.
Defined.

Lemma direct_tcpip_dispatch_witness :
  handle_request demo_forward (MkRequest "shell" true "") demo_chan = (Ret (), demo_chan).
Proof.
  refine (proj1 (proj2 (direct_tcpip_dispatch _ _ _ _ _ _ (MkRequest "shell" true "")
    demo_chan demo_forward_built)) _).
  apply elem_of_cons. left. reflexivity.
Defined.
