(* ===== verification/Server.v ===== *)
(** ssh/server.go, ssh/ldap and ssh/util: who may log in, and what a login leads to; the
    accept loop is [ServerLoop]'s.

    The store is any [KVStore]; the LDAP library and the key generation are parameters
    ([LdapClient], [KeyGen]) on an environment of their own. *)
From S2P Require Import Prelude Config StoreApi StoreWrapper K8sUser Channels Connection.

(** ** ldap.go *)

(** The go-ldap calls: a connection is a handle, an entry its attributes (an absent
    one reads as the empty string). *)
Class LdapClient (E : Type) : Type := {
  ldap_DialURL : string → M E positive;
  ldap_Bind : positive → string → string → M E ();
  ldap_Search : positive → string → list string → M E (list (gmap string string));
  ldap_Close : positive → M E ()
}.

Record Ldap : Type := MkLdap {
  address : string;
  dn_before : string;
  dn_after : string;
  attributes : list string
}.

(** [NewLdap]: the dn "cn=%s,ou=users,..." is kept as the text before and after [%s]. *)
Definition NewLdap : Ldap := {|
  address := "ldaps://ldaps-rz-1.ethz.ch";
  dn_before := "cn=";
  dn_after := ",ou=users,ou=nethz,ou=id,ou=auth,o=ethz,c=ch";
  attributes := ["swissEduPersonMatriculationNumber"; "swissEduPersonOrganizationalMail";
                 "swissEduPersonGender"; "eduPersonAffiliation"; "surname"; "givenName";
                 "mail"; "uid"]
|}.

Definition patchedDn (l : Ldap) (username : string) : string :=
  dn_before l +:+ username +:+ dn_after l.

Definition GetAttributeValue (e : gmap string string) (a : string) : string := default "" (e !! a).

(** The user an entry describes. *)
Definition user_of_entry (username : string) (e : gmap string string) : UserInformation := {|
  Username := username;
  RealName := GetAttributeValue e "givenName" +:+ " " +:+ GetAttributeValue e "surname";
  Email := GetAttributeValue e "swissEduPersonOrganizationalMail";
  LegiNumber := GetAttributeValue e "swissEduPersonMatriculationNumber";
  Uuid := username +:+ "-" +:+ GetAttributeValue e "swissEduPersonMatriculationNumber";
  Gender := GetAttributeValue e "swissEduPersonGender";
  PrivKey := "";
  PubKey := "";
  Points := ∅
|}.

Section ldap.
Context {E : Type} `{LdapClient E}.

Definition dial (l : Ldap) (username password : string) : M E positive :=
  connection ← ldap_DialURL (address l);
  ldap_Bind connection (patchedDn l username) password;;
  mret connection.

Definition Search (l : Ldap) (username password : string) : M E UserInformation :=
  connection ← dial l username password;
  defer (ldap_Close connection) (
    sr ← ldap_Search connection (patchedDn l username) (attributes l);
    match sr with
    | [entry] => mret (user_of_entry username entry)
    | _ => fail (ErrNew ("user not unique " +:+ patchedDn l username))
    end).
End ldap.

(** ** util.go *)

(** crypto/rsa, encoding/pem and x/crypto/ssh, at the key sizes and formats used. *)
Class KeyGen (E : Type) : Type := {
  rsa_key : Type;
  rsa_GenerateKey : M E rsa_key;
  pem_EncodePrivate : rsa_key → string;
  ssh_NewPublicKey : rsa_key → error + string
}.

Definition CreateSSHKeypair {E} `{KeyGen E} : M E (string * string) :=
  privateKey ← rsa_GenerateKey;
  match ssh_NewPublicKey privateKey with
  | inl err => fail err
  | inr pub => mret (pem_EncodePrivate privateKey, pub)
  end.

(** ** server.go *)

Section server.
Context {S E : Type} `{KVStore S} `{LdapClient E} `{KeyGen E} `{Json UserInformation}.

Definition on_store {A} (m : M S A) : M (S * E) A := zoom fst (λ s w, (s, snd w)) m.
Definition on_env {A} (m : M E A) : M (S * E) A := zoom snd (λ e w, (fst w, e)) m.

(** [fmt.Errorf("...: %w", err)] around a call. *)
Definition wrap_err {T A} (msg : string) (m : M T A) : M T A := λ s,
  match m s with (Fail err, s') => (Fail (ErrWrap msg err), s') | r => r end.

(** [PublicKeyCallback]; [key] is the key in authorized_keys format.  The result is
    [Permissions.Extensions]. *)
Definition PublicKeyCallback (key : string) : M (S * E) (gmap string string) :=
  userData ← wrap_err "failed to obtain user data" (on_store (GetPublicKeyData key));
  mret {[AuthenticationType := "pk"; AuthenticatedUserID := Uuid userData]}.

Definition set_keys (privKey pubKey : string) (u : UserInformation) : UserInformation :=
  MkUser (Username u) (RealName u) (Email u) (LegiNumber u) (Uuid u) (Gender u)
         privKey pubKey (Points u).

Definition PasswordCallback (l : Ldap) (user password : string) : M (S * E) (gmap string string) :=
  userData ← wrap_err ("ldap search for user " +:+ user +:+ " failed")
               (on_env (Search l user password));
  exists_ ← wrap_err ("error checking if uuid " +:+ Uuid userData +:+ " exists")
              (on_store (UuidExists (Uuid userData)));
  userData ←
    (if (exists_ : bool) then mret userData
     else
       keys ← wrap_err "failed to create ssh keypair" (on_env CreateSSHKeypair);
       let userData := set_keys keys.1 keys.2 userData in
       wrap_err "failed to put data into store"
         (on_store (PutDataIdxByUuid (Uuid userData) userData));;
       wrap_err "failed to put data into store"
         (on_store (PutDataIdxByPubKey (PubKey userData) userData));;
       mret userData);
  mret {[AuthenticationType := "pw"; AuthenticatedPrivKey := PrivKey userData;
         AuthenticatedUserID := Uuid userData]}.

Definition BannerCallback (commit : string) : string :=
  "delegatio ssh server version " +:+ Version +:+ newline +:+ "commit " +:+ commit +:+ newline.
End server.

(** [validateAndProcessConnection] up to [HandleGlobalConnection]: the outcome of the
    handshake with its two channels, and the handler to run, if any. *)
Definition validate {T} `{K8sAPI T} `{Payloads} (k8sHelper log : option positive)
    (handshake : error + (ServerConn * positive * positive)) : option (Connection.Handler T) :=
  match handshake with
  | inl _ => None
  | inr (sshConn, chans, reqs) =>
      match Permissions sshConn with
      | Some (Some _) =>
          let builder := NewBuilder in
          let builder := match k8sHelper with
                         | Some h => SetK8sHelper h builder | None => builder end in
          let builder := Connection.SetChannel chans builder in
          let builder := SetGlobalRequests reqs builder in
          let builder := SetConnection sshConn builder in
          let builder := match log with
                         | Some lg => SetLogger lg builder | None => builder end in
          match Connection.Build builder with
          | inl _ => None
          | inr sshConnHandler => Some sshConnHandler
          end
      | _ => None
      end
  end.

(** ** Lemmas *)

Section lemmas.
Context {S E : Type} `{KVStoreLaws S} `{LdapClient E} `{KeyGen E} `{Json UserInformation}.

Lemma wrap_on_store {A} msg (m : M S A) s (e : E) r s' : m s = (r, s') →
  wrap_err msg (on_store m) (s, e) =
    (match r with Fail err => Fail (ErrWrap msg err) | r => r end, (s', e)).
Proof. intros Em. unfold wrap_err, on_store, zoom. simpl. rewrite Em. by destruct r. Qed.

Lemma wrap_on_env {A} msg (m : M E A) (s : S) e r e' : m e = (r, e') →
  wrap_err msg (on_env m) (s, e) =
    (match r with Fail err => Fail (ErrWrap msg err) | r => r end, (s, e')).
Proof. intros Em. unfold wrap_err, on_env, zoom. simpl. rewrite Em. by destruct r. Qed.

Lemma UuidExists_eq (s : S) m k : holds s m →
  ∃ s', UuidExists k s = (Ret (bool_decide (is_Some (uuids (records_of m) !! k))), s') ∧ holds s' m.
Proof. intros Hs. simpl. rewrite sub_map_lookup. by apply exists_value. Qed.

(** An entry of the store carries no keys. *)
Lemma Search_inv l username password (e : E) u e' : Search l username password e = (Ret u, e') →
  ∃ c e1 e2 entry e3, ldap_DialURL (address l) e = (Ret c, e1) ∧
    ldap_Bind c (patchedDn l username) password e1 = (Ret (), e2) ∧
    ldap_Search c (patchedDn l username) (attributes l) e2 = (Ret [entry], e3) ∧
    (ldap_Close c e3).2 = e' ∧ u = user_of_entry username entry.
Proof.
  unfold Search. intros (c & e2 & Hd & Hs)%bind_Ret_inv.
  unfold dial in Hd. apply bind_Ret_inv in Hd as (c' & e1 & Hdial & Hd).
  apply bind_Ret_inv in Hd as ([] & e2' & Hbind & Hd). unfold mret, M_ret in Hd. simplify_eq.
  apply defer_Ret_inv in Hs as (e3 & Hm & Hc).
  apply bind_Ret_inv in Hm as (sr & e4 & Hsearch & Hm).
  destruct sr as [|entry [|]]; try done. unfold mret, M_ret in Hm. simplify_eq.
  by exists c, e1, e2, entry, e3.
Qed.
End lemmas.

(** ** Theorems *)

Section theorems.
Context {S E : Type} `{KVStoreLaws S} `{LdapClient E} `{KeyGen E} `{JsonLaws UserInformation}.
Implicit Types (e : E).

(** C5: a public key is accepted exactly when the store holds a user record for it that
    decodes, and the connection then belongs to that user. *)
Theorem PublicKeyCallback_exact s m e key : holds s m →
  ∃ s', holds s' m ∧
    match publickeys (records_of m) !! key with
    | None => ∃ err, PublicKeyCallback key (s, e) = (Fail err, (s', e))
    | Some d =>
        match json_Unmarshal d with
        | inl err => PublicKeyCallback key (s, e) =
            (Fail (ErrWrap "failed to obtain user data" err), (s', e))
        | inr u => PublicKeyCallback key (s, e) =
            (Ret {[AuthenticationType := "pk"; AuthenticatedUserID := Uuid u]}, (s', e))
        end
    end.
Proof.
  intros Hs. simpl. rewrite sub_map_lookup.
  destruct (get_holds s m (publicKeyPrefix +:+ key) Hs) as (s' & Hs' & Eg). exists s'.
  split; [done|]. unfold PublicKeyCallback.
  destruct (m !! (publicKeyPrefix +:+ key)) as [d|].
  - assert (GetPublicKeyData (A := UserInformation) key s =
      (match json_Unmarshal d with inl err => Fail err | inr u => Ret u end, s')) as Eu.
    { unfold GetPublicKeyData. rewrite (bind_Ret _ _ _ _ _ Eg). unfold unmarshal.
      by destruct (json_Unmarshal d). }
    unfold mbind, M_bind. rewrite (wrap_on_store _ _ _ _ _ _ Eu). by destruct (json_Unmarshal d).
  - destruct Eg as [p Eg]. eexists. apply bind_Fail.
    assert (GetPublicKeyData (A := UserInformation) key s =
      (Fail (ErrUnset p (publicKeyPrefix +:+ key)), s')) as Eu by (by apply bind_Fail).
    by rewrite (wrap_on_store _ _ _ _ _ _ Eu).
Qed.

(** C6: no login without a successful LDAP bind under the user's own dn with the given
    password and exactly one entry, from which the whole record comes; a failed search
    fails the login and leaves the store untouched. *)
Theorem PasswordCallback_needs_ldap l user password s e :
  (∀ ext w, PasswordCallback l user password (s, e) = (Ret ext, w) →
     ∃ c e1 e2 entry e3, ldap_DialURL (address l) e = (Ret c, e1) ∧
       ldap_Bind c (patchedDn l user) password e1 = (Ret (), e2) ∧
       ldap_Search c (patchedDn l user) (attributes l) e2 = (Ret [entry], e3) ∧
       Search l user password e = (Ret (user_of_entry user entry), (ldap_Close c e3).2)) ∧
  (∀ err e', Search l user password e = (Fail err, e') →
     PasswordCallback l user password (s, e) =
       (Fail (ErrWrap ("ldap search for user " +:+ user +:+ " failed") err), (s, e'))).
Proof.
  split.
  - intros ext w (u & w1 & Eu & _)%bind_Ret_inv.
    unfold wrap_err, on_env, zoom in Eu. simpl in Eu.
    destruct (Search l user password e) as [[u'| | |] e'] eqn:Es; try done. simplify_eq/=.
    destruct (Search_inv _ _ _ _ _ _ Es) as (c & e1 & e2 & entry & e3 & ? & ? & ? & <- & ->).
    by exists c, e1, e2, entry, e3.
  - intros err e' Es. unfold PasswordCallback. apply bind_Fail.
    by rewrite (wrap_on_env _ _ _ _ _ _ Es).
Qed.

(** The first password login of a user creates a key pair and stores the user's
    record with it under the uuid and under the public key, and nothing else; from then
    on the public key logs the same user in. *)
Theorem first_login_registers_key l user password s m e u e1 priv pub e2 e' : holds s m →
  Search l user password e = (Ret u, e1) → uuids (records_of m) !! Uuid u = None →
  CreateSSHKeypair e1 = (Ret (priv, pub), e2) → json_ok (set_keys priv pub u) →
  ∃ d s' s'', PasswordCallback l user password (s, e) =
      (Ret {[AuthenticationType := "pw"; AuthenticatedPrivKey := priv;
             AuthenticatedUserID := Uuid u]}, (s', e2)) ∧
    records_of (kv_view s') = set_publickey pub d (set_uuid (Uuid u) d (records_of m)) ∧
    PublicKeyCallback pub (s', e') =
      (Ret {[AuthenticationType := "pk"; AuthenticatedUserID := Uuid u]}, (s'', e')).
Proof.
  intros Hs Es Hno Ek Hok. set (u' := set_keys priv pub u).
  destruct (UuidExists_eq s m (Uuid u) Hs) as (s1 & Ee & Hs1).
  rewrite Hno in Ee. simpl in Ee.
  destruct (json_round_trip u' Hok) as (d & Em & Ed).
  assert (∀ s, marshal (S := S) u' s = (Ret d, s)) as Emar by (intros ?; unfold marshal; by rewrite Em).
  destruct (put_holds s1 m (uuidKeyPrefix +:+ Uuid u) d Hs1) as (s2 & Ep1 & Hs2).
  destruct (put_holds s2 _ (publicKeyPrefix +:+ pub) d Hs2) as (s3 & Ep2 & Hs3).
  assert (PutDataIdxByUuid (Uuid u') u' s1 = (Ret (), s2)) as E1
    by (unfold PutDataIdxByUuid; by rewrite (bind_Ret _ _ _ _ _ (Emar s1))).
  assert (PutDataIdxByPubKey (PubKey u') u' s2 = (Ret (), s3)) as E2
    by (unfold PutDataIdxByPubKey; by rewrite (bind_Ret _ _ _ _ _ (Emar s2))).
  destruct (get_value s3 _ (publicKeyPrefix +:+ pub) u' d Hs3) as (s4 & Eg & _);
    [apply lookup_insert_eq|done|].
  exists d, s3, s4. split_and!.
  - unfold PasswordCallback.
    rewrite (bind_Ret _ _ _ _ _ (wrap_on_env _ _ s _ _ _ Es)).
    rewrite (bind_Ret _ _ _ _ _ (wrap_on_store _ _ _ _ _ _ Ee)).
    unfold mbind, M_bind. rewrite (wrap_on_env _ _ s1 _ _ _ Ek). cbn zeta. fold u'.
    rewrite (wrap_on_store _ _ s1 e2 _ _ E1), (wrap_on_store _ _ s2 e2 _ _ E2). done.
  - destruct Hs3 as (_ & _ & ->). by rewrite records_of_publickey, records_of_uuid.
  - unfold PublicKeyCallback, mbind at 1, M_bind. by rewrite (wrap_on_store _ _ s3 e' _ _ Eg).
Qed.

(** A later password login leaves the store as it is, but the stored record is not
    read: the private key handed to the connection is empty, and this empty key is what
    is then written into the user's pod. *)
Theorem later_login_gets_empty_key {T} `{K8sAPI T} l user password s m e u e1 sid : holds s m →
  Search l user password e = (Ret u, e1) → is_Some (uuids (records_of m) !! Uuid u) →
  ∃ s' ext, PasswordCallback l user password (s, e) = (Ret ext, (s', e1)) ∧ holds s' m ∧
    ext !! AuthenticatedPrivKey = Some "" ∧
    ∀ k (t : T), writeFileToContainer (MkConn user sid (Some (Some ext))) k t =
      WriteFileInPod (MkFileWriteConfig (Uuid u) UserNamespace "delegatio_priv_key" "/root/.ssh" "") t.
Proof.
  intros Hs Es Hyes.
  destruct (Search_inv _ _ _ _ _ _ Es) as (_ & _ & _ & entry & _ & _ & _ & _ & _ & ->).
  destruct (UuidExists_eq s m (Uuid (user_of_entry user entry)) Hs) as (s1 & Ee & Hs1).
  rewrite bool_decide_eq_true_2 in Ee by done.
  eexists s1, _. split_and!; [|done| |].
  - unfold PasswordCallback.
    rewrite (bind_Ret _ _ _ _ _ (wrap_on_env _ _ s _ _ _ Es)).
    by rewrite (bind_Ret _ _ _ _ _ (wrap_on_store _ _ _ _ _ _ Ee)).
  - reflexivity.
  - intros k t. reflexivity.
Qed.

(** When the bind is refused, [Search] returns its error without closing the LDAP
    connection it dialled; after a bind it always closes it. *)
Theorem Search_closes_after_bind l user password e c e1 :
  ldap_DialURL (address l) e = (Ret c, e1) →
  (∀ err e2, ldap_Bind c (patchedDn l user) password e1 = (Fail err, e2) →
     Search l user password e = (Fail err, e2)) ∧
  (∀ e2 r e3, ldap_Bind c (patchedDn l user) password e1 = (Ret (), e2) →
     ldap_Search c (patchedDn l user) (attributes l) e2 = (r, e3) → r ≠ Blocked →
     (Search l user password e).2 = (ldap_Close c e3).2).
Proof.
  intros Hd. split.
  - intros err e2 Hb. unfold Search, dial. apply bind_Fail.
    rewrite (bind_Ret _ _ _ _ _ Hd). by apply bind_Fail.
  - intros e2 r e3 Hb Hs Hr. unfold Search.
    assert (dial l user password e = (Ret c, e2)) as Edial.
    { unfold dial. rewrite (bind_Ret _ _ _ _ _ Hd). by rewrite (bind_Ret _ _ _ _ _ Hb). }
    rewrite (bind_Ret _ _ _ _ _ Edial). unfold defer, mbind, M_bind. rewrite Hs.
    destruct r as [[|entry [|]]|err| |]; try done; simpl; by destruct (ldap_Close c e3) as [[] ?].
Qed.

End theorems.

(** ** Concrete runs, on the in-memory store *)

From S2P Require Import StdStore.

(** A directory with one password for everybody, counting the open connections. *)
#[export] Instance demo_directory : LdapClient nat := {
  ldap_DialURL _ n := (Ret 1%positive, S n);
  ldap_Bind _ _ password n :=
    (if decide (password = "secret") then Ret () else Fail (ErrExt "invalid credentials"), n);
  ldap_Search _ _ _ n := (Ret [{["swissEduPersonMatriculationNumber" := "1"]}], n);
  ldap_Close _ n := (Ret (), pred n)
}.

#[export] Instance demo_keygen : KeyGen nat := {
  rsa_key := ();
  rsa_GenerateKey := mret ();
  pem_EncodePrivate _ := "priv";
  ssh_NewPublicKey _ := inr "pub"
}.

Definition demo_entry : UserInformation :=
  user_of_entry "alice" {["swissEduPersonMatriculationNumber" := "1"]}.

(** A codec for one user, with a key pair. *)
Definition one_user_json : Json UserInformation := {|
  json_Marshal _ := inr "alice";
  json_Unmarshal _ := inr (set_keys "priv" "pub" demo_entry)
|}.
Program Definition one_user_json_laws : @JsonLaws UserInformation one_user_json := {|
  json_ok u := u = set_keys "priv" "pub" demo_entry
|}.
Next Obligation. intros u ->. by exists "alice". Qed.

Lemma PublicKeyCallback_exact_witness :
  let R := range_canonical in let J := uuid_json in
  ∃ s', PublicKeyCallback "pk" (user_store, 0%nat) =
    (Ret {[AuthenticationType := "pk"; AuthenticatedUserID := "alice-1"]}, (s', 0%nat)).
Proof.
  intros R J. destruct (PublicKeyCallback_exact _ _ 0%nat "pk" user_store_holds) as (s' & _ & E).
  exists s'. exact E.
Defined.

Lemma PasswordCallback_needs_ldap_witness :
  let R := range_canonical in let J := uuid_json in
  PasswordCallback NewLdap "alice" "wrong" (NewStdStore, 0%nat) =
    (Fail (ErrWrap "ldap search for user alice failed" (ErrExt "invalid credentials")),
     (NewStdStore, 1%nat)).
Proof.
  intros R J.
  exact (proj2 (PasswordCallback_needs_ldap (H1 := demo_directory) NewLdap "alice" "wrong"
    NewStdStore 0%nat) (ErrExt "invalid credentials") 1%nat eq_refl).
Defined.

Lemma first_login_registers_key_witness :
  let R := range_canonical in let J := one_user_json in
  ∃ s' s'', PasswordCallback NewLdap "alice" "secret" (NewStdStore, 0%nat) =
      (Ret {[AuthenticationType := "pw"; AuthenticatedPrivKey := "priv";
             AuthenticatedUserID := "alice-1"]}, (s', 0%nat)) ∧
    PublicKeyCallback "pub" (s', 0%nat) =
      (Ret {[AuthenticationType := "pk"; AuthenticatedUserID := "alice-1"]}, (s'', 0%nat)).
Proof.
  intros R J.
  destruct (first_login_registers_key (H1 := demo_directory) (H2 := demo_keygen) (H4 := one_user_json_laws) NewLdap "alice" "secret" _ _ 0%nat
    demo_entry 0%nat "priv" "pub" 0%nat 0%nat new_store_holds eq_refl eq_refl eq_refl eq_refl)
    as (d & s' & s'' & E1 & _ & E2).
  exists s', s''. split; [exact E1|exact E2].
Defined.

(** A store in which alice has a record. *)
Definition known_store : StdStore :=
  snd (let R := range_canonical in let J := one_user_json in
       PutDataIdxByUuid "alice-1" demo_entry NewStdStore).

Lemma known_store_holds :
  let R := range_canonical in holds known_store {["uuid-alice-1" := "alice"]}.
Proof.
  intros R. destruct (put_holds _ _ "uuid-alice-1" "alice" new_store_holds) as (s' & E & Hs').
  replace known_store with s'; [exact Hs'|]. exact (f_equal snd (eq_sym E)).
Qed.

Lemma later_login_gets_empty_key_witness :
  let R := range_canonical in let J := one_user_json in
  ∃ s' ext, PasswordCallback NewLdap "alice" "secret" (known_store, 0%nat) =
      (Ret ext, (s', 0%nat)) ∧ ext !! AuthenticatedPrivKey = Some "".
Proof.
  intros R J.
  destruct (later_login_gets_empty_key (H1 := demo_directory) (H2 := demo_keygen) (T := call_log) NewLdap "alice" "secret" _ _ 0%nat demo_entry 0%nat
    "sid" known_store_holds eq_refl) as (s' & ext & E & _ & Hx & _).
  - exists "alice". reflexivity.
  - exists s', ext. split; [exact E|exact Hx].
Defined.

Lemma Search_closes_after_bind_witness :
  Search NewLdap "alice" "wrong" 0%nat = (Fail (ErrExt "invalid credentials"), 1%nat).
Proof.
  exact (proj1 (Search_closes_after_bind (H1 := demo_directory) NewLdap "alice" "wrong" 0%nat 1%positive 1%nat eq_refl)
    (ErrExt "invalid credentials") 1%nat eq_refl).
Defined.
