(* ===== verification/ServerLoop.v ===== *)
(** ssh/server.go: [Start] from its accept loop on. [Start] waits for the context, the accept
    loop, the goroutines of the connections ([validateAndProcessConnection]) and
    [periodicLogs] run beside it; they share the wait group and the counter of the current
    connections. A step is one call of one of them. What a connection does is
    [Connection.HandleGlobalConnection]. *)
From S2P Require Import Prelude.

(** The goroutine of a connection: in [ssh.NewServerConn], in [HandleGlobalConnection],
    returned, and between the two calls of its deferred function. *)
Inductive conn_goroutine : Type := Handshaking | Handling | Leaving | CountedDown.

#[export] Instance conn_goroutine_eq_dec : EqDecision conn_goroutine.
Proof. solve_decision. Defined.

(** The accept loop: in [Accept], with a connection before each of its three calls, or
    returned. *)
Inductive acceptor_at : Type := InAccept | HasConn | HasAdded | HasCounted | AcceptEnd.

(** [Start]: waiting for the context, closing the listener, in [Wait], returned. *)
Inductive server_phase : Type := Serving | ClosingListener | Waiting | Closed.

Record Server : Type := MkServer {
  srv_phase : server_phase;
  cancelled : bool;
  listening : bool;
  acceptor : acceptor_at;
  logging : bool;
  handleConnWG : nat;
  currentConnections : Z;
  conns : list conn_goroutine;
  logged : list Z
}.

(** When the loops are started. *)
Definition NewServer : Server := MkServer Serving false true InAccept true 0 0 [] [].

(** A connection's goroutine up to its deferred function: the handshake fails, or gives
    permissions and channels to a handler; the handler returns. *)
Inductive validateAndProcessConnection : conn_goroutine → conn_goroutine → Prop :=
  | conn_handshake : validateAndProcessConnection Handshaking Handling
  | conn_refused : validateAndProcessConnection Handshaking Leaving
  | conn_handled : validateAndProcessConnection Handling Leaving.

(** [periodicLogs]: whether it runs and what it has logged; a tick reads the counter. *)
Inductive periodicLogs (cancelled : bool) (currentConnections : Z) :
    bool → list Z → bool → list Z → Prop :=
  | logs_tick out : periodicLogs cancelled currentConnections true out true (out ++ [currentConnections])
  | logs_done out : cancelled = true → periodicLogs cancelled currentConnections true out false out.

Inductive server_step : Server → Server → Prop :=
  (* the signal handler *)
  | srv_cancel ph cx l ac lg wg cur cs out :
      server_step (MkServer ph cx l ac lg wg cur cs out) (MkServer ph true l ac lg wg cur cs out)
  (* the accept loop *)
  | srv_accept ph cx lg wg cur cs out :
      server_step (MkServer ph cx true InAccept lg wg cur cs out) (MkServer ph cx true HasConn lg wg cur cs out)
  | srv_accept_error ph cx lg wg cur cs out :
      server_step (MkServer ph cx true InAccept lg wg cur cs out) (MkServer ph cx true InAccept lg wg cur cs out)
  | srv_accept_closed ph cx lg wg cur cs out :
      server_step (MkServer ph cx false InAccept lg wg cur cs out) (MkServer ph cx false AcceptEnd lg wg cur cs out)
  | srv_add ph cx l lg wg cur cs out :
      server_step (MkServer ph cx l HasConn lg wg cur cs out) (MkServer ph cx l HasAdded lg (S wg) cur cs out)
  | srv_count ph cx l lg wg cur cs out :
      server_step (MkServer ph cx l HasAdded lg wg cur cs out) (MkServer ph cx l HasCounted lg wg (cur + 1) cs out)
  | srv_go ph cx l lg wg cur cs out :
      server_step (MkServer ph cx l HasCounted lg wg cur cs out)
                  (MkServer ph cx l InAccept lg wg cur (cs ++ [Handshaking]) out)
  (* the connections *)
  | srv_conn ph cx l ac lg wg cur cs1 c c' cs2 out : validateAndProcessConnection c c' →
      server_step (MkServer ph cx l ac lg wg cur (cs1 ++ c :: cs2) out)
                  (MkServer ph cx l ac lg wg cur (cs1 ++ c' :: cs2) out)
  | srv_wg_done ph cx l ac lg wg cur cs1 cs2 out :
      server_step (MkServer ph cx l ac lg (S wg) cur (cs1 ++ Leaving :: cs2) out)
                  (MkServer ph cx l ac lg wg cur (cs1 ++ CountedDown :: cs2) out)
  | srv_count_down ph cx l ac lg wg cur cs1 cs2 out :
      server_step (MkServer ph cx l ac lg wg cur (cs1 ++ CountedDown :: cs2) out)
                  (MkServer ph cx l ac lg wg (cur - 1) (cs1 ++ cs2) out)
  (* Start *)
  | srv_ctx_done l ac lg wg cur cs out :
      server_step (MkServer Serving true l ac lg wg cur cs out) (MkServer ClosingListener true l ac lg wg cur cs out)
  | srv_close cx l ac lg wg cur cs out :
      server_step (MkServer ClosingListener cx l ac lg wg cur cs out) (MkServer Waiting cx false ac lg wg cur cs out)
  | srv_waited cx l ac lg cur cs out :
      server_step (MkServer Waiting cx l ac lg 0 cur cs out) (MkServer Closed cx l ac lg 0 cur cs out)
  (* periodicLogs *)
  | srv_logs ph cx l ac lg lg' wg cur cs out out' : periodicLogs cx cur lg out lg' out' →
      server_step (MkServer ph cx l ac lg wg cur cs out) (MkServer ph cx l ac lg' wg cur cs out').

(** ** Lemmas *)

(** The connections that the wait group has to count, and those the loop is still about to
    start: counted by the wait group, by the counter, or by nothing yet. *)
Definition active (c : conn_goroutine) : Prop := c ≠ CountedDown.
#[local] Instance active_dec c : Decision (active c).
Proof. unfold active. apply _. Defined.
Definition actives (s : Server) : nat := length (filter active (conns s)).
Definition added (a : acceptor_at) : nat := match a with HasAdded | HasCounted => 1 | _ => 0 end.
Definition counted (a : acceptor_at) : nat := match a with HasCounted => 1 | _ => 0 end.
Definition in_hand (a : acceptor_at) : nat := match a with HasConn | HasAdded | HasCounted => 1 | _ => 0 end.

Definition server_inv (s : Server) : Prop :=
  handleConnWG s = (actives s + added (acceptor s))%nat ∧
  currentConnections s = Z.of_nat (length (conns s) + counted (acceptor s)) ∧
  Forall (λ n, 0 ≤ n)%Z (logged s) ∧
  (srv_phase s = Waiting ∨ srv_phase s = Closed → listening s = false) ∧
  (srv_phase s = Closed → (actives s + in_hand (acceptor s) ≤ 1)%nat).

Lemma actives_middle (l1 l2 : list conn_goroutine) c :
  length (filter active (l1 ++ c :: l2)) =
    (length (filter active (l1 ++ l2)) + if decide (active c) then 1 else 0)%nat.
Proof. rewrite !filter_app, filter_cons. case_decide; rewrite !length_app; simpl; lia. Qed.

Lemma conn_stays_active c c' : validateAndProcessConnection c c' → active c ∧ active c'.
Proof. by destruct 1. Qed.

Lemma server_inv_step s s' : server_step s s' → server_inv s → server_inv s'.
Proof.
  intros Hs (Hw & Hc & Ho & Hl & Hp). unfold server_inv, actives in *.
  destruct Hs; try match goal with H : periodicLogs _ _ _ _ _ _ |- _ => destruct H end;
    try match goal with H : validateAndProcessConnection _ _ |- _ => apply conn_stays_active in H as [Hact Hact'] end;
    simpl in *; rewrite ?actives_middle, ?length_app in *; simpl in *; rewrite ?app_nil_r in *;
    try (rewrite (decide_True _ _ Hact) in *; rewrite (decide_True _ _ Hact') in * );
    (split; [lia|split; [lia|split; [|split]]]);
    try solve [ done | intros E; specialize (Hp E); lia | intros [|]; discriminate
              | by intros E; apply Hl; intuition | intros E; specialize (Hl (or_intror E)); discriminate ].
  - intros _. destruct ac; simpl in *; lia.
  - apply Forall_app. split; [done|]. apply Forall_singleton. lia.
Qed.

Lemma server_inv_reachable s : rtc server_step NewServer s → server_inv s.
Proof.
  intros Hr. apply (rtc_invariant server_step server_inv NewServer s); [| |done].
  2:{ split_and!; simpl; [done|done|apply Forall_nil_2|by intros [|]|done]. }
  intros s1 s2 Hi Hs. by eapply server_inv_step.
Qed.

(** *** A way to the end *)

(** What keeps the server from its end once the context is cancelled. *)
Definition finishing (s : Server) : Prop := cancelled s = true ∧ server_inv s.

Lemma finishing_run s s' : finishing s → rtc server_step s s' → finishing s'.
Proof.
  intros Hf Hr. apply (rtc_invariant server_step finishing s); [|done|done].
  intros s1 s2 [Hc Hi] Hs. split; [|by eapply server_inv_step]. by destruct Hs.
Qed.

(** The accept loop can give what it has in hand to a goroutine. *)
Lemma acceptor_can_hand_over s : ∃ s', rtc server_step s s' ∧ in_hand (acceptor s') = 0%nat ∧
  srv_phase s' = srv_phase s ∧ listening s' = listening s.
Proof.
  destruct s as [ph cx l ac lg wg cur cs out]. destruct ac.
  - by eexists.
  - eexists. split; [eapply rtc_l; [apply srv_add|]; eapply rtc_l; [apply srv_count|]; eapply rtc_once, srv_go|done].
  - eexists. split; [eapply rtc_l; [apply srv_count|]; eapply rtc_once, srv_go|done].
  - eexists. split; [eapply rtc_once, srv_go|done].
  - by eexists.
Qed.

(** A connection can come to its end: when it is counted, it can be counted down. *)
Lemma connection_can_end ph cx l ac lg wg cur cs c cs2 out : (active c → (0 < wg)%nat) →
  ∃ wg' , rtc server_step (MkServer ph cx l ac lg wg cur (cs ++ c :: cs2) out)
    (MkServer ph cx l ac lg wg' (cur - 1) (cs ++ cs2) out) ∧
    wg = (wg' + if decide (active c) then 1 else 0)%nat.
Proof.
  intros Hw. destruct (decide (active c)) as [Ha|Ha].
  - specialize (Hw Ha). destruct wg as [|wg]; [lia|]. exists wg. split; [|lia].
    assert (rtc server_step (MkServer ph cx l ac lg (S wg) cur (cs ++ Leaving :: cs2) out)
      (MkServer ph cx l ac lg wg (cur - 1) (cs ++ cs2) out)) as Hrest.
    { eapply rtc_l; [apply srv_wg_done|]. eapply rtc_once, srv_count_down. }
    destruct c; [|..|done|by destruct Ha].
    + by eapply rtc_l; [apply srv_conn, conn_refused|].
    + by eapply rtc_l; [apply srv_conn, conn_handled|].
  - exists wg. split; [|lia]. destruct c; try (by destruct Ha). eapply rtc_once, srv_count_down.
Qed.

Lemma connections_can_end cs ph cx l ac lg wg cur out : in_hand ac = 0%nat →
  wg = length (filter active cs) →
  ∃ cur', rtc server_step (MkServer ph cx l ac lg wg cur cs out) (MkServer ph cx l ac lg 0 cur' [] out).
Proof.
  intros Ha. revert wg cur; induction cs as [|c cs IH]; intros wg cur Hw; [simpl in Hw; subst; by eexists|].
  rewrite filter_cons in Hw.
  destruct (connection_can_end ph cx l ac lg wg cur [] c cs out) as (wg' & R & Hwg).
  - intros Hact. rewrite decide_True in Hw by done. simpl in Hw. lia.
  - destruct (IH wg' (cur - 1)%Z) as (cur' & R').
    + case_decide; simpl in Hw; lia.
    + exists cur'. by etrans.
Qed.

(** ** Theorems *)

(** In every state of the server, whatever the interleaving of its loops and goroutines,
    the wait group counts the connections that have not said goodbye and the one that is
    being started, the counter those that have not been counted down, and what
    [periodicLogs] has logged is never negative. *)
Theorem server_counts_connections s : rtc server_step NewServer s →
  handleConnWG s = (length (filter (.≠ CountedDown) (conns s)) +
    match acceptor s with HasAdded | HasCounted => 1 | _ => 0 end)%nat ∧
  currentConnections s = Z.of_nat (length (conns s) + match acceptor s with HasCounted => 1 | _ => 0 end) ∧
  Forall (λ n, 0 ≤ n)%Z (logged s).
Proof. intros (Hw & Hc & Ho & _)%server_inv_reachable. by split_and!. Qed.

(** C22: [Start] does not return while a connection is being processed, except for one: the
    connection that the accept loop has taken but not yet added to the wait group when
    [Wait] looks at it. *)
Theorem server_closes_over_one_connection s : rtc server_step NewServer s → srv_phase s = Closed →
  (length (filter (.≠ CountedDown) (conns s)) + match acceptor s with InAccept | AcceptEnd => 0 | _ => 1 end ≤ 1)%nat ∧
  listening s = false.
Proof.
  intros (_ & _ & _ & Hl & Hp)%server_inv_reachable Hc. specialize (Hp Hc). split; [|by apply Hl; right].
  unfold actives in Hp. by destruct (acceptor s).
Qed.

(** That one can indeed be processed after [Start] has returned. *)
Theorem server_can_close_over_a_connection :
  ∃ s, rtc server_step NewServer s ∧ srv_phase s = Closed ∧ conns s = [Handling].
Proof.
  eexists. split; [|split]. 
  - eapply rtc_l; [apply srv_accept|]. eapply rtc_l; [apply srv_cancel|]. eapply rtc_l; [apply srv_ctx_done|].
    eapply rtc_l; [apply srv_close|]. eapply rtc_l; [apply srv_waited|]. eapply rtc_l; [apply srv_add|].
    eapply rtc_l; [apply srv_count|]. eapply rtc_l; [apply srv_go|].
    eapply rtc_once, (srv_conn _ _ _ _ _ _ _ [] _ _ []), conn_handshake.
  - done.
  - done.
Qed.

(** C23: once its context is cancelled the server can end, from every state: [Start] returns,
    both loops end and every connection is through, provided the clients go on. *)
Theorem cancelled_server_can_finish s : rtc server_step NewServer s → cancelled s = true →
  ∃ s', rtc server_step s s' ∧ srv_phase s' = Closed ∧ acceptor s' = AcceptEnd ∧ logging s' = false ∧ conns s' = [].
Proof.
  intros Hi%server_inv_reachable Hc.
  assert (∃ s1, rtc server_step s s1 ∧ (srv_phase s1 = Waiting ∨ srv_phase s1 = Closed)) as (s1 & R1 & Hp1).
  { destruct s as [ph cx l ac lg wg cur cs out]. simpl in Hc. subst cx. destruct ph.
    - eexists. split; [eapply rtc_l; [apply srv_ctx_done|]; eapply rtc_once, srv_close|by left].
    - eexists. split; [eapply rtc_once, srv_close|by left].
    - eexists. split; [done|by left].
    - eexists. split; [done|by right]. }
  destruct (acceptor_can_hand_over s1) as (s2 & R2 & Ha & Hp2 & _).
  assert (finishing s2) as [Hc2 (Hw2 & _ & _ & Hl2 & _)] by (eapply (finishing_run s); [by split|by etrans]).
  rewrite <-Hp2 in Hp1. specialize (Hl2 Hp1). destruct s2 as [ph cx l ac lg wg cur cs out]. simpl in *.
  subst cx l. destruct (connections_can_end cs ph true false ac lg wg cur out Ha) as (cur' & R3).
  { rewrite Hw2. unfold actives. simpl. destruct ac; simpl in *; lia. }
  exists (MkServer Closed true false AcceptEnd false 0 cur' [] out). split; [|done].
  etrans; [exact R1|]. etrans; [exact R2|]. etrans; [exact R3|].
  etrans; [instantiate (1 := MkServer Closed true false ac lg 0 cur' [] out)|].
  { destruct Hp1 as [->| ->]; [eapply rtc_once, srv_waited|done]. }
  etrans; [instantiate (1 := MkServer Closed true false AcceptEnd lg 0 cur' [] out)|].
  { destruct ac; try discriminate Ha; [eapply rtc_once, srv_accept_closed|done]. }
  destruct lg; [eapply rtc_once, srv_logs, logs_done|]; done.
Qed.

(** A client that never completes its handshake, for which there is no deadline, keeps
    [Start] from returning, also after the context is cancelled. *)
Theorem silent_client_keeps_the_server s s' : rtc server_step NewServer s → srv_phase s ≠ Closed →
  Handshaking ∈ conns s →
  rtc (λ a b, server_step a b ∧ (Handshaking ∈ conns a → Handshaking ∈ conns b)) s s' → srv_phase s' ≠ Closed.
Proof.
  intros Hi%server_inv_reachable Hp Hin Hr.
  assert (server_inv s' ∧ srv_phase s' ≠ Closed ∧ Handshaking ∈ conns s') as (_ & ? & _); [|done].
  revert Hr. apply (rtc_invariant _ (λ s, server_inv s ∧ srv_phase s ≠ Closed ∧ Handshaking ∈ conns s) s); [|done].
  intros s1 s2 (Hi1 & Hp1 & Hin1) [Hs Hk]. split_and!; [by eapply server_inv_step| |by apply Hk].
  destruct Hs; try done; simpl in *. destruct Hi1 as (Hw & _). unfold actives in Hw. simpl in Hw.
  apply list_elem_of_split in Hin1 as (l1 & l2 & ->). rewrite actives_middle, decide_True in Hw by done. lia.
Qed.

(** ** Concrete runs *)

Definition one_client : Server := MkServer Serving true true InAccept true 1 1 [Handshaking] [1%Z].

Lemma one_client_run : rtc server_step NewServer one_client.
Proof.
  eapply rtc_l; [apply srv_accept|]. eapply rtc_l; [apply srv_add|]. eapply rtc_l; [apply srv_count|].
  eapply rtc_l; [apply srv_go|]. eapply rtc_l; [apply srv_logs, logs_tick|]. eapply rtc_once, srv_cancel.
Qed.

Lemma server_counts_connections_witness : handleConnWG one_client = 1%nat ∧ Forall (λ n, 0 ≤ n)%Z (logged one_client).
Proof. destruct (server_counts_connections one_client one_client_run) as (Hw & _ & Ho). split; [exact Hw|exact Ho]. Defined.

Definition closed_server : Server := MkServer Closed true false InAccept true 0 0 [] [].

Lemma closed_server_run : rtc server_step NewServer closed_server.
Proof.
  eapply rtc_l; [apply srv_cancel|]. eapply rtc_l; [apply srv_ctx_done|]. eapply rtc_l; [apply srv_close|].
  eapply rtc_once, srv_waited.
Qed.

Lemma server_closes_over_one_connection_witness : listening closed_server = false.
Proof. exact (proj2 (server_closes_over_one_connection closed_server closed_server_run eq_refl)). Defined.

Lemma cancelled_server_can_finish_witness : ∃ s', rtc server_step one_client s' ∧ srv_phase s' = Closed.
Proof.
  destruct (cancelled_server_can_finish one_client one_client_run eq_refl) as (s' & R & H & _).
  exists s'. split; [exact R|exact H].
Defined.

Lemma silent_client_keeps_the_server_witness : srv_phase one_client ≠ Closed.
Proof.
  refine (silent_client_keeps_the_server one_client one_client one_client_run _ _ (rtc_refl _ _)).
  - discriminate.
  - by left.
Defined.
