(* ===== verification/ConcurrentLogins.v ===== *)
(** ssh/server.go: many logins at once, over one store. The callbacks of different
    connections (and of several replicas of the server) run beside each other; a step is one
    call of one of them, to the directory, the key generation or the store. Run alone, a
    login is [Server]'s callback. *)
From S2P Require Import Prelude Config StoreApi StoreWrapper Server.

(** ** A login, before each of its calls *)

Inductive login : Type :=
  | PwSearch (name password : string)
  | PwExists (u : UserInformation)
  | PwGenerate (u : UserInformation)
  | PwPutUuid (u : UserInformation)
  | PwPutKey (u : UserInformation)
  | PkGet (key : string)
  | LoggedIn (u : UserInformation) (ext : gmap string string)
  | Refused (e : error).

(** The permissions of both kinds. *)
Definition pw_ext (u : UserInformation) : gmap string string :=
  {[AuthenticationType := "pw"; AuthenticatedPrivKey := PrivKey u; AuthenticatedUserID := Uuid u]}.
Definition pk_ext (u : UserInformation) : gmap string string :=
  {[AuthenticationType := "pk"; AuthenticatedUserID := Uuid u]}.

(** A login that has not returned. *)
Definition running (x : login) : Prop := match x with LoggedIn _ _ | Refused _ => False | _ => True end.
#[export] Instance running_dec x : Decision (running x).
Proof. destruct x; simpl; apply _. Defined.
(** One that begins. *)
Definition arrival (x : login) : Prop := match x with PwSearch _ _ | PkGet _ => True | _ => False end.

Section logins.
Context {S E : Type} `{KVStore S} `{LdapClient E} `{KeyGen E} `{Json UserInformation}.
Variable l : Ldap.

(** A call, and where the login is after it; its error is the login's. *)
Definition after {A} (msg : string) (m : M (S * E) A) (k : A → login) : M (S * E) login :=
  r ← attempt (wrap_err msg m);
  mret (match r with inl e => Refused e | inr a => k a end).

Definition login_next (x : login) : M (S * E) login :=
  match x with
  | PwSearch name password =>
      after ("ldap search for user " +:+ name +:+ " failed") (on_env (Search l name password)) PwExists
  | PwExists u =>
      after ("error checking if uuid " +:+ Uuid u +:+ " exists") (on_store (UuidExists (Uuid u)))
        (λ exists_, if (exists_ : bool) then LoggedIn u (pw_ext u) else PwGenerate u)
  | PwGenerate u =>
      after "failed to create ssh keypair" (on_env CreateSSHKeypair)
        (λ keys, PwPutUuid (set_keys keys.1 keys.2 u))
  | PwPutUuid u =>
      after "failed to put data into store" (on_store (PutDataIdxByUuid (Uuid u) u)) (λ _, PwPutKey u)
  | PwPutKey u =>
      after "failed to put data into store" (on_store (PutDataIdxByPubKey (PubKey u) u))
        (λ _, LoggedIn u (pw_ext u))
  | PkGet key =>
      after "failed to obtain user data" (on_store (GetPublicKeyData key)) (λ u, LoggedIn u (pk_ext u))
  | LoggedIn _ _ | Refused _ => mret x
  end.

(** The login alone, for some calls, and what it returns. *)
Fixpoint login_alone (n : nat) (x : login) : M (S * E) login :=
  match n with O => mret x | Datatypes.S n' => x' ← login_next x; login_alone n' x' end.

Definition login_result (x : login) : M (S * E) (gmap string string) :=
  match x with LoggedIn _ ext => mret ext | Refused e => fail e | _ => block end.

(** ** Many of them *)

Record logins : Type := MkLogins { shared : S * E; pool : list login }.

Inductive logins_step : logins → logins → Prop :=
  | login_arrives w p x : arrival x → logins_step (MkLogins w p) (MkLogins w (p ++ [x]))
  | login_turn w w' p1 x p2 x' :
      running x → login_next x w = (Ret x', w') →
      logins_step (MkLogins w (p1 ++ x :: p2)) (MkLogins w' (p1 ++ x' :: p2))
  | login_dies w w' p1 x p2 :
      running x → login_next x w = (Panic, w') →
      logins_step (MkLogins w (p1 ++ x :: p2)) (MkLogins w' (p1 ++ p2)).
End logins.

Arguments logins : clear implicits.
Arguments MkLogins {S E}.
Arguments shared {S E}.
Arguments pool {S E}.

(** ** What a call does to the records

    [up] says that the store answers; one that does not may have applied a write whose
    call failed, or panicked. *)
Inductive moves `{Json UserInformation} (found : UserInformation → Prop) (up : Prop) (r : records) :
    login → records → login → Prop :=
  | m_search name password u : found u → PubKey u = "" → PrivKey u = "" →
      moves found up r (PwSearch name password) r (PwExists u)
  | m_known u : is_Some (uuids r !! Uuid u) → moves found up r (PwExists u) r (LoggedIn u (pw_ext u))
  | m_unknown u : uuids r !! Uuid u = None → moves found up r (PwExists u) r (PwGenerate u)
  | m_generate u priv pub : moves found up r (PwGenerate u) r (PwPutUuid (set_keys priv pub u))
  | m_put_uuid u d : json_Marshal u = inr d →
      moves found up r (PwPutUuid u) (set_uuid (Uuid u) d r) (PwPutKey u)
  | m_put_key u d : json_Marshal u = inr d →
      moves found up r (PwPutKey u) (set_publickey (PubKey u) d r) (LoggedIn u (pw_ext u))
  | m_get key d u : publickeys r !! key = Some d → json_Unmarshal d = inr u →
      moves found up r (PkGet key) r (LoggedIn u (pk_ext u))
  | m_refused x e : running x → moves found up r x r (Refused e)
  | m_half_uuid u d e : ¬ up → json_Marshal u = inr d →
      moves found up r (PwPutUuid u) (set_uuid (Uuid u) d r) (Refused e)
  | m_half_key u d e : ¬ up → json_Marshal u = inr d →
      moves found up r (PwPutKey u) (set_publickey (PubKey u) d r) (Refused e).

(** What every record of the store is: of the user it is filed under, by key and by uuid. *)
Definition filed `{Json UserInformation} (name : UserInformation → string) (m : gmap string string) : Prop :=
  ∀ k d, m !! k = Some d → ∃ u, json_Unmarshal d = inr u ∧ name u = k.
Definition valid `{Json UserInformation} (r : records) : Prop :=
  filed PubKey (publickeys r) ∧ filed Uuid (uuids r).

(** ** Lemmas *)

Section alone.
Context {S E : Type} `{KVStore S} `{LdapClient E} `{KeyGen E} `{Json UserInformation}.
Variable l : Ldap.

Lemma after_eq {A} msg (m : M (S * E) A) k w :
  after msg m k w = match m w with
                    | (Ret a, w') => (Ret (k a), w') | (Fail e, w') => (Ret (Refused (ErrWrap msg e)), w')
                    | (Panic, w') => (Panic, w') | (Blocked, w') => (Blocked, w')
                    end.
Proof. unfold after, attempt, wrap_err, mbind, M_bind. by destruct (m w) as [[a|e| |] w1]. Qed.

Lemma alone_ended n x (w : S * E) : ¬ running x → login_alone l n x w = (Ret x, w).
Proof.
  intros Hx. induction n as [|n IH]; [done|].
  destruct x; try (by destruct Hx); simpl; unfold mbind, M_bind; exact IH.
Qed.

Lemma bind_assoc_at {T A B C} (m : M T A) (f : A → M T B) (g : B → M T C) w :
  (x ← (y ← m; f y); g x) w = (y ← m; x ← f y; g x) w.
Proof. unfold mbind, M_bind. by destruct (m w) as [[] ?]. Qed.

(** The rest of a login after one of its calls. *)
Lemma alone_after {A} n x msg (m : M (S * E) A) k (f : A → M (S * E) (gmap string string)) :
  (∀ w, login_next l x w = after msg m k w) →
  (∀ a w, (x ← login_alone l n (k a); login_result x) w = f a w) →
  ∀ w, (x ← login_alone l (Datatypes.S n) x; login_result x) w = (a ← wrap_err msg m; f a) w.
Proof.
  intros Hx Hf w. simpl. unfold mbind at 1 2, M_bind at 1 2. rewrite Hx, after_eq.
  unfold wrap_err, mbind, M_bind. destruct (m w) as [[a|e| |] w1]; try done.
  - specialize (Hf a w1). unfold mbind, M_bind in Hf. exact Hf.
  - by rewrite alone_ended by auto.
Qed.
End alone.

Section effects.
Context {S E : Type} `{KVStoreLaws S} `{LdapClient E} `{KeyGen E} `{Json UserInformation}.
Variable l : Ldap.

(** The records of a store. *)
Definition recs (s : S) : records := records_of (kv_view s).

Definition failed {A} (r : res A) : Prop := r = Panic ∨ ∃ e, r = Fail e.

Lemma fault_failed {A} (r : res A) : fault r → failed r.
Proof. intros [?|(e & ? & _)]; [by left|right; eauto]. Qed.

Lemma exists_effect k s r s' : kv_inv s → UuidExists k s = (r, s') →
  kv_inv s' ∧ (kv_up s → kv_up s') ∧ recs s' = recs s ∧
  (r = Ret (bool_decide (is_Some (uuids (recs s) !! k))) ∨ failed r).
Proof.
  intros Hi Er. unfold UuidExists, attempt, mbind, M_bind in Er.
  destruct (kv_Get (uuidKeyPrefix +:+ k) s) as [r1 s1] eqn:Eg.
  destruct (kv_Get_law _ _ _ _ Hi Eg) as (Hi1 & Hu & Hv & Hr).
  assert (s1 = s') as -> by (destruct r1 as [|e| |]; simpl in Er;
    [|destruct (errors_As_unset e)|..]; by injection Er).
  split_and!; [done|done|unfold recs; by rewrite Hv|].
  unfold recs. simpl. rewrite sub_map_lookup. destruct Hr as [Hr|[_ Hf]].
  - left. destruct (kv_view s !! _) as [v|].
    + rewrite Hr in Er. by injection Er as <-.
    + destruct Hr as [p ->]. by injection Er as <-.
  - right. destruct Hf as [->|(e & -> & Hne)]; [injection Er as <-; by left|].
    rewrite Hne in Er. injection Er as <-. right; eauto.
Qed.

Lemma put_effect p k (u : UserInformation) s r s' : kv_inv s →
  (d ← marshal u; kv_Put (p +:+ k) d) s = (r, s') →
  kv_inv s' ∧ (kv_up s → kv_up s') ∧
  ((failed r ∧ kv_view s' = kv_view s) ∨
   (∃ d, json_Marshal u = inr d ∧ kv_view s' = <[p +:+ k := d]> (kv_view s) ∧
      (r = Ret () ∨ (¬ kv_up s ∧ failed r)))).
Proof.
  intros Hi Er. unfold mbind, M_bind, marshal in Er. destruct (json_Marshal u) as [e|d] eqn:Em.
  - injection Er as <- <-. split_and!; [done..|]. left. split; [right; eauto|done].
  - simpl in Er. destruct (kv_Put_law _ _ _ _ _ Hi Er) as (Hi' & Hu & Hr). split_and!; [done..|].
    destruct Hr as [[-> Hv]|(Hn & Hf & [Hv|Hv])].
    + right. exists d. by split_and!; [| |left].
    + left. by split; [apply fault_failed|].
    + right. exists d. split_and!; [done..|]. right. by split; [|apply fault_failed].
Qed.

Lemma get_effect k s r s' : kv_inv s → GetPublicKeyData (A := UserInformation) k s = (r, s') →
  kv_inv s' ∧ (kv_up s → kv_up s') ∧ recs s' = recs s ∧
  ((∃ d u, publickeys (recs s) !! k = Some d ∧ json_Unmarshal d = inr u ∧ r = Ret u) ∨ failed r).
Proof.
  intros Hi Er. unfold GetPublicKeyData, mbind, M_bind in Er.
  destruct (kv_Get (publicKeyPrefix +:+ k) s) as [r1 s1] eqn:Eg.
  destruct (kv_Get_law _ _ _ _ Hi Eg) as (Hi1 & Hu & Hv & Hr).
  assert (s1 = s') as -> by (destruct r1 as [d|e| |]; simpl in Er; unfold unmarshal in Er;
    [destruct (json_Unmarshal d)|..]; by injection Er).
  split_and!; [done|done|unfold recs; by rewrite Hv|].
  unfold recs. simpl. rewrite sub_map_lookup. destruct Hr as [Hr|[_ Hf]].
  - destruct (kv_view s !! _) as [v|].
    + rewrite Hr in Er. unfold unmarshal in Er. destruct (json_Unmarshal v) as [e|u] eqn:Ed.
      * right. injection Er as <-. right; eauto.
      * left. injection Er as <-. eauto.
    + right. destruct Hr as [p ->]. injection Er as <-. right; eauto.
  - right. destruct Hf as [->|(e & -> & _)]; injection Er as <-; [by left|right; eauto].
Qed.

(** A user the directory knows. *)
Definition found (u : UserInformation) : Prop :=
  ∃ name password (e e' : E), Search l name password e = (Ret u, e').

(** The result of a call that moves a login from [x], in a store [s], to one in [s']. *)
Definition moved (s s' : S) (x : login) (r : res login) : Prop :=
  kv_inv s' ∧ (kv_up s → kv_up s') ∧
  (∀ x', r = Ret x' → moves found (kv_up s) (recs s) x (recs s') x') ∧
  (r = Panic → ∃ e, moves found (kv_up s) (recs s) x (recs s') (Refused e)).

Lemma after_moved {A} msg (m : M (S * E) A) k x s e r r' s' e' :
  m (s, e) = (r, (s', e')) → after msg m k (s, e) = (r', (s', e')) →
  kv_inv s' → (kv_up s → kv_up s') →
  (∀ a, r = Ret a → moves found (kv_up s) (recs s) x (recs s') (k a)) →
  (failed r → ∀ err, moves found (kv_up s) (recs s) x (recs s') (Refused err)) → moved s s' x r'.
Proof.
  intros Em Er Hi Hu Hk Hf. rewrite after_eq, Em in Er.
  split_and!; [done|done|intros x' ->|intros ->]; destruct r as [a|err| |]; simplify_eq.
  - auto.
  - apply Hf. right; eauto.
  - exists (ErrNew ""). apply Hf. by left.
Qed.

Lemma on_env_moved {A} msg (m : M E A) k x s e r' s' e' : kv_inv s → running x →
  after msg (on_env m) k (s, e) = (r', (s', e')) →
  (∀ a, m e = (Ret a, e') → moves found (kv_up s) (recs s) x (recs s) (k a)) → moved s s' x r'.
Proof.
  intros Hi Hx Er Hk. destruct (m e) as [r e1] eqn:Em.
  assert (on_env m (s, e) = (r, (s, e1))) as Eo by (unfold on_env, zoom; simpl; by rewrite Em).
  assert (s' = s ∧ e' = e1) as [-> ->] by (rewrite after_eq, Eo in Er; destruct r; by simplify_eq).
  apply (after_moved _ _ _ _ _ _ _ _ _ _ Eo Er); [done|done| |intros; by apply m_refused].
  intros a ->. by apply Hk.
Qed.

Lemma on_store_moved {A} msg (m : M S A) k x s (e : E) r' s' e' :
  after msg (on_store m) k (s, e) = (r', (s', e')) →
  (∀ r, m s = (r, s') → kv_inv s' ∧ (kv_up s → kv_up s') ∧
     (∀ a, r = Ret a → moves found (kv_up s) (recs s) x (recs s') (k a)) ∧
     (failed r → ∀ err, moves found (kv_up s) (recs s) x (recs s') (Refused err))) → moved s s' x r'.
Proof.
  intros Er Hm. destruct (m s) as [r s1] eqn:Em.
  assert (on_store m (s, e) = (r, (s1, e))) as Eo by (unfold on_store, zoom; simpl; by rewrite Em).
  assert (s' = s1 ∧ e' = e) as [-> ->] by (rewrite after_eq, Eo in Er; destruct r; by simplify_eq).
  destruct (Hm r eq_refl) as (Hi & Hu & Hk & Hf). by apply (after_moved _ _ _ _ _ _ _ _ _ _ Eo Er).
Qed.

(** A put, of either kind. *)
Lemma put_moved p k (upd : string → records → records) x x1 u s s' r : kv_inv s → running x →
  (∀ d m, records_of (<[p +:+ k := d]> m) = upd d (records_of m)) →
  (d ← marshal u; kv_Put (p +:+ k) d) s = (r, s') →
  (∀ d, json_Marshal u = inr d → moves found (kv_up s) (recs s) x (upd d (recs s)) x1) →
  (∀ d err, ¬ kv_up s → json_Marshal u = inr d →
     moves found (kv_up s) (recs s) x (upd d (recs s)) (Refused err)) →
  kv_inv s' ∧ (kv_up s → kv_up s') ∧
  (∀ a : (), r = Ret a → moves found (kv_up s) (recs s) x (recs s') x1) ∧
  (failed r → ∀ err, moves found (kv_up s) (recs s) x (recs s') (Refused err)).
Proof.
  intros Hi Hx Hupd Em Hdone Hhalf. destruct (put_effect p k u s r s' Hi Em) as (Hi' & Hu & Hr).
  split; [done|]. split; [done|]. unfold recs at 2 4. destruct Hr as [[Hf ->]|(d & Ed & -> & Hr)].
  - split; [|intros _ err; by apply m_refused]. intros a ->. by destruct Hf as [|[? ?]].
  - rewrite Hupd. split; [by eauto|]. intros Hf err. apply Hhalf; [|done].
    destruct Hr as [->|[]]; [by destruct Hf as [|[? ?]]|done].
Qed.

(** A call of a login does what [moves] says. *)
Lemma next_moved x s e r s' e' : kv_inv s → running x →
  login_next l x (s, e) = (r, (s', e')) → moved s s' x r.
Proof.
  intros Hi Hx Er. destruct x as [name password|u|u|u|u|key|u ext|err]; try done; simpl in Er.
  - apply (on_env_moved _ _ _ _ _ _ _ _ _ Hi Hx Er). intros u Hs. apply m_search.
    + by exists name, password, e, e'.
    + by destruct (Search_inv _ _ _ _ _ _ Hs) as (?&?&?&?&?&?&?&?&?&->).
    + by destruct (Search_inv _ _ _ _ _ _ Hs) as (?&?&?&?&?&?&?&?&?&->).
  - apply (on_store_moved _ _ _ _ _ _ _ _ _ Er). intros r1 Em.
    destruct (exists_effect (Uuid u) s r1 s' Hi Em) as (Hi' & Hu & -> & Hr). split_and!; [done..| |].
    + intros b ->. destruct Hr as [[= ->]|[|[? ?]]]; [|done..]. case_bool_decide as Hd.
      * by apply m_known.
      * apply m_unknown. by apply eq_None_not_Some.
    + intros _ err. by apply m_refused.
  - apply (on_env_moved _ _ _ _ _ _ _ _ _ Hi Hx Er). intros [priv pub] _. apply m_generate.
  - apply (on_store_moved _ _ _ _ _ _ _ _ _ Er). intros r1 Em.
    apply (put_moved uuidKeyPrefix (Uuid u) (set_uuid (Uuid u)) _ _ u); try done.
    + intros d m. apply records_of_uuid.
    + intros d Ed. by apply m_put_uuid.
    + intros d err Hn Ed. by apply m_half_uuid.
  - apply (on_store_moved _ _ _ _ _ _ _ _ _ Er). intros r1 Em.
    apply (put_moved publicKeyPrefix (PubKey u) (set_publickey (PubKey u)) _ _ u); try done.
    + intros d m. apply records_of_publickey.
    + intros d Ed. by apply m_put_key.
    + intros d err Hn Ed. by apply m_half_key.
  - apply (on_store_moved _ _ _ _ _ _ _ _ _ Er). intros r1 Em.
    destruct (get_effect key s r1 s' Hi Em) as (Hi' & Hu & -> & Hr). split_and!; [done..| |].
    + intros u ->. destruct Hr as [(d & u' & Hd & Hj & [= ->])|[|[? ?]]]; [|done..].
      by apply (m_get _ _ _ _ d).
    + intros _ err. by apply m_refused.
Qed.
End effects.

(** ** Runs *)

Section runs.
Context {S E : Type} `{KVStoreLaws S} `{LdapClient E} `{KeyGen E} `{JsonLaws UserInformation}.
Variable l : Ldap.
(** The codec of encoding/json is one for the users of the directory, whatever their keys. *)
Definition encodable : Prop := ∀ u, found (E := E) l u → ∀ priv pub, json_ok (set_keys priv pub u).

(** What a login carries: before the keys are made, an encodable user without keys; then
    an encodable one. *)
Definition carries (x : login) : Prop :=
  match x with
  | PwExists u | PwGenerate u =>
      PubKey u = "" ∧ PrivKey u = "" ∧ ∀ priv pub, json_ok (set_keys priv pub u)
  | PwPutUuid u | PwPutKey u => json_ok u
  | _ => True
  end.

Lemma encoded u d : json_ok u → json_Marshal u = inr d → json_Unmarshal d = inr u.
Proof. intros (d' & Em & Ed)%json_round_trip. rewrite Em. by intros [= <-]. Qed.

Lemma filed_insert name (m : gmap string string) u d : json_Unmarshal d = inr u →
  filed name m → filed name (<[name u := d]> m).
Proof. intros Hd Hm k d' [[<- <-]|[_ Hk]]%lookup_insert_Some; eauto. Qed.

(** A login of the pool after a move. *)
Lemma pool_after {p1 p2 : list login} {x' y} x : y ∈ p1 ++ x' :: p2 → y = x' ∨ y ∈ p1 ++ x :: p2.
Proof. set_solver. Qed.

Lemma moves_carries (up : Prop) r x r' x' : encodable →
  moves (found (E := E) l) up r x r' x' → carries x → carries x'.
Proof. intros He []; simpl; naive_solver. Qed.

Implicit Types (p : list login) (e : E).

(** Induction over a run that starts without logins. *)
Lemma run_invariant (I : records → list login → Prop) (s0 : S) e0 : encodable → kv_inv s0 →
  I (recs s0) [] →
  (∀ r p x, arrival x → I r p → I r (p ++ [x])) →
  (∀ (up : Prop) r p1 x p2 r' x', (kv_up s0 → up) → carries x →
     moves (found (E := E) l) up r x r' x' → I r (p1 ++ x :: p2) → I r' (p1 ++ x' :: p2)) →
  (∀ r p1 err p2, I r (p1 ++ Refused err :: p2) → I r (p1 ++ p2)) →
  ∀ (s : S) e p, rtc (logins_step l) (MkLogins (s0, e0) []) (MkLogins (s, e) p) →
    kv_inv s ∧ (kv_up s0 → kv_up s) ∧ I (recs s) p.
Proof.
  intros He Hi0 HI0 Harr Hturn Hdrop s e p Hr.
  cut (kv_inv s ∧ (kv_up s0 → kv_up s) ∧ Forall carries p ∧ I (recs s) p); [tauto|].
  set (J := λ w : logins S E, kv_inv (shared w).1 ∧ (kv_up s0 → kv_up (shared w).1) ∧
    Forall carries (pool w) ∧ I (recs (shared w).1) (pool w)).
  change (J (MkLogins (s, e) p)). revert Hr. apply rtc_invariant; [|by repeat split].
  clear s e p. intros w w' (Hi & Hu & Hc & HI). destruct 1 as [[s e] p x Hx
    |[s e] [s' e'] p1 x p2 x' Hx Hn|[s e] [s' e'] p1 x p2 Hx Hn]; simpl in *; unfold J; simpl.
  - split_and!; [done|done| |by apply Harr]. apply Forall_app. split; [done|].
    by destruct x; try done; repeat constructor.
  - destruct (next_moved l x s e _ s' e' Hi Hx Hn) as (Hi' & Hu' & Hm & _).
    apply Forall_app in Hc as [Hc1 [Hcx Hc2]%Forall_cons]. specialize (Hm x' eq_refl).
    split_and!; [done|auto| |by apply (Hturn (kv_up s) (recs s) p1 x)].
    apply Forall_app. split; [done|]. constructor; [|done]. by apply (moves_carries _ _ _ _ _ He Hm).
  - destruct (next_moved l x s e _ s' e' Hi Hx Hn) as (Hi' & Hu' & _ & Hm).
    apply Forall_app in Hc as [Hc1 [Hcx Hc2]%Forall_cons]. destruct (Hm eq_refl) as [err Hm'].
    split_and!; [done|auto|by apply Forall_app|].
    apply (Hdrop _ _ err). by apply (Hturn (kv_up s) (recs s) p1 x).
Qed.

Lemma moves_running P (up : Prop) r x r' x' : moves P up r x r' x' → running x.
Proof. by destruct 1. Qed.

(** A key that was handed out: the store has a record for it, of a login of the pool. *)
Definition opens r p (u : UserInformation) : Prop :=
  ∃ d u', publickeys r !! PubKey u = Some d ∧ json_Unmarshal d = inr u' ∧
    PubKey u' = PubKey u ∧ LoggedIn u' (pw_ext u') ∈ p.
Definition all_open r p : Prop := ∀ u, LoggedIn u (pw_ext u) ∈ p → PubKey u ≠ "" → opens r p u.

Lemma opens_mono r r' p p' u : publickeys r' !! PubKey u = publickeys r !! PubKey u →
  (∀ u', LoggedIn u' (pw_ext u') ∈ p → LoggedIn u' (pw_ext u') ∈ p') → opens r p u → opens r' p' u.
Proof. intros Hr Hp (d & u' & ? & ? & ? & ?). exists d, u'. rewrite Hr. auto. Qed.

Lemma moves_open (up : Prop) r p1 x p2 r' x' : up → carries x →
  moves (found (E := E) l) up r x r' x' → all_open r (p1 ++ x :: p2) → all_open r' (p1 ++ x' :: p2).
Proof.
  intros Hup Hx Hm HI.
  assert (∀ u, LoggedIn u (pw_ext u) ∈ p1 ++ x :: p2 → LoggedIn u (pw_ext u) ∈ p1 ++ x' :: p2) as Hp.
  { apply moves_running in Hm. intros u. rewrite !elem_of_app, !elem_of_cons.
    intros [|[<-|]]; [by left|done|by right; right]. }
  intros u Hin Hne. apply (pool_after x) in Hin.
  destruct (decide (publickeys r' !! PubKey u = publickeys r !! PubKey u)) as [Hsame|Hnew].
  - destruct Hin as [Heq|Hin]; [|by apply (opens_mono r r' (p1 ++ x :: p2)); auto].
    destruct Hm; try done; simpl in *; injection Heq as -> Heq.
    + by destruct Hx as (? & _).
    + exists d, u0. simpl. rewrite lookup_insert_eq. split_and!; [done|by apply encoded|done|set_solver].
  - destruct Hm; simpl in *; try (by destruct Hnew).
    assert (PubKey u0 = PubKey u) as Hk.
    { destruct (decide (PubKey u0 = PubKey u)); [done|]. by rewrite lookup_insert_ne in Hnew. }
    exists d, u0. simpl. rewrite <- Hk, lookup_insert_eq. split_and!; [done|by apply encoded|done|set_solver].
Qed.

(** A user with a record under the uuid and none under a key, and the logins there are then. *)
Definition keyless (id : string) r : Prop := is_Some (uuids r !! id) ∧
  ∀ k d u, publickeys r !! k = Some d → json_Unmarshal d = inr u → Uuid u ≠ id.
Definition locked (id : string) (x : login) : Prop :=
  match x with
  | PwGenerate u | PwPutUuid u | PwPutKey u => Uuid u ≠ id
  | LoggedIn u ext => (ext = pw_ext u ∧ (Uuid u = id → PrivKey u = "")) ∨ (ext = pk_ext u ∧ Uuid u ≠ id)
  | _ => True
  end.

Lemma moves_locked id (up : Prop) r x r' x' : carries x →
  moves (found (E := E) l) up r x r' x' → keyless id r → locked id x → keyless id r' ∧ locked id x'.
Proof.
  intros Hx Hm [Hid Hk] Hl.
  assert (∀ u d, Uuid u ≠ id → json_ok u → json_Marshal u = inr d →
    keyless id (set_uuid (Uuid u) d r) ∧ keyless id (set_publickey (PubKey u) d r)) as Hput.
  { intros u d Hne Hok Hd. apply encoded in Hd; [|done]. split; split; simpl; try done.
    - by rewrite lookup_insert_ne.
    - intros k d' u' [[_ <-]|[_ Hk']]%lookup_insert_Some Hd'; [congruence|eauto]. }
  destruct Hm; simpl in *; split; try done; try (by apply Hput).
  - left. split; [done|]. by intros _; destruct Hx as (_ & ? & _).
  - intros <-. by destruct Hid as [? ?]; congruence.
  - by left.
  - right. split; [done|eauto].
Qed.
End runs.

(** ** Theorems *)

Section theorems.
Context {S E : Type} `{KVStoreLaws S} `{LdapClient E} `{KeyGen E} `{JsonLaws UserInformation}.
Variable l : Ldap.
Implicit Types (p : list login) (e : E) (s : S).

(** Call by call, a login that nothing disturbs is the callback of the server, for
    every store, directory and key generation, failing ones included: the same result,
    and the same calls. *)
Theorem login_is_the_callback name password key (w : S * E) :
  (x ← login_alone l 5 (PwSearch name password); login_result x) w =
    PasswordCallback l name password w ∧
  (x ← login_alone l 1 (PkGet key); login_result x) w = PublicKeyCallback key w.
Proof.
  split; [|by eapply (alone_after l 0)].
  eapply (alone_after l 4); [done|]. intros u ?.
  eapply (alone_after l 3); [done|]. intros [] ?; [done|].
  rewrite bind_assoc_at. eapply (alone_after l 2); [done|]. intros keys ?.
  rewrite bind_assoc_at. eapply (alone_after l 1); [done|]. intros [] ?.
  rewrite bind_assoc_at. by eapply (alone_after l 0).
Qed.

(** C11: however the calls of many logins interleave, of whichever connections, also when
    the store fails between or within them: every record stays one of the user it is
    filed under, so no key ever opens a record made for another key. *)
Theorem records_stay_valid s0 e0 s e p : encodable (E := E) l → kv_inv s0 → valid (recs s0) →
  rtc (logins_step l) (MkLogins (s0, e0) []) (MkLogins (s, e) p) → valid (recs s).
Proof.
  intros He Hi Hv Hr.
  apply (run_invariant l (λ r _, valid r) s0 e0 He Hi Hv) in Hr as (_ & _ & Hr); [done|done| |done].
  intros up r p1 x p2 r' x' _ Hx Hm [Hk Hu].
  destruct Hm; try done; split; try done; apply filed_insert; try done;
    by apply encoded.
Qed.

(** A record under a key logs in its user. *)
Lemma PublicKeyCallback_value s e key d u : kv_inv s → kv_up s → publickeys (recs s) !! key = Some d →
  json_Unmarshal d = inr u → ∃ s', PublicKeyCallback key (s, e) = (Ret (pk_ext u), (s', e)).
Proof.
  intros Hi Hu Hd Ej. unfold recs in Hd. simpl in Hd. rewrite sub_map_lookup in Hd.
  destruct (get_value s (kv_view s) _ u d (conj Hi (conj Hu eq_refl)) Hd Ej) as (s' & Eg & _).
  exists s'. unfold PublicKeyCallback, mbind, M_bind.
  by rewrite (wrap_on_store "failed to obtain user data" (GetPublicKeyData key) s e _ _ Eg).
Qed.

(** C9: while the store answers, every key pair handed out by a password login logs in
    afterwards by its public key, whatever the interleaving; as the user it was made for,
    unless the generator made the same public key for two logins. *)
Theorem keys_handed_out_log_in s0 e0 s e p u : encodable (E := E) l → kv_inv s0 → kv_up s0 →
  rtc (logins_step l) (MkLogins (s0, e0) []) (MkLogins (s, e) p) →
  LoggedIn u (pw_ext u) ∈ p → PubKey u ≠ "" →
  ∃ u' s', PublicKeyCallback (PubKey u) (s, e) = (Ret (pk_ext u'), (s', e)) ∧
    LoggedIn u' (pw_ext u') ∈ p ∧ PubKey u' = PubKey u.
Proof.
  intros He Hi Hu0 Hr Hin Hne.
  apply (run_invariant l all_open s0 e0 He Hi) in Hr as (Hi' & Hu & HI).
  - destruct (HI u Hin Hne) as (d & u' & Hd & Ej & Hp & Hin').
    destruct (PublicKeyCallback_value s e (PubKey u) d u') as [s' Es]; [by auto..|].
    by exists u', s'.
  - intros u1 []%not_elem_of_nil.
  - intros r p1 x Hx HI u1 [H1'|H1'%list_elem_of_singleton]%elem_of_app Hp1; [|by subst x].
    apply (opens_mono r r p1); [done| |by apply HI]. set_solver.
  - intros up r p1 x p2 r' x' Hup Hx Hm HI. by apply (moves_open l up r p1 x); auto.
  - intros r p1 err p2 HI u1 Hin1 Hp1.
    apply (opens_mono r r (p1 ++ Refused err :: p2)); [done| |apply HI; [set_solver|done]]. set_solver.
Qed.

(** C10: the assumption behind [PasswordCallback], that a user with a record always has a
    key pair, does not survive a failure between the two puts: once the record under the
    uuid is stored and none of the user's under a key, then in every run, with the store
    failing or not, whoever logs in as this user does so by password and is handed the
    empty private key: the user never gets a key, and no key is ever theirs. *)
Theorem interrupted_login_locks_out s0 e0 s e p id : encodable (E := E) l → kv_inv s0 →
  is_Some (uuids (recs s0) !! id) →
  (∀ k d u, publickeys (recs s0) !! k = Some d → json_Unmarshal d = inr u → Uuid u ≠ id) →
  rtc (logins_step l) (MkLogins (s0, e0) []) (MkLogins (s, e) p) →
  ∀ u ext, LoggedIn u ext ∈ p → ext !! AuthenticatedUserID = Some id →
    ext !! AuthenticationType = Some "pw" ∧ ext !! AuthenticatedPrivKey = Some "".
Proof.
  intros He Hi Hid Hk Hr u ext Hin Hext.
  apply (run_invariant l (λ r p, keyless id r ∧ Forall (locked id) p) s0 e0 He Hi) in Hr as (_ & _ & _ & Hp).
  - rewrite Forall_forall in Hp. destruct (Hp _ Hin) as [[-> Hu]|[-> Hu]].
    + injection Hext as Hid'. split; [done|]. simpl. by rewrite <- (Hu Hid').
    + by injection Hext.
  - split; [by split|done].
  - intros r p1 x Hx [Hrec Hp1]. split; [done|]. apply Forall_app. split; [done|].
    constructor; [by destruct x|done].
  - intros up r p1 x p2 r' x' _ Hx Hm [Hrec [Hp1 [Hl Hp2]%Forall_cons]%Forall_app].
    destruct (moves_locked l id up r x r' x' Hx Hm Hrec Hl) as [Hr' Hl'].
    split; [done|]. apply Forall_app. by split; [|constructor].
  - intros r p1 err p2 [Hrec [Hp1 [_ Hp2]%Forall_cons]%Forall_app]. split; [done|]. by apply Forall_app.
Qed.
End theorems.

(** ** Concrete runs *)

From S2P Require Import StdStore.

Section schedules.
Context {S E : Type} `{KVStore S} `{LdapClient E} `{KeyGen E} `{Json UserInformation}.
Variable l : Ldap.

(** One turn of each of the named logins, in order. *)
Fixpoint schedule (turns : list nat) (w : logins S E) : option (logins S E) :=
  match turns with
  | [] => Some w
  | i :: turns' =>
      x ← pool w !! i;
      match login_next l x (shared w) with
      | (Ret x', w') => if bool_decide (running x) then schedule turns' (MkLogins w' (<[i:=x']> (pool w))) else None
      | _ => None
      end
  end.

Lemma schedule_runs turns w w' : schedule turns w = Some w' → rtc (logins_step l) w w'.
Proof.
  revert w. induction turns as [|i turns IH]; intros [w p]; simpl; [by intros [= ->]|].
  destruct (p !! i) as [x|] eqn:Ei; [|done]. simpl.
  destruct (login_next l x w) as [[x'| | |] w1] eqn:En; try done. case_bool_decide as Hx; [|done].
  intros Hs%IH. eapply rtc_l; [|exact Hs]. apply list_elem_of_split_length in Ei as (p1 & p2 & -> & ->).
  rewrite insert_app_r_alt by done. rewrite Nat.sub_diag. by apply login_turn.
Qed.

Lemma arrivals xs (w : S * E) : Forall arrival xs → rtc (logins_step l) (MkLogins w []) (MkLogins w xs).
Proof.
  intros Hxs. induction xs as [|x xs IH] using rev_ind; [done|].
  apply Forall_app in Hxs as [Hxs [Hx _]%Forall_cons].
  eapply rtc_r; [by apply IH|]. by apply login_arrives.
Qed.
End schedules.

(** Keys that differ from each other. *)
Definition numbered_keys : KeyGen nat := {|
  rsa_key := nat;
  rsa_GenerateKey n := (Ret n, Datatypes.S n);
  pem_EncodePrivate n := "priv" +:+ Itoa (Z.of_nat n);
  ssh_NewPublicKey n := inr ("pub" +:+ Itoa (Z.of_nat n))
|}.

(** A codec for the users of [demo_directory]: binary digits. *)
Fixpoint binary (p : positive) : string :=
  match p with xH => "" | xO p' => "0" +:+ binary p' | xI p' => "1" +:+ binary p' end.
Fixpoint unbinary (s : string) : positive :=
  match s with
  | "" => xH
  | String c s' => if Ascii.eqb c (Ascii.ascii_of_nat 48) then xO (unbinary s') else xI (unbinary s')
  end.

Definition demo_user (name priv pub : string) : UserInformation :=
  set_keys priv pub (user_of_entry name {["swissEduPersonMatriculationNumber" := "1"]}).
Definition demo_json : Json UserInformation := {|
  json_Marshal u := inr (binary (encode (Username u, PrivKey u, PubKey u)));
  json_Unmarshal s :=
    match decode (A := string * string * string) (unbinary s) with
    | Some (name, priv, pub) => inr (demo_user name priv pub)
    | None => inl (ErrExt "invalid character")
    end
|}.

Lemma unbinary_binary p : unbinary (binary p) = p.
Proof. induction p; simpl; by f_equal. Qed.

Program Definition demo_json_laws : @JsonLaws UserInformation demo_json := {|
  json_ok u := u = demo_user (Username u) (PrivKey u) (PubKey u)
|}.
Next Obligation.
  intros u Hu. eexists. split; [reflexivity|]. simpl.
  rewrite unbinary_binary, decode_encode. by f_equal.
Qed.

Lemma demo_encodable :
  let J := demo_json in encodable (E := nat) (H4 := demo_json_laws) NewLdap.
Proof.
  intros J u (name & password & e & e' & Hs) priv pub.
  destruct (Search_inv _ _ _ _ _ _ Hs) as (c & e1 & e2 & entry & e3 & _ & _ & Hse & _ & ->).
  by injection Hse as <- _.
Qed.

(** The logins of a run on the in-memory store. *)
Definition demo_run (s : StdStore) (xs : list login) (turns : list nat) : option (logins StdStore nat) :=
  let R := range_canonical in let J := demo_json in let K := numbered_keys in
  schedule NewLdap turns (MkLogins (s, 0%nat) xs).
Definition demo_outcome (s : StdStore) (xs : list login) (turns : list nat) : StdStore * nat * list login :=
  match demo_run s xs turns with Some w => (shared w, pool w) | None => (s, 0%nat, []) end.

Lemma demo_reaches s xs turns : Forall arrival xs → is_Some (demo_run s xs turns) →
  let R := range_canonical in let J := demo_json in let K := numbered_keys in
  let o := demo_outcome s xs turns in
  rtc (logins_step NewLdap) (MkLogins (s, 0%nat) []) (MkLogins (o.1.1, o.1.2) o.2).
Proof.
  intros Hxs [[[s' e'] p] Hw] R J K o. unfold o, demo_outcome. rewrite Hw. simpl.
  etrans; [by apply arrivals|]. by apply (schedule_runs NewLdap turns).
Qed.

(** Two first logins of one user, call by call in turn: neither sees the record of the
    other, so each makes a key pair. Both keys log in afterwards, but the record under the
    uuid knows only the second. *)
Definition two_logins : list login := [PwSearch "alice" "secret"; PwSearch "alice" "secret"].
Definition in_turn : list nat := [0; 1; 0; 1; 0; 1; 0; 1; 0; 1]%nat.

Lemma concurrent_first_logins :
  let R := range_canonical in let J := demo_json in let K := numbered_keys in
  let o := demo_outcome NewStdStore two_logins in_turn in
  let u0 := demo_user "alice" "priv0" "pub0" in let u1 := demo_user "alice" "priv1" "pub1" in
  rtc (logins_step NewLdap) (MkLogins (NewStdStore, 0%nat) []) (MkLogins (o.1.1, o.1.2) o.2) ∧
  o.2 = [LoggedIn u0 (pw_ext u0); LoggedIn u1 (pw_ext u1)] ∧
  (PublicKeyCallback "pub0" o.1).1 = Ret (pk_ext u0) ∧ (PublicKeyCallback "pub1" o.1).1 = Ret (pk_ext u1) ∧
  (GetPublicKeyUuid (A := UserInformation) (Uuid u0) o.1.1).1 = Ret u1.
Proof.
  intros R J K o u0 u1. split.
  - apply demo_reaches; [repeat constructor|]. eexists. vm_compute. reflexivity.
  - split_and!; vm_compute; reflexivity.
Qed.

Lemma records_stay_valid_witness :
  let R := range_canonical in let J := demo_json in let K := numbered_keys in
  let o := demo_outcome NewStdStore two_logins in_turn in valid (recs o.1.1).
Proof.
  intros R J K o.
  apply (records_stay_valid (H1 := demo_directory) (H2 := K) (H4 := demo_json_laws) NewLdap NewStdStore 0%nat
    o.1.1 o.1.2 o.2 demo_encodable (proj1 new_store_holds)).
  - split; intros k d Hk; vm_compute in Hk; discriminate Hk.
  - apply demo_reaches; [repeat constructor|]. eexists. vm_compute. reflexivity.
Defined.

Lemma keys_handed_out_log_in_witness :
  let R := range_canonical in let J := demo_json in let K := numbered_keys in
  let o := demo_outcome NewStdStore two_logins in_turn in let u := demo_user "alice" "priv0" "pub0" in
  ∃ u' s', PublicKeyCallback (PubKey u) (o.1.1, o.1.2) = (Ret (pk_ext u'), (s', o.1.2)) ∧ PubKey u' = "pub0".
Proof.
  intros R J K o u.
  destruct (keys_handed_out_log_in (H1 := demo_directory) (H2 := K) (H4 := demo_json_laws) NewLdap NewStdStore 0%nat
    o.1.1 o.1.2 o.2 u demo_encodable (proj1 new_store_holds)
    (proj1 (proj2 new_store_holds))) as (u' & s' & Hp & _ & Hk).
  - apply demo_reaches; [repeat constructor|]. eexists. vm_compute. reflexivity.
  - vm_compute. left.
  - discriminate.
  - exists u', s'. split; [exact Hp|exact Hk].
Defined.

(** The store after alice's first login, when its second put failed. *)
Definition interrupted_user : UserInformation := demo_user "alice" "priv0" "pub0".
Definition interrupted_store : StdStore :=
  let R := range_canonical in let J := demo_json in
  snd (PutDataIdxByUuid (Uuid interrupted_user) interrupted_user NewStdStore).

Lemma interrupted_store_recs :
  let R := range_canonical in kv_inv interrupted_store ∧
  ∃ d, recs interrupted_store = set_uuid "alice-1" d (records_of ∅).
Proof.
  intros R.
  destruct (put_value (H2 := demo_json_laws) NewStdStore ∅ (λ k, PutDataIdxByUuid (H0 := demo_json) k interrupted_user)
    uuidKeyPrefix "alice-1" interrupted_user eq_refl eq_refl new_store_holds) as (d & s' & E & _ & Hi & _ & Hv).
  replace interrupted_store with s' by exact (f_equal snd (eq_sym E)).
  split; [exact Hi|]. exists d. etrans; [exact (f_equal records_of Hv)|apply records_of_uuid].
Qed.

Lemma interrupted_login_locks_out_witness :
  let R := range_canonical in let J := demo_json in let K := numbered_keys in
  let o := demo_outcome interrupted_store two_logins [0; 1; 0; 1]%nat in
  ∃ ext, LoggedIn demo_entry ext ∈ o.2 ∧ ext !! AuthenticatedPrivKey = Some "".
Proof.
  intros R J K o. exists (pw_ext demo_entry).
  assert (LoggedIn demo_entry (pw_ext demo_entry) ∈ o.2) as Hin by (vm_compute; left).
  split; [exact Hin|]. destruct interrupted_store_recs as (Hi & d & Hv).
  apply (interrupted_login_locks_out (H1 := demo_directory) (H2 := K) (H4 := demo_json_laws) NewLdap
    interrupted_store 0%nat o.1.1 o.1.2 o.2 "alice-1" demo_encodable Hi) with demo_entry.
  - rewrite Hv. exists d. apply lookup_insert_eq.
  - intros k d' u. rewrite Hv. simpl. by rewrite sub_map_lookup.
  - apply demo_reaches; [repeat constructor|]. eexists. vm_compute. reflexivity.
  - exact Hin.
  - reflexivity.
Defined.
