(* ===== verification/Templates.v ===== *)
(** internal/k8sapi/templates, and the two literals of internal/k8sapi/deployment.go:
    the Kubernetes objects the program creates.

    The records have the fields of the Kubernetes API types the literals set; a field a
    literal leaves out has its zero value. *)
From S2P Require Import Prelude Config.

(** ** The API types *)

Record TypeMeta : Type := MkTypeMeta { Kind : string; APIVersion : string }.

Record ObjectMeta : Type := MkMeta {
  Name : string;
  Namespace_ : string;
  Labels : gmap string string;
  Annotations : gmap string string
}.

(** An environment variable taken from a field of the pod. *)
Record EnvVar : Type := MkEnv { env_Name : string; env_FieldPath : string }.
Record ContainerPort : Type := MkPort { cp_Name : string; cp_ContainerPort : Z; cp_Protocol : string }.
Record VolumeMount : Type := MkMount { vm_Name : string; vm_MountPath : string; vm_SubPath : string }.

Record Container : Type := MkContainerSpec {
  ct_Name : string;
  ct_Image : string;
  ct_TTY : bool;
  ct_Env : list EnvVar;
  ct_LivenessCommand : list string;
  ct_VolumeMounts : list VolumeMount;
  ct_ImagePullPolicy : string;
  ct_AddCapabilities : list string;
  ct_Ports : list ContainerPort
}.

(** A volume backed by a claim. *)
Record Volume : Type := MkVolume { vol_Name : string; vol_ClaimName : string }.

Record PodSpec : Type := MkPodSpec {
  NodeName : string;
  ServiceAccountName : string;
  AutomountServiceAccountToken : option bool;
  HostNetwork : bool;
  PodContainers : list Container;
  PodVolumes : list Volume
}.

Record PodTemplate : Type := MkPodTemplate { pt_Meta : ObjectMeta; pt_Spec : PodSpec }.

Record StatefulSetObj : Type := MkStatefulSet {
  ss_Type : TypeMeta; ss_Meta : ObjectMeta; ss_Selector : gmap string string;
  ss_ServiceName : string; ss_Template : PodTemplate
}.

Record DeploymentObj : Type := MkDeployment {
  dp_Type : TypeMeta; dp_Meta : ObjectMeta; dp_Selector : gmap string string;
  dp_Replicas : Z; dp_Template : PodTemplate
}.

Record ServicePort : Type := MkServicePort {
  sp_Name : string; sp_Protocol : string; sp_Port : Z; sp_TargetPort : Z
}.

Record ServiceObj : Type := MkService {
  sv_Type : TypeMeta; sv_Meta : ObjectMeta; sv_ServiceType : string;
  sv_Selector : gmap string string; sv_ClusterIP : string; sv_Ports : list ServicePort
}.

Record ConfigMapObj : Type := MkConfigMap {
  cm_Type : TypeMeta; cm_Meta : ObjectMeta; cm_Data : gmap string string
}.

Record NamespaceObj : Type := MkNamespace { ns_Type : TypeMeta; ns_Meta : ObjectMeta }.
Record ServiceAccountObj : Type := MkServiceAccount { sa_Type : TypeMeta; sa_Meta : ObjectMeta }.
Record SecretObj : Type := MkSecret { se_Type : TypeMeta; se_Meta : ObjectMeta; se_SecretType : string }.

Record StorageClassObj : Type := MkStorageClass {
  sc_Type : TypeMeta; sc_Meta : ObjectMeta; sc_Provisioner : string; sc_ReclaimPolicy : string
}.

Record PersistentVolumeObj : Type := MkPersistentVolume {
  pv_Type : TypeMeta; pv_Meta : ObjectMeta; pv_Capacity : string; pv_StorageClassName : string;
  pv_AccessModes : list string; pv_ReclaimPolicy : string;
  pv_NFSServer : string; pv_NFSPath : string; pv_ReadOnly : bool; pv_MountOptions : list string;
  pv_ClaimKind : string; pv_ClaimName : string; pv_ClaimNamespace : string
}.

Record PersistentVolumeClaimObj : Type := MkPersistentVolumeClaim {
  pvc_Type : TypeMeta; pvc_Meta : ObjectMeta; pvc_AccessModes : list string;
  pvc_VolumeName : string; pvc_StorageClassName : string; pvc_Request : string
}.

Record IngressObj : Type := MkIngress {
  in_Type : TypeMeta; in_Meta : ObjectMeta; in_ClassName : string; in_Path : string;
  in_PathType : string; in_ServiceName : string; in_ServicePort : Z
}.

Record IngressClassObj : Type := MkIngressClass {
  ic_Type : TypeMeta; ic_Meta : ObjectMeta; ic_Controller : string
}.

Record Subject : Type := MkSubject { sj_Kind : string; sj_Name : string; sj_Namespace : string }.

Record ClusterRoleBindingObj : Type := MkClusterRoleBinding {
  rb_Type : TypeMeta; rb_Meta : ObjectMeta; rb_Subjects : list Subject;
  rb_RoleKind : string; rb_RoleName : string
}.

(** [SchemeGroupVersion.Version] of the API groups used. *)
Definition v1 : string := "v1".
Definition type_meta (kind : string) : TypeMeta := MkTypeMeta kind v1.

(** The label every object of a user or an application carries. *)
Definition app_label (name : string) : gmap string string := {["app.kubernetes.io/name" := name]}.

(** ** templates *)

Definition Pod (identifier : KubeRessourceIdentifier) : PodSpec := {|
  NodeName := ri_NodeName identifier;
  ServiceAccountName := "";
  AutomountServiceAccountToken := None;
  HostNetwork := false;
  PodContainers := [{|
    ct_Name := "archlinux-container-ssh";
    ct_Image := UserContainerImage;
    ct_TTY := true;
    ct_Env := [MkEnv NodeNameEnvVariable "spec.nodeName"];
    ct_LivenessCommand := ["whoami"];
    ct_VolumeMounts := [MkMount "home-storage" "/root/" (ri_UserIdentifier identifier)];
    ct_ImagePullPolicy := "Always";
    ct_AddCapabilities := ["CAP_SYS_ADMIN"];
    ct_Ports := [MkPort "agent" AgentPort "TCP"]
  |}];
  PodVolumes := [MkVolume "home-storage" (ri_UserIdentifier identifier)]
|}.

Definition StatefulSet (identifier : KubeRessourceIdentifier) : StatefulSetObj := {|
  ss_Type := type_meta "StatefulSet";
  ss_Meta := MkMeta (ri_UserIdentifier identifier +:+ "-statefulset") (ri_Namespace identifier)
                    (app_label (ri_UserIdentifier identifier)) ∅;
  ss_Selector := app_label (ri_UserIdentifier identifier);
  ss_ServiceName := ri_UserIdentifier identifier +:+ "-service";
  ss_Template := MkPodTemplate
    (MkMeta (ri_UserIdentifier identifier +:+ "-pod") (ri_Namespace identifier)
            (app_label (ri_UserIdentifier identifier)) ∅)
    (Pod identifier)
|}.

Definition HeadlessService (identifier : KubeRessourceIdentifier) : ServiceObj := {|
  sv_Type := type_meta "Service";
  sv_Meta := MkMeta (ri_UserIdentifier identifier +:+ "-service") ""
                    (app_label (ri_UserIdentifier identifier)) ∅;
  sv_ServiceType := "ClusterIP";
  sv_Selector := app_label (ri_UserIdentifier identifier);
  sv_ClusterIP := "None";
  sv_Ports := [MkServicePort "agent" "TCP" AgentPort AgentPort]
|}.

Definition ServiceLoadBalancer (namespace serviceName : string) (portNum : Z) : ServiceObj := {|
  sv_Type := type_meta "Service";
  sv_Meta := MkMeta (serviceName +:+ "-service") namespace (app_label serviceName) ∅;
  sv_ServiceType := "LoadBalancer";
  sv_Selector := app_label serviceName;
  sv_ClusterIP := "";
  sv_Ports := [MkServicePort (serviceName +:+ "-port") "TCP" (to_int32 portNum) (to_int32 portNum)]
|}.

Definition ServiceClusterIP (namespace serviceName : string) (portNum : Z) : ServiceObj := {|
  sv_Type := type_meta "Service";
  sv_Meta := MkMeta (serviceName +:+ "-service") namespace (app_label serviceName) ∅;
  sv_ServiceType := "ClusterIP";
  sv_Selector := app_label serviceName;
  sv_ClusterIP := "";
  sv_Ports := [MkServicePort (serviceName +:+ "-port") "TCP" (to_int32 portNum) (to_int32 portNum)]
|}.

(** [Data] of a new config map is nil. *)
Definition ConfigMap (namespace name : string) : ConfigMapObj :=
  MkConfigMap (type_meta "ConfigMap") (MkMeta name namespace ∅ ∅) ∅.

Definition Namespace (namespace : string) : NamespaceObj :=
  MkNamespace (type_meta "Namespace") (MkMeta namespace "" ∅ ∅).

Definition ServiceAccount (namespace serviceAccountName : string) : ServiceAccountObj :=
  MkServiceAccount (type_meta "ServiceAccount") (MkMeta serviceAccountName namespace ∅ ∅).

Definition Secret (name : string) : SecretObj :=
  MkSecret (type_meta "Secret")
    (MkMeta (name +:+ "-secret") "" ∅ {["kubernetes.io/service-account.name" := name]})
    "kubernetes.io/service-account-token".

Definition StorageClass (name reclaimPolicy : string) : StorageClassObj := {|
  sc_Type := type_meta "StorageClass";
  sc_Meta := MkMeta name "" ∅ {["storageclass.kubernetes.io/is-default-class" := "true"]};
  sc_Provisioner := "kubernetes.io/nfs";
  sc_ReclaimPolicy := reclaimPolicy
|}.

Definition PersistentVolume (identifier : KubeRessourceIdentifier) : PersistentVolumeObj := {|
  pv_Type := type_meta "PersistentVolume";
  pv_Meta := MkMeta (ri_UserIdentifier identifier) "" ∅ ∅;
  pv_Capacity := "10Gi";
  pv_StorageClassName := "nfs";
  pv_AccessModes := ["ReadWriteMany"];
  pv_ReclaimPolicy := "Retain";
  pv_NFSServer := "10.42.0.1";
  pv_NFSPath := "/";
  pv_ReadOnly := false;
  pv_MountOptions := ["nfsvers=4.2"];
  pv_ClaimKind := "PersistentVolumeClaim";
  pv_ClaimName := ri_UserIdentifier identifier;
  pv_ClaimNamespace := UserNamespace
|}.

Definition PersistentVolumeClaim (identifier : KubeRessourceIdentifier)
    : PersistentVolumeClaimObj := {|
  pvc_Type := type_meta "PersistentVolumeClaim";
  pvc_Meta := MkMeta (ri_UserIdentifier identifier) (ri_Namespace identifier) ∅ ∅;
  pvc_AccessModes := ["ReadWriteMany"];
  pvc_VolumeName := ri_UserIdentifier identifier;
  pvc_StorageClassName := ri_StorageClass identifier;
  pvc_Request := "10Gi"
|}.

Definition className : string := "haproxy".
Definition pathType : string := "Prefix".

Definition Ingress (namespace : string) : IngressObj := {|
  in_Type := type_meta "Ingress";
  in_Meta := MkMeta ("ingress" +:+ "ssh") namespace ∅ ∅;
  in_ClassName := className;
  in_Path := "/";
  in_PathType := pathType;
  in_ServiceName := "ssh-relay-service";
  in_ServicePort := 2200
|}.

Definition IngressClass (namespace : string) : IngressClassObj := {|
  ic_Type := type_meta "IngressClass";
  ic_Meta := MkMeta className namespace ∅ ∅;
  ic_Controller := "haproxy.org/ingress-controller"
|}.

Definition ClusterRoleBinding (namespace name : string) : ClusterRoleBindingObj := {|
  rb_Type := type_meta "ClusterRoleBinding";
  rb_Meta := MkMeta "add-on-cluster-admin" "" ∅ ∅;
  rb_Subjects := [MkSubject "ServiceAccount" name namespace];
  rb_RoleKind := "ClusterRole";
  rb_RoleName := "cluster-admin"
|}.

(** templates/deployment.go, which the client's own deployments do not use. *)
Definition Deployment (namespace deploymentName : string) (replicas : Z) : DeploymentObj := {|
  dp_Type := type_meta "Deployment";
  dp_Meta := MkMeta (deploymentName +:+ "-deployment") namespace (app_label deploymentName) ∅;
  dp_Selector := app_label deploymentName;
  dp_Replicas := replicas;
  dp_Template := MkPodTemplate
    (MkMeta (deploymentName +:+ "-pod") namespace (app_label deploymentName) ∅)
    {| NodeName := "";
       ServiceAccountName := "development";
       AutomountServiceAccountToken := Some true;
       HostNetwork := true;
       PodContainers := [{|
         ct_Name := "ssh-relay";
         ct_Image := SSHContainerImage;
         ct_TTY := true;
         ct_Env := [];
         ct_LivenessCommand := ["whoami"];
         ct_VolumeMounts := [];
         ct_ImagePullPolicy := "Always";
         ct_AddCapabilities := ["CAP_SYS_ADMIN"];
         ct_Ports := [MkPort "ssh" 2200 "TCP"]
       |}];
       PodVolumes := [] |}
|}.

(** ** deployment.go *)

Definition SSHDeployment (namespace deploymentName : string) (replicas : Z) : DeploymentObj := {|
  dp_Type := type_meta "Deployment";
  dp_Meta := MkMeta (deploymentName +:+ "-deployment") namespace (app_label deploymentName) ∅;
  dp_Selector := app_label deploymentName;
  dp_Replicas := replicas;
  dp_Template := MkPodTemplate
    (MkMeta (deploymentName +:+ "-pod") namespace (app_label deploymentName) ∅)
    {| NodeName := "";
       ServiceAccountName := SSHServiceAccountName;
       AutomountServiceAccountToken := Some true;
       HostNetwork := true;
       PodContainers := [{|
         ct_Name := deploymentName;
         ct_Image := SSHContainerImage;
         ct_TTY := true;
         ct_Env := [];
         ct_LivenessCommand := ["whoami"];
         ct_VolumeMounts := [];
         ct_ImagePullPolicy := "Always";
         ct_AddCapabilities := ["CAP_SYS_ADMIN"];
         ct_Ports := [MkPort "ssh" 2200 "TCP"]
       |}];
       PodVolumes := [] |}
|}.

Definition GraderDeployment (namespace deploymentName : string) (replicas : Z) : DeploymentObj := {|
  dp_Type := type_meta "Deployment";
  dp_Meta := MkMeta (deploymentName +:+ "-deployment") namespace (app_label deploymentName) ∅;
  dp_Selector := app_label deploymentName;
  dp_Replicas := replicas;
  dp_Template := MkPodTemplate
    (MkMeta (deploymentName +:+ "-pod") namespace (app_label deploymentName) ∅)
    {| NodeName := "";
       ServiceAccountName := GraderServiceAccountName;
       AutomountServiceAccountToken := Some true;
       HostNetwork := false;
       PodContainers := [{|
         ct_Name := deploymentName;
         ct_Image := GradingContainerImage;
         ct_TTY := true;
         ct_Env := [];
         ct_LivenessCommand := ["whoami"];
         ct_VolumeMounts := [];
         ct_ImagePullPolicy := "Always";
         ct_AddCapabilities := [];
         ct_Ports := [MkPort "graderapi" GradeAPIport "TCP"]
       |}];
       PodVolumes := [] |}
|}.

(** ** All of them *)

Inductive object : Type :=
  | OStatefulSet (o : StatefulSetObj)
  | ODeployment (o : DeploymentObj)
  | OService (o : ServiceObj)
  | OConfigMap (o : ConfigMapObj)
  | ONamespace (o : NamespaceObj)
  | OServiceAccount (o : ServiceAccountObj)
  | OSecret (o : SecretObj)
  | OStorageClass (o : StorageClassObj)
  | OPersistentVolume (o : PersistentVolumeObj)
  | OPersistentVolumeClaim (o : PersistentVolumeClaimObj)
  | OIngress (o : IngressObj)
  | OIngressClass (o : IngressClassObj)
  | OClusterRoleBinding (o : ClusterRoleBindingObj).

Definition object_meta (o : object) : ObjectMeta :=
  match o with
  | OStatefulSet o => ss_Meta o | ODeployment o => dp_Meta o | OService o => sv_Meta o
  | OConfigMap o => cm_Meta o | ONamespace o => ns_Meta o | OServiceAccount o => sa_Meta o
  | OSecret o => se_Meta o | OStorageClass o => sc_Meta o | OPersistentVolume o => pv_Meta o
  | OPersistentVolumeClaim o => pvc_Meta o | OIngress o => in_Meta o
  | OIngressClass o => ic_Meta o | OClusterRoleBinding o => rb_Meta o
  end.

(** The kind of object an endpoint of the API server serves. *)
Definition object_kind (o : object) : string :=
  match o with
  | OStatefulSet _ => "StatefulSet" | ODeployment _ => "Deployment" | OService _ => "Service"
  | OConfigMap _ => "ConfigMap" | ONamespace _ => "Namespace"
  | OServiceAccount _ => "ServiceAccount" | OSecret _ => "Secret"
  | OStorageClass _ => "StorageClass" | OPersistentVolume _ => "PersistentVolume"
  | OPersistentVolumeClaim _ => "PersistentVolumeClaim" | OIngress _ => "Ingress"
  | OIngressClass _ => "IngressClass" | OClusterRoleBinding _ => "ClusterRoleBinding"
  end.

(** A service selects a pod when the pod carries all its labels. *)
Definition selects (selector labels : gmap string string) : bool :=
  bool_decide (map_Forall (λ k v, labels !! k = Some v) selector).

(** ** Theorem *)

(** The objects of one user fit together: the stateful set selects its own pods and
    names the headless service, the service selects those pods and forwards to the port
    the agent listens on, the pod mounts the user's claim, and volume and claim refer
    to each other when the user lives in the users' namespace. *)
Theorem user_objects_fit id : ri_Namespace id = UserNamespace → ri_StorageClass id = "nfs" →
  let ss := StatefulSet id in let sv := HeadlessService id in
  let pv := PersistentVolume id in let pvc := PersistentVolumeClaim id in
  let labels := Labels (pt_Meta (ss_Template ss)) in let pod := pt_Spec (ss_Template ss) in
  selects (ss_Selector ss) labels = true ∧ selects (sv_Selector sv) labels = true ∧
  ss_ServiceName ss = Name (sv_Meta sv) ∧
  (∀ p, p ∈ sv_Ports sv → ∃ c q, c ∈ PodContainers pod ∧ q ∈ ct_Ports c ∧
     cp_ContainerPort q = sp_TargetPort p ∧ cp_ContainerPort q = AgentPort) ∧
  (∀ v, v ∈ PodVolumes pod → vol_ClaimName v = Name (pvc_Meta pvc)) ∧
  pvc_VolumeName pvc = Name (pv_Meta pv) ∧
  pv_ClaimName pv = Name (pvc_Meta pvc) ∧ pv_ClaimNamespace pv = Namespace_ (pvc_Meta pvc) ∧
  pv_StorageClassName pv = pvc_StorageClassName pvc ∧ pv_Capacity pv = pvc_Request pvc.
Proof.
  intros Hns Hst. simpl. rewrite Hns, Hst.
  assert (∀ n, selects (app_label n) (app_label n) = true) as Hsel.
  { intros n. apply bool_decide_eq_true. intros k v Hk. done. }
  split_and!; try done; try apply Hsel.
  - intros p ->%list_elem_of_singleton. eexists _, _. split; [by left|]. by split; [left|].
  - by intros v ->%list_elem_of_singleton.
Qed.

(** The template and the deployment the installer makes differ in the service account only,
    when the name is the container's. *)
Theorem Deployment_of_another_account ns n :
  dp_Meta (Deployment ns "ssh-relay" n) = dp_Meta (SSHDeployment ns "ssh-relay" n) ∧
  PodContainers (pt_Spec (dp_Template (Deployment ns "ssh-relay" n))) =
    PodContainers (pt_Spec (dp_Template (SSHDeployment ns "ssh-relay" n))) ∧
  ServiceAccountName (pt_Spec (dp_Template (Deployment ns "ssh-relay" n))) ≠
    ServiceAccountName (pt_Spec (dp_Template (SSHDeployment ns "ssh-relay" n))).
Proof. done. Qed.

Lemma user_objects_fit_witness :
  let id := MkIdentifier "alice-1" UserNamespace "" "node" "nfs" in
  pv_ClaimNamespace (PersistentVolume id) = Namespace_ (pvc_Meta (PersistentVolumeClaim id)).
Proof.
  intros id.
  destruct (user_objects_fit id eq_refl eq_refl) as (_ & _ & _ & _ & _ & _ & _ & H & _).
  exact H.
Defined.
