(* ===== verification/K8sApi.v ===== *)
(** internal/k8sapi: the operations on the cluster.

    The Kubernetes API server, client-go's polling and the pods' life are a parameter
    ([KubeClient]); [KubeLaws] states the documented behaviour relied on: a key space
    of objects in which a create never overwrites. *)
From S2P Require Import Prelude Config StoreApi StoreWrapper Templates.

(** ** The cluster *)

Inductive PodPhase : Type := PodPending | PodRunning | PodSucceeded | PodFailed | PodUnknown.

(** The status of a pod, as far as it is read. *)
Record PodObj : Type := MkPod { Phase : PodPhase; PodIP : string }.

(** [errors.IsNotFound]. *)
Definition IsNotFound (e : error) : bool :=
  existsb (λ c, match c with ErrStatus code _ => bool_decide (code = "NotFound") | _ => false end)
          (error_chain e).

(** client-go: the typed clients' calls (a namespace of "" for the kinds without one)
    and the polling loops of package wait, with their timeout in seconds. *)
Class KubeClient (C : Type) : Type := {
  kube_Create : string → object → M C ();
  kube_GetStatefulSet : string → string → M C StatefulSetObj;
  kube_GetNamespace : string → M C NamespaceObj;
  kube_GetService : string → string → M C ServiceObj;
  kube_GetConfigMap : string → string → M C ConfigMapObj;
  kube_GetClusterRoleBinding : string → M C ClusterRoleBindingObj;
  kube_GetPod : string → string → M C PodObj;
  kube_ListPods : string → M C (list string);
  kube_Update : string → object → M C ();
  kube_PollImmediate : Z → M C bool → M C ();
  kube_Poll : Z → M C bool → M C ()
}.

Abbreviation obj_key := (string * string * string)%type.
Definition key_of (ns : string) (o : object) : obj_key := (object_kind o, ns, Name (object_meta o)).

(** The outcomes of a read: the object, a not found error when there is none, or
    another error. *)
Definition got {A} (wrap : A → object) (present : option object) (r : res A) : Prop :=
  match r with
  | Ret a => present = Some (wrap a)
  | Fail e => IsNotFound e = true → present = None
  | _ => False
  end.

Class KubeLaws (C : Type) `{KubeClient C} : Type := {
  kube_objs : C → gmap obj_key object;

  (** A create stores the object under a free key or fails, and then it may still have
      been applied. *)
  kube_Create_law ns o c r c' : kube_Create ns o c = (r, c') →
    (kube_objs c !! key_of ns o = None ∧ kube_objs c' = <[key_of ns o := o]> (kube_objs c) ∧
       (r = Ret () ∨ ∃ e, r = Fail e)) ∨
    (∃ e, r = Fail e ∧ kube_objs c' = kube_objs c);
  (** An update replaces an object that exists, or fails likewise. *)
  kube_Update_law ns o c r c' : kube_Update ns o c = (r, c') →
    (is_Some (kube_objs c !! key_of ns o) ∧ kube_objs c' = <[key_of ns o := o]> (kube_objs c) ∧
       (r = Ret () ∨ ∃ e, r = Fail e)) ∨
    (∃ e, r = Fail e ∧ kube_objs c' = kube_objs c);
  kube_GetStatefulSet_law ns n c r c' : kube_GetStatefulSet ns n c = (r, c') →
    kube_objs c' = kube_objs c ∧ got OStatefulSet (kube_objs c !! ("StatefulSet", ns, n)) r;
  kube_GetNamespace_law n c r c' : kube_GetNamespace n c = (r, c') →
    kube_objs c' = kube_objs c ∧ got ONamespace (kube_objs c !! ("Namespace", "", n)) r;
  kube_GetService_law ns n c r c' : kube_GetService ns n c = (r, c') →
    kube_objs c' = kube_objs c ∧ got OService (kube_objs c !! ("Service", ns, n)) r;
  kube_GetConfigMap_law ns n c r c' : kube_GetConfigMap ns n c = (r, c') →
    kube_objs c' = kube_objs c ∧ got OConfigMap (kube_objs c !! ("ConfigMap", ns, n)) r;
  (** An object is found under its own name. *)
  kube_GetConfigMap_name ns n c cm c' : kube_GetConfigMap ns n c = (Ret cm, c') →
    Name (cm_Meta cm) = n;
  kube_GetClusterRoleBinding_law n c r c' : kube_GetClusterRoleBinding n c = (r, c') →
    kube_objs c' = kube_objs c ∧
    got OClusterRoleBinding (kube_objs c !! ("ClusterRoleBinding", "", n)) r;
  (** A pod comes and goes on its own; reading it changes no object. *)
  kube_GetPod_law ns n c r c' : kube_GetPod ns n c = (r, c') →
    kube_objs c' = kube_objs c ∧ ((∃ p, r = Ret p) ∨ ∃ e, r = Fail e);
  (** Polling a condition that changes no object changes none, and returns. *)
  kube_PollImmediate_law t cond c r c' :
    (∀ c r c', cond c = (r, c') → kube_objs c' = kube_objs c) → kube_PollImmediate t cond c = (r, c') →
    kube_objs c' = kube_objs c ∧ (r = Ret () ∨ ∃ e, r = Fail e);
  kube_Poll_law t cond c r c' :
    (∀ c r c', cond c = (r, c') → kube_objs c' = kube_objs c) → kube_Poll t cond c = (r, c') →
    kube_objs c' = kube_objs c ∧ (r = Ret () ∨ ∃ e, r = Fail e)
}.

Definition ErrPodCompleted : error := ErrVar "pod ran to completion".
Definition ErrNotConnected : error := ErrVar "client is not connected to etcd".

(** ** The operations *)

Section operations.
Context {C : Type} `{KubeClient C}.

(** [x, err := get(); if IsNotFound(err) { return false, nil } ...]. *)
Definition found {A} (get : M C A) : M C bool :=
  r ← attempt get;
  match r with
  | inl err => if IsNotFound err then mret false else fail err
  | inr _ => mret true
  end.

(** *** namespace.go *)

Definition CreateNamespace (namespace : string) : M C () :=
  kube_Create "" (ONamespace (Namespace namespace)).
Definition NamespaceExists (namespace : string) : M C bool :=
  found (kube_GetNamespace namespace).

(** *** service.go *)

Definition CreateHeadlessService (identifier : KubeRessourceIdentifier) : M C () :=
  kube_Create (ri_Namespace identifier) (OService (HeadlessService identifier)).
Definition CreateServiceLoadBalancer (namespace serviceName : string) (portNum : Z) : M C () :=
  kube_Create namespace (OService (ServiceLoadBalancer namespace serviceName portNum)).
Definition CreateServiceClusterIP (namespace serviceName : string) (portNum : Z) : M C () :=
  kube_Create namespace (OService (ServiceClusterIP namespace serviceName portNum)).
Definition GetService (namespace serviceName : string) : M C ServiceObj :=
  kube_GetService namespace serviceName.

(** *** serviceAccount.go, secret.go, persistentVolume.go, persistentVolumeClaims.go,
    storageClass.go *)

Definition CreateServiceAccount (namespace serviceAccountName : string) : M C () :=
  kube_Create namespace (OServiceAccount (ServiceAccount namespace serviceAccountName)).
Definition CreateSecret (name : string) : M C () :=
  kube_Create "kube-system" (OSecret (Secret name)).
Definition CreatePersistentVolume (identifier : KubeRessourceIdentifier) : M C () :=
  kube_Create "" (OPersistentVolume (PersistentVolume identifier)).
Definition CreatePersistentVolumeClaim (identifier : KubeRessourceIdentifier) : M C () :=
  kube_Create (ri_Namespace identifier) (OPersistentVolumeClaim (PersistentVolumeClaim identifier)).
Definition CreateStorageClass (name reclaimPolicy : string) : M C () :=
  kube_Create "" (OStorageClass (StorageClass name reclaimPolicy)).

(** *** configMap.go *)

Definition CreateConfigMap (namespace name : string) : M C () :=
  kube_Create namespace (OConfigMap (ConfigMap namespace name)).

Definition set_Data (data : gmap string string) (cm : ConfigMapObj) : ConfigMapObj :=
  MkConfigMap (cm_Type cm) (cm_Meta cm) data.

Definition AddDataToConfigMap (namespace mapName key value : string) : M C () :=
  cfgMap ← kube_GetConfigMap namespace mapName;
  let data := if decide (cm_Data cfgMap = ∅) then {[key := value]}
              else <[key := value]> (cm_Data cfgMap) in
  kube_Update namespace (OConfigMap (set_Data data cfgMap)).

Definition GetConfigMapData (namespace mapName : string) : M C (gmap string string) :=
  cfgMap ← kube_GetConfigMap namespace mapName; mret (cm_Data cfgMap).

(** *** rbac.go: any error of the lookup leads to a create *)

Definition CreateClusterRoleBinding (namespace name : string) : M C () :=
  r ← attempt (kube_GetClusterRoleBinding "add-on-cluster-admin");
  match r with
  | inl _ => kube_Create "" (OClusterRoleBinding (ClusterRoleBinding namespace name))
  | inr binding =>
      kube_Update "" (OClusterRoleBinding (MkClusterRoleBinding (rb_Type binding) (rb_Meta binding)
        (rb_Subjects binding ++ [MkSubject "ServiceAccount" name namespace])
        (rb_RoleKind binding) (rb_RoleName binding)))
  end.

(** *** ingress.go, deployment.go *)

Definition CreateIngress (namespace : string) : M C () :=
  CreateConfigMap "default" "my-tcpservices-configmap";;
  AddDataToConfigMap "default" "my-tcpservices-configmap" "22" "ssh/ssh-relay-service:2200";;
  kube_Create "" (OIngressClass (IngressClass namespace));;
  kube_Create namespace (OIngress (Ingress namespace)).

Definition CreateSSHDeployment (namespace deploymentName : string) (replicas : Z) : M C () :=
  kube_Create namespace (ODeployment (SSHDeployment namespace deploymentName replicas)).
Definition CreateGraderDeployment (namespace deploymentName : string) (replicas : Z) : M C () :=
  kube_Create namespace (ODeployment (GraderDeployment namespace deploymentName replicas)).

(** *** pod.go *)

Definition ListPods (namespace : string) : M C () := kube_ListPods namespace;; mret ().

Definition GetPod (namespace podName : string) : M C PodObj := kube_GetPod namespace podName.

Definition isPodRunning (podName namespace : string) : M C bool :=
  r ← attempt (kube_GetPod namespace (podName +:+ "-statefulset-0"));
  match r with
  | inl err => if IsNotFound err then mret false else fail err
  | inr pod =>
      match Phase pod with
      | PodRunning => mret true
      | PodFailed | PodSucceeded => fail ErrPodCompleted
      | _ => mret false
      end
  end.

Definition WaitForPodRunning (namespace podName : string) (timeout : Z) : M C () :=
  kube_Poll timeout (isPodRunning podName namespace).

(** *** statefulSet.go *)

Definition isStatefulSetActive (statefulSetName namespace : string) : M C bool :=
  found (kube_GetStatefulSet namespace (statefulSetName +:+ "-statefulset")).

Definition UserRessourcesExist (namespace statefulSetName : string) : M C bool :=
  isStatefulSetActive statefulSetName namespace.

Definition WaitForStatefulSet (namespace statefulSetName : string) (timeout : Z) : M C () :=
  kube_PollImmediate timeout (isStatefulSetActive statefulSetName namespace).

Definition CreateUserStatefulSet (identifier : KubeRessourceIdentifier) : M C () :=
  CreateHeadlessService identifier;;
  kube_Create (ri_Namespace identifier) (OStatefulSet (StatefulSet identifier)).

(** [identifier.StorageClass = "nfs"]. *)
Definition set_StorageClass (cl : string) (id : KubeRessourceIdentifier) : KubeRessourceIdentifier :=
  MkIdentifier (ri_UserIdentifier id) (ri_Namespace id) (ri_ContainerIdentifier id)
               (ri_NodeName id) cl.

Definition CreateUserRessources (identifier : KubeRessourceIdentifier) : M C () :=
  let identifier := set_StorageClass "nfs" identifier in
  exists_ ← NamespaceExists (ri_Namespace identifier);
  (if (exists_ : bool) then mret () else CreateNamespace (ri_Namespace identifier));;
  CreateUserStatefulSet identifier;;
  WaitForStatefulSet (ri_Namespace identifier) (ri_UserIdentifier identifier) 20;;
  CreatePersistentVolumeClaim identifier;;
  CreatePersistentVolume identifier;;
  WaitForPodRunning (ri_Namespace identifier) (ri_UserIdentifier identifier) 240.

End operations.

(** *** k8sapi.go *)

(** [NewClient]: the environment and the calls of client-go. *)
Definition NewClient {Cfg Cl} (LookupEnv : string → option string)
    (InClusterConfig : error + Cfg) (BuildConfigFromFlags : string → error + Cfg)
    (NewForConfig : Cfg → error + Cl) : error + Cl :=
  match (match LookupEnv "KUBECONFIG" with
         | None => InClusterConfig
         | Some val => BuildConfigFromFlags val
         end) with
  | inl err => inl err
  | inr config => NewForConfig config
  end.

Definition GetKubeConfigPath (LookupEnv : string → option string)
    (Stat : string → option (bool * error)) : error + string :=
  match LookupEnv "KUBECONFIG" with
  | None => inl (ErrNew "KUBECONFIG not set")
  | Some val =>
      match Stat val with
      | Some (true, _) => inl (ErrNew "KUBECONFIG file does not exist")
      | Some (false, err) => inl err
      | None => inr val
      end
  end.

Section store.
Context {S : Type} `{KVStore S}.

(** A method on [k.SharedStore]: nil when not connected. *)
Definition connected {A} (m : M S A) : M (option S) A := λ os,
  match os with
  | None => (Fail ErrNotConnected, None)
  | Some s => match m s with (r, s') => (r, Some s') end
  end.

(** [ConnectToStore]; [NewEtcdStore] is that of the store component. *)
Definition ConnectToStore
    (NewEtcdStore : list string → option string → option string → option string → error + S)
    (creds : EtcdCredentials) (endpoints : list string) : M (option S) () := λ os,
  match NewEtcdStore endpoints (CaCertData creds) (PeerCertData creds) (KeyData creds) with
  | inl err => (Fail err, os)
  | inr sharedStore => (Ret (), Some sharedStore)
  end.

(** The users are those of [GetAllPublicKeys], indexed by public key. *)
Definition GetStoreUserData `{Json ContainerInformation} `{Json UserInformation}
    : M (option S) UserConfiguration :=
  connected (
    challenges ← GetAllChallenges;
    userData ← GetAllPublicKeys;
    mret (MkUserConfiguration userData ∅ challenges)).

Definition UploadSSHServerPrivKey (privKey : string) : M (option S) () :=
  connected (PutPrivKey privKey).

Definition DownloadSSHServerPrivKey (privKey : string) : M (option S) () :=
  connected (PutPrivKey privKey).
End store.

(** ** Lemmas *)

Section lemmas.
Context {C : Type} `{KubeLaws C}.
Implicit Types c : C.

Lemma create_Ret ns o c c' : kube_Create ns o c = (Ret (), c') →
  kube_objs c !! key_of ns o = None ∧ kube_objs c' = <[key_of ns o := o]> (kube_objs c) ∧
  kube_objs c ⊆ kube_objs c'.
Proof.
  intros E. destruct (kube_Create_law _ _ _ _ _ E) as [(? & -> & _)|(e & ? & _)]; [|done].
  split_and!; [done..|]. by apply insert_subseteq.
Qed.

Lemma update_Ret ns o c c' : kube_Update ns o c = (Ret (), c') →
  kube_objs c' = <[key_of ns o := o]> (kube_objs c).
Proof. intros E. destruct (kube_Update_law _ _ _ _ _ E) as [(? & ? & _)|(e & ? & _)]; done. Qed.

Lemma AddData_Ret ns n k v c c' : AddDataToConfigMap ns n k v c = (Ret (), c') →
  ∃ cm, kube_objs c !! ("ConfigMap", ns, n) = Some (OConfigMap cm) ∧
    kube_objs c' = <[("ConfigMap", ns, n) := OConfigMap (set_Data (<[k := v]> (cm_Data cm)) cm)]>
      (kube_objs c).
Proof.
  unfold AddDataToConfigMap. intros (cm & c1 & E1 & E)%bind_Ret_inv.
  destruct (kube_GetConfigMap_law _ _ _ _ _ E1) as [Ho Hg]. simpl in Hg.
  apply kube_GetConfigMap_name in E1. exists cm. split; [done|]. apply update_Ret in E.
  rewrite E, Ho. unfold key_of, set_Data. simpl. rewrite E1.
  destruct (decide (cm_Data cm = ∅)) as [->|]; [|done]. by rewrite insert_empty.
Qed.

Lemma found_spec {A} (get : M C A) wrap k c r c' :
  (∀ r c', get c = (r, c') → kube_objs c' = kube_objs c ∧ got wrap (kube_objs c !! k) r) →
  found get c = (r, c') → kube_objs c' = kube_objs c ∧
    match r with
    | Ret b => is_Some (kube_objs c !! k) ↔ b = true
    | Fail _ => True
    | _ => False
    end.
Proof.
  intros Hget. unfold found, attempt, mret, M_ret, fail, mbind, M_bind.
  destruct (get c) as [r1 c1] eqn:E. destruct (Hget _ _ eq_refl) as [Ho Hg].
  destruct r1 as [a|e| |]; simpl in *; try done.
  - intros ?; simplify_eq. rewrite Hg. by split_and!; eauto.
  - destruct (IsNotFound e); intros ?; simplify_eq; (split; [done|]); [|done].
    rewrite Hg by done. split; [by intros [? ?]|done].
Qed.

Lemma isStatefulSetActive_spec n ns c r c' : isStatefulSetActive n ns c = (r, c') →
  kube_objs c' = kube_objs c ∧
    match r with
    | Ret b => is_Some (kube_objs c !! ("StatefulSet", ns, n +:+ "-statefulset")) ↔ b = true
    | Fail _ => True
    | _ => False
    end.
Proof. apply (found_spec _ OStatefulSet). apply kube_GetStatefulSet_law. Qed.

Lemma NamespaceExists_spec n c r c' : NamespaceExists n c = (r, c') →
  kube_objs c' = kube_objs c ∧
    match r with
    | Ret b => is_Some (kube_objs c !! ("Namespace", "", n)) ↔ b = true
    | Fail _ => True
    | _ => False
    end.
Proof. apply (found_spec _ ONamespace). apply kube_GetNamespace_law. Qed.

Lemma isPodRunning_objs n ns c r c' : isPodRunning n ns c = (r, c') → kube_objs c' = kube_objs c.
Proof.
  unfold isPodRunning, attempt, mret, M_ret, fail, mbind, M_bind.
  destruct (kube_GetPod _ _ c) as [r1 c1] eqn:E.
  destruct (kube_GetPod_law _ _ _ _ _ E) as [Ho [[p ->]|[e ->]]].
  - destruct (Phase p); intros; by simplify_eq.
  - destruct (IsNotFound e); intros; by simplify_eq.
Qed.

Lemma WaitForPodRunning_objs ns n t c r c' : WaitForPodRunning ns n t c = (r, c') →
  kube_objs c' = kube_objs c ∧ (r = Ret () ∨ ∃ e, r = Fail e).
Proof. apply kube_Poll_law. intros. by eapply isPodRunning_objs. Qed.

Lemma WaitForStatefulSet_objs ns n t c r c' : WaitForStatefulSet ns n t c = (r, c') →
  kube_objs c' = kube_objs c ∧ (r = Ret () ∨ ∃ e, r = Fail e).
Proof.
  apply kube_PollImmediate_law. intros c1 r1 c2 E. by destruct (isStatefulSetActive_spec _ _ _ _ _ E).
Qed.

(** The objects of a user, over the namespace. *)
Definition user_objects (id : KubeRessourceIdentifier) (m : gmap obj_key object) : gmap obj_key object :=
  let id := set_StorageClass "nfs" id in let ns := ri_Namespace id in
  <[key_of "" (OPersistentVolume (PersistentVolume id)) := OPersistentVolume (PersistentVolume id)]>
  (<[key_of ns (OPersistentVolumeClaim (PersistentVolumeClaim id)) :=
       OPersistentVolumeClaim (PersistentVolumeClaim id)]>
  (<[key_of ns (OStatefulSet (StatefulSet id)) := OStatefulSet (StatefulSet id)]>
  (<[key_of ns (OService (HeadlessService id)) := OService (HeadlessService id)]> m))).

Definition with_namespace (ns : string) (m : gmap obj_key object) : gmap obj_key object :=
  match m !! ("Namespace", "", ns) with
  | Some _ => m
  | None => <[("Namespace", "", ns) := ONamespace (Namespace ns)]> m
  end.

Lemma ensure_namespace ns c c' :
  (exists_ ← NamespaceExists ns; if (exists_ : bool) then mret () else CreateNamespace ns) c =
    (Ret (), c') → kube_objs c' = with_namespace ns (kube_objs c).
Proof.
  intros (b & c1 & E & E')%bind_Ret_inv.
  destruct (NamespaceExists_spec _ _ _ _ E) as [Ho Hb]. unfold with_namespace.
  destruct b.
  - unfold mret, M_ret in E'. simplify_eq. destruct Hb as [_ [o Hk]]; [done|]. by rewrite Hk, Ho.
  - apply create_Ret in E' as (Hn & -> & _). rewrite Ho in Hn |- *.
    change (key_of _ _) with ("Namespace", "", ns) in *. by rewrite Hn.
Qed.

Lemma created_user_objects id c c' : CreateUserRessources id c = (Ret (), c') →
  kube_objs c' = user_objects id (with_namespace (ri_Namespace id) (kube_objs c)) ∧
  kube_objs c ⊆ kube_objs c'.
Proof.
  unfold CreateUserRessources. intros (b & c1 & E1 & E)%bind_Ret_inv.
  apply bind_Ret_inv in E as ([] & c2 & E2 & E).
  assert (kube_objs c2 = with_namespace (ri_Namespace id) (kube_objs c)) as H2.
  { apply ensure_namespace. by rewrite (bind_Ret _ _ _ _ _ E1). }
  apply bind_Ret_inv in E as ([] & c4 & E4 & E).
  apply bind_Ret_inv in E4 as ([] & c3 & E3 & E4).
  apply create_Ret in E3 as (_ & H3 & S3). apply create_Ret in E4 as (_ & H4 & S4).
  apply bind_Ret_inv in E as ([] & c5 & E5 & E). apply WaitForStatefulSet_objs in E5 as [H5 _].
  apply bind_Ret_inv in E as ([] & c6 & E6 & E). apply create_Ret in E6 as (_ & H6 & S6).
  apply bind_Ret_inv in E as ([] & c7 & E7 & E). apply create_Ret in E7 as (_ & H7 & S7).
  apply WaitForPodRunning_objs in E as [H8 _].
  split; [by rewrite H8, H7, H6, H5, H4, H3, H2|].
  assert (kube_objs c ⊆ kube_objs c2) as Hs.
  { rewrite H2. unfold with_namespace. destruct (kube_objs c !! _) eqn:Hn; [done|].
    by apply insert_subseteq. }
  rewrite H8. etrans; [exact Hs|]. etrans; [exact S3|]. etrans; [exact S4|].
  rewrite <-H5. by etrans.
Qed.

End lemmas.

(** ** A cluster to evaluate on *)

(** Objects in a map, and pods whose state is given; a poll checks its condition once. *)
Record cluster : Type := MkCluster {
  cl_objs : gmap obj_key object;
  cl_pods : gmap (string * string) PodObj
}.

Definition not_found : error := ErrStatus "NotFound" "not found".

Definition cluster_get {A} (unwrap : object → option A) (k : obj_key) : M cluster A := λ c,
  (match cl_objs c !! k with
   | Some o => match unwrap o with Some a => Ret a | None => Fail (ErrExt "wrong kind") end
   | None => Fail not_found
   end, c).
Definition cluster_put (must_exist : bool) (k : obj_key) (o : object) : M cluster () := λ c,
  if decide (is_Some (cl_objs c !! k) ↔ must_exist = true)
  then (Ret (), MkCluster (<[k := o]> (cl_objs c)) (cl_pods c))
  else (Fail (ErrStatus "Conflict" "conflict"), c).
Definition cluster_poll (cond : M cluster bool) : M cluster () := λ c,
  match cond c with
  | (Ret true, c') => (Ret (), c')
  | (Fail e, c') => (Fail e, c')
  | (_, c') => (Fail (ErrVar "timed out waiting for the condition"), c')
  end.

#[export] Instance cluster_client : KubeClient cluster := {
  kube_Create ns o := cluster_put false (key_of ns o) o;
  kube_GetStatefulSet ns n := cluster_get (λ o, match o with OStatefulSet x => Some x | _ => None end) ("StatefulSet", ns, n);
  kube_GetNamespace n := cluster_get (λ o, match o with ONamespace x => Some x | _ => None end) ("Namespace", "", n);
  kube_GetService ns n := cluster_get (λ o, match o with OService x => Some x | _ => None end) ("Service", ns, n);
  kube_GetConfigMap ns n := cluster_get (λ o, match o with
    | OConfigMap x => if decide (Name (cm_Meta x) = n) then Some x else None
    | _ => None end) ("ConfigMap", ns, n);
  kube_GetClusterRoleBinding n := cluster_get (λ o, match o with OClusterRoleBinding x => Some x | _ => None end) ("ClusterRoleBinding", "", n);
  kube_GetPod ns n c := (match cl_pods c !! (ns, n) with Some p => Ret p | None => Fail not_found end, c);
  kube_ListPods ns c := (Ret [], c);
  kube_Update ns o := cluster_put true (key_of ns o) o;
  kube_PollImmediate _ := cluster_poll;
  kube_Poll _ := cluster_poll
}.

Lemma cluster_get_law {A} (unwrap : object → option A) wrap k c r c' :
  (∀ o a, unwrap o = Some a → o = wrap a) → cluster_get unwrap k c = (r, c') →
  cl_objs c' = cl_objs c ∧ got wrap (cl_objs c !! k) r.
Proof.
  intros Hw. unfold cluster_get. destruct (cl_objs c !! k) as [o|] eqn:E.
  - destruct (unwrap o) as [a|] eqn:Ea; intros ?; simplify_eq; (split; [done|]); simpl.
    + by rewrite (Hw _ _ Ea).
    + done.
  - intros ?; simplify_eq. by split.
Qed.

Lemma cluster_poll_law cond c r c' :
  (∀ c r c', cond c = (r, c') → cl_objs c' = cl_objs c) → cluster_poll cond c = (r, c') →
  cl_objs c' = cl_objs c ∧ (r = Ret () ∨ ∃ e, r = Fail e).
Proof.
  intros Hc. unfold cluster_poll. destruct (cond c) as [[[]|e| |] c1] eqn:E;
    intros ?; simplify_eq; split; eauto.
Qed.

#[export] Program Instance cluster_laws : KubeLaws cluster := { kube_objs := cl_objs }.
Next Obligation.
  intros ns o c r c' E. simpl in E. unfold cluster_put in E.
  destruct (decide _) as [Hd|Hd]; simplify_eq; [left|right; eauto].
  split_and!; [|done|by left]. apply eq_None_not_Some. intros Hs. by apply Hd in Hs.
Qed.
Next Obligation.
  intros ns o c r c' E. simpl in E. unfold cluster_put in E.
  destruct (decide _) as [Hd|Hd]; simplify_eq; [left|right; eauto].
  split_and!; [by apply Hd|done|by left].
Qed.
Next Obligation. intros ns n c r c'. apply cluster_get_law. intros [] a; naive_solver. Qed.
Next Obligation. intros n c r c'. apply cluster_get_law. intros [] a; naive_solver. Qed.
Next Obligation. intros ns n c r c'. apply cluster_get_law. intros [] a; naive_solver. Qed.
Next Obligation.
  intros ns n c r c'. apply cluster_get_law. intros [] a ?; repeat case_decide; naive_solver.
Qed.
Next Obligation.
  intros ns n c cm c' E. simpl in E. unfold cluster_get in E.
  destruct (cl_objs c !! _) as [[]|]; try done. case_decide; naive_solver.
Qed.
Next Obligation. intros n c r c'. apply cluster_get_law. intros [] a; naive_solver. Qed.
Next Obligation.
  intros ns n c r c' E. simpl in E. destruct (cl_pods c !! _); simplify_eq; eauto.
Qed.
Next Obligation. intros t. apply cluster_poll_law. Qed.
Next Obligation. intros t. apply cluster_poll_law. Qed.

(** ** Theorems *)

Section theorems.
Context {C : Type} `{KubeLaws C}.
Implicit Types c : C.

(** C31: when [CreateUserRessources] succeeds it has created exactly the user's headless
    service, stateful set, claim and volume, and the namespace when it was missing; no
    existing object was touched. *)
Theorem CreateUserRessources_creates id c c' : CreateUserRessources id c = (Ret (), c') →
  kube_objs c' = user_objects id (with_namespace (ri_Namespace id) (kube_objs c)) ∧
  kube_objs c ⊆ kube_objs c'.
Proof. apply created_user_objects. Qed.

(** Adding a key to a config map changes that entry and no other, of this map and of
    the cluster. *)
Theorem AddDataToConfigMap_adds ns n k v c c' : AddDataToConfigMap ns n k v c = (Ret (), c') →
  ∃ cm, kube_objs c !! ("ConfigMap", ns, n) = Some (OConfigMap cm) ∧
    kube_objs c' = <[("ConfigMap", ns, n) := OConfigMap (set_Data (<[k := v]> (cm_Data cm)) cm)]>
      (kube_objs c).
Proof. apply AddData_Ret. Qed.

End theorems.


(** ** Concrete runs *)

Definition alice_id : KubeRessourceIdentifier := MkIdentifier "alice-1" UserNamespace "" "node" "".

(** An empty cluster in which alice's pod starts as soon as it is asked for. *)
Definition empty_cluster : cluster :=
  MkCluster ∅ {[(UserNamespace, "alice-1-statefulset-0") := MkPod PodRunning "10.0.0.7"]}.

Lemma CreateUserRessources_creates_witness :
  ∃ c', CreateUserRessources alice_id empty_cluster = (Ret (), c') ∧
    kube_objs c' = user_objects alice_id (with_namespace UserNamespace ∅).
Proof.
  assert (∃ c', CreateUserRessources alice_id empty_cluster = (Ret (), c')) as [c' E]
    by (eexists; vm_compute; reflexivity).
  exists c'. split; [exact E|].
  exact (proj1 (CreateUserRessources_creates alice_id empty_cluster c' E)).
Defined.

Definition one_map : cluster :=
  MkCluster {[("ConfigMap", "ssh", "etcd-credentials") := OConfigMap (ConfigMap "ssh" "etcd-credentials")]} ∅.

Lemma AddDataToConfigMap_adds_witness :
  ∃ c' cm, AddDataToConfigMap "ssh" "etcd-credentials" "key" "k" one_map = (Ret (), c') ∧
    kube_objs one_map !! ("ConfigMap", "ssh", "etcd-credentials") = Some (OConfigMap cm).
Proof.
  assert (∃ c', AddDataToConfigMap "ssh" "etcd-credentials" "key" "k" one_map = (Ret (), c')) as [c' E]
    by (eexists; vm_compute; reflexivity).
  destruct (AddDataToConfigMap_adds _ _ _ _ _ _ E) as (cm & Hcm & _).
  exists c', cm. split; [exact E|exact Hcm].
Defined.
