(* ===== verification/PortForward.v ===== *)
(** internal/k8sapi/portForward.go and exec.go: the streams of a pod through the API
    server's SPDY connection.

    [CreatePodPortForward] is the step relation [pf_step]: a step is one statement of the
    function or one communication of the goroutines it starts (the reader of the error
    stream and the two copies), in any interleaving; [client_step] lets several forwards
    of one [Client] run at once, which share its [requestID]. What the pod and the ssh
    client send arrives at any time, as much of it as they like ([pf_run]); a read that has
    nothing to yield waits. *)
From S2P Require Import Prelude Config.

(** ** The connection *)

Inductive stream_type : Type := StreamTypeError | StreamTypeData.

#[export] Instance stream_type_eq_dec : EqDecision stream_type.
Proof. solve_decision. Defined.

Record stream_headers : Type := MkHeaders {
  StreamType : stream_type;
  PortHeader : string;
  PortForwardRequestIDHeader : string
}.

(** What is done with the connection and its streams. *)
Inductive pf_event : Type :=
  | Dialed
  | Created (h : stream_headers)
  | StreamClosed (t : stream_type)
  | Removed (t : stream_type)
  | ConnClosed.

(** ** The state of a call *)

(** The function: at a call, in its last [select], or returned. *)
Inductive main_at : Type :=
  | AtDial
  | AtRequestID
  | AtErrorStream
  | AtDataStream
  | AtSelect
  | Returned (err : option error).

(** The reader of the error stream: not started, in [ReadAll], in its send on [errorChan],
    or ended, and then the channel is closed. *)
Inductive reader_at : Type := NotReading | Reading | Reporting (e : error) | ReaderEnd.

(** A copy: not started, in [io.Copy], in its send on [streamRoutineDone], or ended. *)
Inductive copy_at : Type := NotCopying | Copying | Reported | CopyEnd.

(** [defers] are the deferred calls, the last one first. *)
Record pf_state : Type := MkForward {
  main : main_at;
  defers : list pf_event;
  events : list pf_event;
  call_id : option Z;
  reader : reader_at;
  down : copy_at;
  up : copy_at;
  from_remote : list (error + string);
  to_client : list string;
  from_client : list (error + string);
  to_remote : list string;
  error_out : option (error + string);      (* what ReadAll of the error stream yields *)
  pf_done : bool
}.

Definition at_main (m : main_at) (d e : list pf_event) (s : pf_state) : pf_state :=
  MkForward m d e (call_id s) (reader s) (down s) (up s) (from_remote s) (to_client s)
    (from_client s) (to_remote s) (error_out s) (pf_done s).
Definition set_call_id (n : Z) (s : pf_state) : pf_state :=
  MkForward (main s) (defers s) (events s) (Some n) (reader s) (down s) (up s) (from_remote s)
    (to_client s) (from_client s) (to_remote s) (error_out s) (pf_done s).
Definition set_reader (r : reader_at) (s : pf_state) : pf_state :=
  MkForward (main s) (defers s) (events s) (call_id s) r (down s) (up s) (from_remote s)
    (to_client s) (from_client s) (to_remote s) (error_out s) (pf_done s).
Definition set_down (c : copy_at) (l : list (error + string)) (w : list string) (s : pf_state) : pf_state :=
  MkForward (main s) (defers s) (events s) (call_id s) (reader s) c (up s) l w
    (from_client s) (to_remote s) (error_out s) (pf_done s).
Definition set_up (c : copy_at) (l : list (error + string)) (w : list string) (s : pf_state) : pf_state :=
  MkForward (main s) (defers s) (events s) (call_id s) (reader s) (down s) c (from_remote s)
    (to_client s) l w (error_out s) (pf_done s).
Definition pf_cancel (s : pf_state) : pf_state :=
  MkForward (main s) (defers s) (events s) (call_id s) (reader s) (down s) (up s) (from_remote s)
    (to_client s) (from_client s) (to_remote s) (error_out s) true.

(** [return err]: the deferred calls run; their errors are only logged. *)
Definition pf_return (err : option error) (s : pf_state) : pf_state :=
  at_main (Returned err) [] (events s ++ defers s) s.

(** [dataStream.Close()] before a return. *)
Definition close_data (s : pf_state) : pf_state :=
  at_main (main s) (defers s) (events s ++ [StreamClosed StreamTypeData]) s.

(** ** The steps *)

Section steps.
Variables (podName podPort : string).

Definition headers_for (t : stream_type) (requestID : Z) : stream_headers :=
  MkHeaders t podPort (Itoa requestID).

(** What the reader makes of what [io.ReadAll(errorStream)] returned. *)
Definition error_report (r : error + string) : reader_at :=
  match r with
  | inl err => Reporting (ErrNew ("error reading from error stream for " +:+ podName +:+ ":" +:+ podPort))
  | inr message =>
      if decide (message = "") then ReaderEnd
      else Reporting (ErrNew ("error during forward request to kubeapi " +:+ podName +:+ ":" +:+ podPort
                              +:+ " : " +:+ message))
  end.

(** A step of a call, from the client's [requestID] to that after it. *)
Inductive pf_step (n : Z) (s : pf_state) : Z → pf_state → Prop :=
  (* RoundTripperFor and Dial *)
  | step_dial_error e :
      main s = AtDial → pf_step n s n (pf_return (Some e) s)
  | step_dial :
      main s = AtDial →
      pf_step n s n (at_main AtRequestID (ConnClosed :: defers s) (events s ++ [Dialed]) s)
  (* requestID, under the mutex *)
  | step_request_id :
      main s = AtRequestID →
      pf_step n s (n + 1) (set_call_id n (at_main AtErrorStream (defers s) (events s) s))
  (* the error stream, which is not written to, and its reader *)
  | step_error_stream_error e :
      main s = AtErrorStream → pf_step n s n (pf_return (Some e) s)
  | step_error_stream i :
      main s = AtErrorStream → call_id s = Some i →
      pf_step n s n (set_reader Reading (at_main AtDataStream (Removed StreamTypeError :: defers s)
        (events s ++ [Created (headers_for StreamTypeError i); StreamClosed StreamTypeError]) s))
  (* the data stream and the copies *)
  | step_data_stream_error e :
      main s = AtDataStream → pf_step n s n (pf_return (Some e) s)
  | step_data_stream i :
      main s = AtDataStream → call_id s = Some i →
      pf_step n s n (set_down Copying (from_remote s) (to_client s)
        (set_up Copying (from_client s) (to_remote s)
          (at_main AtSelect (Removed StreamTypeData :: defers s)
            (events s ++ [Created (headers_for StreamTypeData i)]) s)))
  (* select *)
  | step_select_done :
      main s = AtSelect → pf_done s = true →
      pf_step n s n (pf_return (Some ctx_Canceled) (close_data s))
  | step_select_error e :
      main s = AtSelect → reader s = Reporting e →
      pf_step n s n (pf_return (Some e) (close_data (set_reader ReaderEnd s)))
  | step_select_closed :
      main s = AtSelect → reader s = ReaderEnd →
      pf_step n s n (pf_return None (close_data s))
  | step_select_down :
      main s = AtSelect → down s = Reported →
      pf_step n s n (pf_return None (set_down CopyEnd (from_remote s) (to_client s) s))
  | step_select_up :
      main s = AtSelect → up s = Reported →
      pf_step n s n (pf_return None (set_up CopyEnd (from_client s) (to_remote s) s))
  (* the reader of the error stream *)
  | step_read out :
      reader s = Reading → error_out s = Some out →
      pf_step n s n (set_reader (error_report out) s)
  | step_read_closed e r :
      reader s = Reading → main s = Returned r →
      pf_step n s n (set_reader (error_report (inl e)) s)
  (* the copy from the remote side: a chunk, the end of the stream or an error of the
     read, an error of the write; reads fail once the connection is closed *)
  | step_down b l :
      down s = Copying → from_remote s = inr b :: l →
      pf_step n s n (set_down Copying l (to_client s ++ [b]) s)
  | step_down_read_end e l :
      down s = Copying → from_remote s = inl e :: l →
      pf_step n s n (set_down Reported l (to_client s) s)
  | step_down_write_error b l :
      down s = Copying → from_remote s = inr b :: l →
      pf_step n s n (set_down Reported l (to_client s) s)
  | step_down_closed r :
      down s = Copying → main s = Returned r →
      pf_step n s n (set_down Reported (from_remote s) (to_client s) s)
  (* the copy to the remote side *)
  | step_up b l :
      up s = Copying → from_client s = inr b :: l →
      pf_step n s n (set_up Copying l (to_remote s ++ [b]) s)
  | step_up_read_end e l :
      up s = Copying → from_client s = inl e :: l →
      pf_step n s n (set_up Reported l (to_remote s) s)
  | step_up_write_error b l :
      up s = Copying → from_client s = inr b :: l →
      pf_step n s n (set_up Reported l (to_remote s) s)
  (* the caller's context *)
  | step_pf_cancel :
      pf_done s = false → pf_step n s n (pf_cancel s).

(** Nothing has arrived yet. *)
Definition pf_start : pf_state :=
  MkForward AtDial [] [] None NotReading NotCopying NotCopying [] [] [] [] None false.

(** One call by itself. *)
Definition forward_step (x y : Z * pf_state) : Prop := pf_step x.1 x.2 y.1 y.2.

(** What arrives: a chunk of either side's data, or their end, and the end of the error
    stream, with what [ReadAll] then yields. *)
Inductive arrival : Type :=
  | FromPod (x : error + string)
  | FromClient (x : error + string)
  | ErrorStreamEnd (out : error + string).

Definition arrive (a : arrival) (s : pf_state) : pf_state :=
  match a with
  | FromPod x => set_down (down s) (from_remote s ++ [x]) (to_client s) s
  | FromClient x => set_up (up s) (from_client s ++ [x]) (to_remote s) s
  | ErrorStreamEnd out =>
      MkForward (main s) (defers s) (events s) (call_id s) (reader s) (down s) (up s) (from_remote s)
        (to_client s) (from_client s) (to_remote s)
        (match error_out s with None => Some out | o => o end) (pf_done s)
  end.

(** A run of [k] steps of the call, in the course of which [l] arrives. *)
Inductive pf_run : nat → list arrival → Z * pf_state → Z * pf_state → Prop :=
  | run_start x : pf_run 0 [] x x
  | run_step k l x y z : pf_run k l x y → forward_step y z → pf_run (S k) l x z
  | run_arrives k l x n s a : pf_run k l x (n, s) → pf_run k (l ++ [a]) x (n, arrive a s).
End steps.

Definition of_pod (a : arrival) : option (error + string) := match a with FromPod x => Some x | _ => None end.
Definition of_client (a : arrival) : option (error + string) := match a with FromClient x => Some x | _ => None end.

(** A client's [requestID] and the calls of its method, each with its pod and port. *)
Record pf_client : Type := MkClient {
  next_id : Z;
  calls : list (string * string * pf_state)
}.

Inductive client_step (c : pf_client) : pf_client → Prop :=
  | step_call podName podPort :
      client_step c (MkClient (next_id c) (calls c ++ [(podName, podPort, pf_start)]))
  | step_arrival i podName podPort s a :
      calls c !! i = Some (podName, podPort, s) →
      client_step c (MkClient (next_id c) (<[i := (podName, podPort, arrive a s)]> (calls c)))
  | step_in_call i podName podPort s n' s' :
      calls c !! i = Some (podName, podPort, s) →
      pf_step podName podPort (next_id c) s n' s' →
      client_step c (MkClient n' (<[i := (podName, podPort, s')]> (calls c))).

(** [NewClient] starts the ids at one. *)
Definition client_start : pf_client := MkClient 1 [].

(** ** exec.go *)

Record PodExecOptions : Type := MkPodExecOptions {
  Command : list string;
  Stdin : bool;
  Stdout : bool;
  Stderr : bool;
  TTY : bool
}.

(** [CreateExecInPod]: [NewSPDYExecutor] gets the pod and the options that the request's
    parameters encode; [StreamWithContext] gets the tty flag again. *)
Definition CreateExecInPod {S E} (NewSPDYExecutor : string → string → PodExecOptions → error + E)
    (StreamWithContext : E → bool → M S ()) (namespace podName command : string) (tty : bool) : M S () :=
  match NewSPDYExecutor namespace podName (MkPodExecOptions [command] true true true tty) with
  | inl err => fail err
  | inr exec => StreamWithContext exec tty
  end.

(** ** Lemmas *)

(** *** What is held *)

Inductive resource : Type := RConn | RStream (t : stream_type).

#[export] Instance resource_eq_dec : EqDecision resource.
Proof. solve_decision. Defined.

(** The resources an event leaves held, the newest first: a release must be that of the
    newest one, and only a held stream may be closed. *)
Definition hold (held : option (list resource)) (ev : pf_event) : option (list resource) :=
  st ← held;
  match ev with
  | Dialed => Some (RConn :: st)
  | Created h => Some (RStream (StreamType h) :: st)
  | StreamClosed t => if decide (RStream t ∈ st) then Some st else None
  | Removed t =>
      match st with
      | r :: st' => if decide (r = RStream t) then Some st' else None
      | [] => None
      end
  | ConnClosed => match st with RConn :: st' => Some st' | _ => None end
  end.
Definition held (l : list pf_event) : option (list resource) := foldl hold (Some []) l.

(** *** The invariant of a call *)

Section invariant.
Variables (podName podPort : string).
Abbreviation step := (forward_step podName podPort).
Abbreviation headers := (headers_for podPort).

(** What was done, and what is deferred, when the function is at [m] with the id [i]. *)
Definition events_at (m : main_at) (i : Z) : list pf_event :=
  match m with
  | AtDial | Returned _ => []
  | AtRequestID | AtErrorStream => [Dialed]
  | AtDataStream =>
      [Dialed; Created (headers StreamTypeError i); StreamClosed StreamTypeError]
  | AtSelect =>
      [Dialed; Created (headers StreamTypeError i); StreamClosed StreamTypeError;
       Created (headers StreamTypeData i)]
  end.
Definition defers_at (m : main_at) : list pf_event :=
  match m with
  | AtDial | Returned _ => []
  | AtRequestID | AtErrorStream => [ConnClosed]
  | AtDataStream => [Removed StreamTypeError; ConnClosed]
  | AtSelect => [Removed StreamTypeData; Removed StreamTypeError; ConnClosed]
  end.
Definition id_at (m : main_at) (i : Z) : option Z :=
  match m with AtDial | AtRequestID => None | _ => Some i end.

Definition trace_inv (s : pf_state) : Prop :=
  match main s with
  | Returned _ =>
      defers s = [] ∧ ∃ m i, call_id s = id_at m i ∧
        (events s = events_at m i ++ defers_at m ∨
         m = AtSelect ∧ events s = events_at m i ++ StreamClosed StreamTypeData :: defers_at m)
  | m => ∃ i, call_id s = id_at m i ∧ events s = events_at m i ∧ defers s = defers_at m
  end.

Definition running (c : copy_at) : Prop := c = Copying ∨ c = Reported.

Definition goroutine_inv (s : pf_state) : Prop :=
  match main s with
  | AtSelect => running (down s) ∧ running (up s) ∧ reader s ≠ NotReading
  | Returned None => down s ≠ CopyEnd ∨ up s ≠ CopyEnd
  | Returned (Some _) => down s ≠ CopyEnd ∧ up s ≠ CopyEnd
  | AtDataStream => down s = NotCopying ∧ up s = NotCopying ∧ reader s ≠ NotReading
  | _ => down s = NotCopying ∧ up s = NotCopying ∧ reader s = NotReading
  end.

Lemma trace_step x y : trace_inv x.2 → step x y → trace_inv y.2.
Proof.
  destruct x as [n s], y as [n' s']. unfold trace_inv, forward_step. simpl. intros Hi Hs.
  destruct Hs; simpl; try exact Hi;
    match goal with E : main s = _ |- _ => rewrite E in Hi end;
    destruct Hi as (j & Hc & He & Hd); rewrite ?He, ?Hd; simplify_eq/=.
  - split; [done|]. exists AtDial, j. rewrite Hc. split; [done|]. by left.
  - by exists j.
  - by exists n.
  - split; [done|]. exists AtErrorStream, j. split; [done|]. by left.
  - exists j. split_and!; [done| |done]. congruence.
  - split; [done|]. exists AtDataStream, j. split; [done|]. by left.
  - exists j. split_and!; [done| |done]. congruence.
  - split; [done|]. exists AtSelect, j. split; [done|]. by right.
  - split; [done|]. exists AtSelect, j. split; [done|]. by right.
  - split; [done|]. exists AtSelect, j. split; [done|]. by right.
  - split; [done|]. exists AtSelect, j. split; [done|]. by left.
  - split; [done|]. exists AtSelect, j. split; [done|]. by left.
Qed.

Lemma error_report_reads out : error_report podName podPort out ≠ NotReading.
Proof. destruct out; simpl; [done|]. by case_decide. Qed.

Lemma goroutine_step x y : goroutine_inv x.2 → step x y → goroutine_inv y.2.
Proof.
  destruct x as [n s], y as [n' s']. unfold goroutine_inv, running, forward_step. simpl.
  intros Hi Hs. destruct Hs; simpl; try exact Hi;
    try match goal with |- context [error_report _ _ ?o] => pose proof (error_report_reads o) end;
    destruct (main s) as [| | | | |[]]; simplify_eq/=; intuition congruence.
Qed.

(** Every step brings the call nearer to its end. *)
Definition main_left (m : main_at) : nat :=
  match m with
  | AtDial => 11 | AtRequestID => 10 | AtErrorStream => 9 | AtDataStream => 6 | AtSelect => 1
  | Returned _ => 0
  end.
Definition reader_left (r : reader_at) : nat :=
  match r with Reading => 2 | Reporting _ => 1 | NotReading | ReaderEnd => 0 end.
Definition copy_left (c : copy_at) : nat :=
  match c with Copying => 2 | Reported => 1 | NotCopying | CopyEnd => 0 end.
Definition work_left (s : pf_state) : nat :=
  main_left (main s) + reader_left (reader s) + copy_left (down s) + copy_left (up s) +
  length (from_remote s) + length (from_client s) + (if pf_done s then 0 else 1).

Lemma error_report_left out : (reader_left (error_report podName podPort out) < 2)%nat.
Proof. destruct out; simpl; [lia|]. case_decide; simpl; lia. Qed.

Lemma step_works x y : step x y → (work_left y.2 < work_left x.2)%nat.
Proof.
  destruct x as [n s], y as [n' s']. unfold forward_step, work_left. simpl. intros Hs.
  destruct Hs; simpl;
    repeat match goal with
    | E : main s = _ |- _ => rewrite E; clear E
    | E : reader s = _ |- _ => rewrite E; clear E
    | E : down s = _ |- _ => rewrite E; clear E
    | E : up s = _ |- _ => rewrite E; clear E
    | E : from_remote s = _ |- _ => rewrite E; clear E
    | E : from_client s = _ |- _ => rewrite E; clear E
    | E : pf_done s = _ |- _ => rewrite E; clear E
    | |- context [reader_left (error_report _ _ ?o)] =>
        pose proof (error_report_left o); generalize dependent (reader_left (error_report podName podPort o)); intros
    end; simpl; try lia.
Qed.
(** The data of one direction: what was passed on is a prefix of what was there, and
    nothing is lost before the copy ends. *)
Definition relayed (all : list (error + string)) (c : copy_at) (w : list string)
    (rest : list (error + string)) : Prop :=
  ∃ lost, all = (inr <$> w) ++ lost ++ rest ∧ (c = Copying ∨ c = NotCopying → lost = []).

Lemma relayed_ended all c c' w rest : relayed all c w rest → c' = Reported ∨ c' = CopyEnd →
  relayed all c' w rest.
Proof. intros (lost & E & _) Hc. exists lost. split; [done|]. intuition congruence. Qed.

Lemma relayed_drop all c c' w x rest : relayed all c w (x :: rest) → c' = Reported ∨ c' = CopyEnd →
  relayed all c' w rest.
Proof.
  intros (lost & E & _) Hc. exists (lost ++ [x]). rewrite <-app_assoc. split; [done|].
  intuition congruence.
Qed.

Lemma relayed_next all w b rest : relayed all Copying w (inr b :: rest) →
  relayed all Copying (w ++ [b]) rest.
Proof.
  intros (lost & -> & Hl). rewrite Hl by auto. exists []. split; [|done].
  by rewrite fmap_app, <-app_assoc.
Qed.

Lemma relayed_starts all w rest : relayed all NotCopying w rest → relayed all Copying w rest.
Proof. intros (lost & E & Hl). exists lost. split; [done|]. auto. Qed.

Lemma relayed_prefix all c w rest : relayed all c w rest → (inr <$> w) `prefix_of` all.
Proof. intros (lost & -> & _). by eexists. Qed.

(** An end that was there is still there, or the copy has met it. *)
Lemma relayed_end all c w rest e : relayed all c w rest → c = Copying → inl e ∈ all → rest ≠ [].
Proof.
  intros (lost & -> & Hl) Hc. rewrite Hl by auto. simpl. intros Hin ->.
  rewrite app_nil_r, list_elem_of_fmap in Hin. by destruct Hin as (? & ? & _).
Qed.

Definition both_relayed (remote client : list (error + string)) (s : pf_state) : Prop :=
  relayed remote (down s) (to_client s) (from_remote s) ∧
  relayed client (up s) (to_remote s) (from_client s).

Lemma relayed_arrival all c w rest x : relayed all c w rest → relayed (all ++ [x]) c w (rest ++ [x]).
Proof. intros (lost & -> & Hl). exists lost. by rewrite <-!app_assoc. Qed.

Lemma both_relayed_step remote client x y :
  both_relayed remote client x.2 ∧ goroutine_inv x.2 → step x y →
  both_relayed remote client y.2 ∧ goroutine_inv y.2.
Proof.
  intros [[Hd Hu] Hg] Hs. split; [|by eapply goroutine_step].
  destruct x as [n s], y as [n' s']. unfold both_relayed, goroutine_inv, forward_step in *. simpl in *.
  destruct Hs; simpl in *; try (by split);
    try match goal with E : down s = _ |- _ => rewrite E in Hd end;
    try match goal with E : up s = _ |- _ => rewrite E in Hu end;
    try match goal with E : from_remote s = _ |- _ => rewrite E in Hd end;
    try match goal with E : from_client s = _ |- _ => rewrite E in Hu end.
  - match goal with E : main s = _ |- _ => rewrite E in Hg end. destruct Hg as (Ed & Eu & _).
    rewrite Ed in Hd. rewrite Eu in Hu. split; by apply relayed_starts.
  - split; [eapply relayed_ended; eauto|done].
  - split; [done|eapply relayed_ended; eauto].
  - split; [by apply relayed_next|done].
  - split; [eapply relayed_drop; eauto|done].
  - split; [eapply relayed_drop; eauto|done].
  - split; [eapply relayed_ended; eauto|done].
  - split; [done|by apply relayed_next].
  - split; [done|eapply relayed_drop; eauto].
  - split; [done|eapply relayed_drop; eauto].
Qed.

Definition arrived_inv (l : list arrival) (s : pf_state) : Prop :=
  both_relayed (omap of_pod l) (omap of_client l) s ∧
  ∀ out, ErrorStreamEnd out ∈ l → is_Some (error_out s).

Lemma arrived_arrival l a s : arrived_inv l s → arrived_inv (l ++ [a]) (arrive a s).
Proof.
  intros [[Hd Hu] He]. unfold arrived_inv, both_relayed. rewrite !omap_app.
  split; [split; destruct a; simpl; rewrite ?app_nil_r; try done; by apply relayed_arrival|].
  intros out [Hin|Hin%list_elem_of_singleton]%elem_of_app; [|subst a; simpl; by destruct (error_out s)].
  apply He in Hin. destruct a; simpl; try done. by destruct (error_out s).
Qed.

Lemma error_out_step x y : step x y → error_out y.2 = error_out x.2.
Proof. destruct x, y. unfold forward_step. simpl. by intros []. Qed.

Lemma run_inv k l n n' s : pf_run podName podPort k l (n, pf_start) (n', s) →
  (trace_inv s ∧ arrived_inv l s ∧ goroutine_inv s) ∧ (k + work_left s ≤ 12 + length l)%nat.
Proof.
  intros Hr. assert (∃ x y, x = (n, pf_start) ∧ y = (n', s)) as (x & y & Ex & Ey) by eauto.
  rewrite <-Ex, <-Ey in Hr. change s with (n', s).2. rewrite <-Ey. clear Ey.
  induction Hr as [x|k l x y z Hr IH Hs|k l x m t a Hr IH].
  - subst x. simpl. split; [|by unfold work_left; simpl; lia]. split_and!; try done; [by exists 0%Z|].
    split; [by split; exists []|by intros ? ?%elem_of_nil].
  - destruct (IH Ex) as [(Ht & [Hb He] & Hg) Hk]. destruct (both_relayed_step _ _ _ _ (conj Hb Hg) Hs) as [Hb' Hg'].
    pose proof (step_works _ _ Hs). split; [|lia].
    split; [by eapply trace_step|]. split; [|done]. split; [done|by rewrite (error_out_step _ _ Hs)].
  - destruct (IH Ex) as [(Ht & Ha & Hg) Hk]. split; [split; [by destruct a|]; split; [by apply arrived_arrival|by destruct a]|].
    rewrite length_app. unfold work_left in *. destruct a; simpl in *; rewrite ?length_app; simpl; lia.
Qed.
End invariant.

(** *** Several calls *)

Lemma step_id podName podPort n s n' s' : pf_step podName podPort n s n' s' →
  (n' = n ∧ call_id s' = call_id s) ∨ (n' = n + 1 ∧ call_id s' = Some n)%Z.
Proof. destruct 1; simpl; auto. Qed.

Lemma created_by podPort s h : trace_inv podPort s → Created h ∈ events s →
  ∃ i, call_id s = Some i ∧ PortHeader h = podPort ∧ PortForwardRequestIDHeader h = Itoa i.
Proof.
  unfold trace_inv. intros Hi Hh. destruct (main s); simpl in Hi.
  6: destruct Hi as (_ & [] & i & Hc & [E|[? E]]); simpl in *; try done.
  1-5: destruct Hi as (i & Hc & E & _); simpl in *.
  all: rewrite E in Hh; simpl in Hh; repeat (apply elem_of_cons in Hh as [Hh|Hh]; simplify_eq/=);
    try (by apply elem_of_nil in Hh); by exists i.
Qed.

Definition client_inv (c : pf_client) : Prop :=
  (∀ k p q s, calls c !! k = Some (p, q, s) →
     trace_inv q s ∧ ∀ i, call_id s = Some i → (i < next_id c)%Z) ∧
  (∀ k k' p q s p' q' s' i, calls c !! k = Some (p, q, s) → calls c !! k' = Some (p', q', s') →
     call_id s = Some i → call_id s' = Some i → k = k').

Lemma client_call_inv c podName podPort : client_inv c →
  client_inv (MkClient (next_id c) (calls c ++ [(podName, podPort, pf_start)])).
Proof.
  intros [Hi Hd]. split; simpl.
  - intros k p q s [Hk|[_ [_ [= <- <- <-]]%list_lookup_singleton_Some]]%lookup_app_Some; [eauto|].
    split; [by exists 0%Z|]. done.
  - intros k k' p q s p' q' s' i
      [Hk|[_ [_ [= <- <- <-]]%list_lookup_singleton_Some]]%lookup_app_Some;
      [|done].
    intros [Hk'|[_ [_ [= <- <- <-]]%list_lookup_singleton_Some]]%lookup_app_Some; [eauto|done].
Qed.

Lemma client_update_inv c j podName podPort s n' s' : client_inv c →
  calls c !! j = Some (podName, podPort, s) → trace_inv podPort s' →
  (n' = next_id c ∧ call_id s' = call_id s) ∨ (n' = next_id c + 1 ∧ call_id s' = Some (next_id c))%Z →
  client_inv (MkClient n' (<[j := (podName, podPort, s')]> (calls c))).
Proof.
  intros [Hi Hd] Hj Ht' Hs. destruct (Hi _ _ _ _ Hj) as [Ht Hb].
  assert (∀ k p q s0, <[j := (podName, podPort, s')]> (calls c) !! k = Some (p, q, s0) →
    (k = j ∧ (p, q, s0) = (podName, podPort, s')) ∨ (k ≠ j ∧ calls c !! k = Some (p, q, s0))) as Hl.
  { intros k p q s0 [(-> & [= <- <- <-] & _)|[Hne Hk]]%list_lookup_insert_Some; auto. }
  destruct Hs as [[-> Eid]|[-> Eid]]; split; simpl.
  - intros k p q s0 [[-> [= -> -> ->]]|[_ Hk]]%Hl; [|eauto]. rewrite Eid. eauto.
  - intros k k' p q s0 p' q' s0' i [[-> [= -> -> ->]]|[Hk1 Hk]]%Hl
      [[-> [= -> -> ->]]|[Hk2 Hk']]%Hl; rewrite ?Eid; eauto.
  - intros k p q s0 [[-> [= -> -> ->]]|[_ Hk]]%Hl.
    + rewrite Eid. split; [done|]. intros i [= <-]. lia.
    + destruct (Hi _ _ _ _ Hk) as [? Hb']. split; [done|]. intros i ?%Hb'. lia.
  - intros k k' p q s0 p' q' s0' i [[-> [= -> -> ->]]|[Hk1 Hk]]%Hl
      [[-> [= -> -> ->]]|[Hk2 Hk']]%Hl; rewrite ?Eid; [done|..|eauto].
    + intros [= <-] Hid. apply (Hi _ _ _ _ Hk') in Hid. lia.
    + intros Hid [= <-]. apply (Hi _ _ _ _ Hk) in Hid. lia.
Qed.

Lemma client_step_inv c c' : client_inv c → client_step c c' → client_inv c'.
Proof.
  intros Hc [podName podPort|j podName podPort s a Hj|j podName podPort s n' s' Hj Hs].
  - by apply client_call_inv.
  - eapply client_update_inv; [done..| |left; by destruct a].
    destruct (proj1 Hc _ _ _ _ Hj) as [Ht _]. by destruct a.
  - eapply client_update_inv; [done..| |by eapply step_id].
    destruct (proj1 Hc _ _ _ _ Hj) as [Ht _]. exact (trace_step podName podPort (next_id c, s) (n', s') Ht Hs).
Qed.

(** *** The last select *)

Section select.
Variables (podName podPort : string).
Abbreviation step := (forward_step podName podPort).
Abbreviation run := (pf_run podName podPort).

Lemma run_step' n s n' s' y : pf_step podName podPort n s n' s' → rtc step (n', s') y → rtc step (n, s) y.
Proof. intros Hs Hr. by eapply rtc_l; [|exact Hr]. Qed.

Lemma run_rtc k l x y z : run k l x y → rtc step y z → ∃ k', run k' l x z.
Proof.
  intros Hr Hs. revert k Hr. induction Hs as [y|y y' z Hs _ IH]; [eauto|]. intros k Hr.
  by eapply IH, run_step.
Qed.

Lemma run_cons k l n s n' s' y : pf_step podName podPort n s n' s' → run k l (n', s') y → run (S k) l (n, s) y.
Proof.
  intros Hs Hr. remember (n', s') as x eqn:Ex. induction Hr as [x|k l x y z Hr IH H|k l x m t a Hr IH].
  - subst x. eapply run_step; [apply run_start|done].
  - eapply run_step; [by apply IH|done].
  - apply run_arrives. by apply IH.
Qed.

Lemma run_app k l k' x y z : run k l x y → run k' [] y z → run (k' + k) l x z.
Proof.
  intros Hr Hr'. remember [] as l' eqn:El. induction Hr' as [y|k' l' y z z' Hr' IH H|k' l' y m t a Hr' _].
  - done.
  - eapply run_step; [by apply IH|done].
  - by apply app_nil in El as [_ ?].
Qed.

(** The other sides have done their part: one has ended its data, the error stream has
    ended, or the context is done. *)
Definition over (l : list arrival) (s : pf_state) : Prop :=
  (∃ e, FromPod (inl e) ∈ l) ∨ (∃ e, FromClient (inl e) ∈ l) ∨ (∃ out, ErrorStreamEnd out ∈ l) ∨
  pf_done s = true.

(** A step that is more than a cancellation. *)
Definition goes_on (n : Z) (s : pf_state) : Prop :=
  ∃ n' s', pf_step podName podPort n s n' s' ∧ pf_done s' = pf_done s.

(** A copy that has something to read, or an end to report, is not stuck. *)
Lemma down_goes_on n s : running (down s) → (down s = Copying → from_remote s ≠ []) →
  main s = AtSelect → goes_on n s.
Proof.
  intros [Hd|Hd] Hr Hm.
  - destruct (from_remote s) as [|[e|b] l] eqn:E; [by destruct (Hr Hd)|..].
    + do 2 eexists. split; [by eapply step_down_read_end|done].
    + do 2 eexists. split; [by eapply step_down|done].
  - do 2 eexists. split; [by eapply step_select_down|done].
Qed.

Lemma up_goes_on n s : running (up s) → (up s = Copying → from_client s ≠ []) →
  main s = AtSelect → goes_on n s.
Proof.
  intros [Hu|Hu] Hr Hm.
  - destruct (from_client s) as [|[e|b] l] eqn:E; [by destruct (Hr Hu)|..].
    + do 2 eexists. split; [by eapply step_up_read_end|done].
    + do 2 eexists. split; [by eapply step_up|done].
  - do 2 eexists. split; [by eapply step_select_up|done].
Qed.

Lemma in_of_pod (l : list arrival) x : FromPod x ∈ l → x ∈ omap of_pod l.
Proof. intros H. apply list_elem_of_omap. by exists (FromPod x). Qed.
Lemma in_of_client (l : list arrival) x : FromClient x ∈ l → x ∈ omap of_client l.
Proof. intros H. apply list_elem_of_omap. by exists (FromClient x). Qed.

Lemma select_goes_on l n s : main s = AtSelect → arrived_inv l s →
  running (down s) ∧ running (up s) ∧ reader s ≠ NotReading → over l s → goes_on n s.
Proof.
  intros Hm [[Hd Hu] He] (Rd & Ru & Rr) [[e Hin]|[[e Hin]|[[o Ho]|Hdone]]].
  - apply down_goes_on; [done| |done]. intros Hc. by eapply relayed_end, in_of_pod.
  - apply up_goes_on; [done| |done]. intros Hc. by eapply relayed_end, in_of_client.
  - destruct (He o Ho) as [out Hout]. destruct (reader s) eqn:Er; [done|..]; do 2 eexists.
    + split; [by eapply step_read|done].
    + split; [by eapply step_select_error|done].
    + split; [by eapply step_select_closed|done].
  - do 2 eexists. split; [by eapply step_select_done|done].
Qed.

Lemma over_goes_on k l n n' s : run k l (n, pf_start) (n', s) → over l s →
  (∃ r, main s = Returned r) ∨ goes_on n' s.
Proof.
  intros [(Ht & Ha & Hg) _]%run_inv Ho. unfold trace_inv, goroutine_inv in *.
  destruct (main s) eqn:Hm; [| | | | |by left; eexists]; right; try (destruct Ht as (i & Hc & _));
    [do 2 eexists; split; [by eapply step_dial|done]
    |do 2 eexists; split; [by eapply step_request_id|done]
    |do 2 eexists; split; [by eapply step_error_stream|done]
    |do 2 eexists; split; [by eapply step_data_stream|done]
    |by eapply select_goes_on].
Qed.

(** Then the call by itself comes to its return. *)
Lemma over_returns k l n n' s : run k l (n, pf_start) (n', s) → over l s →
  ∃ n'' s' r, rtc step (n', s) (n'', s') ∧ main s' = Returned r.
Proof.
  remember (work_left s) as w eqn:Ew. revert k n' s Ew.
  induction (lt_wf w) as [w _ IH]. intros k n' s -> Hr Ho.
  destruct (over_goes_on _ _ _ _ _ Hr Ho) as [[r Hm]|(n1 & s1 & Hs & Hd)].
  { exists n', s, r. by split; [apply rtc_refl|]. }
  destruct (IH (work_left s1) (step_works podName podPort (n', s) (n1, s1) Hs) (S k) n1 s1)
    as (n2 & s2 & r & Hr2 & Hm2); [done|by eapply run_step| |].
  { unfold over in *. by rewrite Hd. }
  exists n2, s2, r. split; [by eapply run_step'|done].
Qed.

(** The state after a request was passed on, the client ended its data, and the function
    returned, before any of the pod's answer was passed on. *)
Definition half_closed (remote : list (error + string)) (request : string) : pf_state :=
  pf_return None (set_up CopyEnd [] [request]
    (MkForward AtSelect (defers_at AtSelect) (events_at podPort AtSelect 1) (Some 1%Z) Reading
       Copying Copying remote [] [inr request; inl io_EOF] [] None false)).

Definition before_select (remote client : list (error + string)) : pf_state :=
  MkForward AtSelect (defers_at AtSelect) (events_at podPort AtSelect 1) (Some 1%Z) Reading
    Copying Copying remote [] client [] None false.

Lemma to_select : run 4 [] (1%Z, pf_start) (2%Z, before_select [] []).
Proof.
  eapply run_cons; [by apply step_dial|].
  eapply run_cons; [by apply step_request_id|].
  eapply run_cons; [by eapply step_error_stream|].
  eapply run_cons; [by eapply step_data_stream|].
  apply run_start.
Qed.

Lemma pod_arrivals k l x n s remote : run k l x (n, s) →
  run k (l ++ (FromPod <$> remote)) x (n, set_down (down s) (from_remote s ++ remote) (to_client s) s).
Proof.
  intros Hr. induction remote as [|r remote IH] using rev_ind.
  - rewrite !app_nil_r. by destruct s.
  - rewrite fmap_app, !app_assoc. exact (run_arrives _ _ _ _ _ _ _ (FromPod r) IH).
Qed.

Lemma half_closed_run remote request :
  run 7 ((FromPod <$> remote) ++ [FromClient (inr request); FromClient (inl io_EOF)])
    (1%Z, pf_start) (2%Z, half_closed remote request).
Proof.
  pose proof (pod_arrivals _ _ _ _ _ remote to_select) as Hr.
  apply (run_arrives _ _ _ _ _ _ _ (FromClient (inr request))) in Hr.
  apply (run_arrives _ _ _ _ _ _ _ (FromClient (inl io_EOF))) in Hr.
  rewrite app_nil_l, <-app_assoc in Hr. apply (run_app _ _ 3 _ _ _ Hr).
  eapply run_cons; [by eapply step_up|].
  eapply run_cons; [by eapply step_up_read_end|].
  eapply run_cons; [by apply step_select_up|].
  apply run_start.
Qed.
End select.

(** ** Theorems *)

Section theorems.
Variables (podName podPort : string).
Abbreviation step := (forward_step podName podPort).
Abbreviation run := (pf_run podName podPort).

(** C18: whatever happens while a port is forwarded, when the function has returned,
    everything it acquired from the API server has been released, once and in the
    reverse order: the data stream, the error stream, the connection; and at any time the
    deferred calls are just those that release what is held. *)
Theorem forward_releases_all k l n n' s :
  run k l (n, pf_start) (n', s) →
  held (events s ++ defers s) = Some [] ∧
  ∀ r, main s = Returned r → held (events s) = Some [].
Proof.
  intros [(Ht & _) _]%run_inv. unfold trace_inv in Ht. destruct (main s) eqn:Hm.
  6: destruct Ht as (-> & [] & i & _ & [->|[? ->]]); done.
  all: destruct Ht as (i & _ & -> & ->); by split.
Qed.

(** C17: a forward goes on only as long as something arrives, and ends when it should. Its
    steps, those of its goroutines included, are at most twelve and one for each chunk or
    end that has arrived. Once the pod or the ssh client has ended its data, the error
    stream has ended or the context is done, whatever still arrives, it can always come to
    its return by steps of its own, and it is stuck, but for a cancellation, only when it
    has returned. *)
Theorem forward_terminates k l n n' s : run k l (n, pf_start) (n', s) →
  (k ≤ 12 + length l)%nat ∧
  ((∃ e, FromPod (inl e) ∈ l) ∨ (∃ e, FromClient (inl e) ∈ l) ∨ (∃ out, ErrorStreamEnd out ∈ l) ∨
     pf_done s = true →
   (∃ n'' s' r, rtc step (n', s) (n'', s') ∧ main s' = Returned r) ∧
   ((∀ y, step (n', s) y → y = (n', pf_cancel s)) → ∃ r, main s = Returned r)).
Proof.
  intros Hr. split; [apply run_inv in Hr as [_ ?]; lia|]. intros Ho. split; [by eapply over_returns|].
  intros Hstuck. destruct (over_goes_on _ _ _ _ _ _ _ Hr Ho) as [?|(n1 & s1 & Hs & Hd)]; [done|].
  specialize (Hstuck (n1, s1) Hs). simplify_eq/=.
  pose proof (step_works _ _ (n', s) (n', pf_cancel s) Hs) as Hw. unfold work_left in Hw. simpl in Hw, Hd.
  rewrite <-Hd in Hw. lia.
Qed.

(** A forward leaves a goroutine behind. Both copies announce their end on a channel
    without buffer, from which the function receives at most once; so whenever it has
    returned after starting them, one of the copies has not ended and never ends (it waits
    in its read or, for good, in that send), and both when it returned an error. *)
Theorem forward_leaves_a_copy k l n n' s r :
  run k l (n, pf_start) (n', s) → main s = Returned r →
  (down s ≠ CopyEnd ∨ up s ≠ CopyEnd) ∧
  (is_Some r → down s ≠ CopyEnd ∧ up s ≠ CopyEnd) ∧
  ∀ n'' s', rtc step (n', s) (n'', s') → down s' ≠ CopyEnd ∨ up s' ≠ CopyEnd.
Proof.
  intros Hr Hm. pose proof Hr as [(_ & _ & Hg) _]%run_inv. unfold goroutine_inv in Hg.
  rewrite Hm in Hg. split_and!.
  - destruct r; tauto.
  - by intros [e ->].
  - intros n'' s' [k' Hr']%(run_rtc _ _ _ _ _ _ _ Hr). apply run_inv in Hr' as [(_ & _ & Hg') _].
    unfold goroutine_inv, running in Hg'. destruct (main s') as [| | | | |[]]; intuition congruence.
Qed.

(** The data of both directions arrive in order, without gaps. *)
Theorem forward_relays_in_order k l n n' s :
  run k l (n, pf_start) (n', s) →
  (inr <$> to_client s) `prefix_of` omap of_pod l ∧ (inr <$> to_remote s) `prefix_of` omap of_client l.
Proof. intros [(_ & [[Hd Hu] _] & _) _]%run_inv. split; by eapply relayed_prefix. Qed.

(** While neither side ends a forward may last for as long as one likes: here the pod sends
    [j] chunks, all are passed on, and the function still waits. *)
Theorem forward_can_last j b :
  ∃ k l s, run k l (1%Z, pf_start) (2%Z, s) ∧ main s = AtSelect ∧ to_client s = replicate j b.
Proof.
  assert (∃ k l s, run k l (1%Z, pf_start) (2%Z, s) ∧ main s = AtSelect ∧ down s = Copying ∧
    from_remote s = [] ∧ to_client s = replicate j b) as (k & l & s & ? & ? & _ & _ & ?); [|by exists k, l, s].
  induction j as [|j (k & l & s & Hr & Hm & Hd & Hf & Ht)].
  { do 3 eexists. split; [apply to_select|done]. }
  do 3 eexists. split; [eapply run_step; [exact (run_arrives _ _ _ _ _ _ _ (FromPod (inr b)) Hr)|]|].
  - apply step_down with (l := []); [done|]. simpl. by rewrite Hf.
  - split_and!; [done..|]. simpl. by rewrite Ht, <-replicate_cons_app.
Qed.

(** A client that ends its data after a request (as one does that half-closes the
    connection) may lose the whole answer: the end of the copy to the pod already ends the
    forward, without an error and with the streams removed. The comment at the select says
    that it waits for the copy from the pod or an error of the other. *)
Theorem half_close_loses_the_answer remote request :
  run 7 ((FromPod <$> remote) ++ [FromClient (inr request); FromClient (inl io_EOF)])
    (1%Z, pf_start) (2%Z, half_closed podPort remote request) ∧
  let s := half_closed podPort remote request in
  main s = Returned None ∧ to_remote s = [request] ∧ to_client s = [] ∧
  from_remote s = remote ∧ held (events s) = Some [].
Proof.
  split; [apply half_closed_run|done].
Qed.
End theorems.

(** The request ids of a client's forwards, which may run at once, tell them apart:
    every stream that is created carries its own call's port and id, and two streams
    carry the same id exactly when they belong to the same call. *)
Theorem request_ids_tell_calls_apart c k k' p q s p' q' s' h h' :
  rtc client_step client_start c →
  calls c !! k = Some (p, q, s) → calls c !! k' = Some (p', q', s') →
  Created h ∈ events s → Created h' ∈ events s' →
  PortHeader h = q ∧
  (PortForwardRequestIDHeader h = PortForwardRequestIDHeader h' ↔ k = k').
Proof.
  intros Hr Hk Hk' Hh Hh'.
  assert (client_inv c) as [Hi Hd].
  { apply (rtc_invariant client_step client_inv _ _ client_step_inv) in Hr; [done|].
    by split. }
  destruct (created_by _ _ _ (proj1 (Hi _ _ _ _ Hk)) Hh) as (i & Hc & Hp & E).
  destruct (created_by _ _ _ (proj1 (Hi _ _ _ _ Hk')) Hh') as (i' & Hc' & _ & E').
  split; [done|]. rewrite E, E'. split.
  - intros <-%Itoa_inj. by eapply Hd.
  - intros <-. rewrite Hk in Hk'. simplify_eq. congruence.
Qed.

(** ** Concrete runs *)

Definition answered : list (error + string) := [inr "HTTP/1.1 200 OK"; inl io_EOF].

Lemma forward_releases_all_witness :
  held (events (half_closed "8080" answered "GET /")) = Some [].
Proof.
  refine (proj2 (forward_releases_all "user-statefulset-0" "8080" 7 _ 1 2 _
    (half_closed_run "user-statefulset-0" "8080" answered "GET /")) None eq_refl).
Defined.

(** The client ends its data without a request: before the [select] the forward returns. *)
Lemma forward_terminates_witness :
  ∃ n s r, rtc (forward_step "user-statefulset-0" "8080")
    (2%Z, arrive (FromClient (inl io_EOF)) (before_select "8080" [] [])) (n, s) ∧ main s = Returned r.
Proof.
  destruct (forward_terminates "user-statefulset-0" "8080" 4 [FromClient (inl io_EOF)] 1 2
    (arrive (FromClient (inl io_EOF)) (before_select "8080" [] []))) as [_ H].
  - exact (run_arrives _ _ _ _ _ _ _ _ (to_select "user-statefulset-0" "8080")).
  - apply H. right. left. exists io_EOF. apply elem_of_cons. by left.
Defined.

Lemma forward_leaves_a_copy_witness :
  down (half_closed "8080" answered "GET /") ≠ CopyEnd ∨ up (half_closed "8080" answered "GET /") ≠ CopyEnd.
Proof.
  refine (proj1 (forward_leaves_a_copy "user-statefulset-0" "8080" 7 _ 1 2 _ None
    (half_closed_run "user-statefulset-0" "8080" answered "GET /") eq_refl)).
Defined.

(** Two calls of one client, the second of which dials first. *)
Definition with_error_stream (port : string) (i : Z) : pf_state :=
  MkForward AtDataStream (defers_at AtDataStream) (events_at port AtDataStream i) (Some i) Reading
    NotCopying NotCopying [] [] [] [] None false.
Definition two_calls : pf_client :=
  MkClient 3 [("a-statefulset-0", "80", with_error_stream "80" 2);
              ("b-statefulset-0", "81", with_error_stream "81" 1)].

Lemma in_call c i p q s n' s' y : calls c !! i = Some (p, q, s) →
  pf_step p q (next_id c) s n' s' →
  rtc client_step (MkClient n' (<[i := (p, q, s')]> (calls c))) y → rtc client_step c y.
Proof. intros Hi Hs Hr. eapply rtc_l; [by eapply step_in_call|exact Hr]. Qed.

Lemma two_calls_run : rtc client_step client_start two_calls.
Proof.
  eapply rtc_l; [apply (step_call _ "a-statefulset-0" "80")|].
  eapply rtc_l; [apply (step_call _ "b-statefulset-0" "81")|]. simpl.
  eapply (in_call _ 1); [reflexivity|by apply step_dial|]. simpl.
  eapply (in_call _ 0); [reflexivity|by apply step_dial|]. simpl.
  eapply (in_call _ 1); [reflexivity|by apply step_request_id|]. simpl.
  eapply (in_call _ 0); [reflexivity|by apply step_request_id|]. simpl.
  eapply (in_call _ 0); [reflexivity|by eapply step_error_stream|]. simpl.
  eapply (in_call _ 1); [reflexivity|by eapply step_error_stream|]. simpl.
  apply rtc_refl.
Qed.

Lemma request_ids_tell_calls_apart_witness :
  PortHeader (headers_for "80" StreamTypeError 2) = "80" ∧
  (PortForwardRequestIDHeader (headers_for "80" StreamTypeError 2) =
   PortForwardRequestIDHeader (headers_for "81" StreamTypeError 1) ↔ 0%nat = 1%nat).
Proof.
  eapply (request_ids_tell_calls_apart two_calls 0 1); [apply two_calls_run|reflexivity|reflexivity|..].
  - apply elem_of_cons. right. apply elem_of_cons. by left.
  - apply elem_of_cons. right. apply elem_of_cons. by left.
Defined.
