(* ===== verification/SshKube.v ===== *)
(** ssh/kubernetes/api.go: [K8sAPIWrapper], which implements the interface [K8sAPI] of
    the ssh server over the cluster and over the agents in the users' pods. *)
From S2P Require Import Prelude Config StoreApi EtcdStore Templates K8sApi K8sUser Channels.

(** The calls to the agent of a pod (vmapi, by address; [ExecStream] and [PodFiles]) and
    the port forwarding of k8sapi/portForward.go ([PortForward]); two of them get the context,
    as in [K8sAPI]. *)
Class PodApi (C : Type) : Type := {
  CreateExecInPodgRPC : bool → string → KubeExecConfig → M C ();
  WriteFileInPodgRPC : string → KubeFileWriteConfig → M C ();
  Client_CreatePodPortForward : bool → string → string → string → positive → M C ()
}.

(** They return once the context is done: [PodCalls.runs_return] proves it of calls that are
    runs of the goroutines of [ExecStream] (the stream's [Recv] fails with the context) and
    [PortForward]. *)
Class PodApiReturns (C : Type) `{PodApi C} : Prop := {
  Exec_returns endpoint conf c : ∃ r c', CreateExecInPodgRPC true endpoint conf c = (r, c') ∧ r ≠ Panic ∧ r ≠ Blocked;
  PortForward_returns ns pod port ch c :
    ∃ r c', Client_CreatePodPortForward true ns pod port ch c = (r, c') ∧ r ≠ Panic ∧ r ≠ Blocked
}.

Section wrapper.
Context {C : Type} `{KubeClient C} `{PodApi C}.

Definition Wrapper_CreateAndWaitForRessources (conf : KubeRessourceIdentifier) : M C () :=
  exists_ ← UserRessourcesExist (ri_Namespace conf) (ri_UserIdentifier conf);
  (if (exists_ : bool) then mret () else CreateUserRessources conf);;
  WaitForPodRunning (ri_Namespace conf) (ri_UserIdentifier conf) 60.

(** The address of the agent in the pod. *)
Definition agent_endpoint (pod : PodObj) : string := JoinHostPort (PodIP pod) (Itoa AgentPort).

Definition Wrapper_ExecuteCommandInPod (ctx : bool) (conf : KubeExecConfig) : M C () :=
  GetService (ex_Namespace conf) (ex_UserIdentifier conf +:+ "-service");;
  pod ← GetPod (ex_Namespace conf) (ex_UserIdentifier conf +:+ "-statefulset-0");
  CreateExecInPodgRPC ctx (agent_endpoint pod) conf.

Definition Wrapper_WriteFileInPod (conf : KubeFileWriteConfig) : M C () :=
  GetService (fw_Namespace conf) (fw_UserIdentifier conf +:+ "-service");;
  pod ← GetPod (fw_Namespace conf) (fw_UserIdentifier conf +:+ "-statefulset-0");
  WriteFileInPodgRPC (agent_endpoint pod) conf.

Definition Wrapper_CreatePodPortForward (ctx : bool) (conf : KubeForwardConfig) : M C () :=
  Client_CreatePodPortForward ctx (pf_Namespace conf) (pf_PodName conf) (pf_Port conf)
                              (pf_Communication conf).

#[export] Instance wrapper_K8sAPI : K8sAPI C := {
  CreateAndWaitForRessources := Wrapper_CreateAndWaitForRessources;
  ExecuteCommandInPod := Wrapper_ExecuteCommandInPod;
  CreatePodPortForward := Wrapper_CreatePodPortForward;
  WriteFileInPod := Wrapper_WriteFileInPod
}.

(** [waitForNamespaceMount] over the reads of its ticks, until the deadline. *)
Fixpoint waitForNamespaceMount (reads : list (error + string)) : error + string :=
  match reads with
  | [] => inl ctx_DeadlineExceeded
  | rd :: reads' =>
      let retry data := let ns := TrimSpace data in
        if decide (ns = "") then waitForNamespaceMount reads' else inr ns in
      match rd with
      | inl err => if errors_Is err os_ErrNotExist then retry "" else inl err
      | inr data => retry data
      end
  end.

(** The namespace [GetStore] works in: [stat] is the error of [os.Stat], [read] the
    outcome of [os.ReadFile]. *)
Definition store_namespace (stat : option error) (read : error + string)
    (reads : list (error + string)) : error + string :=
  match stat with
  | Some err => if errors_Is err os_ErrNotExist then waitForNamespaceMount reads
                else match read with inl e => inl e | inr content => inr (TrimSpace content) end
  | None => match read with inl e => inl e | inr content => inr (TrimSpace content) end
  end.

(** A missing key reads as the empty string; the credentials are never nil. *)
Definition GetStore {S} (New : list string → option string → option string → option string → error + S)
    (stat : option error) (read : error + string) (reads : list (error + string)) : M C S :=
  match store_namespace stat read reads with
  | inl err => fail err
  | inr ns =>
      configData ← GetConfigMapData ns "etcd-credentials";
      let get k := default "" (configData !! k) in
      match New [JoinHostPort (get "advertiseAddr") "2379"]
                (Some (get "caCert")) (Some (get "cert")) (Some (get "key")) with
      | inl err => fail err
      | inr etcdStore => mret etcdStore
      end
  end.
End wrapper.

(** ** Lemmas *)

Section lemmas.
Context {C : Type} `{KubeLaws C} `{PodApi C}.

Lemma GetService_missing ns n (c : C) : kube_objs c !! ("Service", ns, n) = None →
  ∃ e c', GetService ns n c = (Fail e, c') ∧ kube_objs c' = kube_objs c.
Proof.
  intros Hn. unfold GetService. destruct (kube_GetService ns n c) as [r c'] eqn:E.
  destruct (kube_GetService_law _ _ _ _ _ E) as [Ho Hg]. rewrite Hn in Hg.
  destruct r; simpl in Hg; try done. by exists e, c'.
Qed.

Lemma user_objects_service id m n :
  n ≠ ri_UserIdentifier id +:+ "-service" →
  user_objects id m !! ("Service", ri_Namespace id, n) = m !! ("Service", ri_Namespace id, n).
Proof.
  intros Hn. unfold user_objects, key_of. simpl.
  rewrite !lookup_insert_ne; [done|congruence..].
Qed.
End lemmas.

(** What [Connection] needs of its Kubernetes side: the wrapper's long running calls return
    once their context is done when those of the pods do. *)
#[export] Instance wrapper_returns {C} `{KubeLaws C} `{PodApiReturns C} : K8sAPIReturns C.
Proof.
  split; intros conf c; simpl; [|apply PortForward_returns].
  unfold Wrapper_ExecuteCommandInPod, GetService, GetPod, mbind, M_bind.
  destruct (kube_GetService _ _ c) as [r c1] eqn:E1. pose proof (kube_GetService_law _ _ _ _ _ E1) as [_ Hg].
  destruct r as [svc|e| |]; [|by eexists _, _|by destruct (kube_objs c !! _) as [[]|]|by destruct (kube_objs c !! _) as [[]|]].
  destruct (kube_GetPod _ _ c1) as [r c2] eqn:E2. destruct (kube_GetPod_law _ _ _ _ _ E2) as [_ [[p ->]|[e ->]]];
    [apply Exec_returns|by eexists _, _].
Qed.

(** ** Theorems *)

Section theorems.
Context {C : Type} `{KubeLaws C} `{PodApi C}.
Implicit Types c : C.

(** After a user's resources have been created, the service a shell asks for is
    there, but the sftp subsystem asks for the service of the user
    "<user>-statefulset-0": when nobody created that one, the call fails before any pod or
    agent is contacted. *)
Theorem sftp_asks_for_missing_service rd id c c' :
  CreateUserRessources id c = (Ret (), c') →
  GetNamespace (user rd) = ri_Namespace id → GetAuthenticatedUserID (user rd) = ri_UserIdentifier id →
  kube_objs c !! ("Service", ri_Namespace id, ri_UserIdentifier id +:+ "-statefulset-0-service") = None →
  is_Some (kube_objs c' !! ("Service", ri_Namespace id, ri_UserIdentifier id +:+ "-service")) ∧
  ∀ command, ∃ e c'', kube_objs c'' = kube_objs c' ∧
    GetService (ri_Namespace id) (ri_UserIdentifier id +:+ "-statefulset-0-service") c' = (Fail e, c'') ∧
    ∀ ctx, ExecuteCommandInPod ctx (subsystem_conf rd command) c' = (Fail e, c'').
Proof.
  intros E Hns Huid Hnone. destruct (created_user_objects id c c' E) as [Ho _].
  split.
  - rewrite Ho. unfold user_objects, key_of. simpl.
    do 3 (rewrite lookup_insert_ne by congruence). rewrite lookup_insert_eq. eauto.
  - intros command.
    assert (kube_objs c' !! ("Service", ri_Namespace id,
      ri_UserIdentifier id +:+ "-statefulset-0-service") = None) as Hn'.
    { rewrite Ho, user_objects_service; [|by intros ?%str_app_inj].
      unfold with_namespace. destruct (kube_objs c !! ("Namespace", "", ri_Namespace id)); [done|].
      rewrite lookup_insert_ne by congruence. done. }
    destruct (GetService_missing _ _ _ Hn') as (e & c'' & Es & Ho''). exists e, c''.
    split_and!; [done..|]. intros ctx. simpl. unfold Wrapper_ExecuteCommandInPod, subsystem_conf. simpl.
    rewrite Hns, Huid, (str_app_assoc _ "-statefulset-0" "-service"). apply bind_Fail. exact Es.
Qed.

(** Once a user's stateful set exists, a login creates nothing: what an earlier login
    left undone (a claim or volume whose creation failed) is never made up for. *)
Theorem partial_creation_is_not_repaired conf c r c' :
  is_Some (kube_objs c !! ("StatefulSet", ri_Namespace conf, ri_UserIdentifier conf +:+ "-statefulset")) →
  CreateAndWaitForRessources conf c = (r, c') → kube_objs c' = kube_objs c.
Proof.
  intros Hs. simpl. unfold Wrapper_CreateAndWaitForRessources, UserRessourcesExist, mbind, M_bind.
  destruct (isStatefulSetActive _ _ c) as [r1 c1] eqn:E1.
  destruct (isStatefulSetActive_spec _ _ _ _ _ E1) as [Ho Hr].
  destruct r1 as [b|e| |]; try done; [|intros; by simplify_eq].
  apply Hr in Hs as ->. simpl. intros E. apply WaitForPodRunning_objs in E as [-> _]. done.
Qed.

End theorems.

(** ** Concrete runs *)

#[export] Instance silent_pods : PodApi cluster := {
  CreateExecInPodgRPC _ _ _ := mret ();
  WriteFileInPodgRPC _ _ := mret ();
  Client_CreatePodPortForward _ _ _ _ _ := mret ()
}.

#[export] Instance silent_returns : PodApiReturns cluster.
Proof. split; intros; by eexists _, _. Qed.

(** The cluster after alice's first login. *)
Definition alice_cluster : cluster := (CreateUserRessources alice_id empty_cluster).2.

Lemma alice_created : CreateUserRessources alice_id empty_cluster = (Ret (), alice_cluster).
Proof. vm_compute. reflexivity. Qed.

Lemma sftp_asks_for_missing_service_witness :
  ∃ e c'', ExecuteCommandInPod false
    (subsystem_conf (MkCallbackData 1 None None (TermSize.NewTerminalSizeHandler 10)
                       (NewK8sAPIUserWrapper alice_id)) "/usr/lib/ssh/sftp-server")
    alice_cluster = (Fail e, c'').
Proof.
  assert (kube_objs empty_cluster !! ("Service", UserNamespace,
    "alice-1" +:+ "-statefulset-0-service") = None) as Hnone by reflexivity.
  destruct (sftp_asks_for_missing_service (H := cluster_client) (H0 := cluster_laws) (H1 := silent_pods)
    (MkCallbackData 1 None None (TermSize.NewTerminalSizeHandler 10) (NewK8sAPIUserWrapper alice_id))
    alice_id empty_cluster alice_cluster alice_created eq_refl eq_refl Hnone) as [_ H].
  destruct (H "/usr/lib/ssh/sftp-server") as (e & c'' & _ & _ & E). exists e, c''. exact (E false).
Defined.

(** A login that got as far as the stateful set. *)
Definition half_cluster : cluster :=
  MkCluster {[("StatefulSet", UserNamespace, "alice-1-statefulset") := OStatefulSet (StatefulSet alice_id)]} ∅.

Lemma partial_creation_is_not_repaired_witness :
  kube_objs (CreateAndWaitForRessources alice_id half_cluster).2 !!
    ("PersistentVolumeClaim", UserNamespace, "alice-1") = None.
Proof.
  destruct (CreateAndWaitForRessources alice_id half_cluster) as [r c'] eqn:E.
  pose proof (partial_creation_is_not_repaired alice_id half_cluster r c') as H.
  change (kube_objs c' !! ("PersistentVolumeClaim", UserNamespace, "alice-1") = None).
  rewrite H; [reflexivity| |exact E].
  exists (OStatefulSet (StatefulSet alice_id)). reflexivity.
Defined.
