(* ===== verification/Isolation.v ===== *)
(** What a connection can reach: from the login ([Server]) over the connection
    ([Connection]) and its channels ([Channels]) to the calls on the cluster ([SshKube]).

    A condition on the Kubernetes side that the calls for one user keep is kept by
    everything an authenticated connection of this user does, whatever the client sends. *)
From S2P Require Import Prelude Config StoreApi StoreWrapper TermSize K8sUser Channels Connection Server.
From S2P Require Import Templates K8sApi SshKube.

(** ** The calls for a user *)

(** The name of a user's pod. *)
Definition pod_name (uid : string) : string := uid +:+ "-statefulset-0".

(** A shell in the user's pod, or the sftp server, for which the channel passes the name of
    the user's pod where the name of the user is expected. *)
Definition exec_of (uid : string) (conf : KubeExecConfig) : Prop :=
  ex_Namespace conf = UserNamespace ∧
  (ex_UserIdentifier conf = uid ∧ ex_Command conf = "bash" ∨
   ex_UserIdentifier conf = pod_name uid ∧ ex_Command conf = "/usr/lib/ssh/sftp-server").

Definition forward_of (uid : string) (conf : KubeForwardConfig) : Prop :=
  pf_Namespace conf = UserNamespace ∧ pf_PodName conf = pod_name uid.

Definition write_of (uid : string) (conf : KubeFileWriteConfig) : Prop :=
  fw_Namespace conf = UserNamespace ∧ fw_UserIdentifier conf = uid ∧
  fw_FilePath conf = "/root/.ssh" ∧ fw_FileName conf = "delegatio_priv_key".

Definition create_of (uid : string) (conf : KubeRessourceIdentifier) : Prop :=
  ri_Namespace conf = UserNamespace ∧ ri_UserIdentifier conf = uid.

(** The condition [I] is kept by the calls for the user [uid], also by those that fail. *)
Record kept_for {T} `{K8sAPI T} (uid : string) (I : T → Prop) : Prop := {
  kept_exec ctx conf : exec_of uid conf → stable I (attempt (ExecuteCommandInPod ctx conf));
  kept_forward ctx conf : forward_of uid conf → stable I (attempt (CreatePodPortForward ctx conf));
  kept_write conf : write_of uid conf → stable I (attempt (WriteFileInPod conf));
  kept_create conf : create_of uid conf → stable I (attempt (CreateAndWaitForRessources conf))
}.

(** A login by a key of the store or by a password: the user, and the permissions that the
    connection gets. *)
Inductive logged_in {S E} `{KVStoreLaws S} `{LdapClient E} `{KeyGen E} `{Json UserInformation}
    (s : S) (e : E) : UserInformation → gmap string string → Prop :=
  | by_key key d u ext w :
      publickeys (records_of (kv_view s)) !! key = Some d → json_Unmarshal d = inr u →
      PublicKeyCallback key (s, e) = (Ret ext, w) → logged_in s e u ext
  | by_password l name password u e1 ext w :
      Search l name password e = (Ret u, e1) → PasswordCallback l name password (s, e) = (Ret ext, w) →
      logged_in s e u ext.

(** ** Lemmas *)

Section stable.
Context {S : Type} (P : S → Prop).

Lemma stable_modify (f : S → S) : (∀ s, P s → P (f s)) → stable P (modify f).
Proof. intros Hf s [] s' [= <-]. apply Hf. Qed.

Lemma stable_gets {A} (f : S → A) : stable P (gets f).
Proof. by intros s a s' [= _ <-]. Qed.

Lemma stable_defer {A} (d : M S ()) (m : M S A) :
  stable P m → stable P (attempt d) → stable P (defer d m).
Proof.
  intros Hm Hd s a s' E Hs. unfold defer in E. destruct (m s) as [r s1] eqn:Em.
  destruct (d s1) as [r2 s2] eqn:Ed.
  assert (r = Ret a ∧ s2 = s' ∧ ∃ x, attempt d s1 = (Ret x, s2)) as (-> & <- & x & Ex).
  { unfold attempt. rewrite Ed. destruct r, r2; simplify_eq/=; eauto. }
  eapply Hd, Hm; eauto.
Qed.

Lemma stable_attempt_modify (f : S → S) : (∀ s, P s → P (f s)) → stable P (attempt (modify f)).
Proof. intros Hf s x s' [= _ <-]. apply Hf. Qed.
End stable.

Section session.
Context {T : Type} `{K8sAPI T} `{Payloads}.
Variables (u : K8sAPIUserWrapper) (I : T → Prop).
Hypothesis namespace : GetNamespace u = UserNamespace.
Hypothesis kept : kept_for (GetAuthenticatedUserID u) I.

(** A call of the Kubernetes side for the user. *)
Definition call_of (k : call) : Prop :=
  match k with
  | Exec conf => exec_of (GetAuthenticatedUserID u) conf
  | Forward conf => forward_of (GetAuthenticatedUserID u) conf
  end.
Definition own_call (g : task * stage) : Prop := ∀ k, g.2 = InCall k → call_of k.

(** The channel is the user's, his are the calls its goroutines are in, and the condition holds. *)
Definition own_chan (c : ChanState T) : Prop := user (reqData c) = u ∧ Forall own_call (live c).
Definition confined_state (c : ChanState T) : Prop := own_chan c ∧ I (api c).
Abbreviation confined := (stable confined_state).

Definition confined_callback (f : callback) : Prop := ∀ req : Request, confined (f req).

Record confined_handler (h : Channels.Handler T) : Prop := {
  confined_user : user (h_reqData h) = u;
  confined_startup : Forall confined (onStartupCallback h);
  confined_every : Forall confined_callback (onEveryReqCallback h);
  confined_default : Forall confined_callback (onDefaultCallback h);
  confined_map k l : funcMap h !! k = Some l → Forall confined_callback l
}.

Lemma confined_modify (f : ChanState T → ChanState T) :
  (∀ c, user (reqData (f c)) = user (reqData c) ∧ live (f c) = live c ∧ api (f c) = api c) → confined (modify f).
Proof.
  intros Hf. apply stable_modify. intros c [[Hu Hl] Hi]. destruct (Hf c) as (E1 & E2 & E3).
  split; [split|]; congruence.
Qed.

Lemma confined_resizer {A} (m : M TerminalSizeHandler A) : confined (attempt (in_resizer m)).
Proof. intros c a c'. unfold attempt, in_resizer, zoom. destruct (m _) as [[] w]; intros [= <- <-]; done. Qed.

Lemma confined_api {A} (m : M T A) : stable I (attempt m) → confined (attempt (in_api m)).
Proof.
  intros Hm c a c' E [Hu Hi]. unfold attempt, in_api, zoom in E.
  destruct (m (api c)) as [r t] eqn:Em. destruct r as [x|e| |]; simplify_eq/=; split; try done; simpl.
  - apply (Hm (api c) (inr x) t); [unfold attempt; by rewrite Em|done].
  - apply (Hm (api c) (inl e) t); [unfold attempt; by rewrite Em|done].
Qed.

Lemma confined_leave : confined (attempt (channel_Close;; wg_Done)).
Proof.
  intros c a c' E Hc. unfold attempt, channel_Close, wg_Done, modify, mbind, M_bind in E. simpl in E.
  destruct (wg c); simplify_eq/=. exact Hc.
Qed.

Ltac confine :=
  repeat first
    [ apply stable_ret | apply stable_fail | apply stable_gets
    | apply stable_bind; [|intros ?]
    | apply confined_resizer | by apply confined_modify | case_match ].

Lemma confined_for_each {A} (l : list A) (f : A → M (ChanState T) ()) :
  Forall (λ x, confined (f x)) l → confined (for_each l f).
Proof. induction 1; simpl; [apply stable_ret|by apply stable_bind]. Qed.

(** The configurations are made from the user of the channel. *)
Lemma before_call_confined t c k c' : before_call t c = (Ret k, c') → confined_state c →
  confined_state c' ∧ ∀ k', k = Some k' → call_of k'.
Proof.
  intros E Hc. assert (∀ x : option call, before_call t c = (Ret x, c') → confined_state c') as Hconf.
  { intros x Ex. refine ((_ : confined (before_call t)) c x c' Ex Hc).
    destruct t as [|cmd|]; simpl; [|apply stable_gets|].
    - apply stable_bind; [apply stable_gets|intros pty]. apply stable_bind; [confine|intros tty; apply stable_gets].
    - apply stable_bind; [apply stable_gets|intros rd]. by destruct (directTCPIPData rd); [apply stable_ret|]. }
  specialize (Hconf k E). split; [done|]. intros k' ->. destruct Hc as [[Hu _] _]. destruct Hconf as [[Hu' _] _].
  revert E. destruct t as [|cmd|]; simpl.
  - intros (pty & c1 & [= _ _] & E)%bind_Ret_inv. apply bind_Ret_inv in E as (tty & c2 & _ & [= <- <-]).
    simpl. unfold exec_of. simpl. rewrite Hu'. auto.
  - unfold gets. destruct (subSysMap !! cmd) as [command|] eqn:Hcmd; [|done]. intros [= <- <-].
    unfold subSysMap in Hcmd. apply lookup_singleton_Some in Hcmd as [_ <-].
    simpl. unfold exec_of, pod_name. simpl. rewrite Hu. auto.
  - intros (rd & c1 & [= <- <-] & E)%bind_Ret_inv. destruct (directTCPIPData _); [|done]. injection E as <- _.
    simpl. unfold forward_of, pod_name. simpl. by rewrite Hu.
Qed.

Lemma do_call_confined ctx k : call_of k → confined (attempt (in_api (do_call ctx k))).
Proof.
  intros Hk. apply confined_api. destruct k as [conf|conf]; [by apply (kept_exec _ _ kept)|by apply (kept_forward _ _ kept)].
Qed.

Lemma after_call_confined t r : confined (after_call t r).
Proof. destruct t, r; simpl; confine; by apply confined_modify. Qed.

(** A goroutine moves on, or leaves. *)
Lemma confined_live l c : confined_state c → Forall own_call l → confined_state (set_live l c).
Proof. intros [[Hu _] Hi] Hl. by split. Qed.

Lemma confined_stage l1 t st l2 c c' : confined_state c → live c = l1 ++ (t, st) :: l2 → confined_state c' →
  ∀ st', (∀ k, st' = InCall k → call_of k) → confined_state (set_live (l1 ++ (t, st') :: l2) c').
Proof.
  intros [[_ Hl] _] E Hc' st' Hst. apply confined_live; [done|]. rewrite E in Hl.
  apply Forall_app in Hl as [? [_ ?]%Forall_cons]. apply Forall_app. split; [done|]. by apply Forall_cons.
Qed.

Lemma spawn_confined t : confined (spawn t).
Proof.
  apply stable_modify. intros c [[Hu Hl] Hi]. split; [split; [done|]|done]. simpl.
  apply Forall_app. split; [done|]. apply Forall_singleton. by intros k.
Qed.

Lemma session_callbacks_confined :
  Forall confined_callback [log_request; on_shell; on_pty; on_window_change; on_subsystem; reject_request].
Proof.
  rewrite !Forall_cons, Forall_nil. split_and!; try done; intros req;
    unfold log_request, on_shell, on_pty, on_window_change, on_subsystem, reject_request, Reply; confine;
    apply spawn_confined.
Qed.

Lemma newSession_confined lg ch rq h : newSession lg ch rq u = inr h → confined_handler h.
Proof.
  unfold newSession, Channels.Build. simpl. intros [= <-].
  pose proof session_callbacks_confined as Hall. rewrite !Forall_cons in Hall. destruct Hall as (?&?&?&?&?&?&_).
  split; simpl; rewrite ?Forall_singleton; [done|apply stable_ret|done..|].
  intros k l Hk. repeat (apply lookup_insert_Some in Hk as [[_ <-]|[_ Hk]]; [by rewrite Forall_singleton|]).
  apply lookup_singleton_Some in Hk as [_ <-]. by rewrite Forall_singleton.
Qed.

Lemma newDirectTCPIP_confined lg ch rq d h : newDirectTCPIP lg ch rq u d = inr h → confined_handler h.
Proof.
  unfold newDirectTCPIP, Channels.Build. simpl. intros [= <-].
  pose proof session_callbacks_confined as Hall. rewrite !Forall_cons in Hall. destruct Hall as (?&?&?&?&?&?&_).
  split; simpl; rewrite ?Forall_singleton; [done|apply spawn_confined|done..|].
  intros k l Hk. repeat (apply lookup_insert_Some in Hk as [[_ <-]|[_ Hk]]; [by apply Forall_nil_2|]).
  apply lookup_singleton_Some in Hk as [_ <-]. by apply Forall_nil_2.
Qed.

Lemma handle_request_confined h req : confined_handler h → confined (handle_request h req).
Proof.
  intros [_ _ He Hd Hm]. apply stable_bind; [|intros ?; apply confined_for_each].
  - destruct (funcMap h !! Type_ req) as [l|] eqn:E; apply confined_for_each; [|].
    + eapply Forall_impl; [by eapply Hm|auto].
    + eapply Forall_impl; [exact Hd|auto].
  - eapply Forall_impl; [exact He|auto].
Qed.

Lemma serve_step_confined h s s' : confined_handler h → serve_step h s s' →
  confined_state (chan s) → confined_state (chan s').
Proof.
  intros Hh Hs Hc. destruct Hs as [req rs o c cs cs' E|rs o cs|c cs|rs o c cs Hw|rs o c ph cs t l1 l2 k cs' Hl E
    |rs o c ph cs t k l1 l2 r cs' Hl E|rs o c ph cs t r l1 l2 cs' Hl E|rs o c ph cs t l1 l2 cs' Hl E
    |rs o c ph cs t conf sz cs' Hl E|req rs c ph cs|rs o c ph cs|rs o c ph cs]; simpl in *; try done.
  - by eapply handle_request_confined.
  - destruct (before_call_confined _ _ _ _ E Hc) as [Hc' Hk]. eapply confined_stage; [exact Hc|done..|].
    intros k'. destruct k; simpl; [|done]. intros [= <-]. by apply Hk.
  - pose proof Hc as [[_ Hall] _]. rewrite Hl in Hall. apply Forall_app in Hall as [_ [Hk _]%Forall_cons].
    eapply confined_stage; [exact Hc|done| |done]. by eapply (do_call_confined c k (Hk k eq_refl)).
  - eapply confined_stage; [exact Hc|done| |done]. by eapply after_call_confined.
  - assert (attempt (channel_Close;; wg_Done) (set_live (l1 ++ l2) cs) = (Ret (inr ()), cs')) as E'
      by (unfold attempt; by rewrite E).
    refine (confined_leave _ _ _ E' _). apply confined_live; [done|].
    destruct Hc as [[_ Hall] _]. rewrite Hl in Hall. apply Forall_app in Hall as [? [_ ?]%Forall_cons].
    by apply Forall_app.
  - unfold in_resizer, zoom in E. destruct (Next _) as [r w]. injection E as _ <-. exact Hc.
Qed.

(** *** The connection *)

Definition confined_goroutine (g : goroutine (T := T)) : Prop :=
  match g with GChannel _ => True | GServe h s => confined_handler h ∧ own_chan (chan s) end.

Definition confined_conn (s : ConnState T) : Prop :=
  Forall confined_goroutine (goroutines s) ∧ I (conn_api s).

Lemma handleChannel_confined b c nc ev h : Connection.Build b = inr c → h_user c = u →
  handleChannel c nc = (ev, Some h) → confined_handler h.
Proof.
  intros (conn & ch & reqs & ext & uid & k & lg & -> & _ & _ & ->)%Build_spec Hu. simpl in Hu.
  unfold handleChannel, handleChannelTypeSession, handleChannelTypeDirectTCPIP. simpl. rewrite Hu.
  repeat (case_match; simplify_eq/=; try done); intros [= <- <-];
    [by eapply (newSession_confined 1%positive)|by eapply (newDirectTCPIP_confined 1%positive)].
Qed.

Lemma conn_step_confined b c s s' : Connection.Build b = inr c → h_user c = u →
  conn_step c s s' → confined_conn s → confined_conn s'.
Proof.
  intros Hb Hu Hs [Hg Hi]. unfold confined_conn in *.
  destruct Hs as [| | | |inc o ca ph w l1 nc l2 ev ev' t E|inc o ca ph w l1 nc l2 ev ev' t h cs E Es
    |inc o ca ph w l1 h s s' l2 ev t Hs _|inc o ca ph w l1 h s l2 ev t Hp| | |];
    simpl in *; rewrite ?Forall_app, ?Forall_cons in *; try (by naive_solver).
  - destruct Hg as (Hl1 & _ & Hl2). pose proof (handleChannel_confined b c nc ev' h Hb Hu E) as Hh.
    assert (confined_state cs) as [Hus Hin].
    { refine (confined_for_each _ id (confined_startup h Hh) _ () cs Es _). split; [|exact Hi]. split; [by apply confined_user|by apply Forall_nil_2]. }
    by split_and!.
  - destruct Hg as (Hl1 & [Hh Hus] & Hl2). assert (confined_state (chan s')) as [Hus' Hin].
    { eapply serve_step_confined; [exact Hh|exact Hs|]. by split. }
    by split_and!.
Qed.

Lemma handles_confined b c t s : Connection.Build b = inr c → h_user c = u → I t →
  handles c t s → confined_conn s.
Proof.
  intros Hb Hu Ht Hr. apply (rtc_invariant (conn_step c) confined_conn) in Hr; [done| |by split].
  intros s1 s2 Hc Hs. by eapply conn_step_confined.
Qed.
End session.

Section global.
Context {T : Type} `{K8sAPI T} `{Payloads}.
Variables (I : T → Prop).
Abbreviation on_side := (λ s : T * list global_event, I s.1).

Lemma stable_on_api {A} (m : M T A) : stable I (attempt m) → stable on_side (attempt (on_api m)).
Proof.
  intros Hm [t ev] x [t' ev'] E Hi. unfold attempt, on_api, zoom in E. simpl in *.
  destruct (m t) as [r t1] eqn:Em. destruct r as [a|e| |]; simplify_eq/=.
  - apply (Hm t (inr a) t'); [unfold attempt; by rewrite Em|done].
  - apply (Hm t (inl e) t'); [unfold attempt; by rewrite Em|done].
Qed.

Lemma stable_did e : stable on_side (did (T := T) e) ∧ stable on_side (attempt (did (T := T) e)).
Proof. split; [by apply stable_modify|by apply stable_attempt_modify]. Qed.

Lemma global_connection_kept b c Getenv : Connection.Build b = inr c →
  kept_for (GetAuthenticatedUserID (h_user c)) I → stable on_side (HandleGlobalConnection Getenv c).
Proof.
  intros (conn & ch & reqs & ext & uid & k & lg & -> & Hp & He & ->)%Build_spec Hk. simpl in Hk.
  change (kept_for uid I) in Hk. unfold HandleGlobalConnection. simpl.
  apply stable_defer; [|apply stable_did]. apply stable_bind; [apply stable_did|intros _].
  apply stable_defer; [|apply stable_did]. apply stable_bind; [apply stable_did|intros _].
  apply stable_defer; [|apply stable_did]. apply stable_bind.
  { by apply stable_on_api, (kept_create _ _ Hk). }
  intros [e|[]]; [apply stable_ret|]. apply stable_bind; [|intros _; apply stable_did].
  apply stable_on_api. unfold writeFileToContainer.
  assert (Extensions conn = ext) as -> by (unfold Extensions; by rewrite Hp). rewrite He.
  case_decide; [by intros t x t' [= _ <-]|]. by apply (kept_write _ _ Hk).
Qed.
End global.

(** *** Logins *)

Section login.
Context {S E : Type} `{KVStoreLaws S} `{LdapClient E} `{KeyGen E} `{Json UserInformation}.

(** What is authenticated is the user's uuid. *)
Lemma logged_in_uuid (s : S) (e : E) u ext : kv_inv s → kv_up s → logged_in s e u ext →
  ext !! AuthenticatedUserID = Some (Uuid u).
Proof.
  intros Hi Hu [key d u' ext' w Hk Hd E1|l name password u' e1 ext' w Es E1].
  - simpl in Hk. rewrite sub_map_lookup in Hk.
    destruct (get_value s _ (publicKeyPrefix +:+ key) u' d (conj Hi (conj Hu eq_refl)) Hk Hd) as (s' & Eg & _).
    unfold PublicKeyCallback, mbind at 1, M_bind in E1.
    rewrite (wrap_on_store _ _ s e _ _ Eg) in E1. by injection E1 as <- _.
  - unfold PasswordCallback in E1. apply bind_Ret_inv in E1 as (u1 & w1 & Eu & E1).
    rewrite (wrap_on_env _ _ s _ _ _ Es) in Eu. injection Eu as <- <-.
    apply bind_Ret_inv in E1 as (x & w2 & _ & E1). apply bind_Ret_inv in E1 as (u2 & w3 & Eu & E1).
    assert (Uuid u2 = Uuid u') as Hx.
    { destruct x; [by injection Eu as <-|]. apply bind_Ret_inv in Eu as (keys & w4 & _ & Eu).
      do 2 apply bind_Ret_inv in Eu as (? & ? & _ & Eu). by injection Eu as <-. }
    injection E1 as <- _. rewrite <-Hx. done.
Qed.
End login.

(** ** Theorems *)

Section theorems.
Context {T : Type} `{K8sAPI T} `{Payloads}.

(** C7: a connection acts for its user only. What the calls for this user keep (his
    shells, his port forwards, his file, his resources, and sftp, for which the name of his
    pod stands where his own should) is kept by the preparation of
    the connection, and by its channels in every interleaving of their requests and
    goroutines, whatever the client sends. *)
Theorem connections_act_for_their_user (I : T → Prop) b c t : Connection.Build b = inr c →
  kept_for (GetAuthenticatedUserID (h_user c)) I → I t →
  (∀ Getenv t' ev, HandleGlobalConnection Getenv c (t, []) = (Ret (), (t', ev)) → I t') ∧
  ∀ s, handles c t s → I (conn_api s).
Proof.
  intros Hb Hk Ht. split.
  - intros Getenv t' ev E. exact (global_connection_kept I b c Getenv Hb Hk _ _ _ E Ht).
  - intros s Hs. refine (proj2 (handles_confined (h_user c) I _ Hk b c t s Hb eq_refl Ht Hs)).
    by apply Build_spec in Hb as (? & ? & ? & ? & ? & ? & ? & _ & _ & _ & ->).
Qed.
End theorems.

(** C8: from the login on: the connection that a key or a password opens acts for the user to
    whom the store's record of the key, or the directory's entry, belongs, and for no other. *)
Theorem a_login_opens_only_its_user {S E T} `{KVStoreLaws S} `{LdapClient E} `{KeyGen E}
    `{Json UserInformation} `{K8sAPI T} `{Payloads} (I : T → Prop)
    (s : S) (e : E) u ext name sid k8sHelper log chans reqs c t :
  kv_inv s → kv_up s → logged_in s e u ext →
  validate k8sHelper log (inr (MkConn name sid (Some (Some ext)), chans, reqs)) = Some c →
  kept_for (Uuid u) I → I t →
  (∀ Getenv t' ev, HandleGlobalConnection Getenv c (t, []) = (Ret (), (t', ev)) → I t') ∧
  ∀ s, handles c t s → I (conn_api s).
Proof.
  intros Hi Hu Hl Hv Hk Ht. apply logged_in_uuid in Hl; [|done..].
  unfold validate in Hv. simpl in Hv. cbv zeta in Hv.
  destruct (Connection.Build _) as [|c'] eqn:Hb in Hv; [done|]. injection Hv as ->.
  assert (kept_for (GetAuthenticatedUserID (h_user c)) I) as Hk'.
  { pose proof Hb as (conn & ? & ? & ext' & uid & ? & ? & Eb & Hp & He & ->)%Build_spec.
    assert (conn = MkConn name sid (Some (Some ext))) as ->.
    { destruct k8sHelper, log; by injection Eb. }
    injection Hp as <-. rewrite Hl in He. by injection He as <-. }
  split.
  - intros Getenv t' ev E1. exact (global_connection_kept I _ c Getenv Hb Hk' _ _ _ E1 Ht).
  - intros st Hs. refine (proj2 (handles_confined (h_user c) I _ Hk' _ c t st Hb eq_refl Ht Hs)).
    by apply Build_spec in Hb as (? & ? & ? & ? & ? & ? & ? & _ & _ & _ & ->).
Qed.

(** *** On the cluster *)

Section cluster.
Context {C : Type} `{KubeClient C} `{PodApi C}.

Lemma stable_attempt_wrapped {A B} (I : C → Prop) (m : M C A) (f : A → M C B) :
  stable I (attempt m) → (∀ a c c1, m c = (Ret a, c1) → stable I (attempt (f a))) →
  stable I (attempt (m ≫= f)).
Proof.
  intros Hm Hf c x c' E Hi. destruct (m c) as [r c1] eqn:Em.
  destruct r as [a|e| |]; unfold attempt, mbind, M_bind in E; rewrite Em in E; try done.
  - eapply (Hf a c c1 Em c1 x c'); [exact E|]. apply (Hm c (inr a) c1); [unfold attempt; by rewrite Em|done].
  - injection E as _ <-. apply (Hm c (inl e) c1); [unfold attempt; by rewrite Em|done].
Qed.

(** The calls for a user as the wrapper makes them: besides reads and the creation of his
    resources, calls to the agent of the pod that has his name (and for sftp of the one
    that has the name of his pod's pod), and forwards to it. *)
Theorem wrapper_calls_the_users_agent uid (I : C → Prop) :
  (∀ ns n, stable I (attempt (GetService ns n))) → (∀ ns n, stable I (attempt (GetPod ns n))) →
  (∀ ctx pod conf c c1, exec_of uid conf →
     GetPod UserNamespace (pod_name (ex_UserIdentifier conf)) c = (Ret pod, c1) →
     stable I (attempt (CreateExecInPodgRPC ctx (agent_endpoint pod) conf))) →
  (∀ pod conf c c1, write_of uid conf → GetPod UserNamespace (pod_name uid) c = (Ret pod, c1) →
     stable I (attempt (WriteFileInPodgRPC (agent_endpoint pod) conf))) →
  (∀ ctx port q, stable I (attempt (Client_CreatePodPortForward ctx UserNamespace (pod_name uid) port q))) →
  (∀ conf, create_of uid conf → stable I (attempt (Wrapper_CreateAndWaitForRessources conf))) →
  kept_for uid I.
Proof.
  intros Hs Hp He Hw Hf Hc. split; [intros ctx|intros ctx| |exact Hc]; intros conf Hconf; simpl.
  - pose proof Hconf as [Hns _]. unfold Wrapper_ExecuteCommandInPod. rewrite Hns.
    apply stable_attempt_wrapped; [apply Hs|intros svc _ _ _].
    apply stable_attempt_wrapped; [apply Hp|]. intros pod c c1. by apply He.
  - unfold Wrapper_CreatePodPortForward. destruct Hconf as [-> ->]. apply Hf.
  - pose proof Hconf as (Hns & Hu & _). unfold Wrapper_WriteFileInPod. rewrite Hns, Hu.
    apply stable_attempt_wrapped; [apply Hs|intros svc _ _ _].
    apply stable_attempt_wrapped; [apply Hp|]. intros pod c c1. by apply Hw.
Qed.

(** For sftp that is the pod of another user, if there is one whose uuid is the name of the
    first user's pod: then the command runs in his pod. *)
Theorem sftp_reaches_the_pod_of_another_user ctx rd command svc pod c c1 c2 :
  GetNamespace (user rd) = UserNamespace →
  let other := pod_name (GetAuthenticatedUserID (user rd)) in
  GetService UserNamespace (other +:+ "-service") c = (Ret svc, c1) →
  GetPod UserNamespace (pod_name other) c1 = (Ret pod, c2) →
  ExecuteCommandInPod ctx (subsystem_conf rd command) c =
    CreateExecInPodgRPC ctx (agent_endpoint pod) (subsystem_conf rd command) c2.
Proof.
  intros Hns other Es Ep. simpl. unfold Wrapper_ExecuteCommandInPod. simpl. rewrite Hns.
  fold (pod_name (GetAuthenticatedUserID (user rd))). fold other.
  rewrite (bind_Ret _ _ _ _ _ Es). by rewrite (bind_Ret _ _ _ _ _ Ep).
Qed.
End cluster.

(** ** A concrete connection *)

From S2P Require Import StdStore.

(** All calls in the record are for one user. *)
Definition only_for (uid : string) (l : call_log) : Prop :=
  Forall (exec_of uid) (executed l) ∧ Forall (forward_of uid) (forwarded l) ∧
  Forall (write_of uid) (written l) ∧ Forall (create_of uid) (created l).

Lemma logged_kept uid f : (∀ l, only_for uid l → only_for uid (f l)) →
  stable (only_for uid) (attempt (logged f)).
Proof.
  intros Hf l x l' E Hl. apply Hf in Hl. unfold attempt, logged, modify, gets, of_err, mbind, M_bind in E.
  destruct (outcome (f l)); by injection E as _ <-.
Qed.

Lemma only_for_kept uid : kept_for uid (only_for uid).
Proof.
  split; intros; apply logged_kept; intros l (?&?&?&?); unfold only_for; simpl;
    rewrite Forall_app, Forall_singleton; by split_and!.
Qed.

(** A connection of alice, and after a session in which the client asked for a shell. *)
Definition alice_connection (conn : ServerConn) : Connection.Handler call_log :=
  let P := no_payloads in
  MkConnHandler conn 1 2 3 3 10 newSession newDirectTCPIP writeFileToContainer
    (NewK8sAPIUserWrapper (MkIdentifier "alice-1" UserNamespace "alice" "" "")).
Definition session_channel : NewChannel := MkNewChannel "session" "" (inr (7, 8)%positive).
Definition shell_exec : KubeExecConfig := MkExecConfig "users" "alice-1" "bash" 7 (Some 7%positive) false.
Definition shell_log : call_log := MkLog [shell_exec] [] [] [] None.

Definition shell_request : Request := MkRequest "shell" true "".
Definition shell_handler : Channels.Handler call_log :=
  let P := no_payloads in
  match newSession 3 7 8 (h_user demo_conn_handler) with inr h => h | inl _ => demo_handler end.
Definition shell_chan (w : nat) (l : list (task * stage)) (evs : list event) (t : call_log) : ChanState call_log :=
  MkChanState (h_reqData shell_handler) w l evs t.
Definition shell_serve (rs : list Request) (c : ChanState call_log) : ServeState call_log :=
  MkServe rs true false Serving c.
Definition shell_conn (rs : list Request) (c : ChanState call_log) : ConnState call_log :=
  MkConnState [] true false Serving 1 [GServe shell_handler (shell_serve rs c)] [Accepted session_channel] (api c).

Lemma step_to {T} `{K8sAPI T} `{Payloads} (h : Channels.Handler T) s s1 s2 :
  serve_step h s s1 → s1 = s2 → serve_step h s s2.
Proof. by intros ? <-. Qed.

Lemma shell_inner conn rs c rs' c' : let P := no_payloads in
  serve_step shell_handler (shell_serve rs c) (shell_serve rs' c') →
  conn_step (alice_connection conn) (shell_conn rs c) (shell_conn rs' c').
Proof.
  intros P Hs. apply (conn_inner _ [] true false Serving 1 [] shell_handler (shell_serve rs c) (shell_serve rs' c') []); [|by left].
  by destruct c.
Qed.

Definition shell_answers : list event :=
  [Replied shell_request true; Wrote ("graceful termination" +:+ newline)].
Definition shell_ended : ChanState call_log := shell_chan 0 [] (shell_answers ++ [ClosedChannel]) shell_log.

Lemma shell_built : let P := no_payloads in newSession 3 7 8 (h_user demo_conn_handler) = inr shell_handler.
Proof. intros P. unfold shell_handler. destruct (newSession _ _ _ _) eqn:E; [discriminate E|reflexivity]. Qed.

Lemma shell_opened conn : let P := no_payloads in
  handleChannel (alice_connection conn) session_channel = ([Accepted session_channel], Some shell_handler).
Proof.
  change (handleChannel (H0 := no_payloads) (alice_connection conn) session_channel =
    ([Accepted session_channel], Some shell_handler)).
  change (handleChannel (H0 := no_payloads) (alice_connection conn) session_channel) with
    (match newSession (T := call_log) (H0 := no_payloads) 3 7 8 (h_user demo_conn_handler) with
     | inl _ => ([Accepted session_channel], None)
     | inr handler => ([Accepted session_channel], Some handler)
     end). pose proof shell_built as E. cbv zeta in E. by rewrite E.
Qed.

Lemma shell_run conn : let P := no_payloads in handles (alice_connection conn) demo_log (shell_conn [] shell_ended).
Proof.
  intros P. eapply rtc_l; [apply (conn_receive _ session_channel)|]. eapply rtc_l; [apply conn_take|].
  eapply (rtc_l _ _ (shell_conn [] (shell_chan 0 [] [] demo_log))).
  { apply (conn_serve _ [] true false Serving 1 [] session_channel [] [] [Accepted session_channel] demo_log shell_handler);
      [exact (shell_opened conn)|vm_compute; reflexivity]. }
  eapply rtc_l; [apply (shell_inner conn _ _ [shell_request]); exact (step_receive _ shell_request [] false Serving _)|].
  eapply rtc_l; [apply (shell_inner conn _ _ [] (shell_chan 1 [(HandleShell, Begin)] [Replied shell_request true] demo_log)),
    step_request; vm_compute; reflexivity|].
  eapply rtc_l; [apply (shell_inner conn _ _ []
    (shell_chan 1 [(HandleShell, InCall (Exec shell_exec))] [Replied shell_request true] demo_log)); eapply step_to;
    [eapply (step_begin _ _ _ _ _ _ HandleShell [] []); [reflexivity|vm_compute; reflexivity]|by vm_compute]|].
  eapply rtc_l; [apply (shell_inner conn _ _ []
    (shell_chan 1 [(HandleShell, Called (inr ()))] [Replied shell_request true] shell_log)); eapply step_to;
    [eapply (step_call _ _ _ _ _ _ HandleShell _ [] []); [reflexivity|vm_compute; reflexivity]|by vm_compute]|].
  eapply rtc_l; [apply (shell_inner conn _ _ []
    (shell_chan 1 [(HandleShell, Leaving)] shell_answers shell_log)); eapply step_to;
    [eapply (step_called _ _ _ _ _ _ HandleShell _ [] []); [reflexivity|vm_compute; reflexivity]|by vm_compute]|].
  apply rtc_once, (shell_inner conn _ _ [] shell_ended), (step_leave _ _ _ _ _ _ HandleShell [] []);
    [reflexivity|vm_compute; reflexivity].
Qed.

Lemma connections_act_for_their_user_witness : let P := no_payloads in
  handles demo_conn_handler demo_log (shell_conn [] shell_ended) ∧ only_for "alice-1" shell_log.
Proof.
  intros P. split; [exact (shell_run demo_conn)|].
  refine (proj2 (connections_act_for_their_user (only_for "alice-1") _ _ demo_log demo_conn_built
    (only_for_kept "alice-1") _) _ (shell_run demo_conn)).
  split_and!; apply Forall_nil_2.
Defined.

(** Alice's connection by her key. *)
Definition key_login : gmap string string := {[AuthenticationType := "pk"; AuthenticatedUserID := "alice-1"]}.
Definition key_connection : ServerConn := MkConn "alice" "sid" (Some (Some key_login)).
Lemma alice_logs_in : let R := range_canonical in let J := uuid_json in
  logged_in (E := nat) user_store 0%nat alice key_login.
Proof.
  intros R J. destruct user_store_holds as (_ & _ & Hv).
  apply (by_key _ _ "pk" "alice-1" alice _ (PublicKeyCallback "pk" (user_store, 0%nat)).2);
    [exact (f_equal (λ m, publickeys (records_of m) !! "pk") Hv)|reflexivity|reflexivity].
Qed.

Lemma a_login_opens_only_its_user_witness :
  let P := no_payloads in
  handles (alice_connection key_connection) demo_log (shell_conn [] shell_ended) ∧ only_for "alice-1" shell_log.
Proof.
  intros P. split; [exact (shell_run key_connection)|].
  pose (R := range_canonical). pose (J := uuid_json).
  destruct user_store_holds as (Hi & Hu & _).
  refine (proj2 (a_login_opens_only_its_user (E := nat) (only_for "alice-1") user_store 0%nat alice key_login "alice" "sid"
    (Some 3%positive) (Some 3%positive) 2 1 (alice_connection key_connection) demo_log Hi Hu alice_logs_in eq_refl
    (only_for_kept "alice-1") _) _ (shell_run key_connection)).
  split_and!; apply Forall_nil_2.
Defined.

(** A cluster with alice and a user whose uuid is the name of alice's pod. *)
Definition other_id : KubeRessourceIdentifier := MkIdentifier "alice-1-statefulset-0" UserNamespace "" "" "".
Definition both_cluster : cluster :=
  let c := (CreateUserRessources other_id alice_cluster).2 in
  MkCluster (cl_objs c) (<[("users", "alice-1-statefulset-0-statefulset-0") := MkPod PodRunning "10.0.0.9"]> (cl_pods c)).

Definition alice_chan : callbackData := MkCallbackData 1 None None (NewTerminalSizeHandler 10) (NewK8sAPIUserWrapper alice_id).
Definition other_service : ServiceObj :=
  match (GetService "users" "alice-1-statefulset-0-service" both_cluster).1 with
  | Ret svc => svc
  | _ => ServiceClusterIP "users" "none" 0
  end.

Lemma sftp_reaches_the_pod_of_another_user_witness :
  ExecuteCommandInPod false (subsystem_conf alice_chan "/usr/lib/ssh/sftp-server") both_cluster =
    CreateExecInPodgRPC false "10.0.0.9:9000" (subsystem_conf alice_chan "/usr/lib/ssh/sftp-server") both_cluster.
Proof.
  refine (sftp_reaches_the_pod_of_another_user false alice_chan "/usr/lib/ssh/sftp-server"
    other_service (MkPod PodRunning "10.0.0.9") both_cluster both_cluster both_cluster _ _ _);
    vm_compute; reflexivity.
Defined.
