(* ===== verification/Installer.v ===== *)
(** cli/installer and cli/terminate: the installation of the applications on a new
    cluster, the helm chart it checks and runs, and the saving of the users' state.

    [installer] is the installer's receiver: the cluster behind its client, the shared
    store once connected, and [sshData]. *)
From S2P Require Import Prelude Config StoreApi EtcdStore StoreWrapper Templates K8sApi SshKube.

(** ** net.SplitHostPort *)

Definition colon : Ascii.ascii := Ascii.ascii_of_nat 58.
Definition lbracket : Ascii.ascii := Ascii.ascii_of_nat 91.
Definition rbracket : Ascii.ascii := Ascii.ascii_of_nat 93.

Fixpoint IndexByte (s : string) (c : Ascii.ascii) : option nat :=
  match s with
  | EmptyString => None
  | String a s' => if decide (a = c) then Some 0 else S <$> IndexByte s' c
  end.

Fixpoint LastIndexByte (s : string) (c : Ascii.ascii) : option nat :=
  match s with
  | EmptyString => None
  | String a s' =>
      match LastIndexByte s' c with
      | Some i => Some (S i)
      | None => if decide (a = c) then Some 0 else None
      end
  end.

Definition SplitHostPort (hostport : string) : error + (string * string) :=
  let addrErr why := inl (ErrExt ("address " +:+ hostport +:+ ": " +:+ why)) in
  let missingPort := addrErr "missing port in address" in
  let tooManyColons := addrErr "too many colons in address" in
  match LastIndexByte hostport colon with
  | None => missingPort
  | Some i =>
      let finish host j k :=
        if IndexByte (str_drop j hostport) lbracket is Some _ then addrErr "unexpected '[' in address"
        else if IndexByte (str_drop k hostport) rbracket is Some _ then addrErr "unexpected ']' in address"
        else inr (host, str_drop (i + 1) hostport) in
      if HasPrefix hostport "[" then
        match IndexByte hostport rbracket with
        | None => addrErr "missing ']' in address"
        | Some e =>
            if decide (e + 1 = String.length hostport)%nat then missingPort
            else if decide (e + 1 = i)%nat
                 then finish (String.substring 1 (e - 1) hostport) 1%nat (e + 1)%nat
            else if HasPrefix (str_drop (e + 1) hostport) ":" then tooManyColons
            else missingPort
        end
      else
        let host := String.substring 0 i hostport in
        if IndexByte host colon is Some _ then tooManyColons else finish host 0%nat 0%nat
  end.

(** ** helm/helm.go *)

Definition CiliumPath : string := "https://github.com/cilium/charts/raw/master/cilium-1.16.1.tgz".
Definition Cilium256Hash : string :=
  "406c5bba515262c52e53b859af31af412cd8d2c332e277e98ec3e5f14382ecbf".

Record HelmInstaller : Type := NewHelmInstaller {
  releaseName : string;
  namespace : string;
  path : string;
  sha256 : string;
  configValue : gmap string string
}.

(** helm's packages: [Configuration.Init] with a kubeconfig, [LocateChart], the chart
    loader, and the run of an install action. *)
Class HelmApi (C : Type) : Type := {
  Chart : Type;
  helm_Init : string → option error;
  LocateChart : string → error + string;
  loader_Load : string → error + Chart;
  RunWithContext : string → string → Chart → gmap string string → M C ()
}.

(** The surroundings of the command: the outcome of [GetKubeConfigPath], the files,
    [sha256.Sum256] in hexadecimal. *)
Record environment : Type := MkEnvironment {
  kubeconfig : error + string;
  ReadFile : string → error + string;
  sha256_Sum256 : string → string
}.

Definition lift_sum {S A} (r : error + A) : M S A :=
  match r with inl e => fail e | inr a => mret a end.

Definition Install {C} `{HelmApi C} (env : environment) (h : HelmInstaller) : M C () :=
  kc ← lift_sum (kubeconfig env);
  of_err (helm_Init kc);;
  path ← lift_sum (LocateChart (path h));
  chartFile ← lift_sum (ReadFile env path);
  let sha256String := sha256_Sum256 env chartFile in
  if decide (sha256String ≠ sha256 h) then
    fail (ErrNew ("sha256 mismatch: got " +:+ sha256String +:+ ", expected " +:+ Cilium256Hash))
  else
    chart ← lift_sum (loader_Load path);
    RunWithContext (releaseName h) (namespace h) chart (configValue h).

(** ** installer.go *)

(** [apiHost] is the host of [url.Parse(RestConfig.Host)]. *)
Record installer (C S : Type) : Type := MkInstaller {
  client : C;
  SharedStore : option S;
  sshData : gmap string string
}.
Arguments MkInstaller {C S}.
Arguments client {C S}.
Arguments SharedStore {C S}.
Arguments sshData {C S}.

(** [NewInstaller], over the result of [k8sapi.NewClient]; the data are a nil map. *)
Definition NewInstaller {C S} (new_client : error + C) : error + installer C S :=
  match new_client with
  | inl err => inl err
  | inr client => inr (MkInstaller client None ∅)
  end.

(** [json.Marshal(nil)]. *)
Definition json_nil : Json () := {|
  json_Marshal _ := inr "null";
  json_Unmarshal _ := inl (ErrExt "json: Unmarshal(nil)")
|}.

Section installer.
Context {C S : Type} `{KubeClient C} `{HelmApi C} `{KVStore S} `{RangeOrder}
  `{Json ContainerInformation} `{Json UserInformation}.
Variables (env : environment) (apiHost : error + string)
  (New : list string → option string → option string → option string → error + S).
Abbreviation inst := (installer C S).

(** A method of the embedded client's Kubernetes interface. *)
Definition kube {A} : M C A → M inst A :=
  zoom client (λ c i, MkInstaller c (SharedStore i) (sshData i)).

(** A method of the client that works on its store, and one of a wrapper around that
    store, which dereferences it. *)
Definition on_store {A} : M (option S) A → M inst A :=
  zoom SharedStore (λ s i, MkInstaller (client i) s (sshData i)).
Definition wrapped {A} (m : M S A) : M (option S) A := λ os,
  match os with
  | None => (Panic, None)
  | Some s => match m s with (r, s') => (r, Some s') end
  end.

Definition api_host : M inst string :=
  uHost ← lift_sum apiHost;
  hp ← lift_sum (SplitHostPort uHost);
  mret hp.1.

Definition ssh_data (creds : EtcdCredentials) (host : string) : gmap string string :=
  <["key" := default "" (KeyData creds)]>
  (<["cert" := default "" (PeerCertData creds)]>
  (<["caCert" := default "" (CaCertData creds)]>
  {["advertiseAddr" := host]})).

Definition connectToEtcd (creds : EtcdCredentials) : M inst () :=
  host ← api_host;
  on_store (ConnectToStore New creds [JoinHostPort host "2379"]);;
  modify (λ i, MkInstaller (client i) (SharedStore i)
    (ssh_data creds host)).

Definition installCilium : M inst () :=
  host ← api_host;
  let vals := <["kubeProxyReplacement" := "true"]> (<["k8sServicePort" := "6443"]>
    {["k8sServiceHost" := host]}) in
  kube (Install env (NewHelmInstaller "cilium" "cilium" CiliumPath Cilium256Hash vals)).

Definition initalizeChallenges (userConfig : UserConfiguration) : M inst () :=
  kube (CreateStorageClass "nfs" "Retain");;
  kube (CreateNamespace UserNamespace);;
  for_each (range (Containers userConfig)) (λ '(namespace, _),
    on_store (wrapped (@PutChallengeData _ _ _ json_nil namespace ())));;
  for_each (range (UUIDToUser userConfig)) (λ '(uuid, userData),
    on_store (wrapped (PutDataIdxByUuid uuid userData)));;
  for_each (range (PubKeyToUser userConfig)) (λ '(pubkey, userData),
    on_store (wrapped (PutDataIdxByPubKey pubkey userData))).

Definition createConfigMapAndPutData (namespace configMapName : string)
    (data : gmap string string) : M C () :=
  CreateConfigMap namespace configMapName;;
  for_each (range data) (λ '(key, value), AddDataToConfigMap namespace configMapName key value).

Definition put_ssh_data (namespace : string) : M inst () := λ i,
  kube (createConfigMapAndPutData namespace "etcd-credentials" (sshData i)) i.

Definition replicas : Z := to_int32 (NumberOfWorkers ClusterConfiguration).

Definition initializeSSH : M inst () :=
  kube (CreateNamespace SSHNamespaceName);;
  put_ssh_data SSHNamespaceName;;
  privateBytes ← lift_sum (ReadFile env "./server_test");
  on_store (UploadSSHServerPrivKey privateBytes);;
  kube (CreateServiceAccount SSHNamespaceName SSHServiceAccountName);;
  kube (CreateClusterRoleBinding SSHNamespaceName SSHServiceAccountName);;
  kube (CreateSSHDeployment SSHNamespaceName "ssh-relay" replicas);;
  kube (CreateServiceLoadBalancer SSHNamespaceName "ssh-relay" SSHPort);;
  kube (CreateIngress SSHNamespaceName).

Definition initializeGrader : M inst () :=
  kube (CreateNamespace GraderNamespaceName);;
  put_ssh_data GraderNamespaceName;;
  kube (CreateServiceAccount GraderNamespaceName GraderServiceAccountName);;
  kube (CreateClusterRoleBinding GraderNamespaceName GraderServiceAccountName);;
  kube (CreateGraderDeployment GraderNamespaceName "grader" replicas);;
  kube (CreateServiceClusterIP GraderNamespaceName "grader" GradeAPIport).

Definition InstallKubernetesApplications (creds : EtcdCredentials)
    (conf : UserConfiguration) : M inst () :=
  connectToEtcd creds;;
  installCilium;;
  initalizeChallenges conf;;
  initializeSSH;;
  initializeGrader.

(** ** terminate.go *)

(** [NewTerminate] on the client of [NewClient]. *)
Definition NewTerminate (creds : EtcdCredentials) : M (option S) () :=
  uHost ← lift_sum apiHost;
  hp ← lift_sum (SplitHostPort uHost);
  ConnectToStore New creds [JoinHostPort hp.1 "2379"].

(** [WriteFile] is [os.WriteFile] with mode 0600. *)
Definition SaveState `{Json UserConfiguration} (WriteFile : string → string → option error)
    (configFile : string) : M (option S) () :=
  configData ← GetStoreUserData;
  byteData ← lift_sum (json_Marshal configData);
  of_err (WriteFile configFile byteData).
End installer.

(** ** Lemmas *)

(** *** Which objects an operation leaves alone *)

Section stable.
Context {C : Type} `{KubeLaws C}.

(** The object [o] is there under [k]. *)
Definition has (k : obj_key) (o : object) (c : C) : Prop := kube_objs c !! k = Some o.

Lemma create_stable k o ns o' : stable (has k o) (kube_Create ns o').
Proof. intros c [] c' (_ & _ & Hs)%create_Ret Hk. by eapply lookup_weaken. Qed.

Lemma AddData_stable k o ns n key v : k ≠ ("ConfigMap", ns, n) →
  stable (has k o) (AddDataToConfigMap ns n key v).
Proof.
  intros Hne c [] c' (cm & _ & E)%AddData_Ret Hk. unfold has. by rewrite E, lookup_insert_ne.
Qed.

Lemma rbac_stable k o ns n : k.1.1 ≠ "ClusterRoleBinding" →
  stable (has k o) (CreateClusterRoleBinding ns n).
Proof.
  intros Hne c [] c' E Hk. unfold CreateClusterRoleBinding, attempt, mbind, M_bind in E.
  destruct (kube_GetClusterRoleBinding _ c) as [[rb|e| |] c1] eqn:E1; try done;
    apply kube_GetClusterRoleBinding_law in E1 as [Ho _].
  - apply update_Ret in E. unfold has. rewrite E, Ho, lookup_insert_ne; [done|].
    intros <-. by apply Hne.
  - eapply (create_stable k o); [exact E|]. unfold has. by rewrite Ho.
Qed.

Lemma put_data_stable k o ns n `{RangeOrder} data : k ≠ ("ConfigMap", ns, n) →
  stable (has k o) (createConfigMapAndPutData ns n data).
Proof.
  intros Hne. apply stable_bind; [apply create_stable|]. intros _.
  apply stable_for_each. intros [key v]. by apply AddData_stable.
Qed.

Lemma ingress_stable k o ns : k ≠ ("ConfigMap", "default", "my-tcpservices-configmap") →
  stable (has k o) (CreateIngress ns).
Proof.
  intros Hne. apply stable_bind; [apply create_stable|intros _].
  apply stable_bind; [by apply AddData_stable|intros _].
  apply stable_bind; [|intros _]; apply create_stable.
Qed.

(** *** The config maps *)

Lemma add_all_data `{RangeOrder} ns n l cm c c' :
  kube_objs c !! ("ConfigMap", ns, n) = Some (OConfigMap cm) →
  for_each l (λ '(key, value), AddDataToConfigMap ns n key value) c = (Ret (), c') →
  kube_objs c' = <[("ConfigMap", ns, n) := OConfigMap
    (set_Data (foldl (λ acc '(k, v), <[k := v]> acc) (cm_Data cm) l) cm)]> (kube_objs c).
Proof.
  revert cm c; induction l as [|[k v] l IH]; intros cm c Hc E; simpl in *.
  - unfold mret, M_ret in E. simplify_eq. symmetry. apply insert_id. rewrite Hc. by destruct cm.
  - apply bind_Ret_inv in E as ([] & c1 & (cm1 & Hc1 & E1)%AddData_Ret & E).
    rewrite Hc in Hc1. simplify_eq.
    rewrite (IH _ _ (eq_trans (f_equal _ E1) (lookup_insert_eq _ _ _)) E), E1.
    by rewrite insert_insert_eq.
Qed.

Lemma data_installed `{RangeOrder} ns n data c c' :
  createConfigMapAndPutData ns n data c = (Ret (), c') →
  kube_objs c !! ("ConfigMap", ns, n) = None ∧
  kube_objs c' = <[("ConfigMap", ns, n) := OConfigMap (set_Data data (ConfigMap ns n))]>
    (kube_objs c).
Proof.
  intros ([] & c1 & (Hn & E1 & _)%create_Ret & E)%bind_Ret_inv. split; [exact Hn|].
  rewrite (add_all_data _ _ _ (ConfigMap ns n) c1 c' (eq_trans (f_equal _ E1) (lookup_insert_eq _ _ _)) E).
  change (cm_Data (ConfigMap ns n)) with (∅ : gmap string string).
  rewrite range_insert_all, E1. by rewrite insert_insert_eq.
Qed.
End stable.

(** *** The installer's parts *)

Section parts.
Context {C S : Type} `{KubeLaws C} `{HelmApi C} `{KVStoreLaws S} `{RangeOrder}
  `{Json ContainerInformation} `{Json UserInformation}.
Variables (env : environment) (apiHost : error + string)
  (New : list string → option string → option string → option string → error + S).
Abbreviation inst := (installer C S).
Abbreviation Install_ := (@InstallKubernetesApplications C S _ _ _ _ _ env apiHost New).

Lemma kube_Ret {A} (m : M C A) (i : inst) a i' : kube m i = (Ret a, i') →
  m (client i) = (Ret a, client i') ∧ SharedStore i' = SharedStore i ∧ sshData i' = sshData i.
Proof. unfold kube, zoom. destruct (m (client i)) as [r c]. by intros [= -> <-]. Qed.

Lemma on_store_Ret {A} (m : M (option S) A) (i : inst) a i' : on_store m i = (Ret a, i') →
  m (SharedStore i) = (Ret a, SharedStore i') ∧ client i' = client i ∧ sshData i' = sshData i.
Proof. unfold on_store, zoom. destruct (m (SharedStore i)) as [r c]. by intros [= -> <-]. Qed.

Lemma kube_stable {A} (P : C → Prop) (m : M C A) :
  stable P m → stable (λ i : inst, P (client i)) (kube m).
Proof. by apply stable_zoom. Qed.

Lemma on_store_stable {A} (P : C → Prop) (m : M (option S) A) :
  stable (λ i : inst, P (client i)) (on_store m).
Proof. by apply stable_zoom_other. Qed.

Lemma lift_sum_stable {A} (P : inst → Prop) (r : error + A) : stable P (lift_sum r).
Proof. destruct r; [apply stable_fail|apply stable_ret]. Qed.

Lemma put_ssh_data_stable k o ns : k ≠ ("ConfigMap", ns, "etcd-credentials") →
  stable (λ i : inst, has k o (client i)) (put_ssh_data ns).
Proof. intros Hne i. by apply kube_stable, put_data_stable. Qed.

(** After a step of an initialisation, the rest. *)
Ltac stable_steps :=
  repeat first
    [ apply stable_bind; [|intros ?]
    | apply on_store_stable | apply lift_sum_stable
    | apply kube_stable; first [apply create_stable | apply rbac_stable | apply ingress_stable]
    | apply put_ssh_data_stable | apply stable_ret ].

Lemma ssh_stable k o : k.1.1 ≠ "ClusterRoleBinding" → k.1.1 ≠ "ConfigMap" →
  stable (λ i : inst, has k o (client i)) (initializeSSH env).
Proof. intros H1' H2'. stable_steps; try done; intros ->; by apply H2'. Qed.

Lemma grader_stable k o : k.1.1 ≠ "ClusterRoleBinding" → k ≠ ("ConfigMap", "grader", "etcd-credentials") →
  stable (λ i : inst, has k o (client i)) initializeGrader.
Proof. intros H1' H2'. by stable_steps. Qed.

(** What holds of [sshData] is kept by all but [connectToEtcd]. *)
Lemma kube_data {A} (P : gmap string string → Prop) (m : M C A) :
  stable (λ i : inst, P (sshData i)) (kube m).
Proof. by apply stable_zoom_other. Qed.

Lemma on_store_data {A} (P : gmap string string → Prop) (m : M (option S) A) :
  stable (λ i : inst, P (sshData i)) (on_store m).
Proof. by apply stable_zoom_other. Qed.

Lemma lift_sum_Ret {T A} (r : error + A) (t : T) a t' :
  lift_sum r t = (Ret a, t') → r = inr a ∧ t' = t.
Proof. destruct r; [done|]. by intros [= -> ->]. Qed.

Lemma api_host_Ret (i : inst) host j : api_host apiHost i = (Ret host, j) → j = i.
Proof.
  intros (u & k & [_ ->]%lift_sum_Ret & (hp & k' & [_ ->]%lift_sum_Ret & E)%bind_Ret_inv)%bind_Ret_inv.
  by injection E.
Qed.

Lemma ssh_data_lookup creds host :
  ssh_data creds host !! "key" = Some (default "" (KeyData creds)) ∧
  ssh_data creds host !! "cert" = Some (default "" (PeerCertData creds)) ∧
  ssh_data creds host !! "caCert" = Some (default "" (CaCertData creds)) ∧
  ssh_data creds host !! "advertiseAddr" = Some host.
Proof. by split_and!; simplify_map_eq. Qed.

Lemma install_steps creds conf i i' : Install_ creds conf i = (Ret (), i') →
  ∃ host st i1 i2 i3 i4,
    New [JoinHostPort host "2379"] (CaCertData creds) (PeerCertData creds) (KeyData creds) = inr st ∧
    sshData i1 = ssh_data creds host ∧
    client i1 = client i ∧ SharedStore i1 = Some st ∧ installCilium env apiHost i1 = (Ret (), i2) ∧
    initalizeChallenges conf i2 = (Ret (), i3) ∧ initializeSSH env i3 = (Ret (), i4) ∧
    initializeGrader i4 = (Ret (), i').
Proof.
  unfold InstallKubernetesApplications, connectToEtcd.
  intros ([] & i1 & E1 & ([] & i2 & E2 & ([] & i3 & E3 & ([] & i4 & E4 & E)
    %bind_Ret_inv)%bind_Ret_inv)%bind_Ret_inv)%bind_Ret_inv.
  apply bind_Ret_inv in E1 as (host & j & Eh & ([] & j' & [E5 [Hc _]]%on_store_Ret & E6)%bind_Ret_inv).
  apply api_host_Ret in Eh as ->.
  unfold ConnectToStore in E5. destruct (New _ _ _ _) as [|st] eqn:En; [done|].
  injection E5 as Hst. injection E6 as <-. eexists host, st, _, i2, i3, i4.
  split_and!; [exact En|..|exact E2|exact E3|exact E4|exact E]; done.
Qed.

Lemma data_steps (P : gmap string string → Prop) conf :
  stable (λ i : inst, P (sshData i)) (installCilium env apiHost) ∧
  stable (λ i : inst, P (sshData i)) (initalizeChallenges conf) ∧
  stable (λ i : inst, P (sshData i)) (initializeSSH env).
Proof.
  split_and!.
  - apply stable_bind; [|intros; apply kube_data].
    apply stable_bind; [apply lift_sum_stable|intros u].
    apply stable_bind; [apply lift_sum_stable|intros; apply stable_ret].
  - do 2 (apply stable_bind; [apply kube_data|intros _]).
    do 2 (apply stable_bind; [apply stable_for_each; intros []; apply on_store_data|intros _]).
    apply stable_for_each. intros []. apply on_store_data.
  - apply stable_bind; [apply kube_data|intros _].
    apply stable_bind; [intros i; apply kube_data|intros _].
    apply stable_bind; [apply lift_sum_stable|intros b].
    apply stable_bind; [apply on_store_data|intros _].
    repeat (apply stable_bind; [apply kube_data|intros _]). apply kube_data.
Qed.

Lemma cilium_stable (P : C → Prop) :
  (∀ rel ns chart vals, stable P (RunWithContext rel ns chart vals)) →
  stable (λ i : inst, P (client i)) (installCilium env apiHost).
Proof.
  intros Hhelm. apply stable_bind; [|intros h; apply kube_stable].
  { apply stable_bind; [apply lift_sum_stable|intros u].
    apply stable_bind; [apply lift_sum_stable|intros; apply stable_ret]. }
  apply stable_bind; [by intros ? ? ? [_ ->]%lift_sum_Ret|intros kc].
  apply stable_bind; [by destruct (helm_Init kc); [apply stable_fail|apply stable_ret]|intros _].
  apply stable_bind; [by intros ? ? ? [_ ->]%lift_sum_Ret|intros p].
  apply stable_bind; [by intros ? ? ? [_ ->]%lift_sum_Ret|intros b]. cbv zeta.
  destruct (decide _); [apply stable_fail|].
  apply stable_bind; [by intros ? ? ? [_ ->]%lift_sum_Ret|intros ch]. apply Hhelm.
Qed.

Definition nfs_key : obj_key := ("StorageClass", "", "nfs").
Definition nfs_class : object := OStorageClass (StorageClass "nfs" "Retain").

Lemma challenges_class conf (i i' : inst) : initalizeChallenges conf i = (Ret (), i') →
  kube_objs (client i) !! nfs_key = None ∧ has nfs_key nfs_class (client i').
Proof.
  unfold initalizeChallenges. intros ([] & j & [(Hn & Eo & _)%create_Ret _]%kube_Ret & E)%bind_Ret_inv.
  split; [exact Hn|].
  assert (has nfs_key nfs_class (client j)) as Hj by (unfold has; rewrite Eo; apply lookup_insert_eq).
  refine ((_ : stable (λ i, has nfs_key nfs_class (client i)) _) j () i' E Hj).
  apply stable_bind; [apply kube_stable, create_stable|intros _].
  do 2 (apply stable_bind; [apply stable_for_each; intros []; apply on_store_stable|intros _]).
  apply stable_for_each. intros []. apply on_store_stable.
Qed.

(** The config map a namespace's servers read. *)
Definition credentials (ns : string) (data : gmap string string) : C → Prop :=
  has ("ConfigMap", ns, "etcd-credentials") (OConfigMap (set_Data data (ConfigMap ns "etcd-credentials"))).

Lemma put_then_stable ns (rest : M inst ()) i i' :
  (∀ d, stable (λ i, credentials ns d (client i)) rest) →
  (kube (CreateNamespace ns);; put_ssh_data ns;; rest) i = (Ret (), i') →
  credentials ns (sshData i) (client i').
Proof.
  intros Hst ([] & i1 & [_ [_ Hd1]]%kube_Ret & ([] & i2 & [E2 _]%kube_Ret & E)
    %bind_Ret_inv)%bind_Ret_inv. apply (Hst _ _ _ _ E).
  apply data_installed in E2 as [_ E2]. unfold credentials, has. rewrite E2, Hd1.
  apply lookup_insert_eq.
Qed.

Lemma installed_credentials i i1 i2 :
  initializeSSH env i = (Ret (), i1) → initializeGrader i1 = (Ret (), i2) →
  credentials SSHNamespaceName (sshData i) (client i2) ∧
  credentials GraderNamespaceName (sshData i) (client i2).
Proof.
  intros E1 E2.
  assert (sshData i1 = sshData i) as Hd.
  { by eapply (data_steps (λ d, d = sshData i) (MkUserConfiguration ∅ ∅ ∅)). }
  split.
  - apply (grader_stable ("ConfigMap", SSHNamespaceName, "etcd-credentials") _ (λ H, ltac:(done))
      (λ H, ltac:(done)) _ _ _ E2). unfold initializeSSH in E1.
    eapply put_then_stable; [|exact E1]. intros d. unfold credentials. by stable_steps.
  - rewrite <-Hd. unfold initializeGrader in E2.
    eapply put_then_stable; [|exact E2]. intros d. unfold credentials. by stable_steps.
Qed.

(** What [GetStore] makes of them. *)
Lemma GetStore_credentials {T} (New' : list string → option string → option string → option string → error + T)
    ns data stat read reads c r c' :
  credentials ns data c → store_namespace stat read reads = inr ns →
  GetStore New' stat read reads c = (r, c') →
  let get k := default "" (data !! k) in
  r = match New' [JoinHostPort (get "advertiseAddr") "2379"]
            (Some (get "caCert")) (Some (get "cert")) (Some (get "key")) with
      | inl err => Fail err
      | inr st => Ret st
      end ∨ ∃ e, r = Fail e ∧ IsNotFound e = false.
Proof.
  intros Hc Hns. unfold GetStore. rewrite Hns. unfold GetConfigMapData.
  unfold mbind, M_bind. destruct (kube_GetConfigMap ns "etcd-credentials" c) as [r1 c1] eqn:E.
  destruct (kube_GetConfigMap_law _ _ _ _ _ E) as [_ Hg]. rewrite Hc in Hg.
  destruct r1 as [cm|e| |]; simpl in Hg; try done.
  - simplify_eq. cbv zeta. simpl. intros Er. left. destruct (New' _ _ _ _); by injection Er.
  - intros ?; simplify_eq. right. exists e. split; [done|]. by destruct (IsNotFound e); [specialize (Hg eq_refl)|].
Qed.

End parts.

(** The steps of an initialisation keep what holds of the cluster's other objects. *)
Ltac installer_steps :=
  repeat first
    [ apply stable_bind; [|intros ?]
    | apply on_store_stable | apply lift_sum_stable
    | apply kube_stable; first [apply create_stable | apply rbac_stable | apply ingress_stable]
    | apply put_ssh_data_stable | apply stable_ret ].

(** *** The records an installation stores *)

Section stored.
Context {S : Type} `{KVStoreLaws S} `{RangeOrder}.

(** What [json.Marshal] makes of a value it accepts. *)
Definition encoded {A} `{Json A} (a : A) : string :=
  match json_Marshal a with inr d => d | inl _ => "" end.

(** A loop of puts, on a reachable store. *)
Lemma put_loop {A} (put : string → A → M S ()) (f : A → string) p (l : list (string * A)) s m :
  (∀ k a s, (k, a) ∈ l → put k a s = kv_Put (p +:+ k) (f a) s) → holds s m →
  ∃ s', for_each l (λ '(k, a), put k a) s = (Ret (), s') ∧
    holds s' (foldl (λ m '(k, a), <[p +:+ k := f a]> m) m l).
Proof.
  revert s m; induction l as [|[k a] l IH]; intros s m Hput Hs; [by exists s|]. simpl.
  destruct (put_holds s m (p +:+ k) (f a) Hs) as (s1 & E1 & Hs1).
  destruct (IH s1 _ (λ k a s Hl, Hput k a s (list_elem_of_further _ _ _ Hl)) Hs1) as (s2 & E2 & Hs2).
  exists s2. split; [|done]. rewrite (bind_Ret _ _ _ () s1); [done|]. rewrite Hput; [done|by left].
Qed.

Lemma wrapped_loop {C A} (l : list (string * A)) (body : string → A → M S ()) (c : C) d s s' :
  for_each l (λ '(k, a), body k a) s = (Ret (), s') →
  for_each l (λ '(k, a), on_store (wrapped (body k a))) (MkInstaller c (Some s) d) =
    (Ret (), MkInstaller c (Some s') d).
Proof.
  revert s; induction l as [|[k a] l IH]; intros s; simpl.
  - by intros [= ->].
  - intros ([] & s1 & E1 & E)%bind_Ret_inv.
    rewrite (bind_Ret _ _ _ () (MkInstaller c (Some s1) d)); [exact (IH s1 E)|].
    unfold on_store, zoom, wrapped. simpl. by rewrite E1.
Qed.

Lemma records_of_loop {A} (f : A → string) p (upd : string → string → records → records)
    (l : list (string * A)) m :
  (∀ k v m, records_of (<[p +:+ k := v]> m) = upd k v (records_of m)) →
  records_of (foldl (λ m '(k, a), <[p +:+ k := f a]> m) m l) =
    foldl (λ r '(k, a), upd k (f a) r) (records_of m) l.
Proof.
  intros Hu. revert m; induction l as [|[k a] l IH]; intros m; [done|]. simpl. by rewrite IH, Hu.
Qed.

(** The records over which those of a configuration are laid. *)
Definition over_challenges (new : gmap string string) (r : records) : records :=
  MkRecords (new ∪ challenges r) (publickeys r) (uuids r) (privkey r).
Definition over_publickeys (new : gmap string string) (r : records) : records :=
  MkRecords (challenges r) (new ∪ publickeys r) (uuids r) (privkey r).
Definition over_uuids (new : gmap string string) (r : records) : records :=
  MkRecords (challenges r) (publickeys r) (new ∪ uuids r) (privkey r).

Lemma records_over {A} (f : A → string) (l : gmap string A) r :
  foldl (λ r '(k, a), set_challenge k (f a) r) r (range l) = over_challenges (f <$> l) r ∧
  foldl (λ r '(k, a), set_uuid k (f a) r) r (range l) = over_uuids (f <$> l) r ∧
  foldl (λ r '(k, a), set_publickey k (f a) r) r (range l) = over_publickeys (f <$> l) r.
Proof.
  destruct r as [ch pk uu key].
  unfold over_challenges, over_uuids, over_publickeys. simpl. rewrite <-!range_insert_union.
  split_and!.
  - revert ch; induction (range l) as [|[k v] t IH]; intros ch; [done|]. apply IH.
  - revert uu; induction (range l) as [|[k v] t IH]; intros uu; [done|]. apply IH.
  - revert pk; induction (range l) as [|[k v] t IH]; intros pk; [done|]. apply IH.
Qed.
End stored.

(** The whole of [initalizeChallenges]. *)
Definition encodable `{Json UserInformation} (users : gmap string UserInformation) : Prop :=
  ∀ k u, users !! k = Some u → ∃ d, json_Marshal u = inr d.

Section challenges.
Context {C S : Type} `{KubeLaws C} `{HelmApi C} `{KVStoreLaws S} `{RangeOrder}
  `{Json ContainerInformation} `{Json UserInformation}.

(** The records after the installation of a configuration. *)
Definition with_configuration (conf : UserConfiguration) (r : records) : records :=
  over_publickeys (encoded <$> PubKeyToUser conf)
    (over_uuids (encoded <$> UUIDToUser conf)
      (over_challenges ((λ _, "null") <$> Containers conf) r)).

Lemma put_encoded (put : UserInformation → M S ()) key (u : UserInformation) s :
  put = (λ a, d ← marshal a; kv_Put key d) → (∃ d, json_Marshal u = inr d) →
  put u s = kv_Put key (encoded u) s.
Proof. intros -> [d Hd]. unfold encoded, marshal. by rewrite Hd. Qed.

Lemma stored_records conf (i i' : installer C S) s m :
  SharedStore i = Some s → holds s m → encodable (UUIDToUser conf) → encodable (PubKeyToUser conf) →
  initalizeChallenges conf i = (Ret (), i') →
  ∃ s' m', SharedStore i' = Some s' ∧ holds s' m' ∧
    records_of m' = with_configuration conf (records_of m).
Proof.
  intros Hi Hs Hu Hp.
  intros ([] & i1 & [_ [E1 _]]%kube_Ret & ([] & i2 & [_ [E2 _]]%kube_Ret & E)%bind_Ret_inv)%bind_Ret_inv.
  rewrite E1, Hi in E2. clear i E1 Hi i1.
  destruct (put_loop (λ k (_ : ContainerInformation), @PutChallengeData _ _ _ json_nil k ())
    (λ _, "null") challengeLocationPrefix (range (Containers conf)) s m) as (s1 & L1 & Hs1); [done..|].
  destruct (put_loop PutDataIdxByUuid encoded uuidKeyPrefix (range (UUIDToUser conf)) s1 _
    (λ k a s Hk, put_encoded (PutDataIdxByUuid k) _ a s eq_refl (Hu k a (proj1 (elem_of_range _ _ _) Hk)))
    Hs1) as (s2 & L2 & Hs2).
  destruct (put_loop PutDataIdxByPubKey encoded publicKeyPrefix (range (PubKeyToUser conf)) s2 _
    (λ k a s Hk, put_encoded (PutDataIdxByPubKey k) _ a s eq_refl (Hp k a (proj1 (elem_of_range _ _ _) Hk)))
    Hs2) as (s3 & L3 & Hs3).
  exists s3. eexists. split; [|split; [exact Hs3|]].
  - destruct i2 as [c os d]. simpl in E2. subst os.
    apply (wrapped_loop _ (λ k _, PutChallengeData k ()) c d) in L1.
    apply (wrapped_loop _ PutDataIdxByUuid c d) in L2.
    apply (wrapped_loop _ PutDataIdxByPubKey c d) in L3.
    rewrite (bind_Ret _ _ _ _ _ L1), (bind_Ret _ _ _ _ _ L2) in E.
    rewrite L3 in E. by injection E as <-.
  - rewrite (records_of_loop _ _ set_publickey), (records_of_loop _ _ set_uuid),
      (records_of_loop _ _ set_challenge) by
      auto using records_of_publickey, records_of_uuid, records_of_challenge.
    destruct (records_over (λ _ : ContainerInformation, "null") (Containers conf) (records_of m)) as [-> _].
    destruct (records_over (encoded (A := UserInformation)) (UUIDToUser conf)
      (over_challenges ((λ _, "null") <$> Containers conf) (records_of m))) as (_ & -> & _).
    apply records_over.
Qed.
End challenges.

(** ** Theorems *)

Section theorems.
Context {C S : Type} `{KubeLaws C} `{HelmApi C} `{KVStoreLaws S} `{RangeOrder}
  `{Json ContainerInformation} `{Json UserInformation}.
Variables (env : environment) (apiHost : error + string)
  (New : list string → option string → option string → option string → error + S).
Abbreviation inst := (installer C S).
Abbreviation Install_ := (@InstallKubernetesApplications C S _ _ _ _ _ env apiHost New).

(** A config map is created with exactly the given entries, whatever the order of the
    iteration; one of that name that exists already makes the call fail, unchanged. *)
Theorem createConfigMapAndPutData_stores ns n data c r c' :
  createConfigMapAndPutData ns n data c = (r, c') →
  match kube_objs c !! ("ConfigMap", ns, n) with
  | Some _ => ∃ e, r = Fail e ∧ kube_objs c' = kube_objs c
  | None => r = Ret () → kube_objs c' =
      <[("ConfigMap", ns, n) := OConfigMap (set_Data data (ConfigMap ns n))]> (kube_objs c)
  end.
Proof.
  intros E. destruct (kube_objs c !! _) as [o|] eqn:Hk.
  - unfold createConfigMapAndPutData, mbind, M_bind in E.
    destruct (CreateConfigMap ns n c) as [r1 c1] eqn:E1.
    destruct (kube_Create_law _ _ _ _ _ E1) as [(Hn & _)|(e & -> & Ho)].
    + change (key_of _ _) with ("ConfigMap", ns, n) in Hn. congruence.
    + simplify_eq. eauto.
  - intros ->. by destruct (data_installed _ _ _ _ _ E).
Qed.

(** C29: after a successful installation the ssh server and the grader, which read their
    credentials from the config map of their namespace, connect to the very store the
    installer filled: the same endpoint with the same certificates; only an error of the
    cluster other than "not found" can keep them from it. *)
Theorem servers_reach_the_installers_store `{PodApi C} cert key ca conf i i' ns stat read reads r c' :
  Install_ (MkEtcdCredentials (Some cert) (Some key) (Some ca)) conf i = (Ret (), i') →
  ns = SSHNamespaceName ∨ ns = GraderNamespaceName → store_namespace stat read reads = inr ns →
  GetStore New stat read reads (client i') = (r, c') →
  ∃ endpoint st, New [endpoint] (Some ca) (Some cert) (Some key) = inr st ∧
    (r = Ret st ∨ ∃ e, r = Fail e ∧ IsNotFound e = false).
Proof.
  intros (host & st & i1 & i2 & i3 & i4 & En & Hd & _ & _ & E2 & E3 & E4 & E5)%install_steps Hns Hs Eg.
  exists (JoinHostPort host "2379"), st. split; [exact En|].
  assert (sshData i3 = sshData i1) as Hd3.
  { destruct (data_steps env apiHost (λ d, d = sshData i1) conf) as (P2 & P3 & _).
    eapply P3; [exact E3|]. eapply P2; [exact E2|done]. }
  destruct (installed_credentials env apiHost _ _ _ E4 E5) as [Hc1 Hc2].
  rewrite Hd3 in Hc1, Hc2.
  assert (credentials ns (sshData i1) (client i')) as Hc by (by destruct Hns as [-> | ->]).
  destruct (GetStore_credentials New ns _ stat read reads _ _ _ Hc Hs Eg) as [->|?]; [left|by right].
  rewrite Hd. destruct (ssh_data_lookup (MkEtcdCredentials (Some cert) (Some key) (Some ca)) host)
    as (-> & -> & -> & ->). simpl in *. by rewrite En.
Qed.

(** The installation is not repeatable: once it has created the storage class, every
    further run on that cluster fails, whatever its credentials and configuration (a
    chart's installation deletes no object). *)
Theorem install_succeeds_only_once :
  (∀ k o rel ns chart vals, stable (has k o) (RunWithContext rel ns chart vals)) →
  ∀ creds conf creds' conf' i i' i'', Install_ creds conf i = (Ret (), i') →
  Install_ creds' conf' i' ≠ (Ret (), i'').
Proof.
  intros Hhelm creds conf creds' conf' i i' i''.
  intros (? & ? & i1 & i2 & i3 & i4 & _ & _ & _ & _ & _ & E3 & E4 & E5)%install_steps E'.
  assert (has nfs_key nfs_class (client i')) as Hk.
  { apply (grader_stable nfs_key nfs_class ltac:(done) ltac:(done) _ _ _ E5).
    apply (ssh_stable env nfs_key nfs_class ltac:(done) ltac:(done) _ _ _ E4).
    exact (proj2 (challenges_class conf i2 i3 E3)). }
  apply install_steps in E' as (? & ? & j1 & j2 & j3 & _ & _ & _ & Hc & _ & E2' & E3' & _).
  rewrite <-Hc in Hk. apply (cilium_stable env apiHost _ (Hhelm _ _) _ _ _ E2') in Hk.
  apply challenges_class in E3' as [Hn _]. unfold has in Hk. congruence.
Qed.

(** C30: on a reachable store a successful [initalizeChallenges] lays the configuration over
    the records: the users by uuid and by public key, and for every challenge name the
    JSON value null; nothing else changes. *)
Theorem initalizeChallenges_records conf (i i' : inst) s m :
  SharedStore i = Some s → holds s m → encodable (UUIDToUser conf) → encodable (PubKeyToUser conf) →
  initalizeChallenges conf i = (Ret (), i') →
  ∃ s', SharedStore i' = Some s' ∧
    records_of (kv_view s') = with_configuration conf (records_of m).
Proof.
  intros Hi Hs Hu Hp E. destruct (stored_records conf i i' s m Hi Hs Hu Hp E) as (s' & m' & ? & (_ & _ & <-) & ?).
  eauto.
Qed.

(** The state [terminate] saves has the users, which it reads by public key, in the
    table by uuid: installed on a new store it makes no public key known, and the uuids
    it makes known are the public keys. *)
Theorem saved_state_keeps_no_public_key (old : S) m users (conts : gmap string ContainerInformation) :
  holds old m → decodes (publickeys (records_of m)) users → decodes (challenges (records_of m)) conts →
  ∃ conf old', GetStoreUserData (Some old) = (Ret conf, old') ∧
    ∀ (i i' : inst) s, SharedStore i = Some s → holds s ∅ → encodable users →
      initalizeChallenges conf i = (Ret (), i') →
      ∃ s', SharedStore i' = Some s' ∧
        uuids (records_of (kv_view s')) = encoded <$> users ∧
        ∀ pk, ∃ s'', PublicKeyExists pk s' = (Ret false, s'').
Proof.
  intros Hm Hu Hc.
  destruct (get_all_eq challengeLocationPrefix GetChallengeData old m conts eq_refl Hm Hc) as (o1 & E1 & Hm1).
  destruct (get_all_eq publicKeyPrefix GetPublicKeyData o1 m users eq_refl Hm1 Hu) as (o2 & E2 & _).
  exists (MkUserConfiguration users ∅ conts), (Some o2). split.
  { unfold GetStoreUserData, connected. rewrite (bind_Ret _ _ _ _ _ E1), (bind_Ret _ _ _ _ _ E2). done. }
  intros i i' s Hi Hs He E.
  assert (encodable ∅) as Hn by (intros k u; by rewrite lookup_empty).
  destruct (stored_records (MkUserConfiguration users ∅ conts) i i' s ∅ Hi Hs He Hn E)
    as (s' & m' & Hi' & Hs' & Hr).
  exists s'. split; [done|]. destruct (Hs') as (_ & _ & Hv). rewrite Hv, Hr. split.
  - exact (right_id_L ∅ (∪) (encoded <$> users)).
  - intros pk. destruct (exists_value s' m' (publicKeyPrefix +:+ pk) Hs') as (s'' & Ex & _).
    exists s''. unfold PublicKeyExists. rewrite Ex. do 2 f_equal. apply bool_decide_eq_false.
    rewrite <-sub_map_lookup. change (sub_map publicKeyPrefix m') with (publickeys (records_of m')).
    rewrite Hr. unfold with_configuration. simpl. rewrite fmap_empty, (left_id_L ∅ (∪)).
    rewrite sub_map_lookup, lookup_empty. by intros [? [=]].
Qed.

(** A chart is run only when the hash of the file is the one asked for, and with the
    release's own name, namespace and values; in every other case the installation fails
    and the cluster is untouched. *)
Theorem Install_runs_only_the_expected_chart h (c : C) r c' : Install env h c = (r, c') →
  (∃ e, r = Fail e ∧ c' = c) ∨
  ∃ p bytes chart, LocateChart (path h) = inr p ∧ ReadFile env p = inr bytes ∧
    sha256_Sum256 env bytes = sha256 h ∧ loader_Load p = inr chart ∧
    RunWithContext (releaseName h) (namespace h) chart (configValue h) c = (r, c').
Proof.
  unfold Install, lift_sum, of_err, mbind, M_bind, mret, M_ret, fail. cbv zeta.
  destruct (kubeconfig env) as [|kc]; [intros; simplify_eq; eauto|].
  destruct (helm_Init kc) as [|]; [intros; simplify_eq; eauto|].
  destruct (LocateChart (path h)) as [|p] eqn:Ep; [intros; simplify_eq; eauto|].
  destruct (ReadFile env p) as [|b] eqn:Eb; [intros; simplify_eq; eauto|].
  destruct (decide _) as [|Hd]; [intros; simplify_eq; eauto|].
  destruct (loader_Load p) as [|ch] eqn:El; [intros; simplify_eq; eauto|].
  intros E. right. exists p, b, ch. split_and!; try done. by apply dec_stable.
Qed.
End theorems.

(** ** Concrete runs, on an empty cluster and the in-memory store *)

From S2P Require Import StdStore.

(** helm with a chart that only needs a service account. *)
#[export] Instance test_helm : HelmApi cluster := {
  Chart := string;
  helm_Init _ := None;
  LocateChart _ := inr "/tmp/chart.tgz";
  loader_Load p := inr p;
  RunWithContext _ ns _ _ := CreateServiceAccount ns "cilium"
}.

Lemma test_helm_stable k o rel ns chart vals :
  stable (has k o) (RunWithContext (C := cluster) rel ns chart vals).
Proof. apply create_stable. Qed.

Definition test_env : environment :=
  MkEnvironment (inr "/root/.kube/config") (λ _, inr "contents") (λ _, Cilium256Hash).
Definition test_New (_ : list string) (_ _ _ : option string) : error + StdStore := inr NewStdStore.
Definition test_creds : EtcdCredentials := MkEtcdCredentials (Some "cert") (Some "key") (Some "ca").
Definition test_conf : UserConfiguration :=
  MkUserConfiguration {["alice-1" := alice]} ∅ {["testchallenge1" := MkContainer ""]}.
Definition new_installer : installer cluster StdStore := MkInstaller (MkCluster ∅ ∅) None ∅.

#[local] Existing Instance range_canonical.
#[local] Existing Instance uuid_json.
#[local] Existing Instance name_json.

Definition test_install (i : installer cluster StdStore) :=
  InstallKubernetesApplications test_env (inr "10.0.0.1:6443") test_New test_creds test_conf i.
Definition installed : installer cluster StdStore := (test_install new_installer).2.

Lemma installed_ok : test_install new_installer = (Ret (), installed).
Proof. unfold installed. apply ran. vm_compute. reflexivity. Qed.

Example splits_host_port : SplitHostPort "10.0.0.1:6443" = inr ("10.0.0.1", "6443") ∧
  SplitHostPort "[::1]:6443" = inr ("::1", "6443") ∧ SplitHostPort "[::1]" ≠ inr ("::1", "") ∧
  SplitHostPort "a:b:c" ≠ inr ("a", "b:c").
Proof. by vm_compute. Qed.

Lemma createConfigMapAndPutData_stores_witness :
  ∃ c', kube_objs c' = <[("ConfigMap", "ssh", "etcd-credentials") := OConfigMap
    (set_Data {["key" := "k"]} (ConfigMap "ssh" "etcd-credentials"))]> (kube_objs (MkCluster ∅ ∅)).
Proof.
  destruct (createConfigMapAndPutData "ssh" "etcd-credentials" {["key" := "k"]} (MkCluster ∅ ∅))
    as [r c'] eqn:E.
  assert (r = Ret ()) as Hr by (exact (eq_sym (f_equal fst E))).
  exists c'. exact (createConfigMapAndPutData_stores "ssh" "etcd-credentials" {["key" := "k"]} _ _ _ E Hr).
Defined.

(** What the ssh server then gets. *)
Definition read_back : res StdStore * cluster :=
  GetStore (H := cluster_client) test_New None (inr "ssh") [] (client installed).

Lemma read_back_ok : read_back.1 = Ret NewStdStore.
Proof. vm_compute. reflexivity. Qed.

Lemma servers_reach_the_installers_store_witness :
  read_back.1 = Ret NewStdStore ∧ ∃ endpoint st,
    test_New [endpoint] (Some "ca") (Some "cert") (Some "key") = inr st ∧
    (read_back.1 = Ret st ∨ ∃ e, read_back.1 = Fail e ∧ IsNotFound e = false).
Proof.
  split; [exact read_back_ok|].
  exact (servers_reach_the_installers_store (H0 := cluster_laws) (H7 := silent_pods) test_env
    (inr "10.0.0.1:6443") test_New "cert" "key" "ca" test_conf new_installer installed "ssh"
    None (inr "ssh") [] read_back.1 read_back.2 installed_ok (or_introl eq_refl) eq_refl
    (surjective_pairing read_back)).
Defined.

Lemma install_succeeds_only_once_witness :
  test_install new_installer = (Ret (), installed) ∧
  test_install installed ≠ (Ret (), (test_install installed).2).
Proof.
  split; [exact installed_ok|].
  exact (install_succeeds_only_once (H0 := cluster_laws) test_env (inr "10.0.0.1:6443")
    test_New test_helm_stable test_creds test_conf test_creds test_conf _ _ _ installed_ok).
Defined.

(** An installer that is connected to a new store. *)
Definition connected_installer : installer cluster StdStore :=
  MkInstaller (MkCluster ∅ ∅) (Some NewStdStore) ∅.

Lemma all_encodable users : encodable users.
Proof. intros k u _. exists (Uuid u). reflexivity. Qed.

Definition challenges_made (conf : UserConfiguration) : installer cluster StdStore :=
  (initalizeChallenges conf connected_installer).2.

Lemma initalizeChallenges_records_witness :
  ∃ s', SharedStore (challenges_made test_conf) = Some s' ∧
    records_of (kv_view s') = with_configuration test_conf (records_of ∅).
Proof.
  apply (initalizeChallenges_records test_conf connected_installer (challenges_made test_conf)
    NewStdStore ∅ eq_refl new_store_holds (all_encodable _) (all_encodable _)).
  unfold challenges_made. apply ran. vm_compute. reflexivity.
Defined.

Lemma saved_state_keeps_no_public_key_witness :
  ∃ conf old', GetStoreUserData (Some user_store) = (Ret conf, old') ∧
    (initalizeChallenges conf connected_installer = (Ret (), challenges_made conf) →
     ∃ s', SharedStore (challenges_made conf) = Some s' ∧ ∃ s'', PublicKeyExists "pk" s' = (Ret false, s'')).
Proof.
  destruct (saved_state_keeps_no_public_key (C := cluster) user_store _ _ _ user_store_holds
    user_store_users user_store_challenges) as (conf & old' & E & H).
  exists conf, old'. split; [exact E|]. intros Ei.
  destruct (H connected_installer _ NewStdStore eq_refl new_store_holds (all_encodable _) Ei)
    as (s' & Hs & _ & Hn). exists s'. split; [exact Hs|exact (Hn "pk")].
Defined.

Definition cilium : HelmInstaller := NewHelmInstaller "cilium" "cilium" CiliumPath Cilium256Hash ∅.

Lemma Install_runs_only_the_expected_chart_witness :
  ∃ c', Install test_env cilium (MkCluster ∅ ∅) = (Ret (), c') ∧
    ∃ bytes, sha256_Sum256 test_env bytes = sha256 cilium.
Proof.
  assert (Install test_env cilium (MkCluster ∅ ∅) = (Ret (), (Install test_env cilium (MkCluster ∅ ∅)).2)) as E.
  { apply ran. vm_compute. reflexivity. }
  exists (Install test_env cilium (MkCluster ∅ ∅)).2. split; [exact E|].
  destruct (Install_runs_only_the_expected_chart test_env cilium _ _ _ E)
    as [(e & He & _)|(p & b & ch & _ & _ & Hb & _)]; [discriminate He|exists b; exact Hb].
Defined.
