(* ===== verification/ExecStream.v ===== *)
(** agent/vmapi/vmapi.go: [CreateExecInPodgRPC], the three goroutines that relay a
    remote command between an ssh channel and the agent of a pod.

    The goroutines ([receiver], [sender], [termSizeHandler], each with the helper it
    starts) run in an errgroup over one gRPC stream. They are a step relation: a step is
    one communication of one goroutine, and any interleaving is a run. What the stream's
    [Recv], the channel's [Read] and the size queue's [Next] will yield is part of the
    state ([inbox], [stdin], [sizes]); a call that has nothing to yield waits. *)
From S2P Require Import Prelude Config TermSize.

(** ** vmproto: the messages of the stream *)

Inductive exec_request : Type :=
  | Req_Command (command : string) (args : list string) (tty : bool)
  | Req_Stdin (data : string)
  | Req_Termsize (width height : Z).

Inductive exec_response : Type :=
  | Resp_Stdout (data : string)
  | Resp_Stderr (data : string)
  | Resp_Err (code : string).

(** ** strconv.Atoi *)

Definition digit (a : Ascii.ascii) : option Z :=
  let n := Z.of_nat (Ascii.nat_of_ascii a) in
  if decide (48 ≤ n ≤ 57)%Z then Some (n - 48)%Z else None.

Fixpoint digits (acc : Z) (s : string) : option Z :=
  match s with
  | EmptyString => Some acc
  | String a s' => match digit a with Some d => digits (10 * acc + d) s' | None => None end
  end.

(** [None] for a syntax error and for a number outside of 64 bits. *)
Definition Atoi (s : string) : option Z :=
  let unsigned t := match t with EmptyString => None | _ => digits 0 t end in
  let signed := match s with
    | String a t => if decide (a = Ascii.ascii_of_nat 45) then Z.opp <$> unsigned t
                    else if decide (a = Ascii.ascii_of_nat 43) then unsigned t
                    else unsigned s
    | EmptyString => None
    end in
  match signed with
  | Some n => if decide (- 2 ^ 63 ≤ n < 2 ^ 63)%Z then Some n else None
  | None => None
  end.

(** The error the receiver returns for the agent's last message; it never is nil. *)
Definition exit_error (errNumString : string) : error :=
  match Atoi errNumString with
  | Some errNumInt =>
      if decide (0 ≤ errNumInt)%Z then Errno errNumInt
      else ErrNew ("internal error: invalid error number: " +:+ errNumString)
  | None => ErrNew ("internal error: invalid error number: " +:+ errNumString)
  end.

(** ** The state *)

(** The receiver: at the head of its loop, in [Recv], past its [cancel()] with the
    error it is about to return, or done. *)
Inductive receiver_at : Type :=
  | RLoop
  | RRecv
  | RExit (e : error)
  | RDone.

(** The sender's helper: in [Read], in [Send], or ended. *)
Inductive copier_at : Type :=
  | CRead
  | CSend (chunk : string)
  | CEnd.

Record exec_state : Type := MkExec {
  inbox : list (error + exec_response);      (* what Recv yields *)
  stdin : list (error + string);             (* what Read yields *)
  sizes : list (option TerminalSize);        (* what Next yields *)
  received : list exec_response;             (* taken from Recv *)
  written : list (bool * string);            (* passed to Write of stderr (true) and stdout *)
  seen : list (bool * string);               (* what those writes got to the user *)
  requests : list exec_request;              (* sent *)
  receiver : receiver_at;
  copier : copier_at;
  errChan : option error;
  sender_done : bool;
  size_queue : gochan (option TerminalSize);
  size_pump : bool;                          (* the helper of termSizeHandler runs *)
  size_done : bool;
  ctx_done : bool;
  group_err : option error
}.

(** errgroup: a goroutine returned [e]; the first error is kept and cancels. *)
Definition group_return (e : option error) (s : exec_state) : exec_state :=
  let first := match group_err s with Some x => Some x | None => e end in
  let cancelled := match e, group_err s with Some _, None => true | _, _ => ctx_done s end in
  MkExec (inbox s) (stdin s) (sizes s) (received s) (written s) (seen s) (requests s) (receiver s)
    (copier s) (errChan s) (sender_done s) (size_queue s) (size_pump s) (size_done s) cancelled first.

Definition set_receiver (r : receiver_at) (s : exec_state) : exec_state :=
  MkExec (inbox s) (stdin s) (sizes s) (received s) (written s) (seen s) (requests s) r
    (copier s) (errChan s) (sender_done s) (size_queue s) (size_pump s) (size_done s) (ctx_done s) (group_err s).
Definition set_copier (c : copier_at) (e : option error) (s : exec_state) : exec_state :=
  MkExec (inbox s) (stdin s) (sizes s) (received s) (written s) (seen s) (requests s) (receiver s)
    c e (sender_done s) (size_queue s) (size_pump s) (size_done s) (ctx_done s) (group_err s).
Definition set_stdin (l : list (error + string)) (s : exec_state) : exec_state :=
  MkExec (inbox s) l (sizes s) (received s) (written s) (seen s) (requests s) (receiver s)
    (copier s) (errChan s) (sender_done s) (size_queue s) (size_pump s) (size_done s) (ctx_done s) (group_err s).
Definition add_request (q : exec_request) (s : exec_state) : exec_state :=
  MkExec (inbox s) (stdin s) (sizes s) (received s) (written s) (seen s) (requests s ++ [q]) (receiver s)
    (copier s) (errChan s) (sender_done s) (size_queue s) (size_pump s) (size_done s) (ctx_done s) (group_err s).
Definition set_sender_done (s : exec_state) : exec_state :=
  MkExec (inbox s) (stdin s) (sizes s) (received s) (written s) (seen s) (requests s) (receiver s)
    (copier s) (errChan s) true (size_queue s) (size_pump s) (size_done s) (ctx_done s) (group_err s).
Definition set_pump (l : list (option TerminalSize)) (q : gochan (option TerminalSize)) (p : bool)
    (s : exec_state) : exec_state :=
  MkExec (inbox s) (stdin s) l (received s) (written s) (seen s) (requests s) (receiver s)
    (copier s) (errChan s) (sender_done s) q p (size_done s) (ctx_done s) (group_err s).
Definition set_size_done (s : exec_state) : exec_state :=
  MkExec (inbox s) (stdin s) (sizes s) (received s) (written s) (seen s) (requests s) (receiver s)
    (copier s) (errChan s) (sender_done s) (size_queue s) (size_pump s) true (ctx_done s) (group_err s).
Definition cancel (s : exec_state) : exec_state :=
  MkExec (inbox s) (stdin s) (sizes s) (received s) (written s) (seen s) (requests s) (receiver s)
    (copier s) (errChan s) (sender_done s) (size_queue s) (size_pump s) (size_done s) true (group_err s).

(** Taking a message from [Recv]: its data is passed to the channel's [Write], which takes the
    first [n] bytes of it; it fails when those are not all, and nobody looks at the error. *)
Definition deliver (l : list (error + exec_response)) (d : exec_response) (n : nat) (s : exec_state) : exec_state :=
  let out := match d with
    | Resp_Stderr b => if decide (b = "") then [] else [(true, b)]
    | Resp_Stdout b => if decide (b = "") then [] else [(false, b)]
    | Resp_Err _ => []
    end in
  MkExec l (stdin s) (sizes s) (received s ++ [d]) (written s ++ out)
    (seen s ++ (prod_map id (String.substring 0 n) <$> out)) (requests s) (receiver s)
    (copier s) (errChan s) (sender_done s) (size_queue s) (size_pump s) (size_done s) (ctx_done s) (group_err s).

(** [data.GetErr()] when it is not empty. *)
Definition exit_code (d : exec_response) : option string :=
  match d with
  | Resp_Err c => if decide (c = "") then None else Some c
  | _ => None
  end.

(** The errors of a gRPC stream's [Send]: [io.EOF] when the stream has ended, else a status. *)
Definition grpc_error (e : error) : Prop := e = io_EOF ∨ ∃ code msg, e = ErrStatus code msg.

(** ** The goroutines *)

Inductive exec_step (s : exec_state) : exec_state → Prop :=
  (* receiver *)
  | step_recv_done :
      receiver s = RLoop → ctx_done s = true →
      exec_step s (group_return (Some ctx_Canceled) (set_receiver RDone s))
  | step_recv_default :
      receiver s = RLoop → ctx_done s = false → exec_step s (set_receiver RRecv s)
  | step_recv_EOF l :
      receiver s = RRecv → inbox s = inl io_EOF :: l →
      exec_step s (group_return None (set_receiver RDone s))
  | step_recv_error e l :
      receiver s = RRecv → inbox s = inl e :: l → e ≠ io_EOF →
      exec_step s (group_return (Some e) (set_receiver RDone s))
  | step_recv_data d l n :
      receiver s = RRecv → inbox s = inr d :: l → exit_code d = None →
      exec_step s (set_receiver RLoop (deliver l d n s))
  | step_recv_exit d c l n :
      receiver s = RRecv → inbox s = inr d :: l → exit_code d = Some c →
      exec_step s (cancel (set_receiver (RExit (exit_error c)) (deliver l d n s)))
  | step_recv_return e :
      receiver s = RExit e → exec_step s (group_return (Some e) (set_receiver RDone s))
  (* the helper of sender *)
  | step_copy_read b l :
      copier s = CRead → stdin s = inr b :: l →
      exec_step s (set_copier (CSend b) (errChan s) (set_stdin l s))
  | step_copy_error e l :
      copier s = CRead → stdin s = inl e :: l →
      exec_step s (set_copier CEnd (Some e) (set_stdin l s))
  | step_copy_send b :
      copier s = CSend b →
      exec_step s (set_copier CRead (errChan s) (add_request (Req_Stdin b) s))
  | step_copy_send_error b e :
      copier s = CSend b → grpc_error e → exec_step s (set_copier CEnd (Some e) s)
  (* sender *)
  | step_send_done :
      sender_done s = false → ctx_done s = true →
      exec_step s (group_return (Some ctx_Canceled) (set_sender_done s))
  | step_send_error e :
      sender_done s = false → errChan s = Some e →
      exec_step s (group_return (Some e) (set_sender_done s))
  (* the helper of termSizeHandler: Next, and a send on the queue of capacity one *)
  | step_pump d l q :
      size_pump s = true → sizes s = Some d :: l → ch_send (Some d) (size_queue s) = (Ret (), q) →
      exec_step s (set_pump l q true s)
  | step_pump_nil l q q' :
      size_pump s = true → sizes s = None :: l → ch_send None (size_queue s) = (Ret (), q) →
      ch_close q = (Ret (), q') → exec_step s (set_pump l q' false s)
  (* termSizeHandler *)
  | step_size_done :
      size_done s = false → ctx_done s = true →
      exec_step s (group_return (Some ctx_Canceled) (set_size_done s))
  | step_size_closed o q :
      size_done s = false → ch_recv (size_queue s) = (Ret o, q) → mjoin o = None →
      exec_step s (group_return (Some (ErrNew "window size queue closed"))
                     (set_size_done (set_pump (sizes s) q (size_pump s) s)))
  | step_size_send d q :
      size_done s = false → ch_recv (size_queue s) = (Ret (Some (Some d)), q) →
      exec_step s (group_return None (set_size_done
        (add_request (Req_Termsize (to_int32 (Width d)) (to_int32 (Height d)))
          (set_pump (sizes s) q (size_pump s) s))))
  | step_size_error d q e :
      size_done s = false → ch_recv (size_queue s) = (Ret (Some (Some d)), q) → grpc_error e →
      exec_step s (group_return (Some e) (set_size_done (set_pump (sizes s) q (size_pump s) s)))
  (* the caller's context *)
  | step_outer : exec_step s (cancel s).

(** Just after the command was sent and the goroutines were started. *)
Definition exec_start (conf : KubeExecConfig) (inb : list (error + exec_response))
    (sin : list (error + string)) (szs : list (option TerminalSize)) : exec_state :=
  MkExec inb sin szs [] [] [] [Req_Command (ex_Command conf) [] (ex_Tty conf)]
    RLoop CRead None false (ch_make 1) true false false None.

(** [g.Wait()] returns [group_err]. *)
Definition exec_finished (s : exec_state) : Prop :=
  receiver s = RDone ∧ sender_done s = true ∧ size_done s = true.

(** [CreateExecInPodgRPC]: what happens before the goroutines. [Dial], [Stream] and
    [SendCommand] are the outcomes of the gRPC calls; the connection is closed whatever
    follows a successful dial. *)
Definition CreateExecInPodgRPC_start (Dial Stream SendCommand : option error) : option error * bool :=
  match Dial with
  | Some e => (Some e, false)
  | None =>
      match Stream with
      | Some e => (Some e, true)
      | None => (SendCommand, true)
      end
  end.

(** ** Lemmas *)

(** What the agent's messages make the receiver write. *)
Definition outputs (l : list exec_response) : list (bool * string) :=
  flat_map (λ d, match d with
    | Resp_Stderr b => if decide (b = "") then [] else [(true, b)]
    | Resp_Stdout b => if decide (b = "") then [] else [(false, b)]
    | Resp_Err _ => []
    end) l.

Definition stdin_chunks (l : list exec_request) : list string :=
  omap (λ q, match q with Req_Stdin b => Some b | _ => None end) l.
Definition resizes (l : list exec_request) : list (Z * Z) :=
  omap (λ q, match q with Req_Termsize w h => Some (w, h) | _ => None end) l.

Lemma stdin_chunks_app l q : stdin_chunks (l ++ [q]) =
  stdin_chunks l ++ match q with Req_Stdin b => [b] | _ => [] end.
Proof. unfold stdin_chunks. rewrite omap_app. by destruct q. Qed.

Lemma resizes_app l q : resizes (l ++ [q]) =
  resizes l ++ match q with Req_Termsize w h => [(w, h)] | _ => [] end.
Proof. unfold resizes. rewrite omap_app. by destruct q. Qed.

Lemma outputs_app l d : outputs (l ++ [d]) = outputs l ++ outputs [d].
Proof. apply flat_map_app. Qed.

(** The relay from the agent to the user: nothing is lost, invented or reordered. *)
Definition downstream (inb : list (error + exec_response)) (s : exec_state) : Prop :=
  inb = (inr <$> received s) ++ inbox s ∧ written s = outputs (received s).

(** A write and what of it the user sees: all of it, or only a beginning. *)
Definition cut_short (w x : bool * string) : Prop := x.1 = w.1 ∧ ∃ lost, w.2 = x.2 +:+ lost.

Definition seen_in_part (s : exec_state) : Prop := Forall2 cut_short (written s) (seen s).

Lemma seen_step s s' : seen_in_part s → exec_step s s' → seen_in_part s'.
Proof.
  unfold seen_in_part. intros Hi Hs. destruct Hs; simpl; try exact Hi; apply Forall2_app; try exact Hi;
    destruct d; simpl; try case_decide; simpl; repeat constructor; apply substring_prefix.
Qed.

Lemma downstream_step inb s s' : downstream inb s → exec_step s s' → downstream inb s'.
Proof.
  intros [Hi Hw] Hs. unfold downstream. destruct Hs; simpl; try (by split).
  all: match goal with E : inbox _ = _ :: _ |- _ => rewrite E in Hi end.
  all: rewrite outputs_app, <-Hw, fmap_app, <-app_assoc; split; [exact Hi|].
  all: unfold outputs; simpl; by rewrite app_nil_r.
Qed.

(** The relay from the user to the agent. *)
Definition upstream (sin : list (error + string)) (s : exec_state) : Prop :=
  let sent := inr <$> stdin_chunks (requests s) in
  match copier s with
  | CRead => sin = sent ++ stdin s
  | CSend b => sin = sent ++ inr b :: stdin s
  | CEnd => sent `prefix_of` sin
  end.

Lemma upstream_step sin s s' : upstream sin s → exec_step s s' → upstream sin s'.
Proof.
  unfold upstream. intros Hu Hs. destruct Hs; simpl; try exact Hu;
    try match goal with E : copier s = _ |- _ => rewrite E in Hu end; simpl in *.
  - by match goal with E : stdin s = _ :: _ |- _ => rewrite E in Hu end.
  - rewrite Hu. by exists (stdin s).
  - rewrite stdin_chunks_app, fmap_app, <-app_assoc. exact Hu.
  - rewrite Hu. by eexists.
  - rewrite stdin_chunks_app, app_nil_r. exact Hu.
Qed.

(** The sender never returns without an error. *)
Definition sender_fails (s : exec_state) : Prop := sender_done s = true → is_Some (group_err s).

Lemma sender_fails_step s s' : sender_fails s → exec_step s s' → sender_fails s'.
Proof.
  unfold sender_fails. intros Hs Hst. destruct Hst; simpl; try exact Hs; intros;
    try (destruct (group_err s); eauto; by apply Hs).
Qed.

(** [termSizeHandler] returns with its first send. *)
Definition one_resize (s : exec_state) : Prop :=
  (length (resizes (requests s)) ≤ if size_done s then 1 else 0)%nat.

Lemma one_resize_step s s' : one_resize s → exec_step s s' → one_resize s'.
Proof.
  unfold one_resize. intros Hs Hst.
  destruct Hst; simpl; rewrite ?resizes_app, ?app_nil_r, ?length_app; simpl; try exact Hs;
    match goal with E : size_done s = false |- _ => rewrite E in Hs end; lia.
Qed.

(** How many messages the receiver may still take once the context is done. *)
Definition pending (s : exec_state) : nat := match receiver s with RRecv => 1 | _ => 0 end.

Definition closing (n : nat) (s : exec_state) : Prop :=
  ctx_done s = true ∧ (length (received s) + pending s ≤ n)%nat.

Lemma closing_step n s s' : closing n s → exec_step s s' → closing n s'.
Proof.
  unfold closing, pending. intros [Hc Hn] Hst.
  destruct Hst; try congruence; simpl; rewrite ?length_app; simpl;
    try match goal with E : receiver _ = _ |- _ => rewrite E in * end;
    (split; [by destruct (group_err s)|lia]).
Qed.

(** *** Decimal numbers *)

Lemma digit_char (d : N) : (d < 10)%N → digit (pretty_N_char d) = Some (Z.of_N d).
Proof.
  intros Hd. assert (d ∈ [0; 1; 2; 3; 4; 5; 6; 7; 8; 9]%N) as Hin by (rewrite !elem_of_cons; lia).
  repeat (apply elem_of_cons in Hin as [->|Hin]; [reflexivity|]). by apply elem_of_nil in Hin.
Qed.

Lemma digits_pretty_go (x : N) s : digits 0 (pretty_N_go x s) = digits (Z.of_N x) s.
Proof.
  revert s. induction (N.lt_wf_0 x) as [x _ IH]; intros s.
  destruct (decide (x = 0)%N) as [->|Hx]; [by rewrite pretty_N_go_0|].
  rewrite pretty_N_go_step by lia. rewrite IH by (apply N.div_lt; lia). simpl.
  rewrite digit_char by (apply N.mod_lt; lia). f_equal.
  rewrite N2Z.inj_div, N2Z.inj_mod. pose proof (Z.div_mod (Z.of_N x) 10). lia.
Qed.

(** A number in decimal starts with a digit. *)
Lemma pretty_go_head (x : N) s : (0 < x)%N → ∃ a t, pretty_N_go x s = String a t ∧ is_Some (digit a).
Proof.
  revert s. induction (N.lt_wf_0 x) as [x _ IH]; intros s Hx.
  rewrite pretty_N_go_step by lia. destruct (decide (x / 10 = 0)%N) as [->|Hq].
  - rewrite pretty_N_go_0. do 2 eexists. split; [done|].
    rewrite digit_char by (apply N.mod_lt; lia). eauto.
  - apply IH; [apply N.div_lt; lia|by apply N.neq_0_lt_0].
Qed.

(** The number that was printed is read, if it fits into 64 bits. *)
Lemma Atoi_Itoa n : Atoi (Itoa n) = if decide (- 2 ^ 63 ≤ n < 2 ^ 63)%Z then Some n else None.
Proof.
  assert (∀ x : N, (0 < x)%N → ∃ a t, pretty x = String a t ∧
    a ≠ Ascii.ascii_of_nat 45 ∧ a ≠ Ascii.ascii_of_nat 43 ∧ digits 0 (String a t) = Some (Z.of_N x)) as Hp.
  { intros x Hx. unfold pretty, pretty_N. rewrite decide_False by lia.
    destruct (pretty_go_head x "" Hx) as (a & t & E & Ha). exists a, t. rewrite E. split_and!; [done|..].
    - intros ->. by destruct Ha.
    - intros ->. by destruct Ha.
    - rewrite <-E. apply digits_pretty_go. }
  unfold Atoi, Itoa. destruct n as [|p|p]; [done|..].
  - destruct (Hp (Npos p)) as (a & t & E & H1 & H2 & Hd); [lia|].
    change (pretty (Z.pos p)) with (pretty (Npos p)). rewrite E, !decide_False by done.
    by rewrite Hd.
  - destruct (Hp (Npos p)) as (a & t & E & _ & _ & Hd); [lia|].
    change (pretty (Z.neg p)) with (String (Ascii.ascii_of_nat 45) (pretty (Npos p))).
    cbv beta iota zeta. rewrite decide_True by done. by rewrite E, Hd.
Qed.

(** *** Runs *)

Section runs.
Variables (conf : KubeExecConfig) (inb : list (error + exec_response))
  (sin : list (error + string)) (szs : list (option TerminalSize)).
Abbreviation start := (exec_start conf inb sin szs).

Lemma start_invariants s : rtc exec_step start s →
  downstream inb s ∧ upstream sin s ∧ sender_fails s ∧ one_resize s.
Proof.
  intros Hr. split_and!.
  - by apply (rtc_invariant exec_step _ start s (downstream_step inb)).
  - by apply (rtc_invariant exec_step _ start s (upstream_step sin)).
  - by apply (rtc_invariant exec_step _ start s sender_fails_step).
  - apply (rtc_invariant exec_step _ start s one_resize_step); [unfold one_resize; simpl; lia|done].
Qed.
End runs.

(** A thread that is waiting may end once the context is done. *)
Lemma size_can_end s : ctx_done s = true →
  ∃ s', rtc exec_step s s' ∧ size_done s' = true ∧ ctx_done s' = true ∧
    receiver s' = receiver s ∧ inbox s' = inbox s ∧ sender_done s' = sender_done s.
Proof.
  intros Hc. destruct (size_done s) eqn:E; [by exists s|].
  eexists. split; [by eapply rtc_once, step_size_done|]. simpl. by destruct (group_err s).
Qed.

Lemma sender_can_end s : ctx_done s = true →
  ∃ s', rtc exec_step s s' ∧ sender_done s' = true ∧ ctx_done s' = true ∧
    receiver s' = receiver s ∧ inbox s' = inbox s ∧ size_done s' = size_done s.
Proof.
  intros Hc. destruct (sender_done s) eqn:E; [by exists s|].
  eexists. split; [by eapply rtc_once, step_send_done|]. simpl. by destruct (group_err s).
Qed.

Lemma receiver_loop_ends s : ctx_done s = true → receiver s ≠ RRecv →
  ∃ s', rtc exec_step s s' ∧ receiver s' = RDone ∧ ctx_done s' = true ∧
    sender_done s' = sender_done s ∧ size_done s' = size_done s.
Proof.
  intros Hc Hr. destruct (receiver s) eqn:E; [|done| |by exists s].
  - eexists. split; [by eapply rtc_once, step_recv_done|]. simpl. by destruct (group_err s).
  - eexists. split; [by eapply rtc_once, step_recv_return|]. simpl. by destruct (group_err s).
Qed.

Lemma receiver_can_end s : ctx_done s = true → (receiver s = RRecv → inbox s ≠ []) →
  ∃ s', rtc exec_step s s' ∧ receiver s' = RDone ∧ ctx_done s' = true ∧
    sender_done s' = sender_done s ∧ size_done s' = size_done s.
Proof.
  intros Hc Hi. assert (receiver s = RRecv ∨ receiver s ≠ RRecv) as [E|?] by (destruct (receiver s); auto);
    [|by apply receiver_loop_ends].
  destruct (inbox s) as [|[e|d] l] eqn:El; [by destruct Hi|..].
  - assert (e = io_EOF ∨ e ≠ io_EOF) as [->|?].
    { destruct e as [n| | | | | | |]; try (by right). destruct (decide (n = "EOF")) as [->|Hne]; [by left|].
      right. by intros [=]. }
    + eexists. split; [by eapply rtc_once, step_recv_EOF|]. done.
    + eexists. split; [by eapply rtc_once, step_recv_error|]. simpl. by destruct (group_err s).
  - assert (∃ s1, exec_step s s1 ∧ ctx_done s1 = true ∧ receiver s1 ≠ RRecv ∧
      sender_done s1 = sender_done s ∧ size_done s1 = size_done s) as (s1 & Hs & Hc1 & Hr & <- & <-).
    { destruct (exit_code d) as [c|] eqn:Ed.
      - eexists. split; [by eapply (step_recv_exit _ _ _ _ 0)|]. done.
      - eexists. split; [by eapply (step_recv_data _ _ _ 0)|]. done. }
    destruct (receiver_loop_ends s1 Hc1 Hr) as (s' & Hr' & ?). exists s'.
    split; [by eapply rtc_l|done].
Qed.

(** ** Theorems *)

(** Whatever the interleaving, what the user gets is what the agent sent, in order and
    without the empty messages, and what the agent gets of the user's input is a prefix
    of it, unchanged. *)
Theorem exec_relays_in_order conf inb sin szs s :
  rtc exec_step (exec_start conf inb sin szs) s →
  inb = (inr <$> received s) ++ inbox s ∧ written s = outputs (received s) ∧
  (inr <$> stdin_chunks (requests s)) `prefix_of` sin.
Proof.
  intros ([Hi Hw] & Hu & _)%start_invariants. split_and!; [done..|].
  unfold upstream in Hu. destruct (copier s); [rewrite Hu; by eexists..|done].
Qed.

(** [CreateExecInPodgRPC] never returns nil: the sender, which it waits for, ends only
    with an error, so even a command that exits with code 0 is reported as failed. *)
Theorem exec_never_succeeds conf inb sin szs s :
  rtc exec_step (exec_start conf inb sin szs) s → exec_finished s → group_err s ≠ None.
Proof.
  intros (_ & _ & Hf & _)%start_invariants (_ & Hs & _). destruct (Hf Hs) as [e ->]. done.
Qed.

(** Of all the sizes the user's terminal takes, at most one reaches the agent. *)
Theorem exec_forwards_one_resize conf inb sin szs s :
  rtc exec_step (exec_start conf inb sin szs) s → (length (resizes (requests s)) ≤ 1)%nat.
Proof. intros (_ & _ & _ & Hr)%start_invariants. unfold one_resize in Hr. destruct (size_done s); lia. Qed.

(** C36: once the context is done, by the end of the user's input or by an error, at most
    the message the receiver already waits for is still delivered. *)
Theorem cancelled_exec_stops_delivery s s' : ctx_done s = true → rtc exec_step s s' →
  (length (received s') ≤ length (received s) +
     match receiver s with RRecv => 1 | _ => 0 end)%nat.
Proof.
  intros Hc Hr.
  assert (closing (length (received s) + pending s) s') as [_ H].
  { apply (rtc_invariant exec_step _ s s' (closing_step _)); [by split|done]. }
  unfold pending in H. lia.
Qed.

(** A cancelled group ends, unless the agent is silent while the receiver waits. *)
Theorem cancelled_exec_can_finish s : ctx_done s = true → (receiver s = RRecv → inbox s ≠ []) →
  ∃ s', rtc exec_step s s' ∧ exec_finished s'.
Proof.
  intros Hc Hi.
  destruct (size_can_end s Hc) as (s1 & R1 & Hz & Hc1 & Er & Ei & Es).
  destruct (sender_can_end s1 Hc1) as (s2 & R2 & Hs2 & Hc2 & Er2 & Ei2 & Ez2).
  destruct (receiver_can_end s2 Hc2) as (s3 & R3 & Hr3 & _ & Es3 & Ez3); [by rewrite Er2, Er, Ei2, Ei|].
  exists s3. split; [by etrans; [|etrans]|]. unfold exec_finished. rewrite Es3, Ez3, Ez2. done.
Qed.

(** When the user sends no input (its end is immediate), the command's output can be
    lost altogether: there is a run that returns EOF and has delivered nothing. *)
Theorem no_input_can_lose_the_output conf out szs :
  ∃ s, rtc exec_step (exec_start conf (inr <$> out) [inl io_EOF] szs) s ∧
    exec_finished s ∧ group_err s = Some io_EOF ∧ written s = [].
Proof.
  eexists. split; [|split; [|split]].
  - eapply rtc_l; [by eapply step_copy_error|].
    eapply rtc_l; [by eapply step_send_error|].
    eapply rtc_l; [by eapply step_size_done|].
    eapply rtc_once. by eapply step_recv_done.
  - done.
  - done.
  - done.
Qed.

(** The exit code can be lost: after the same answer of the agent the call returns the
    code's error in one run and the error of the cancelled context in another. *)
Theorem exit_code_races conf c : c ≠ "" →
  ∃ s1 s2, rtc exec_step (exec_start conf [inr (Resp_Err c)] [] []) s1 ∧
    rtc exec_step (exec_start conf [inr (Resp_Err c)] [] []) s2 ∧
    exec_finished s1 ∧ exec_finished s2 ∧
    group_err s1 = Some (exit_error c) ∧ group_err s2 = Some ctx_Canceled.
Proof.
  intros Hc. assert (exit_code (Resp_Err c) = Some c) as Hx by (simpl; by rewrite decide_False).
  do 2 eexists. split_and!.
  - eapply rtc_l; [by eapply step_recv_default|].
    eapply rtc_l; [by eapply (step_recv_exit _ _ _ _ 0)|].
    eapply rtc_l; [by eapply step_recv_return|].
    eapply rtc_l; [by eapply step_send_done|].
    eapply rtc_once. by eapply step_size_done.
  - eapply rtc_l; [by eapply step_recv_default|].
    eapply rtc_l; [by eapply (step_recv_exit _ _ _ _ 0)|].
    eapply rtc_l; [by eapply step_send_done|].
    eapply rtc_l; [by eapply step_recv_return|].
    eapply rtc_once. by eapply step_size_done.
  - done.
  - done.
  - done.
  - done.
Qed.

(** A channel that takes nothing more of the output (the user has gone, but keeps his side
    open) is not noticed: the call ends with the command's exit code, as if all had been
    delivered. *)
Theorem failed_writes_go_unnoticed conf out c szs : out ≠ "" → c ≠ "" →
  ∃ s, rtc exec_step (exec_start conf [inr (Resp_Stdout out); inr (Resp_Err c)] [] szs) s ∧
    exec_finished s ∧ group_err s = Some (exit_error c) ∧ seen s = [(false, "")].
Proof.
  intros Ho Hc. assert (exit_code (Resp_Err c) = Some c) as Hx by (simpl; by rewrite decide_False).
  eexists. split.
  - eapply rtc_l; [by eapply step_recv_default|]. eapply rtc_l; [by eapply (step_recv_data _ _ _ 0)|].
    eapply rtc_l; [by eapply step_recv_default|]. eapply rtc_l; [by eapply (step_recv_exit _ _ _ _ 0)|].
    eapply rtc_l; [by eapply step_recv_return|]. eapply rtc_l; [by eapply step_send_done|].
    eapply rtc_once. by eapply step_size_done.
  - split_and!; [done..|]. simpl. rewrite decide_False by done. by destruct out.
Qed.

(** An exit code that the agent prints is read back as that number; a negative one (a
    command killed by a signal, an internal error) becomes an internal error. *)
Theorem exit_code_round_trip code : (- 2 ^ 63 ≤ code < 2 ^ 63)%Z →
  exit_error (Itoa code) =
    if decide (0 ≤ code)%Z then Errno code
    else ErrNew ("internal error: invalid error number: " +:+ Itoa code).
Proof. intros Hr. unfold exit_error. by rewrite Atoi_Itoa, decide_True. Qed.

(** ** Concrete runs *)

Definition demo_exec : KubeExecConfig := MkExecConfig "users" "alice-1" "bash" 1 None false.

Definition demo_start : exec_state :=
  exec_start demo_exec [inr (Resp_Stdout "hi"); inr (Resp_Err "0")] [] [].

(** The agent's output arrives, then its exit code. *)
Lemma demo_run : ∃ s, rtc exec_step demo_start s ∧ exec_finished s ∧ written s = [(false, "hi")].
Proof.
  eexists. split.
  - eapply rtc_l; [by eapply step_recv_default|]. eapply rtc_l; [by eapply (step_recv_data _ _ _ 2)|].
    eapply rtc_l; [by eapply step_recv_default|]. eapply rtc_l; [by eapply (step_recv_exit _ _ _ _ 0)|].
    eapply rtc_l; [by eapply step_recv_return|]. eapply rtc_l; [by eapply step_send_done|].
    eapply rtc_once. by eapply step_size_done.
  - done.
Qed.

Lemma exec_relays_in_order_witness :
  ∃ s, exec_finished s ∧ written s = outputs (received s) ∧ written s = [(false, "hi")].
Proof.
  destruct demo_run as (s & Hr & Hf & Hw). exists s.
  destruct (exec_relays_in_order _ _ _ _ s Hr) as (_ & H & _). split; [exact Hf|split; [exact H|exact Hw]].
Defined.

Lemma exec_never_succeeds_witness : ∃ s, exec_finished s ∧ written s = [(false, "hi")] ∧ group_err s ≠ None.
Proof.
  destruct demo_run as (s & Hr & Hf & Hw). exists s.
  split; [exact Hf|split; [exact Hw|exact (exec_never_succeeds _ _ _ _ s Hr Hf)]].
Defined.

Lemma exec_forwards_one_resize_witness : ∃ s,
  rtc exec_step demo_start s ∧ exec_finished s ∧ (length (resizes (requests s)) ≤ 1)%nat.
Proof.
  destruct demo_run as (s & Hr & Hf & _). exists s.
  split; [exact Hr|split; [exact Hf|exact (exec_forwards_one_resize _ _ _ _ s Hr)]].
Defined.

Lemma demo_cancelled_run : ∃ s, rtc exec_step (cancel demo_start) s ∧ exec_finished s.
Proof.
  eexists. split.
  - eapply rtc_l; [by eapply step_recv_done|]. eapply rtc_l; [by eapply step_send_done|].
    eapply rtc_once. by eapply step_size_done.
  - done.
Qed.

Lemma cancelled_exec_stops_delivery_witness :
  ∃ s, exec_finished s ∧ (length (received s) ≤ 0)%nat.
Proof.
  destruct demo_cancelled_run as (s & Hr & Hf). exists s.
  split; [exact Hf|exact (cancelled_exec_stops_delivery (cancel demo_start) s eq_refl Hr)].
Defined.

Lemma cancelled_exec_can_finish_witness : ∃ s',
  rtc exec_step (cancel demo_start) s' ∧ exec_finished s'.
Proof.
  apply (cancelled_exec_can_finish (cancel demo_start) eq_refl). discriminate.
Defined.

Lemma exit_code_races_witness : ∃ s1 s2,
  exec_finished s1 ∧ exec_finished s2 ∧ group_err s1 = Some (Errno 0) ∧ group_err s2 = Some ctx_Canceled.
Proof.
  assert ("0" ≠ "") as Hc by discriminate.
  destruct (exit_code_races demo_exec "0" Hc) as (s1 & s2 & _ & _ & F1 & F2 & E1 & E2).
  exists s1, s2. split; [exact F1|split; [exact F2|split; [exact E1|exact E2]]].
Defined.

Lemma exit_code_round_trip_witness : exit_error (Itoa 137) = Errno 137.
Proof. apply (exit_code_round_trip 137). split; [discriminate|reflexivity]. Defined.
