(* ===== verification/VmApi.v ===== *)
(** agent/vmapi: the agent in a pod. [WriteFile] and [ReadFile] (file.go) work on a file
    system, [ExecCommandStream], [ExecCommandReturnStream] and [ExecCommand] (exec.go) run
    commands; the operating system's processes are a parameter. The messages are those of
    [ExecStream], the other end of the stream. *)
From S2P Require Import Prelude Config TermSize ExecStream.

(** ** The file system *)

(** A resolved path: its components, the last one first. *)
Abbreviation path := (list string).

(** Directories, and files with their permissions. There are no symbolic links, the
    agent runs as root, in the root directory. *)
Record fs : Type := MkFs { dirs : gset path; files : gmap path (string * Z) }.

Fixpoint path_split (cur s : string) : list string :=
  match s with
  | EmptyString => [cur]
  | String a s' => if decide (a = Ascii.ascii_of_nat 47) then cur :: path_split "" s'
                   else path_split (cur +:+ String a "") s'
  end.

Definition push (acc : path) (c : string) : path :=
  if decide (c = "" ∨ c = ".") then acc
  else if decide (c = "..") then tail acc
  else c :: acc.

Definition resolve_from (acc : path) (s : string) : path := foldl push acc (path_split "" s).
Definition resolve (s : string) : path := resolve_from [] s.

(** [filepath.Join]; the cleaning of the result is left to [resolve]. *)
Definition filepath_Join (dir name : string) : string :=
  if decide (dir = "") then name else if decide (name = "") then dir else dir +:+ "/" +:+ name.

Definition ENOTDIR : error := Errno 20.
Definition EISDIR : error := Errno 21.

Definition is_dir (f : fs) (k : path) : bool := bool_decide (k = [] ∨ k ∈ dirs f).

(** [k] and the directories above it. *)
Fixpoint ancestors (k : path) : list path :=
  match k with [] => [] | _ :: k' => k :: ancestors k' end.

Definition file_above (f : fs) (k : path) : bool :=
  existsb (λ a, bool_decide (is_Some (files f !! a))) (ancestors k).

Definition os_Stat (p : string) : M fs () := λ f,
  let k := resolve p in
  if decide (p = "") then (Fail os_ErrNotExist, f)
  else if is_dir f k || bool_decide (is_Some (files f !! k)) then (Ret (), f)
  else if file_above f k then (Fail ENOTDIR, f)
  else (Fail os_ErrNotExist, f).

Definition os_MkdirAll (p : string) : M fs () := λ f,
  let k := resolve p in
  if decide (p = "") then (Fail os_ErrNotExist, f)
  else if file_above f k then (Fail ENOTDIR, f)
  else (Ret (), MkFs (list_to_set (ancestors k) ∪ dirs f) (files f)).

(** The permissions of a new file: [perm.Perm()]; an existing file keeps its own. *)
Definition Perm (mode : Z) : Z := Z.land mode 511.
Definition os_ModeAppend : Z := 2 ^ 30.

Definition os_WriteFile (p data : string) (perm : Z) : M fs () := λ f,
  let k := resolve p in
  if decide (p = "") then (Fail os_ErrNotExist, f)
  else if is_dir f k then (Fail EISDIR, f)
  else if negb (is_dir f (tail k)) then
    (Fail (if file_above f (tail k) then ENOTDIR else os_ErrNotExist), f)
  else
    let mode := match files f !! k with Some (_, m) => m | None => Perm perm end in
    (Ret (), MkFs (dirs f) (<[k := (data, mode)]> (files f))).

Definition os_ReadFile (p : string) : M fs string := λ f,
  let k := resolve p in
  if decide (p = "") then (Fail os_ErrNotExist, f)
  else if is_dir f k then (Fail EISDIR, f)
  else match files f !! k with
       | Some (data, _) => (Ret data, f)
       | None => (Fail (if file_above f k then ENOTDIR else os_ErrNotExist), f)
       end.

(** ** file.go *)

(** The error of [MkdirAll] is dropped. *)
Definition ensure_dir (Filepath : string) : M fs () :=
  r ← attempt (os_Stat Filepath);
  match r with
  | inl err => if errors_Is err os_ErrNotExist then attempt (os_MkdirAll Filepath);; mret () else mret ()
  | inr _ => mret ()
  end.

Definition WriteFile (Filepath Filename Content : string) : M fs () :=
  ensure_dir Filepath;;
  w ← attempt (os_WriteFile (filepath_Join Filepath Filename) Content os_ModeAppend);
  match w with
  | inl err => fail (ErrStatus "Internal" "file write failed exited with error code")
  | inr _ => mret ()
  end.

Definition ReadFile (Filepath Filename : string) : M fs string :=
  r ← attempt (os_ReadFile (filepath_Join Filepath Filename));
  match r with
  | inl err => fail (ErrStatus "Internal" "file read failed exited with error code")
  | inr content => mret content
  end.

(** ** exec.go *)

(** What [Cmd.Wait] reports of the process itself. *)
Inductive wait_result : Type :=
  | WaitNil
  | WaitExit (code : Z)
  | WaitErr (e : error).

(** A started process: what it writes (to stderr: true) and how it ends. On a terminal,
    [copied] says how much of the output was copied when it ended, since the copying is
    not waited for. Without one, [Wait] also waits for the copying of the input, which
    goes on until the caller's stream ends or a write fails: [input_end] is the error it
    ends with, or [None] when it does not end. *)
Record process : Type := MkProcess {
  chunks : list (bool * string);
  result : wait_result;
  copied : nat;
  input_end : option (option error)
}.

(** The sending side of the stream: what was sent, and the error of a broken stream. *)
Record sending (R : Type) : Type := MkSending { outbox : list R; send_error : option error }.
Arguments MkSending {R}.
Arguments outbox {R}.
Arguments send_error {R}.

Definition Send {R} (r : R) : M (sending R) () := λ s,
  match send_error s with
  | Some e => (Fail e, s)
  | None => (Ret (), MkSending (outbox s ++ [r]) None)
  end.

(** The copying of a process's output to [streamWriterWrapper]s; it returns the first
    error, which [Wait] reports when the process itself ended well. *)
Fixpoint pump {R} (wrap : bool * string → R) (l : list (bool * string)) : M (sending R) (option error) :=
  match l with
  | [] => mret None
  | c :: l' =>
      r ← attempt (Send (wrap c));
      e ← pump wrap l';
      mret (match r with inl e1 => Some e1 | inr _ => e end)
  end.

Definition wait (r : wait_result) (copy_error : option error) : wait_result :=
  match r, copy_error with
  | WaitNil, Some e => WaitErr e
  | _, _ => r
  end.

Definition response (c : bool * string) : exec_response :=
  if c.1 then Resp_Stderr c.2 else Resp_Stdout c.2.

Definition exitCode (r : wait_result) : Z :=
  match r with WaitNil => 0 | WaitExit c => c | WaitErr _ => -1 end.

Section commands.
Variable start : string → list string → bool → error + process.

(** The terminal's output is one stream. *)
Definition ttyCmd (command : string) (args : list string) : M (sending exec_response) wait_result :=
  match start command args true with
  | inl err => mret (WaitErr err)
  | inr p => pump (λ c, Resp_Stdout c.2) (take (copied p) (chunks p));; mret (result p)
  end.

Definition report (cmdErr : wait_result) : M (sending exec_response) () :=
  attempt (Send (Resp_Err (Itoa (exitCode cmdErr))));; mret ().

Definition ExecCommandStream (first : error + exec_request) : M (sending exec_response) () :=
  match first with
  | inl _ => fail (ErrStatus "InvalidArgument" "error receiving input")
  | inr (Req_Command command args tty) =>
      if (tty : bool) then cmdErr ← ttyCmd command args; report cmdErr
      else
        match start command args false with
        | inl err => fail (ErrStatus "Internal" "command exited with error code")
        | inr p =>
            e ← pump response (chunks p);
            match input_end p with
            | None => block
            | Some e' => report (wait (result p) (match e with Some _ => e | None => e' end))
            end
        end
  | inr _ => fail (ErrStatus "InvalidArgument" "no command received")
  end.

Inductive return_response : Type := Resp_Log (m : string) | Resp_Output (o : string).

Definition stdout_of (p : process) : string :=
  String.concat "" (omap (λ c : bool * string, if c.1 then None else Some c.2) (chunks p)).

Definition ExecCommandReturnStream (command : string) (args : list string)
    : M (sending return_response) () :=
  match start command args false with
  | inl err => fail (ErrStatus "Internal" "command exited with error code")
  | inr p =>
      e ← pump (λ c, Resp_Log c.2) (chunks p);
      match wait (result p) e with
      | WaitNil => Send (Resp_Output (stdout_of p))
      | _ => fail (ErrStatus "Internal" "command exited with error code")
      end
  end.

Definition ExecCommand (command : string) (args : list string) : error + string :=
  match start command args false with
  | inl err => inl (ErrStatus "Internal" "command exited with error code")
  | inr p =>
      match result p with
      | WaitNil => inr (stdout_of p)
      | _ => inl (ErrStatus "Internal" "command exited with error code")
      end
  end.
End commands.

(** The goroutine of [ExecCommandStream] that feeds the process: the pipe to its stdin,
    which it reads, and the terminal sizes. *)
Record feeding : Type := MkFeeding {
  piped : list string;
  pipe_closed : option error;
  sizeHandler : TerminalSizeHandler
}.

Definition new_feeding : feeding := MkFeeding [] None (agent_NewTerminalSizeHandler 10).

Fixpoint feed (msgs : list (error + exec_request)) : M feeding () :=
  match msgs with
  | [] => mret ()
  | inl err :: _ => modify (λ f, MkFeeding (piped f) (Some err) (sizeHandler f))
  | inr (Req_Stdin input) :: msgs' =>
      modify (λ f, MkFeeding (piped f ++ [input]) (pipe_closed f) (sizeHandler f));; feed msgs'
  | inr (Req_Termsize width height) :: msgs' =>
      attempt (zoom sizeHandler (λ h f, MkFeeding (piped f) (pipe_closed f) h)
        (agent_Fill (MkSize (to_uint16 width) (to_uint16 height))));;
      feed msgs'
  | inr (Req_Command _ _ _) :: msgs' => feed msgs'
  end.

(** ** Lemmas *)

Lemma os_WriteFile_Ret p c perm f f' : os_WriteFile p c perm f = (Ret (), f') →
  p ≠ "" ∧ is_dir f (resolve p) = false ∧ dirs f' = dirs f ∧
  files f' = <[resolve p := (c, match files f !! resolve p with Some (_, m) => m | None => Perm perm end)]>
    (files f).
Proof.
  unfold os_WriteFile. destruct (decide (p = "")); [done|].
  destruct (is_dir f (resolve p)) eqn:E; [done|].
  destruct (negb _); [done|]. by intros [= <-].
Qed.

(** The directory is made when it is missing, and no file is touched by that. *)
Lemma ensure_dir_spec d f r f' :
  ensure_dir d f = (r, f') → r = Ret () ∧ files f' = files f ∧ dirs f ⊆ dirs f'.
Proof.
  unfold ensure_dir, os_Stat, os_MkdirAll, attempt, mbind, M_bind, mret, M_ret.
  repeat (case_match; simplify_eq/=); intros; simplify_eq/=; (split_and!; [done|done|set_solver]).
Qed.

Lemma WriteFile_Ret d n c f f' : WriteFile d n c f = (Ret (), f') →
  ∃ f1, files f1 = files f ∧ dirs f ⊆ dirs f1 ∧
    os_WriteFile (filepath_Join d n) c os_ModeAppend f1 = (Ret (), f').
Proof.
  intros ([] & f1 & E1 & E)%bind_Ret_inv. apply ensure_dir_spec in E1 as (_ & Hf & Hd).
  exists f1. split_and!; [done..|]. unfold attempt, mbind, M_bind in E.
  destruct (os_WriteFile _ _ _ f1) as [[[]|e| |] f2]; by simplify_eq/=.
Qed.

Lemma pump_open {R} (wrap : bool * string → R) l s : send_error s = None →
  pump wrap l s = (Ret None, MkSending (outbox s ++ (wrap <$> l)) None).
Proof.
  revert s; induction l as [|c l IH]; intros [o e] He; simpl in *; subst e.
  - by rewrite app_nil_r.
  - unfold attempt, mbind, M_bind, Send. simpl. rewrite IH by done. simpl. by rewrite <-app_assoc.
Qed.

Lemma stream_eq start command args p s :
  start command args false = inr p → send_error s = None →
  ExecCommandStream start (inr (Req_Command command args false)) s =
    match input_end p with
    | None => (Blocked, MkSending (outbox s ++ (response <$> chunks p)) None)
    | Some e => (Ret (), MkSending (outbox s ++ (response <$> chunks p) ++
                   [Resp_Err (Itoa (exitCode (wait (result p) e)))]) None)
    end.
Proof.
  intros Hs Ho. simpl. rewrite Hs. rewrite (bind_Ret _ _ _ _ _ (pump_open response (chunks p) s Ho)).
  destruct (input_end p); [|done].
  unfold report, attempt, Send, mbind, M_bind, mret, M_ret. simpl. by rewrite <-app_assoc.
Qed.

Lemma feed_loop msgs szs f q : Forall (λ d, 0 ≤ Width d < 2 ^ 16 ∧ 0 ≤ Height d < 2 ^ 16)%Z szs →
    resizes msgs = (λ d, (to_int32 (Width d), to_int32 (Height d))) <$> szs →
    is_fifo (sizeHandler f) q → ended q = false → (length (items q) + length szs ≤ bound q)%nat →
    ∃ f', feed (inr <$> msgs) f = (Ret (), f') ∧ piped f' = piped f ++ stdin_chunks msgs ∧
      ch_buf (queue (sizeHandler f')) = items q ++ szs.
Proof.
  revert szs f q. induction msgs as [|m msgs IH]; intros szs f q Hr Hm Hq He Hl; simpl in *.
  - destruct szs; [|done]. exists f. rewrite !app_nil_r. by destruct Hq as [-> _].
  - destruct m as [c a t|b|w h]; simpl in *.
    + apply (IH szs f q); done.
    + destruct (IH szs (MkFeeding (piped f ++ [b]) (pipe_closed f) (sizeHandler f)) q) as (f' & E & Hp & Hb);
        [done..|]. exists f'. split; [exact E|]. simpl in Hp. by rewrite Hp, <-app_assoc.
    + destruct szs as [|d szs]; [done|]. apply Forall_cons in Hr as [[Hw Hh] Hr].
      injection Hm as -> -> Hm.
      assert (MkSize (to_uint16 (to_int32 (Width d))) (to_uint16 (to_int32 (Height d))) = d) as ->.
      { rewrite !to_int32_id, !to_uint16_id by lia. by destruct d. }
      simpl in Hl. unfold mbind, M_bind, attempt, zoom, agent_Fill. rewrite (Fill_eq d _ _ Hq). simpl.
      rewrite He. rewrite decide_True by lia. simpl.
      destruct (IH szs (MkFeeding (piped f) (pipe_closed f)
        (MkHandler (GoChan (items q ++ [d]) (bound q) false) false (bound q)))
        (MkFifo (items q ++ [d]) false (bound q))) as (f' & E & Hp & Hb); simpl;
        [done|done|by split; simpl; [|rewrite length_app; simpl; lia]|done|rewrite length_app; simpl; lia|].
      exists f'. split_and!; [exact E|exact Hp|]. simpl in Hb. by rewrite Hb, <-app_assoc.
Qed.

(** ** Theorems *)

(** What [WriteFile] has stored, [ReadFile] returns. *)
Theorem WriteFile_then_ReadFile d n c f f' : WriteFile d n c f = (Ret (), f') →
  ReadFile d n f' = (Ret c, f').
Proof.
  intros (f1 & _ & _ & (Hp & Hd & Hdirs & Hf)%os_WriteFile_Ret)%WriteFile_Ret.
  assert (is_dir f' (resolve (filepath_Join d n)) = false) as Hd'.
  { unfold is_dir in *. by rewrite Hdirs. }
  unfold ReadFile, os_ReadFile, attempt, mbind, M_bind.
  by rewrite decide_False, Hd', Hf, lookup_insert_eq by done.
Qed.

(** [WriteFile] replaces the whole content of the one file that the joined path
    resolves to, and of no other. A new file gets no permission at all, since the
    mode that is passed, [os.ModeAppend], has no permission bits and does not append. *)
Theorem WriteFile_replaces_one_file d n c f f' : WriteFile d n c f = (Ret (), f') →
  let k := resolve (filepath_Join d n) in
  files f' = <[k := (c, match files f !! k with Some (_, m) => m | None => 0%Z end)]> (files f) ∧
  dirs f ⊆ dirs f'.
Proof.
  intros (f1 & Hf1 & Hd1 & (_ & _ & Hdirs & Hf)%os_WriteFile_Ret)%WriteFile_Ret k.
  rewrite Hf, Hf1, Hdirs. by split.
Qed.

(** On an intact stream a command without a terminal has its whole output forwarded in
    order. Then, once the caller's input has ended, its exit code follows (-1 when the
    process or the copying could not be waited for) and the call succeeds whatever the
    code is; as long as it has not, the call hangs, even after the
    end of the process, and no exit code is sent. *)
Theorem ExecCommandStream_relays start command args p s :
  start command args false = inr p → send_error s = None →
  ExecCommandStream start (inr (Req_Command command args false)) s =
    match input_end p with
    | None => (Blocked, MkSending (outbox s ++ (response <$> chunks p)) None)
    | Some e => (Ret (), MkSending (outbox s ++ (response <$> chunks p) ++
                   [Resp_Err (match result p, e with
                              | WaitNil, None => "0"
                              | WaitExit code, _ => Itoa code
                              | _, _ => "-1"
                              end)]) None)
    end.
Proof.
  intros Hs Ho. rewrite (stream_eq _ _ _ _ _ Hs Ho).
  destruct (input_end p) as [e|]; [|done]. by destruct (result p), e.
Qed.

(** The exit code crosses the stream: what the caller's [CreateExecInPodgRPC] makes of
    the last message is the number of the process's code, whatever it is, even 0. *)
Theorem exit_code_crosses_the_stream start command args p s code :
  start command args false = inr p → send_error s = None → input_end p = Some None →
  result p = WaitExit code ∨ (result p = WaitNil ∧ code = 0%Z) → (0 ≤ code < 2 ^ 63)%Z →
  ∃ s' c, ExecCommandStream start (inr (Req_Command command args false)) s = (Ret (), s') ∧
    last (outbox s') = Some (Resp_Err c) ∧ exit_error c = Errno code.
Proof.
  intros Hs Ho Hi Hr Hc. assert (exitCode (wait (result p) None) = code) as Hx by (by destruct Hr as [-> | [-> ->]]).
  eexists _, (Itoa code). split_and!.
  - rewrite (stream_eq _ _ _ _ _ Hs Ho), Hi, Hx. done.
  - simpl. by rewrite app_assoc, last_snoc.
  - unfold exit_error. rewrite Atoi_Itoa, !decide_True by lia. done.
Qed.

(** The streaming and the plain call run the same command to the same end: on an
    intact stream the one succeeds with an output exactly when the other does. *)
Theorem ExecCommand_agrees_with_stream start command args s o : send_error s = None →
  ExecCommand start command args = inr o ↔
  ∃ logs, ExecCommandReturnStream start command args s =
    (Ret (), MkSending (outbox s ++ (Resp_Log <$> logs) ++ [Resp_Output o]) None).
Proof.
  intros Ho. unfold ExecCommand, ExecCommandReturnStream. destruct (start command args false) as [e|p].
  { split; [done|]. by intros [? [=]]. }
  rewrite (bind_Ret _ _ _ _ _ (pump_open (λ c, Resp_Log c.2) (chunks p) s Ho)).
  destruct (result p); simpl; [|split; [done|by intros [? [=]]]..]. split.
  - intros [= <-]. exists (snd <$> chunks p). unfold Send. simpl.
    by rewrite <-list_fmap_compose, <-app_assoc.
  - intros [logs E]. unfold Send in E. simpl in E. injection E as E.
    rewrite <-app_assoc in E. apply app_inj_1 in E as [_ E]; [|done].
    assert (∀ a b c d, a ++ [Resp_Output b] = c ++ [Resp_Output d] → b = d) as Hl.
    { intros a b c d Hx. apply app_inj_2 in Hx as [_ [= ->]]; done. }
    by apply Hl in E as ->.
Qed.

(** What the caller sends reaches the process: its input in order, and the terminal
    sizes, which survive the conversions to 32 and back to 16 bits, up to the ten the
    queue holds. *)
Theorem feed_gets_input_and_sizes msgs szs :
  Forall (λ d, 0 ≤ Width d < 2 ^ 16 ∧ 0 ≤ Height d < 2 ^ 16)%Z szs → (length szs ≤ 10)%nat →
  resizes msgs = (λ d, (to_int32 (Width d), to_int32 (Height d))) <$> szs →
  ∃ f, feed (inr <$> msgs) new_feeding = (Ret (), f) ∧
    piped f = stdin_chunks msgs ∧ ch_buf (queue (sizeHandler f)) = szs.
Proof.
  intros Hr Hlen Hm.
  apply (feed_loop msgs szs new_feeding (MkFifo [] false 10) Hr Hm); [split; simpl; [done|lia]|done|simpl; lia].
Qed.

(** ** Concrete runs *)

Definition home_fs : fs := MkFs {[ ["home"] ]} {[ ["passwd"; "etc"] := ("root", 420%Z) ]}.

(** The name of a file may lead out of the directory. *)
Example name_leads_out : resolve (filepath_Join "/home/user" "../../etc/passwd") = ["passwd"; "etc"].
Proof. reflexivity. Qed.

Definition written_fs : fs := (WriteFile "/home/user" "key" "secret" home_fs).2.

Lemma written_ok : WriteFile "/home/user" "key" "secret" home_fs = (Ret (), written_fs).
Proof. unfold written_fs. apply ran. vm_compute. reflexivity. Qed.

Lemma WriteFile_then_ReadFile_witness :
  ReadFile "/home/user" "key" written_fs = (Ret "secret", written_fs).
Proof. exact (WriteFile_then_ReadFile "/home/user" "key" "secret" _ _ written_ok). Defined.

Lemma WriteFile_replaces_one_file_witness :
  files written_fs = <[ ["key"; "user"; "home"] := ("secret", 0%Z) ]> (files home_fs).
Proof. exact (proj1 (WriteFile_replaces_one_file "/home/user" "key" "secret" _ _ written_ok)). Defined.

(** A shell that prints a line on each stream and exits with code 3. *)
Definition shell (command : string) (args : list string) (tty : bool) : error + process :=
  inr (MkProcess [(false, "out"); (true, "err")] (if decide (command = "true") then WaitNil else WaitExit 3) 1 (Some None)).
Definition idle {R} : sending R := MkSending [] None.

Lemma ExecCommandStream_relays_witness :
  ExecCommandStream shell (inr (Req_Command "false" [] false)) idle =
    (Ret (), MkSending [Resp_Stdout "out"; Resp_Stderr "err"; Resp_Err "3"] None).
Proof. exact (ExecCommandStream_relays shell "false" [] _ idle eq_refl eq_refl). Defined.

Lemma exit_code_crosses_the_stream_witness : ∃ s' c,
  ExecCommandStream shell (inr (Req_Command "false" [] false)) idle = (Ret (), s') ∧
  last (outbox s') = Some (Resp_Err c) ∧ exit_error c = Errno 3.
Proof.
  apply (exit_code_crosses_the_stream shell "false" [] _ idle 3 eq_refl eq_refl eq_refl
    (or_introl eq_refl)).
  split; [discriminate|reflexivity].
Defined.

Lemma ExecCommand_agrees_with_stream_witness :
  ∃ logs, ExecCommandReturnStream shell "true" [] idle =
    (Ret (), MkSending ((Resp_Log <$> logs) ++ [Resp_Output "out"]) None).
Proof.
  exact (proj1 (ExecCommand_agrees_with_stream shell "true" [] idle "out" eq_refl) eq_refl).
Defined.

Lemma feed_gets_input_and_sizes_witness : ∃ f,
  feed (inr <$> [Req_Stdin "ls"; Req_Termsize 80 24]) new_feeding = (Ret (), f) ∧
  piped f = ["ls"] ∧ ch_buf (queue (sizeHandler f)) = [MkSize 80 24].
Proof.
  apply (feed_gets_input_and_sizes [Req_Stdin "ls"; Req_Termsize 80 24] [MkSize 80 24]).
  - repeat constructor; simpl; lia.
  - simpl. lia.
  - reflexivity.
Defined.
