(* ===== verification/AgentTty.v ===== *)
(** agent/vmapi/exec.go: a command with a terminal. Beside [ttyCmd], which waits for the
    process, three goroutines run: the one of [ExecCommandStream] that receives the caller's
    messages ([VmApi.feed]), the copy of the input to the terminal, and the loop that takes
    sizes out of the queue and sets them. A step is one message, one call of the loop, or
    the return of [ttyCmd], which closes the terminal. *)
From S2P Require Import Prelude TermSize ExecStream VmApi.

(** [unix.Winsize], as it is set on the terminal: rows and columns. *)
Definition winsize_of (size : TerminalSize) : Z * Z := (Height size, Width size).

(** The ioctl fails once the terminal is closed, and the error is logged. *)
Definition setSize (fd_open : bool) (size : TerminalSize) (winsizes : list (Z * Z)) : list (Z * Z) :=
  if fd_open then winsizes ++ [winsize_of size] else winsizes.

(** The loop: in [Next], with its result, or after the dereference of a nil size. *)
Inductive size_loop : Type := InNext | Got (size : option TerminalSize) | Crashed.

(** [copying] is the copy of the input. *)
Record tty_state : Type := MkTty {
  unreceived : list exec_request;
  fed : feeding;
  copying : bool;
  sizes_at : size_loop;
  fd_open : bool;
  winsizes : list (Z * Z)
}.

Definition set_handler (h : TerminalSizeHandler) (f : feeding) : feeding :=
  MkFeeding (piped f) (pipe_closed f) h.

(** The pipe has no buffer: a message of input is received only while it is copied, and the
    copy ends with its first write to a closed terminal. *)
Inductive tty_step : tty_state → tty_state → Prop :=
  | tty_input data l f at_ ws :
      tty_step (MkTty (Req_Stdin data :: l) f true at_ true ws)
               (MkTty l (feed [inr (Req_Stdin data)] f).2 true at_ true ws)
  | tty_input_lost data l f at_ ws :
      tty_step (MkTty (Req_Stdin data :: l) f true at_ false ws) (MkTty l f false at_ false ws)
  | tty_resize w h l f c at_ o ws :
      tty_step (MkTty (Req_Termsize w h :: l) f c at_ o ws)
               (MkTty l (feed [inr (Req_Termsize w h)] f).2 c at_ o ws)
  | tty_command cmd args tty l f c at_ o ws :
      tty_step (MkTty (Req_Command cmd args tty :: l) f c at_ o ws) (MkTty l f c at_ o ws)
  | tty_next l f c o ws size h : agent_Next (sizeHandler f) = (Ret size, h) →
      tty_step (MkTty l f c InNext o ws) (MkTty l (set_handler h f) c (Got size) o ws)
  | tty_set l f c o ws size :
      tty_step (MkTty l f c (Got (Some size)) o ws) (MkTty l f c InNext o (setSize o size ws))
  | tty_set_nil l f c o ws :
      tty_step (MkTty l f c (Got None) o ws) (MkTty l f c Crashed o ws)
  | tty_exit l f c at_ ws :
      tty_step (MkTty l f c at_ true ws) (MkTty l f c at_ false ws).

(** When the process is started; [msgs] is what the caller sends. *)
Definition tty_start (msgs : list exec_request) : tty_state :=
  MkTty msgs new_feeding true InNext true [].

(** ** Lemmas *)

(** The sizes that messages ask for. *)
Definition asked (msgs : list exec_request) : list TerminalSize :=
  flat_map (λ q, match q with Req_Termsize w h => [MkSize (to_uint16 w) (to_uint16 h)] | _ => [] end) msgs.

Lemma asked_app l1 l2 : asked (l1 ++ l2) = asked l1 ++ asked l2.
Proof. apply flat_map_app. Qed.

Definition in_loop (a : size_loop) : list TerminalSize := match a with Got (Some d) => [d] | _ => [] end.

(** The handler is an open queue of ten with these sizes. *)
Definition holds_sizes (h : TerminalSizeHandler) (q : list TerminalSize) : Prop := is_fifo h (MkFifo q false 10).

(** One size in: it is put at the end, or refused by the full queue. *)
Lemma feed_size w h f q : holds_sizes (sizeHandler f) q →
  ∃ q', holds_sizes (sizeHandler (feed [inr (Req_Termsize w h)] f).2) q' ∧
    let d := MkSize (to_uint16 w) (to_uint16 h) in
    (q' = q ++ [d] ∨ q' = q ∧ length q = 10%nat).
Proof.
  intros Hq. pose proof (Fill_eq (MkSize (to_uint16 w) (to_uint16 h)) _ _ Hq) as E.
  cbn [feed]. unfold attempt, zoom, agent_Fill, mbind, M_bind. rewrite E. destruct Hq as [Hh Hl]. simpl in *.
  destruct (decide (length q < 10)%nat) as [Hf|Hf]; simpl.
  - exists (q ++ [MkSize (to_uint16 w) (to_uint16 h)]). split; [|by left]. split; [done|].
    simpl. rewrite length_app. simpl. lia.
  - exists q. split; [by split|right; split; [done|lia]].
Qed.

(** One size out. *)
Lemma next_size h q size h' : holds_sizes h q → agent_Next h = (Ret size, h') →
  ∃ d q', q = d :: q' ∧ size = Some d ∧ holds_sizes h' q'.
Proof.
  intros [-> Hl] E. unfold agent_Next, Next, zoom, ch_recv in E. simpl in *.
  destruct q as [|d q]; [done|]. injection E as <- <-. exists d, q. split_and!; [done..|]. split; [done|]. simpl in *. lia.
Qed.

Lemma sublist_fmap {A B} (f : A → B) l1 l2 : l1 `sublist_of` l2 → (f <$> l1) `sublist_of` (f <$> l2).
Proof. induction 1; simpl; by constructor. Qed.

(** What became of the sizes asked for: [acc] were accepted, of which [pre] have left the
    loop again. *)
Definition tty_inv (msgs : list exec_request) (s : tty_state) : Prop :=
  ∃ recvd acc pre q, msgs = recvd ++ unreceived s ∧ acc `sublist_of` asked recvd ∧
    (length (asked msgs) ≤ 10 → acc = asked recvd)%nat ∧
    acc = pre ++ in_loop (sizes_at s) ++ q ∧ holds_sizes (sizeHandler (fed s)) q ∧
    winsizes s `prefix_of` (winsize_of <$> pre) ∧ (fd_open s = true → winsizes s = winsize_of <$> pre) ∧
    sizes_at s ≠ Got None ∧ sizes_at s ≠ Crashed ∧ (fd_open s = true → copying s = true).

Lemma tty_inv_start msgs : tty_inv msgs (tty_start msgs).
Proof. exists [], [], [], []. split_and!; simpl; try done; [split; simpl; [done|lia]]. Qed.

(** A message that asks for no size. *)
Lemma tty_inv_received msgs q l f f' c c' at_ o ws :
  asked [q] = [] → sizeHandler f' = sizeHandler f → (o = true → c = true → c' = true) →
  tty_inv msgs (MkTty (q :: l) f c at_ o ws) → tty_inv msgs (MkTty l f' c' at_ o ws).
Proof.
  intros Hq Hf Hc (recvd & acc & pre & qs & -> & Hs & Hall & Ha & Hh & Hw & Ho & Hn & Hcr & Hcp).
  assert (asked (recvd ++ [q]) = asked recvd) as E by (by rewrite asked_app, Hq, app_nil_r).
  exists (recvd ++ [q]), acc, pre, qs. rewrite E. simpl in *. rewrite Hf, <-app_assoc. split_and!; auto.
Qed.

Lemma tty_inv_step msgs s s' : tty_inv msgs s → tty_step s s' → tty_inv msgs s'.
Proof.
  intros Hi Hs. destruct Hs as [data l f at_ ws|data l f at_ ws|w h l f c at_ o ws|cmd args tty l f c at_ o ws
    |l f c o ws size h En|l f c o ws size|l f c o ws|l f c at_ ws].
  - by eapply tty_inv_received; [| | |exact Hi].
  - by eapply tty_inv_received; [| | |exact Hi].
  - destruct Hi as (recvd & acc & pre & qs & -> & Hs & Hall & Ha & Hh & Hw & Ho & Hn & Hcr & Hc). simpl in *.
    destruct (feed_size w h _ _ Hh) as (q' & Hh' & Hq). simpl in Hq. set (d := MkSize _ _) in Hq.
    assert (asked (recvd ++ [Req_Termsize w h]) = asked recvd ++ [d]) as E by apply asked_app.
    exists (recvd ++ [Req_Termsize w h]), (pre ++ in_loop at_ ++ q'), pre, q'. rewrite E. simpl.
    rewrite <-app_assoc. split_and!; try done.
    + destruct Hq as [->|[-> _]]; [|rewrite <-Ha; by apply sublist_inserts_r].
      rewrite (app_assoc _ qs), (app_assoc pre), <-Ha. by apply sublist_app.
    + intros Hlen. destruct Hq as [->|[-> Hfull]].
      * rewrite (app_assoc _ qs), (app_assoc pre), <-Ha, Hall by done. done.
      * exfalso. pose proof (Hall Hlen) as Hr. change (Req_Termsize w h :: l) with ([Req_Termsize w h] ++ l) in Hlen.
        rewrite !asked_app, !length_app, <-Hr, Ha, !length_app in Hlen. simpl in Hlen. lia.
  - by eapply tty_inv_received; [| | |exact Hi].
  - destruct Hi as (recvd & acc & pre & qs & -> & Hs & Hall & Ha & Hh & Hw & Ho & Hn & Hcr & Hc). simpl in *.
    destruct (next_size _ _ _ _ Hh En) as (d & q' & -> & -> & Hh'). exists recvd, acc, pre, q'. by split_and!.
  - destruct Hi as (recvd & acc & pre & qs & -> & Hs & Hall & Ha & Hh & Hw & Ho & Hn & Hcr & Hc). simpl in *.
    exists recvd, acc, (pre ++ [size]), qs. simpl. rewrite fmap_app, <-app_assoc. split_and!; try done.
    + destruct o; simpl; [by rewrite Ho|]. by apply prefix_app_r.
    + intros ->. simpl. by rewrite Ho.
  - by destruct Hi as (?&?&?&?&_&_&_&_&_&_&_&Hn&_).
  - destruct Hi as (recvd & acc & pre & qs & Hi). exists recvd, acc, pre, qs. simpl in *. naive_solver.
Qed.

Lemma tty_reachable msgs s : rtc tty_step (tty_start msgs) s → tty_inv msgs s.
Proof.
  intros Hr. apply (rtc_invariant tty_step (tty_inv msgs) (tty_start msgs)); [|apply tty_inv_start|done].
  intros s1 s2. apply tty_inv_step.
Qed.

(** What is left to do. *)
Definition tty_left (s : tty_state) : nat :=
  (3 * length (unreceived s) + 2 * length (ch_buf (queue (sizeHandler (fed s)))) +
   match sizes_at s with Got _ => 1 | Crashed => 0 | InNext => 0 end + if fd_open s then 1 else 0)%nat.

Lemma tty_left_step msgs s s' : tty_inv msgs s → tty_step s s' → (tty_left s' < tty_left s)%nat.
Proof.
  intros (recvd & acc & pre & qs & _ & _ & _ & _ & Hh & _) Hs. unfold tty_left.
  destruct Hs; cbn [unreceived fed sizes_at fd_open] in *; try (simpl; lia).
  - destruct (feed_size w h f qs Hh) as (q' & [-> _] & Hq). destruct Hh as [-> _]. simpl.
    destruct Hq as [->|[-> _]]; rewrite ?length_app; simpl; lia.
  - match goal with H : agent_Next _ = _ |- _ => destruct (next_size _ _ _ _ Hh H) as (d & q' & -> & -> & [-> _]) end.
    destruct Hh as [-> _]. simpl. lia.
Qed.

(** ** Theorems *)

(** C28: in every interleaving the sizes that are set on the terminal are sizes the caller has
    asked for, in that order, rows and columns in their places; and of up to ten of them
    none is lost: when nothing is left to happen but the end of the process, all were set. *)
Theorem resizes_reach_the_terminal msgs s : rtc tty_step (tty_start msgs) s →
  winsizes s `sublist_of` (winsize_of <$> asked msgs) ∧
  ((length (asked msgs) ≤ 10)%nat → fd_open s = true → (∀ s', tty_step s s' → fd_open s' = false) →
     winsizes s = winsize_of <$> asked msgs).
Proof.
  intros (recvd & acc & pre & qs & -> & Hs & Hall & -> & Hh & Hw & Ho & Hn & Hcr & Hc)%tty_reachable. split.
  - destruct Hw as [k Hk]. rewrite asked_app, fmap_app. apply sublist_inserts_r.
    etrans; [|by apply sublist_fmap]. rewrite fmap_app, Hk, <-app_assoc. by apply sublist_inserts_r.
  - intros Hlen Hfd Hq. destruct s as [l f c at_ o ws]. simpl in *. subst o. rewrite Hc in Hq by done.
    assert (at_ = InNext) as ->.
    { destruct at_ as [|[d|]|]; [done| |done|done]. by specialize (Hq _ (tty_set _ _ _ _ _ _)). }
    assert (l = []) as ->.
    { destruct l as [|[cmd args tty|data|w h] l]; [done|..].
      - by specialize (Hq _ (tty_command _ _ _ _ _ _ _ _ _)).
      - by specialize (Hq _ (tty_input _ _ _ _ _)).
      - by specialize (Hq _ (tty_resize _ _ _ _ _ _ _ _)). }
    assert (qs = []) as ->.
    { destruct qs as [|d qs]; [done|]. destruct Hh as [Hh _].
      specialize (Hq _ (tty_next _ _ _ _ _ (Some d) (MkHandler (GoChan qs 10 false) false 10) ltac:(by rewrite Hh))). done. }
    specialize (Hall Hlen). simpl in Hall. rewrite !app_nil_r in *. by rewrite Ho, Hall by done.
Qed.

(** The goroutines of a terminal come to rest, and none dereferences a nil size; but the
    loop of the sizes does not end: it is left in [Next], for nobody closes the queue. And
    input after the end of the process leaves the receiving goroutine in a write that
    nobody reads. *)
Theorem size_loop_never_ends msgs :
  sn tty_step (tty_start msgs) ∧
  ∀ s, rtc tty_step (tty_start msgs) s → sizes_at s ≠ Crashed ∧ closed (sizeHandler (fed s)) = false ∧
    ((∀ s', ¬ tty_step s s') → sizes_at s = InNext ∧ (agent_Next (sizeHandler (fed s))).1 = Blocked ∧
       (unreceived s = [] ∨ copying s = false ∧ ∃ data l, unreceived s = Req_Stdin data :: l)).
Proof.
  split; [apply (sn_measure_in _ (tty_inv msgs) tty_left), tty_inv_start|].
  { intros x y Hx Hxy. split; [by eapply tty_inv_step|by eapply tty_left_step]. }
  intros s (recvd & acc & pre & qs & -> & _ & _ & _ & Hh & _ & _ & Hn & Hcr & Hc)%tty_reachable.
  split; [done|]. split; [by destruct Hh as [-> _]|]. intros Hq. destruct s as [l f c at_ o ws]. simpl in *.
  split_and!.
  - destruct at_ as [|[d|]|]; [done| |done|done]. by destruct (Hq _ (tty_set _ _ _ _ _ _)).
  - assert (at_ = InNext) as ->.
    { destruct at_ as [|[d|]|]; [done| |done|done]. by destruct (Hq _ (tty_set _ _ _ _ _ _)). }
    destruct (agent_Next _) as [[size|e| |] h] eqn:E; [by destruct (Hq _ (tty_next _ _ _ _ _ _ _ E))|..|done];
      unfold agent_Next, Next, zoom, ch_recv in E; destruct Hh as [Hh _]; rewrite Hh in E; by destruct qs.
  - destruct l as [|[cmd args tty|data|w h] l]; [by left|..].
    + by destruct (Hq _ (tty_command _ _ _ _ _ _ _ _ _)).
    + destruct o; [rewrite Hc in Hq by done; by destruct (Hq _ (tty_input _ _ _ _ _))|].
      destruct c; [by destruct (Hq _ (tty_input_lost _ _ _ _ _))|]. right. split; [done|]. by exists data, l.
    + by destruct (Hq _ (tty_resize _ _ _ _ _ _ _ _)).
Qed.

(** ** A concrete run *)

Lemma resizes_reach_the_terminal_witness : ∃ s,
  rtc tty_step (tty_start [Req_Stdin "ls"; Req_Termsize 80 24]) s ∧ winsizes s = [(24, 80)%Z] ∧ piped (fed s) = ["ls"].
Proof.
  set (f := (feed [inr (Req_Stdin "ls"); inr (Req_Termsize 80 24)] new_feeding).2).
  set (s := MkTty [] (set_handler (agent_NewTerminalSizeHandler 10) f) true InNext true [(24, 80)%Z]).
  assert (rtc tty_step (tty_start [Req_Stdin "ls"; Req_Termsize 80 24]) s) as Hr.
  { eapply rtc_l; [apply tty_input|]. eapply rtc_l; [apply tty_resize|].
    eapply rtc_l; [apply (tty_next _ _ _ _ _ (Some (MkSize 80 24)) (agent_NewTerminalSizeHandler 10)); reflexivity|].
    apply rtc_once. exact (tty_set [] _ true true [] (MkSize 80 24)). }
  exists s. split; [exact Hr|]. split; [|reflexivity].
  refine (proj2 (resizes_reach_the_terminal [Req_Stdin "ls"; Req_Termsize 80 24] s Hr) _ eq_refl _).
  - apply Nat.leb_le. reflexivity.
  - intros s' Hs. by inversion Hs.
Defined.
