(* ===== verification/ExecEndToEnd.v ===== *)
(** A remote command from end to end: the relay's [CreateExecInPodgRPC] ([ExecStream]), the
    agent's [ExecCommandStream] ([VmApi]) at the other end of the gRPC stream, and the process
    that the agent has started, all running at once.

    A step of a call ([call_step]) is one of the relay, of the process (it writes, or ends),
    or of the agent: it copies a piece of the output to the stream, passes a piece of the
    input on, or reports the end. What the agent sends is what the relay's [Recv] yields, in
    order; what the relay sends is what the agent has to pass on. *)
From S2P Require Import Prelude Config TermSize ExecStream VmApi.

(** ** The composition *)

(** The agent and its process: the output that was copied to the stream and what waits in the
    pipes (or the terminal), the end of the process, how many pieces of the input it was
    given, the end of the copying of the input with its error, what was sent, and whether the
    agent's side of the stream is over. *)
Record agent_state : Type := MkAgent {
  out_copied : list (bool * string);
  out_pending : list (bool * string);
  process_end : option wait_result;
  input_taken : nat;
  input_over : option (option error);
  sent : list (error + exec_response);
  over : bool
}.

Record call_state : Type := MkCall { relay : exec_state; agent : agent_state }.

(** What arrives at the relay. *)
Definition to_relay (l : list (error + exec_response)) (s : exec_state) : exec_state :=
  MkExec (inbox s ++ l) (stdin s) (sizes s) (received s) (written s) (seen s) (requests s) (receiver s)
    (copier s) (errChan s) (sender_done s) (size_queue s) (size_pump s) (size_done s) (ctx_done s) (group_err s).

Definition set_output (c p : list (bool * string)) (a : agent_state) : agent_state :=
  MkAgent c p (process_end a) (input_taken a) (input_over a) (sent a) (over a).
Definition set_end (x : wait_result) (a : agent_state) : agent_state :=
  MkAgent (out_copied a) (out_pending a) (Some x) (input_taken a) (input_over a) (sent a) (over a).
Definition set_input (n : nat) (e : option (option error)) (a : agent_state) : agent_state :=
  MkAgent (out_copied a) (out_pending a) (process_end a) n e (sent a) (over a).

(** The agent sends, and may have nothing more to send. *)
Definition agent_sends (l : list (error + exec_response)) (last : bool) (s : exec_state) (a : agent_state) : call_state :=
  MkCall (to_relay l s)
    (MkAgent (out_copied a) (out_pending a) (process_end a) (input_taken a) (input_over a) (sent a ++ l) last).

(** A piece of the output as a message: the terminal's output is one stream. *)
Definition message (tty : bool) (c : bool * string) : exec_response :=
  if tty then Resp_Stdout c.2 else response c.

(** The code that is sent after the output. *)
Definition final_code (tty : bool) (a : agent_state) : Z :=
  match process_end a with
  | Some x => exitCode (if tty then x else wait x (default None (input_over a)))
  | None => 0
  end.

(** Without a terminal [Wait] also waits for the copying of the whole output, and of the input. *)
Definition may_report (tty : bool) (a : agent_state) : Prop :=
  is_Some (process_end a) ∧ (tty = false → out_pending a = [] ∧ is_Some (input_over a)).

Inductive call_step (tty : bool) : call_state → call_state → Prop :=
  | call_relay s s' a :
      exec_step s s' → call_step tty (MkCall s a) (MkCall s' a)
  (* the process *)
  | call_writes c s a :
      process_end a = None →
      call_step tty (MkCall s a) (MkCall s (set_output (out_copied a) (out_pending a ++ [c]) a))
  | call_exits x s a :
      process_end a = None → call_step tty (MkCall s a) (MkCall s (set_end x a))
  (* the copying of the output *)
  | call_copies c l s a :
      out_pending a = c :: l → over a = false →
      call_step tty (MkCall s a)
        (agent_sends [inr (message tty c)] false s (set_output (out_copied a ++ [c]) l a))
  (* the copying of the input: a write, a write that fails (nil for a process that has closed
     its end), or the end of the caller's stream once the call has returned *)
  | call_input s a :
      input_over a = None → (input_taken a < length (stdin_chunks (requests s)))%nat →
      call_step tty (MkCall s a) (MkCall s (set_input (S (input_taken a)) None a))
  | call_input_fails e s a :
      input_over a = None → (input_taken a < length (stdin_chunks (requests s)))%nat →
      call_step tty (MkCall s a) (MkCall s (set_input (input_taken a) (Some e) a))
  | call_input_ends e s a :
      input_over a = None → exec_finished s →
      call_step tty (MkCall s a) (MkCall s (set_input (input_taken a) (Some (Some e)) a))
  (* the end: the code, and the end of the stream; or the stream breaks *)
  | call_reports s a :
      over a = false → may_report tty a →
      call_step tty (MkCall s a)
        (agent_sends [inr (Resp_Err (Itoa (final_code tty a))); inl io_EOF] true s a)
  | call_breaks code msg s a :
      over a = false → call_step tty (MkCall s a) (agent_sends [inl (ErrStatus code msg)] true s a).

Definition agent_start : agent_state := MkAgent [] [] None 0 None [] false.

(** The relay has sent the command, the agent has started it. *)
Definition call_start (conf : KubeExecConfig) (sin : list (error + string))
    (szs : list (option TerminalSize)) : call_state :=
  MkCall (exec_start conf [] sin szs) agent_start.

(** What the user should see of an output. *)
Definition visible (tty : bool) (l : list (bool * string)) : list (bool * string) :=
  filter (λ c, c.2 ≠ "") (if tty then (λ c, (false, c.2)) <$> l else l).

Definition no_errno (e : error) : Prop := ∀ n, e ≠ Errno n.

(** ** Lemmas *)

Lemma outputs_responses l : outputs (response <$> l) = filter (λ c, c.2 ≠ "") l.
Proof.
  induction l as [|[b d] l IH]; [done|]. rewrite fmap_cons, filter_cons.
  unfold outputs in *. cbn [flat_map]. rewrite IH. destruct b; simpl; repeat case_decide; done.
Qed.

Lemma outputs_messages tty l : outputs (message tty <$> l) = visible tty l.
Proof.
  unfold visible. destruct tty; [|apply outputs_responses].
  rewrite <-outputs_responses. by rewrite <-list_fmap_compose.
Qed.

Lemma message_is_data tty c : exit_code (message tty c) = None.
Proof. by destruct tty, c as [[] ?]. Qed.



Lemma outputs_with_code data c : outputs (data ++ [Resp_Err c]) = outputs data.
Proof. rewrite outputs_app. by rewrite app_nil_r. Qed.


Lemma Itoa_nonempty n : Itoa n ≠ "".
Proof.
  unfold Itoa. destruct n as [|p|p]; [done| |done].
  change (pretty (Z.pos p)) with (pretty (Npos p)). unfold pretty, pretty_N. rewrite decide_False by lia.
  destruct (pretty_go_head (Npos p) "") as (a & t & -> & _); [lia|done].
Qed.

Lemma code_of_Itoa n : exit_code (Resp_Err (Itoa n)) = Some (Itoa n).
Proof. simpl. by rewrite decide_False by apply Itoa_nonempty. Qed.


Lemma grpc_error_no_errno e : grpc_error e → no_errno e.
Proof. by intros [->|(c & m & ->)] n. Qed.

(** *** What holds at the relay, whatever arrives *)

(** A property of the relay that its steps keep and arrivals do not touch. *)
Lemma relay_invariant tty (P : exec_state → Prop) w w' :
  (∀ s s', P s → exec_step s s' → P s') → (∀ l s, P s → P (to_relay l s)) →
  rtc (call_step tty) w w' → P (relay w) → P (relay w').
Proof.
  intros Hstep Hrelay Hr. induction Hr as [|w w1 w' Hs _ IH]; [done|]. intros Hp. apply IH.
  destruct Hs; simpl in *; eauto.
Qed.

(** The number a call returns comes from the last message its receiver took. *)
Definition number_ok (s : exec_state) : Prop :=
  (∀ e, errChan s = Some e → no_errno e) ∧ (∀ e, inl e ∈ stdin s → no_errno e) ∧
  (∀ e, inl e ∈ inbox s → no_errno e) ∧
  match receiver s with
  | RExit e => (∃ c, c ≠ "" ∧ e = exit_error c ∧ last (received s) = Some (Resp_Err c)) ∧
               ∀ n, group_err s ≠ Some (Errno n)
  | RDone => ∀ n, group_err s = Some (Errno n) →
               ∃ c, c ≠ "" ∧ exit_error c = Errno n ∧ last (received s) = Some (Resp_Err c)
  | _ => ∀ n, group_err s ≠ Some (Errno n)
  end.

(** An error that is no number does no harm. *)
Lemma number_return e s : (∀ x, e = Some x → no_errno x) → number_ok s → number_ok (group_return e s).
Proof.
  intros He (H1 & H2 & H3 & H4). split_and!; [done..|]. unfold group_return. simpl.
  destruct (group_err s) as [x|]; [done|].
  assert (∀ n, e ≠ Some (Errno n)) as Hn by (intros n ->; by apply (He _ eq_refl n)).
  destruct (receiver s); [done..| |intros n ?; by destruct (Hn n)]. split; [apply H4|done].
Qed.

Lemma number_receiver_ends e s : number_ok s → (∀ x, e = Some x → no_errno x) →
  (receiver s = RLoop ∨ receiver s = RRecv) → number_ok (group_return e (set_receiver RDone s)).
Proof.
  intros (H1 & H2 & H3 & H4) He Hr. apply number_return; [done|]. split_and!; [done..|]. simpl.
  destruct Hr as [Hr|Hr]; rewrite Hr in H4; intros n Hn; by destruct (H4 n).
Qed.

Lemma number_step s s' : number_ok s → exec_step s s' → number_ok s'.
Proof.
  intros Hn Hst. pose proof Hn as (H1 & H2 & H3 & H4). destruct Hst;
    try (by apply number_receiver_ends; [|intros x [= <-]|auto]);
    try (by apply number_return; [intros x [= <-]|]);
    try match goal with E : inbox s = _ |- _ => rewrite E in H3 end;
    try match goal with E : receiver s = _ |- _ => rewrite E in H4 end.
  - by split_and!.
  - apply number_receiver_ends; [done| |auto]. intros x [= <-]. apply H3. by left.
  - split_and!; [done..| |done]. intros e He. apply H3. by right.
  - split_and!; [done..| |].
    + intros e He. apply H3. by right.
    + simpl. split; [|done]. exists c. destruct d as [| |x]; simplify_eq/=. case_decide; simplify_eq/=.
      split_and!; [done..|apply last_snoc].
  - destruct H4 as [(c & Hc & -> & Hl) Hg]. split_and!; [done..|]. simpl. intros n Hn'. exists c.
    split_and!; [done| |done]. destruct (group_err s) as [x|] eqn:Eg; [|congruence].
    injection Hn' as ->. by destruct (Hg n).
  - split_and!; try done. intros e He. apply H2. match goal with E : stdin s = _ |- _ => rewrite E end. by right.
  - match goal with E : stdin s = _ |- _ => rewrite E in H2 end.
    split_and!; [intros x [= <-]; apply H2; by left|intros x Hx; apply H2; by right|done..].
  - by split_and!.
  - split_and!; [intros x [= <-]; by apply grpc_error_no_errno|done..].
  - apply number_return; [|by split_and!]. intros x [= <-]. by apply H1.
  - by split_and!.
  - by split_and!.
  - apply number_return; [|by split_and!]. intros x [= <-]. by apply grpc_error_no_errno.
  - by split_and!.
Qed.

(** As long as the context is not done nobody has failed. *)
Definition awake (s : exec_state) : Prop :=
  ctx_done s = false → group_err s = None ∧ sender_done s = false ∧
    (receiver s = RLoop ∨ receiver s = RRecv ∨ receiver s = RDone ∧ inl io_EOF ∈ inbox s).

Lemma awake_step s s' : awake s → exec_step s s' → awake s'.
Proof.
  unfold awake. intros Ha Hst. destruct Hst; simpl; try exact Ha; try done;
    try (destruct (group_err s) eqn:Eg; [intros Hc; by destruct (Ha Hc) as (? & _)|done]).
  - intros Hc. destruct (Ha Hc) as (-> & -> & _). auto.
  - rewrite H0 in *. destruct (group_err s); intros Hc; destruct (Ha Hc) as (Hg & -> & _); [done|].
    split_and!; [done..|]. do 2 right. split; [done|]. by left.
  - rewrite H0 in *. intros Hc. destruct (Ha Hc) as (-> & -> & _). auto.
Qed.

Lemma awake_arrives l s : awake s → awake (to_relay l s).
Proof.
  intros Ha Hc. destruct (Ha Hc) as (? & ? & Hr). split_and!; [done..|]. simpl.
  destruct Hr as [?|[?|[? ?]]]; auto. do 2 right. split; [done|]. apply elem_of_app. by left.
Qed.

(** *** What holds between the two ends *)

(** What the agent has sent: the output as far as it was copied, then the report, or the error
    of a broken stream. *)
Definition sent_ok (tty : bool) (a : agent_state) : Prop :=
  ∃ k, sent a = (inr <$> (message tty <$> out_copied a)) ++ k ∧
    if over a then
      k = [inr (Resp_Err (Itoa (final_code tty a))); inl io_EOF] ∧ may_report tty a ∨
      ∃ code msg, k = [inl (ErrStatus code msg)]
    else k = [].

Record call_inv (tty : bool) (w : call_state) : Prop := {
  inv_down : downstream (sent (agent w)) (relay w);
  inv_seen : seen_in_part (relay w);
  inv_sent : sent_ok tty (agent w);
  inv_taken : (input_taken (agent w) ≤ length (stdin_chunks (requests (relay w))))%nat
}.

Lemma chunks_grow s s' : exec_step s s' →
  (length (stdin_chunks (requests s)) ≤ length (stdin_chunks (requests s')))%nat.
Proof. destruct 1; simpl; rewrite ?stdin_chunks_app, ?length_app; simpl; lia. Qed.

Lemma inv_arrives tty l last s a : downstream (sent a) s → seen_in_part s →
  sent_ok tty (agent (agent_sends l last s a)) →
  (input_taken a ≤ length (stdin_chunks (requests s)))%nat →
  call_inv tty (agent_sends l last s a).
Proof.
  intros [Hi Hw] Hseen Hs Ht. simpl in *. split; simpl; [|done..].
  split; [|done]. simpl. by rewrite Hi, app_assoc.
Qed.

Lemma sent_ok_agent tty a a' : sent a' = sent a → out_copied a' = out_copied a → over a' = over a →
  (over a = true → may_report tty a → final_code tty a' = final_code tty a ∧ may_report tty a') →
  sent_ok tty a → sent_ok tty a'.
Proof.
  intros Es Ec Eo Hk (k & E & Hover). exists k. rewrite Es, Ec, Eo. split; [done|].
  destruct (over a); [|done]. destruct Hover as [[-> Hr]|?]; [left|by right].
  destruct (Hk eq_refl Hr) as [-> ?]. done.
Qed.

Lemma call_step_inv tty w w' : call_inv tty w → call_step tty w w' → call_inv tty w'.
Proof.
  intros Hi Hst. pose proof Hi as [Hd Hs Hsent Ht]. destruct Hst; simpl in *.
  - split; simpl; [by eapply downstream_step|by eapply seen_step|done|].
    etrans; [exact Ht|by apply chunks_grow].
  - split; simpl; try done. apply (sent_ok_agent _ a); [done..| |exact Hsent].
    intros _ [[x Hx] _]. congruence.
  - split; simpl; try done. apply (sent_ok_agent _ a); [done..| |exact Hsent].
    intros _ [[y Hy] _]. congruence.
  - apply inv_arrives; [done|done| |done].
    destruct Hsent as (k & E & Hk). rewrite H0 in Hk. subst k. exists []. simpl. split; [|done].
    by rewrite E, !app_nil_r, !fmap_app.
  - split; simpl; try done. apply (sent_ok_agent _ a); [done..| |exact Hsent].
    intros _ [? Hin]. unfold final_code, may_report. simpl. split; [|split; [done|]]; destruct tty; try done;
      destruct (Hin eq_refl) as [_ [? ?]]; congruence.
  - split; simpl; try done. apply (sent_ok_agent _ a); [done..| |exact Hsent].
    intros _ [? Hin]. unfold final_code, may_report. simpl. split; [|split; [done|]]; destruct tty; try done;
      destruct (Hin eq_refl) as [_ [? ?]]; congruence.
  - split; simpl; try done. apply (sent_ok_agent _ a); [done..| |exact Hsent].
    intros _ [? Hin]. unfold final_code, may_report. simpl. split; [|split; [done|]]; destruct tty; try done;
      destruct (Hin eq_refl) as [_ [? ?]]; congruence.
  - apply inv_arrives; [done|done| |done].
    destruct Hsent as (k & E & Hk). rewrite H in Hk. subst k. eexists. simpl. split; [by rewrite E, app_nil_r|].
    by left.
  - apply inv_arrives; [done|done| |done].
    destruct Hsent as (k & E & Hk). rewrite H in Hk. subst k. eexists. simpl. split; [by rewrite E, app_nil_r|].
    right. by eexists _, _.
Qed.

(** The agent sends no numbers. *)
Lemma number_arrives l s : (∀ e, inl e ∈ l → no_errno e) → number_ok s → number_ok (to_relay l s).
Proof.
  intros Hl (H1 & H2 & H3 & H4). split_and!; [done..| |done]. simpl. intros e [?|?]%elem_of_app; auto.
Qed.

Lemma number_call_step tty w w' : number_ok (relay w) → call_step tty w w' → number_ok (relay w').
Proof.
  intros Hn Hst. destruct Hst; simpl in *; try done; [by eapply number_step|..];
    (apply number_arrives; [|done]); intros e Hin n ->; set_solver.
Qed.

Lemma call_reachable tty conf sin szs w :
  rtc (call_step tty) (call_start conf sin szs) w → call_inv tty w ∧ awake (relay w).
Proof.
  intros Hr. split.
  - apply (rtc_invariant (call_step tty) (call_inv tty) (call_start conf sin szs)); [by apply call_step_inv| |done].
    split; simpl; [done|constructor|by exists []|lia].
  - apply (relay_invariant tty awake (call_start conf sin szs)); [apply awake_step|apply awake_arrives|done|].
    intros _. auto.
Qed.

Lemma number_reachable tty conf sin szs w : (∀ e, inl e ∈ sin → no_errno e) →
  rtc (call_step tty) (call_start conf sin szs) w → number_ok (relay w).
Proof.
  intros Hin Hr. apply (rtc_invariant (call_step tty) (λ w, number_ok (relay w)) (call_start conf sin szs));
    [apply number_call_step| |done].
  split_and!; [done|done|by intros e ?%elem_of_nil|done].
Qed.



(** *** The way to the end *)

Lemma lift_relay tty s s' a : rtc exec_step s s' → rtc (call_step tty) (MkCall s a) (MkCall s' a).
Proof. induction 1; [done|]. eapply rtc_l; [by apply call_relay|done]. Qed.

(** What is left of the output is copied. *)
Lemma copies_all tty s a : over a = false →
  ∃ s' a', rtc (call_step tty) (MkCall s a) (MkCall s' a') ∧ s' = to_relay (inr <$> (message tty <$> out_pending a)) s ∧
    out_copied a' = out_copied a ++ out_pending a ∧ out_pending a' = [] ∧ process_end a' = process_end a ∧
    input_over a' = input_over a ∧ over a' = false.
Proof.
  remember (out_pending a) as l eqn:El. revert s a El. induction l as [|c l IH]; intros s a El Ho.
  - exists s, a. split_and!; try done; [|by rewrite app_nil_r].
    destruct s. unfold to_relay. simpl. by rewrite app_nil_r.
  - set (w := agent_sends [inr (message tty c)] false s (set_output (out_copied a ++ [c]) l a)).
    destruct (IH (relay w) (agent w)) as (s' & a' & Hr & -> & Hc & Hrest); [done|done|].
    eexists _, a'. split; [eapply rtc_l; [by eapply call_copies|exact Hr]|].
    split; [unfold to_relay; simpl; by rewrite <-app_assoc|]. split; [|done]. rewrite Hc. simpl. by rewrite <-app_assoc.
Qed.

(** A write that gets everything to the user. *)
Lemma whole_write d : ∃ n, (∀ l s, seen (deliver l d n s) = seen s ++ outputs [d]).
Proof.
  destruct d as [b|b|c]; [exists (String.length b)..|exists 0%nat; done];
    intros l s; simpl; f_equal; case_decide; simpl; by rewrite ?substring_full.
Qed.

Lemma enter_recv s : receiver s = RLoop ∨ receiver s = RRecv → ctx_done s = false →
  rtc exec_step s (set_receiver RRecv s).
Proof.
  intros [Hr|Hr] Hc; [by apply rtc_once, step_recv_default|].
  assert (set_receiver RRecv s = s) as -> by (destruct s; simpl in *; by subst). done.
Qed.

(** The code ends everything. *)
Lemma code_finishes code l s : code ≠ "" → inbox s = inr (Resp_Err code) :: l →
  ctx_done s = false → group_err s = None → sender_done s = false → receiver s = RLoop ∨ receiver s = RRecv →
  ∃ s', rtc exec_step s s' ∧ exec_finished s' ∧ received s' = received s ++ [Resp_Err code] ∧
    seen s' = seen s ∧ group_err s' = Some (exit_error code).
Proof.
  intros Hn Hi Hc Hg Hs Hr. pose proof (enter_recv s Hr Hc) as R. set (s1 := set_receiver RRecv s) in R.
  assert (exit_code (Resp_Err code) = Some code) as Hx by (simpl; by rewrite decide_False).
  set (s2 := cancel (set_receiver (RExit (exit_error code)) (deliver l (Resp_Err code) 0 s1))).
  set (s3 := group_return (Some (exit_error code)) (set_receiver RDone s2)).
  set (s4 := group_return (Some ctx_Canceled) (set_sender_done s3)).
  assert (rtc exec_step s s4) as R4.
  { etrans; [exact R|]. eapply rtc_l; [by apply (step_recv_exit s1 (Resp_Err code) code l 0)|].
    eapply rtc_l; [by apply step_recv_return|]. apply rtc_once, step_send_done; [done|]. simpl. by rewrite Hg. }
  assert (group_err s4 = Some (exit_error code)) as Hg4 by (simpl; by rewrite Hg).
  assert (seen s4 = seen s) as Hseen by (simpl; by rewrite app_nil_r).
  destruct (size_done s) eqn:Hz; [by exists s4; split_and!|].
  exists (group_return (Some ctx_Canceled) (set_size_done s4)).
  split_and!; [|by split_and!|done|done|simpl; by rewrite Hg].
  eapply rtc_r; [exact R4|]. apply step_size_done; [done|]. simpl. by rewrite Hg.
Qed.

(** The receiver takes what has arrived, up to the code. *)
Lemma receiver_takes_all data code l s : Forall (λ d, exit_code d = None) data → code ≠ "" →
  inbox s = (inr <$> data) ++ inr (Resp_Err code) :: l →
  ctx_done s = false → group_err s = None → sender_done s = false → receiver s = RLoop ∨ receiver s = RRecv →
  ∃ s', rtc exec_step s s' ∧ exec_finished s' ∧ received s' = received s ++ data ++ [Resp_Err code] ∧
    seen s' = seen s ++ outputs data ∧ group_err s' = Some (exit_error code).
Proof.
  intros Hd Hn. revert s. induction Hd as [|d data Hx _ IH]; intros s Hi Hc Hg Hs Hr.
  { destruct (code_finishes code l s) as (s' & ? & ? & ? & Hseen & ?); [done..|].
    exists s'. by rewrite app_nil_r. }
  destruct (whole_write d) as [n Hw].
  set (s1 := set_receiver RLoop (deliver ((inr <$> data) ++ inr (Resp_Err code) :: l) d n (set_receiver RRecv s))).
  destruct (IH s1) as (s' & R & Hf & Hrec & Hseen & Hg'); [done..|by left|].
  exists s'. split_and!; [|done| | |done].
  - etrans; [by apply enter_recv|]. eapply (rtc_l _ _ s1); [|exact R]. by apply (step_recv_data (set_receiver RRecv s) d).
  - rewrite Hrec. simpl. by rewrite <-!app_assoc.
  - rewrite Hseen. change (seen s1) with (seen (deliver ((inr <$> data) ++ inr (Resp_Err code) :: l) d n (set_receiver RRecv s))).
    rewrite Hw, <-app_assoc. f_equal. unfold outputs. simpl. by rewrite app_nil_r.
Qed.

(** Without a terminal: a further piece of input that the relay has sent, or can read. *)
Definition more_input (w : call_state) : Prop :=
  (input_taken (agent w) < length (stdin_chunks (requests (relay w))))%nat ∨
  copier (relay w) = CRead ∧ ∃ b l, stdin (relay w) = inr b :: l.

(** What the sender's helper does leaves the rest of the relay alone. *)
Definition same_receiver (s s' : exec_state) : Prop :=
  inbox s' = inbox s ∧ ctx_done s' = ctx_done s ∧ group_err s' = group_err s ∧
  sender_done s' = sender_done s ∧ receiver s' = receiver s ∧ received s' = received s ∧ seen s' = seen s.

(** The process does not take it, and so the copying of the input ends. *)
Lemma input_can_end tty s a : call_inv tty (MkCall s a) → input_over a = None → more_input (MkCall s a) →
  ∃ s', rtc (call_step tty) (MkCall s a) (MkCall s' (set_input (input_taken a) (Some None) a)) ∧ same_receiver s s'.
Proof.
  intros [_ _ _ Ht] Ho [Hlt|(Hc & b & l & Hin)]; simpl in *.
  { exists s. split; [by apply rtc_once, call_input_fails|done]. }
  exists (set_copier CRead (errChan s) (add_request (Req_Stdin b) (set_copier (CSend b) (errChan s) (set_stdin l s)))).
  split; [|done]. eapply rtc_l; [by eapply call_relay, step_copy_read|].
  eapply rtc_l; [by apply call_relay, step_copy_send|]. apply rtc_once, call_input_fails; [done|]. simpl.
  rewrite stdin_chunks_app, length_app. simpl. lia.
Qed.

(** What is on its way to the relay. *)
Lemma in_flight tty s a : call_inv tty (MkCall s a) → over a = false →
  ∃ data, inbox s = inr <$> data ∧ message tty <$> out_copied a = received s ++ data ∧
    Forall (λ d, exit_code d = None) data.
Proof.
  intros [[Hi _] _ (k & E & Hk) _] Ho. simpl in *. rewrite Ho in Hk. subst k. rewrite E, app_nil_r in Hi.
  apply fmap_app_inv in Hi as (l1 & data & El & -> & Em). apply (inj (fmap inr)) in El as <-.
  exists data. split_and!; [done..|]. assert (Forall (λ d, exit_code d = None) (message tty <$> out_copied a)) as Hf
    by (apply Forall_fmap, Forall_true; intros c; apply message_is_data).
  rewrite Em in Hf. by apply Forall_app in Hf as [_ ?].
Qed.

Lemma call_inv_run tty w w' : call_inv tty w → rtc (call_step tty) w w' → call_inv tty w'.
Proof. intros Hi Hr. by apply (rtc_invariant (call_step tty) (call_inv tty) w w' (call_step_inv tty)). Qed.

(** The end of a call whose process has ended, once the input is no obstacle. *)
Lemma call_can_end tty s a x : call_inv tty (MkCall s a) → awake s →
  process_end a = Some x → over a = false → ctx_done s = false → (tty = false → is_Some (input_over a)) →
  ∃ s' a', rtc (call_step tty) (MkCall s a) (MkCall s' a') ∧ exec_finished s' ∧
    process_end a' = Some x ∧ input_over a' = input_over a ∧
    written s' = visible tty (out_copied a ++ out_pending a) ∧ (seen s = written s → seen s' = written s') ∧
    group_err s' = Some (exit_error (Itoa (final_code tty a'))).
Proof.
  intros Hi Ha Hp Ho Hc Hin. destruct (Ha Hc) as (Hg & Hs & Hr).
  destruct (in_flight _ _ _ Hi Ho) as (data & Hbox & Hm & Hd).
  assert (receiver s = RLoop ∨ receiver s = RRecv) as Hr'.
  { destruct Hr as [?|[?|[_ Hin']]]; auto. rewrite Hbox in Hin'. by apply list_elem_of_fmap in Hin' as (? & ? & _). }
  destruct (copies_all tty s a Ho) as (s1 & a1 & R1 & Es1 & Hc1 & Hp1 & He1 & Hi1 & Ho1).
  set (code := Itoa (final_code tty a1)).
  assert (call_step tty (MkCall s1 a1) (agent_sends [inr (Resp_Err code); inl io_EOF] true s1 a1)) as R2.
  { apply call_reports; [done|]. split; [by rewrite He1, Hp|]. rewrite Hi1. auto. }
  set (s2 := relay (agent_sends [inr (Resp_Err code); inl io_EOF] true s1 a1)).
  set (a2 := agent (agent_sends [inr (Resp_Err code); inl io_EOF] true s1 a1)).
  assert (inbox s2 = (inr <$> (data ++ (message tty <$> out_pending a))) ++ [inr (Resp_Err code); inl io_EOF]) as Hbox2.
  { subst s1. simpl. by rewrite Hbox, fmap_app. }
  destruct (receiver_takes_all (data ++ (message tty <$> out_pending a)) code [inl io_EOF] s2)
    as (s' & R3 & Hf & Hrec & Hseen & Hg'); try (by subst s1); [|apply Itoa_nonempty|].
  { apply Forall_app. split; [done|]. apply Forall_fmap, Forall_true. intros c. apply message_is_data. }
  assert (rtc (call_step tty) (MkCall s a) (MkCall s' a2)) as R.
  { etrans; [exact R1|]. eapply rtc_l; [exact R2|]. by apply (lift_relay tty s2). }
  destruct (inv_down _ _ (call_inv_run _ _ _ Hi R)) as [_ Hw']. simpl in Hw'.
  exists s', a2. split_and!; [done|done|by simpl; congruence|done| | |done].
  - rewrite Hw', Hrec. subst s1. simpl. rewrite !app_assoc, outputs_with_code, <-Hm, <-fmap_app.
    apply outputs_messages.
  - intros E. destruct (inv_down _ _ Hi) as [_ Hw]. simpl in Hw.
    rewrite Hw', Hseen, Hrec. subst s1. simpl. rewrite E, Hw, app_assoc, outputs_with_code.
    unfold outputs. by rewrite !flat_map_app.
Qed.

(** *** The first size *)

(** Only the first of the user's sizes can be sent. *)
Definition first_size (szs : list (option TerminalSize)) (s : exec_state) : Prop :=
  if size_done s then resizes (requests s) = [] ∨
    ∃ d l, szs = Some d :: l ∧ resizes (requests s) = [(to_int32 (Width d), to_int32 (Height d))]
  else szs = ch_buf (size_queue s) ++ sizes s ∧ resizes (requests s) = [].

Lemma first_size_step szs s s' : first_size szs s → exec_step s s' → first_size szs s'.
Proof.
  unfold first_size. intros Hi Hst. destruct Hst; simpl; rewrite ?resizes_app, ?app_nil_r; simpl; try exact Hi;
    destruct (size_done s) eqn:Ez; simplify_eq; try exact Hi.
  - unfold ch_send in H1. repeat case_match; simplify_eq/=. destruct Hi as [-> ?].
    rewrite H0, <-app_assoc. by split.
  - unfold ch_send, ch_close in *. repeat case_match; simplify_eq/=. destruct Hi as [-> ?].
    rewrite H0, <-app_assoc. by split.
  - left. apply Hi.
  - left. apply Hi.
  - unfold ch_recv in H0. destruct Hi as [-> ->]. destruct (ch_buf (size_queue s)) as [|x b] eqn:Eb.
    + by destruct (ch_closed _).
    + simplify_eq/=. right. by eexists _, _.
  - left. apply Hi.
Qed.


Lemma first_size_arrives szs l s : first_size szs s → first_size szs (to_relay l s).
Proof. done. Qed.

(** ** Theorems *)

Section theorems.
Variables (conf : KubeExecConfig) (sin : list (error + string)) (szs : list (option TerminalSize)).
Abbreviation step := (call_step (ex_Tty conf)).
Abbreviation start := (call_start conf sin szs).
Abbreviation tty := (ex_Tty conf).


(** C25: nothing needs to be lost. From every state of such a call in which the process has
    ended, the stream is whole and the context is not done, the call can still come to its
    end with the whole output passed on, none of it lost in the writes that remain, and the
    exit code as its error. Without a terminal there is a condition: the agent has also to
    find that its input is over, for which the user has to send (or to have sent) more of it
    than the process took. *)
Theorem exec_can_deliver_all s a x : rtc step start (MkCall s a) →
  process_end a = Some x → over a = false → ctx_done s = false →
  (tty = false → is_Some (input_over a) ∨ more_input (MkCall s a)) →
  ∃ s' a', rtc step (MkCall s a) (MkCall s' a') ∧ exec_finished s' ∧
    written s' = visible tty (out_copied a ++ out_pending a) ∧ (seen s = written s → seen s' = written s') ∧
    ∃ e, (∀ e', input_over a = Some e' → e = e') ∧
      group_err s' = Some (exit_error (Itoa (exitCode (if tty then x else wait x e)))).
Proof.
  intros Hr Hp Ho Hc Hin. destruct (call_reachable _ _ _ _ _ Hr) as [Hi Ha].
  assert (∃ s1 a1, rtc step (MkCall s a) (MkCall s1 a1) ∧ same_receiver s s1 ∧ a1 = set_input (input_taken a) (input_over a1) a ∧
    (tty = false → is_Some (input_over a1)) ∧ (∀ e', input_over a = Some e' → input_over a1 = Some e'))
    as (s1 & a1 & R1 & (Eb & Ec & Eg & Es & Er & Erec & Eseen) & Ea & Hin1 & Hov).
  { assert (a = set_input (input_taken a) (input_over a) a) as Ea by (by destruct a).
    destruct (input_over a) as [e|] eqn:He; [exists s, a; rewrite He; split_and!; [done..| |done]; eauto|].
    destruct tty eqn:Ht; [exists s, a; rewrite He; by split_and!|].
    destruct (Hin eq_refl) as [[e ?]|Hm]; [done|].
    destruct (input_can_end false s a Hi He Hm) as (s1 & R1 & Hs1).
    by exists s1, (set_input (input_taken a) (Some None) a). }
  pose proof (call_inv_run _ _ _ Hi R1) as Hi1.
  destruct (call_can_end tty s1 a1 x Hi1) as (s' & a' & R2 & Hf & Hp' & Ho' & Hw' & Hseen & Hg');
    [unfold awake in *; by rewrite Ec, Eg, Es, Er, Eb|by rewrite Ea|by rewrite Ea|congruence|done|].
  exists s', a'. split_and!; [by etrans|done|by rewrite Hw', Ea| |].
  - intros E. apply Hseen. rewrite Eseen, E. destruct (inv_down _ _ Hi) as [_ Hw1]. destruct (inv_down _ _ Hi1) as [_ Hw2].
    simpl in *. congruence.
  - exists (default None (input_over a1)). split; [by intros e' ->%Hov|].
    rewrite Hg'. unfold final_code. by rewrite Hp', Ho'.
Qed.

(** C27: the other direction: what reaches the process is a prefix of the user's input, and
    of the sizes of the user's terminal the first one or none, unchanged by its way through
    integers of 32 and 16 bits; in every interleaving, whatever the agent has sent. *)
Theorem input_reaches_the_process inb a0 w :
  (∀ d, Some d ∈ szs → 0 ≤ Width d < 2 ^ 16 ∧ 0 ≤ Height d < 2 ^ 16)%Z →
  rtc step (MkCall (exec_start conf inb sin szs) a0) w →
  ∃ f, feed (inr <$> requests (relay w)) new_feeding = (Ret (), f) ∧
    (inr <$> piped f) `prefix_of` sin ∧
    (ch_buf (queue (sizeHandler f)) = [] ∨ ∃ d l, szs = Some d :: l ∧ ch_buf (queue (sizeHandler f)) = [d]).
Proof.
  intros Hsz Hr.
  assert (upstream sin (relay w)) as Hu.
  { apply (relay_invariant tty (upstream sin) _ _ (upstream_step sin)) in Hr; [done| |done]. by intros l s. }
  assert (first_size szs (relay w)) as Hf.
  { by apply (relay_invariant tty (first_size szs) _ _ (first_size_step szs) (first_size_arrives szs)) in Hr. }
  set (s := relay w) in *. clearbody s. clear Hr.
  assert ((inr <$> stdin_chunks (requests s)) `prefix_of` sin) as Hpre.
  { unfold upstream in Hu. destruct (copier s); [rewrite Hu; by eexists..|done]. }
  assert (∃ sz, (sz = [] ∨ ∃ d l, szs = Some d :: l ∧ sz = [d]) ∧
    resizes (requests s) = (λ d, (to_int32 (Width d), to_int32 (Height d))) <$> sz) as (sz & Hsz' & Hres).
  { unfold first_size in Hf. destruct (size_done s).
    - destruct Hf as [->|(d & l & -> & ->)]; [by exists []; split; [left|]|exists [d]; split; [right; eauto|done]].
    - exists []. split; [by left|apply Hf]. }
  destruct (feed_loop (requests s) sz new_feeding (MkFifo [] false 10)) as (f & E & Hp & Hb); simpl.
  - destruct Hsz' as [->|(d & l & -> & ->)]; [done|]. apply Forall_singleton, Hsz. by left.
  - exact Hres.
  - split; simpl; [done|lia].
  - done.
  - destruct Hsz' as [->|(d & l & _ & ->)]; simpl; lia.
  - exists f. simpl in Hp, Hb. rewrite Hp, Hb. by split_and!.
Qed.
End theorems.

(** The agent of a call is that of [VmApi]: once it has reported, it has sent what
    [ExecCommandStream] sends for a process with this output, end and end of the input, of
    whose output on a terminal so much was copied. *)
Theorem agent_of_a_call_is_the_agent conf sin szs s a x start command args :
  rtc (call_step (ex_Tty conf)) (call_start conf sin szs) (MkCall s a) →
  over a = true → (∀ code msg, inl (ErrStatus code msg) ∉ sent a) → process_end a = Some x →
  start command args (ex_Tty conf) =
    inr (MkProcess (out_copied a ++ out_pending a) x (length (out_copied a)) (input_over a)) →
  sent a = (inr <$> outbox (ExecCommandStream start (inr (Req_Command command args (ex_Tty conf)))
              (MkSending [] None)).2) ++ [inl io_EOF].
Proof.
  intros Hr Ho Hb Hx Hs. apply call_reachable in Hr as [[_ _ (k & E & Hk) _] _]. simpl in *. rewrite Ho in Hk.
  destruct Hk as [[-> [_ Hrep]]|(code & msg & ->)].
  2: { destruct (Hb code msg). rewrite E. apply elem_of_app. right. by left. }
  rewrite E. unfold final_code. rewrite Hx. destruct (ex_Tty conf) eqn:Ht.
  - simpl. unfold ttyCmd. rewrite Hs. simpl. rewrite take_app_length.
    unfold mbind, M_bind. rewrite (pump_open (λ c : bool * string, Resp_Stdout c.2)) by done. simpl.
    by rewrite fmap_app, <-app_assoc.
  - destruct (Hrep eq_refl) as [Hp [e He]]. rewrite (stream_eq _ _ _ _ _ Hs) by done. simpl.
    rewrite He, Hp, app_nil_r. simpl. by rewrite fmap_app, <-app_assoc.
Qed.

(** *** Calls without input *)

(** The agent has not reported, or only after the end of the call. *)
Record no_report (s : exec_state) (a : agent_state) : Prop := {
  nr_exit e : receiver s ≠ RExit e;
  nr_last c : c ≠ "" → last (received s) ≠ Some (Resp_Err c);
  nr_inbox : exec_finished s ∨ input_over a = None ∧ ∀ d, inr d ∈ inbox s → exit_code d = None
}.

Lemma finished_stays s s' : exec_finished s → exec_step s s' → exec_finished s' ∧ received s' = received s.
Proof. unfold exec_finished. intros (Hr & Hs & Hz) Hst. destruct Hst; simpl; try congruence; by split_and!. Qed.

Lemma no_report_relay s s' a : no_report s a → exec_step s s' → no_report s' a.
Proof.
  intros [Hr Hl Hc] Hst. destruct Hc as [Hf|[Ho Hd]].
  { destruct (finished_stays _ _ Hf Hst) as [Hf' Erec]. split; [|by rewrite Erec|by left].
    destruct Hf' as (-> & _). done. }
  split.
  - intros e E. destruct Hst; simpl in E; try congruence; try (by apply (Hr e)).
    rewrite (Hd d) in *; [done|]. match goal with E : inbox s = _ |- _ => rewrite E end. by left.
  - intros c Hc'. destruct Hst; simpl; try (by apply Hl); rewrite last_snoc; intros [= ->].
    + simpl in *. by rewrite decide_False in *.
    + rewrite (Hd (Resp_Err c)) in *; [done|]. match goal with E : inbox s = _ |- _ => rewrite E end. by left.
  - right. split; [done|]. destruct Hst; simpl; try exact Hd; intros d' Hin; apply Hd;
      match goal with E : inbox s = _ |- _ => rewrite E end; by right.
Qed.

Lemma no_report_step s a s' a' : stdin_chunks (requests s) = [] → no_report s a →
  call_step false (MkCall s a) (MkCall s' a') → no_report s' a'.
Proof.
  intros Hin Hn Hst. inversion Hst; subst; try done; try (by rewrite Hin in *; simpl in *; lia);
    destruct Hn as [Hr Hl Hc]; try (by split).
  - by eapply no_report_relay.
  - split; [done..|]. destruct Hc as [Hf|[Ho Hd]]; [by left|right]. split; [done|]. simpl.
    intros d [?|[= ->]%list_elem_of_singleton]%elem_of_app; [auto|]. apply (message_is_data false).
  - split; [done..|by left].
  - split; [done..|]. left. destruct Hc as [Hf|[Ho _]]; [exact Hf|].
    match goal with E : may_report _ _ |- _ => destruct E as [_ [_ [? ?]]] end; [done|congruence].
  - split; [done..|]. destruct Hc as [Hf|[Ho Hd]]; [by left|right]. split; [done|]. simpl.
    intros d [?|[=]%list_elem_of_singleton]%elem_of_app. auto.
Qed.

(** C26: without a terminal a call whose user sends no input (but may end it, or have an error
    of his channel that is no number) never returns the exit code, nor any other number, in
    any interleaving: the agent waits for the end of the input, which is the end of the
    caller's stream, and the caller keeps its stream until the call has returned. *)
Theorem exit_code_without_terminal_never_arrives conf sin szs w :
  ex_Tty conf = false → (∀ b, inr b ∉ sin) → (∀ e, inl e ∈ sin → no_errno e) →
  rtc (call_step (ex_Tty conf)) (call_start conf sin szs) w → ∀ n, group_err (relay w) ≠ Some (Errno n).
Proof.
  intros Ht Hb Hin Hr n Hg. destruct (number_reachable _ _ _ _ _ Hin Hr) as (_ & _ & _ & Hn).
  assert (upstream sin (relay w) ∧ no_report (relay w) (agent w)) as [_ [Hx Hl _]].
  { rewrite Ht in Hr. apply (rtc_invariant (call_step false) (λ w, upstream sin (relay w) ∧ no_report (relay w) (agent w))
      (call_start conf sin szs)); [| |exact Hr].
    - intros [s1 a1] [s2 a2] [Hu Hn1] Hs. simpl in *. split; [inversion Hs; subst; try done; by eapply upstream_step|].
      eapply no_report_step; [|exact Hn1|exact Hs].
      assert ((inr <$> stdin_chunks (requests s1)) `prefix_of` sin) as [k Hk].
      { unfold upstream in Hu. destruct (copier s1); [rewrite Hu; by eexists..|done]. }
      destruct (stdin_chunks (requests s1)) as [|b l]; [done|]. destruct (Hb b). rewrite Hk. by left.
    - split; [done|]. split; [done|done|]. right. split; [done|]. by intros d ?%elem_of_nil. }
  destruct (receiver (relay w)) eqn:Er; [by destruct (Hn n)..|by destruct (Hx e)|].
  destruct (Hn n Hg) as (c & Hc & _ & Hlast). by destruct (Hl c Hc).
Qed.

(** ** Concrete runs *)

(** A shell on a terminal that prints and exits with 3. *)
Definition shell_exec : KubeExecConfig := MkExecConfig "users" "alice-1" "bash" 1 None true.
Definition shell_size : TerminalSize := MkSize 80 24.
Definition shell_input : list (error + string) := [inr "exit 3"; inl io_EOF].
Definition shell_calls : call_state := call_start shell_exec shell_input [Some shell_size].
Definition shell_output : list (bool * string) := [(false, "$ "); (false, ""); (false, "oops")].

(** The call after the shell has written and exited, before anything was copied. *)
Definition shell_exited : agent_state := MkAgent [] shell_output (Some (WaitExit 3)) 0 None [] false.

Lemma shell_runs : rtc (call_step true) shell_calls (MkCall (relay shell_calls) shell_exited).
Proof.
  eapply rtc_l; [by apply (call_writes true (false, "$ "))|].
  eapply rtc_l; [by apply (call_writes true (false, ""))|].
  eapply rtc_l; [by apply (call_writes true (false, "oops"))|].
  apply rtc_once. by apply (call_exits true (WaitExit 3)).
Qed.


(** The rest of it is passed on, with the exit code. *)
Lemma shell_ends : ∃ s' a', rtc (call_step true) (MkCall (relay shell_calls) shell_exited) (MkCall s' a') ∧
  exec_finished s' ∧ written s' = [(false, "$ "); (false, "oops")] ∧ group_err s' = Some (Errno 3).
Proof.
  destruct (call_can_end true (relay shell_calls) shell_exited (WaitExit 3)) as (s' & a' & Hr & Hf & Hp & Ho & Hw & _ & Hg);
    [| |done..|].
  - exact (call_inv_run _ _ _ (proj1 (call_reachable true shell_exec shell_input [Some shell_size] _ (rtc_refl _ _))) shell_runs).
  - intros _. by split_and!; [| |left].
  - exists s', a'. split_and!; [done|done|exact Hw|]. rewrite Hg. unfold final_code. by rewrite Hp.
Qed.


Lemma exec_can_deliver_all_witness : ∃ s, exec_finished s ∧ written s = [(false, "$ "); (false, "oops")] ∧
  group_err s = Some (Errno 3).
Proof.
  destruct (exec_can_deliver_all shell_exec shell_input [Some shell_size] (relay shell_calls) shell_exited (WaitExit 3)
    shell_runs eq_refl eq_refl eq_refl) as (s & a & _ & Hf & Hw & _ & e & _ & Hg); [discriminate|].
  exists s. split; [exact Hf|split; [exact Hw|exact Hg]].
Defined.

Lemma input_reaches_the_process_witness : ∃ s f, exec_finished s ∧
  feed (inr <$> requests s) new_feeding = (Ret (), f) ∧ (inr <$> piped f) `prefix_of` shell_input.
Proof.
  destruct shell_ends as (s & a & Hr & Hf & _).
  destruct (input_reaches_the_process shell_exec shell_input [Some shell_size] [] agent_start (MkCall s a)) as (f & E & Hp & _).
  - intros d [[= ->]|?%elem_of_nil]%elem_of_cons; [simpl; lia|done].
  - exact (transitivity shell_runs Hr).
  - exists s, f. split; [exact Hf|split; [exact E|exact Hp]].
Defined.

(** A command without a terminal whose user only ends his input: it has written, has exited
    with 1, and its output was copied. *)
Definition piped_exec : KubeExecConfig := MkExecConfig "users" "alice-1" "grep" 1 None false.
Definition piped_calls : call_state := call_start piped_exec [inl io_EOF] [].
Definition piped_exited : call_state :=
  agent_sends [inr (Resp_Stdout "0")] false (relay piped_calls)
    (MkAgent [(false, "0")] [] (Some (WaitExit 1)) 0 None [] false).

Lemma piped_runs : rtc (call_step false) piped_calls piped_exited.
Proof.
  eapply rtc_l; [by apply (call_writes false (false, "0"))|].
  eapply rtc_l; [by apply (call_exits false (WaitExit 1))|].
  apply rtc_once. by apply (call_copies false (false, "0") []).
Qed.

Lemma exit_code_without_terminal_never_arrives_witness :
  process_end (agent piped_exited) = Some (WaitExit 1) ∧ out_pending (agent piped_exited) = [] ∧
  ∀ w, rtc (call_step false) piped_exited w → group_err (relay w) ≠ Some (Errno 1).
Proof.
  split; [reflexivity|split; [reflexivity|]]. intros w Hw.
  refine (exit_code_without_terminal_never_arrives piped_exec [inl io_EOF] [] w eq_refl _ _ (transitivity piped_runs Hw) 1%Z).
  - intros b Hin%list_elem_of_singleton. discriminate Hin.
  - intros e [= ->]%list_elem_of_singleton n. discriminate.
Defined.
