(* ===== verification/Bootstrapper.v ===== *)
(** cli/bootstrapper/kubernetes: the bootstrap of a Kubernetes cluster on the new machines,
    by kubeadm over their agents.

    [bootstrapper] is the receiver with the machines it talks to, the client's working
    directory and its [KUBECONFIG]. The agents' gRPC client is the class [AgentClient]
    (implemented at the end by [VmApi]'s agents), encoding/pem, crypto/x509 and kubeadm's
    token code are parameters. The goroutines of [JoinClusterCoordinator] run in an
    [Errgroup], under any schedule. *)
From S2P Require Import Prelude Config Errgroup TermSize ExecStream VmApi.

(** ** The parameters *)

(** The client side of the agents' API over a connection, the agents behind it, and the
    caller's context ([ctx_Err] is nil while it is not done). What [Recv] of an execution's
    stream yields is a list; past its end it waits. *)
Class AgentClient (W : Type) : Type := {
  grpc_Dial : string → M W positive;
  conn_Close : positive → M W ();
  api_WriteFile : positive → string → string → string → M W ();
  api_ReadFile : positive → string → string → M W string;
  api_ExecReturnStream : positive → string → list string → M W (list (error + return_response));
  ctx_Err : M W (option error);
  conn_target : positive → string
}.

(** encoding/pem, crypto/x509, crypto/rsa and kubeadm's pubkeypin. *)
Class Pki : Type := {
  Cert : Type;
  CaKey : Type;
  RsaKey : Type;
  pem_Decode : string → option string;
  pem_EncodeToMemory : string → string → string;
  x509_ParseCertificate : string → error + Cert;
  x509_ParsePKCS1PrivateKey : string → error + CaKey;
  x509_MarshalPKCS1PrivateKey : RsaKey → string;
  x509_CreateCertificate : Cert → Cert → RsaKey → CaKey → error + string;
  rsa_GenerateKey : error + RsaKey;
  pubkeypin_Hash : Cert → string
}.

(** kubeadm's bootstrap tokens: the random string, its check, and the creation in a
    cluster behind a client. *)
Record BootstrapToken : Type := MkBootstrapToken {
  bt_Token : string;
  bt_Description : string;
  bt_TTL : Z
}.
Class TokenApi (K : Type) : Type := {
  GenerateBootstrapToken : error + string;
  NewBootstrapTokenString : string → error + string;
  CreateNewTokens : list BootstrapToken → M K ()
}.

(** The working directory and the environment: how the calls on [admin.conf] end, and the
    client that the file with the given content leads to. *)
Record local_calls (K : Type) : Type := MkLocal {
  os_Create : option error;
  file_Write : option error;
  file_Close : option error;
  os_Setenv : option error;
  client_for : option string → error + K
}.
Arguments MkLocal {K}.
Arguments os_Create {K}.
Arguments file_Write {K}.
Arguments file_Close {K}.
Arguments os_Setenv {K}.
Arguments client_for {K}.

Record BootstrapTokenDiscovery : Type := MkDiscovery {
  Token : string;
  APIServerEndpoint : string;
  CACertHashes : list string
}.

(** ** kubernetes.go: the receiver *)

Record bootstrapper (W K : Type) : Type := MkBootstrapper {
  vms : W;
  k8s_client : option K;
  adminConf : option string;
  controlPlaneIP : string;
  workerIPs : gmap string string;
  k8sConfig : string;
  cwd : gmap string string;
  KUBECONFIG : option string
}.
Arguments MkBootstrapper {W K}.
Arguments vms {W K}.
Arguments k8s_client {W K}.
Arguments adminConf {W K}.
Arguments controlPlaneIP {W K}.
Arguments workerIPs {W K}.
Arguments k8sConfig {W K}.
Arguments cwd {W K}.
Arguments KUBECONFIG {W K}.

(** The loop over the masters keeps the last one it visits. *)
Definition NewBootstrapper {W K} `{RangeOrder} (w : W) (env : option string)
    (nodes : NodeInformation) (k8sConfig : string) : bootstrapper W K :=
  MkBootstrapper w None None (foldl (λ _ (m : string * string), m.2) "" (range (Masters nodes)))
    (Workers nodes) k8sConfig ∅ env.

Section methods.
Context {W K : Type} `{AgentClient W} `{Pki} `{TokenApi K} `{RangeOrder}.
Variable os : local_calls K.
Abbreviation B := (bootstrapper W K).

Definition set_vms (w : W) (b : B) : B :=
  MkBootstrapper w (k8s_client b) (adminConf b) (controlPlaneIP b) (workerIPs b) (k8sConfig b)
    (cwd b) (KUBECONFIG b).
Definition set_client (k : option K) (b : B) : B :=
  MkBootstrapper (vms b) k (adminConf b) (controlPlaneIP b) (workerIPs b) (k8sConfig b)
    (cwd b) (KUBECONFIG b).
Definition set_adminConf (c : string) (b : B) : B :=
  MkBootstrapper (vms b) (k8s_client b) (Some c) (controlPlaneIP b) (workerIPs b) (k8sConfig b)
    (cwd b) (KUBECONFIG b).
Definition write_cwd (name content : string) (b : B) : B :=
  MkBootstrapper (vms b) (k8s_client b) (adminConf b) (controlPlaneIP b) (workerIPs b) (k8sConfig b)
    (<[name := content]> (cwd b)) (KUBECONFIG b).
Definition setenv (val : string) (b : B) : B :=
  MkBootstrapper (vms b) (k8s_client b) (adminConf b) (controlPlaneIP b) (workerIPs b) (k8sConfig b)
    (cwd b) (Some val).

Definition on_vms {A} : M W A → M B A := zoom vms set_vms.

(** A connection to the agent at [ip], closed whatever follows; the close's error is
    dropped. *)
Definition with_agent {A} (ip : string) (body : positive → M W A) : M W A :=
  conn ← grpc_Dial (JoinHostPort ip PublicAPIport);
  defer (attempt (conn_Close conn);; mret ()) (body conn).

(** ** exec.go *)

Definition Output (d : return_response) : string :=
  match d with Resp_Output o => o | Resp_Log _ => "" end.

(** The loop over the stream of an execution: it ends with the first output that is not
    empty; the logs are printed. *)
Fixpoint recv_output (msgs : list (error + return_response)) : M W string :=
  done ← ctx_Err;
  match done with
  | Some err => fail err
  | None =>
      match msgs with
      | [] => block
      | inl err :: _ => fail err
      | inr data :: msgs' =>
          if decide (Output data = "") then recv_output msgs' else mret (Output data)
      end
  end.

Definition executeWriteInitConfiguration (client : positive) (initConfigKubernetes : string) : M W () :=
  api_WriteFile client "/tmp" "kubeadmconf.yaml" initConfigKubernetes.

Definition kubeadm : string := "/usr/bin/kubeadm".
Definition init_args : list string :=
  ["init"; "--config"; "/tmp/kubeadmconf.yaml"; "--node-name"; "delegatio-master-0"; "--v=1";
   "--skip-certificate-key-print"].

Definition executeKubeadm (client : positive) : M W string :=
  resp ← api_ExecReturnStream client kubeadm init_args;
  recv_output resp.

Definition InstallKubernetes (kubernetesInitConfiguration : string) : M B () := λ b,
  on_vms (with_agent (controlPlaneIP b) (λ client,
    executeWriteInitConfiguration client kubernetesInitConfiguration;;
    executeKubeadm client;; mret ())) b.

(** *** The joining of the workers *)

Definition join_args (joinToken : BootstrapTokenDiscovery) (hash id : string) : list string :=
  ["join"; APIServerEndpoint joinToken; "--token"; Token joinToken;
   "--discovery-token-ca-cert-hash"; hash; "--node-name"; id].

(** [joinCluster] in its goroutine: before the dial, before the execution, in the loop, or
    returned. *)
Inductive join_at : Type :=
  | JoinDial
  | JoinExec (conn : positive)
  | JoinLoop (conn : positive) (msgs : list (error + return_response))
  | JoinEnd (err : option error).

Definition join_return (conn : positive) (err : option error) : M W join_at :=
  attempt (conn_Close conn);; mret (JoinEnd err).

(** Its next call; [cancelled] is the error of the group's context when that is done. A
    goroutine that waits in [Recv], and one that has returned, stays where it is. *)
Definition join_next (joinToken : BootstrapTokenDiscovery) (cancelled : option error)
    (id ip : string) (t : join_at) : M W join_at :=
  match t with
  | JoinDial =>
      r ← attempt (grpc_Dial (JoinHostPort ip PublicAPIport));
      mret (match r with inl err => JoinEnd (Some err) | inr conn => JoinExec conn end)
  | JoinExec conn =>
      match CACertHashes joinToken with
      | [] => panic
      | hash :: _ =>
          r ← attempt (api_ExecReturnStream conn kubeadm (join_args joinToken hash id));
          match r with
          | inl err => join_return conn (Some err)
          | inr resp => mret (JoinLoop conn resp)
          end
      end
  | JoinLoop conn msgs =>
      done ← ctx_Err;
      match (match done with Some err => Some err | None => cancelled end), msgs with
      | Some err, _ => join_return conn (Some err)
      | None, [] => mret (JoinLoop conn [])
      | None, inl err :: _ => join_return conn (Some err)
      | None, inr data :: msgs' =>
          if decide (Output data = "") then mret (JoinLoop conn msgs') else join_return conn None
      end
  | JoinEnd err => mret (JoinEnd err)
  end.

(** A goroutine: the worker's name and address, and where it is. *)
Definition join_turn (joinToken : BootstrapTokenDiscovery) (cancelled : option error)
    (g : string * string * join_at) : M W (string * string * join_at) :=
  let '(id, ip, t) := g in
  t' ← join_next joinToken cancelled id ip t;
  mret (id, ip, t').
Definition join_outcome (g : string * string * join_at) : option (option error) :=
  match g.2 with JoinEnd err => Some err | _ => None end.

Definition joins_start (w : W) (ips : gmap string string) : group W (string * string * join_at) :=
  MkGroup w ((λ '(name, addr), (name, addr, JoinDial)) <$> range ips) None.

Definition JoinClusterCoordinator (schedule : list nat) (joinToken : BootstrapTokenDiscovery)
    : M B () := λ b,
  match group_run (join_turn joinToken) join_outcome schedule (joins_start (vms b) (workerIPs b)) with
  | (r, s) => (r, set_vms (shared s) b)
  end.

(** ** get.go *)

Definition getKubernetesConfig : M B string := λ b,
  (adminConfData ← on_vms (with_agent (controlPlaneIP b) (λ client,
     api_ReadFile client "/etc/kubernetes" "/admin.conf"));
   modify (set_adminConf adminConfData);;
   mret adminConfData) b.

Definition getKubernetesRootCert : M B string := λ b,
  on_vms (with_agent (controlPlaneIP b) (λ client,
    api_ReadFile client "/etc/kubernetes/pki/" "/ca.crt")) b.

(** [CreateNewTokens] on the client, an interface that is nil before it is established. *)
Definition create_tokens (tokens : list BootstrapToken) : M B () := λ b,
  match k8s_client b with
  | None => (Panic, b)
  | Some k => match CreateNewTokens tokens k with (r, k') => (r, set_client (Some k') b) end
  end.

(** A failing call with [fmt.Errorf("msg: %w", err)] around its error. *)
Definition wrapping {S A} (msg : string) (m : M S A) : M S A :=
  r ← attempt m;
  match r with inl err => fail (ErrWrap msg err) | inr a => mret a end.

Definition of_sum {S A} (r : error + A) : M S A :=
  match r with inl e => fail e | inr a => mret a end.

Definition getJoinToken (ttl : Z) (caFileContentPem : string) : M B BootstrapTokenDiscovery := λ b,
  (rawToken ← wrapping "couldn't generate random token" (of_sum GenerateBootstrapToken);
   tokenStr ← wrapping "invalid token" (of_sum (NewBootstrapTokenString rawToken));
   wrapping "creating bootstrap token"
     (create_tokens [MkBootstrapToken tokenStr "Bootstrap token generated by delegatio cli" ttl]);;
   match pem_Decode caFileContentPem with
   | None => fail (ErrNew "no PEM data found in CA cert")
   | Some bytes =>
       caCertX509 ← wrapping "parsing CA certs" (of_sum (x509_ParseCertificate bytes));
       mret (MkDiscovery tokenStr (JoinHostPort (controlPlaneIP b) "6443")
               [pubkeypin_Hash caCertX509])
   end) b.

(** ** generate.go *)

(** The new certificate's template and its parent both are the authority's certificate. *)
Definition generateEtcdCertificate (caCert caKey : string) : error + EtcdCredentials :=
  match pem_Decode caCert with
  | None => inl (ErrNew "no PEM data found in CA cert")
  | Some certBytes =>
      match x509_ParseCertificate certBytes with
      | inl err => inl err
      | inr caCertX509 =>
          match pem_Decode caKey with
          | None => inl (ErrNew "no PEM data found in CA key")
          | Some keyBytes =>
              match x509_ParsePKCS1PrivateKey keyBytes with
              | inl _ => inl (ErrNew "cannot parse pkcs1 CA key pem block")
              | inr caPrivateKey =>
                  match rsa_GenerateKey with
                  | inl err => inl err
                  | inr key =>
                      match x509_CreateCertificate caCertX509 caCertX509 key caPrivateKey with
                      | inl err => inl err
                      | inr cert => inr (MkEtcdCredentials
                          (Some (pem_EncodeToMemory "CERTIFICATE" cert))
                          (Some (pem_EncodeToMemory "RSA PRIVATE KEY" (x509_MarshalPKCS1PrivateKey key)))
                          (Some caCert))
                      end
                  end
              end
          end
      end
  end.

(** The credentials are a pointer: an error of a read is [return nil, nil]. *)
Definition read_etcd_files (client : positive) : M W (option (string * string)) :=
  r1 ← attempt (api_ReadFile client "/etc/kubernetes/pki/etcd/" "ca.key");
  match r1 with
  | inl _ => mret None
  | inr caKey =>
      r2 ← attempt (api_ReadFile client "/etc/kubernetes/pki/etcd/" "ca.crt");
      match r2 with
      | inl _ => mret None
      | inr caCert => mret (Some (caCert, caKey))
      end
  end.

Definition getEtcdCredentials : M B (option EtcdCredentials) := λ b,
  on_vms (with_agent (controlPlaneIP b) (λ client,
    files ← read_etcd_files client;
    match files with
    | None => mret None
    | Some (caCert, caKey) =>
        creds ← of_sum (generateEtcdCertificate caCert caKey);
        mret (Some creds)
    end)) b.

(** ** write.go *)

(** When [os.Create] fails the file is nil, and [adminConfigFile.Name()] dereferences it;
    otherwise the error of the deferred close is joined to the function's. *)
Definition writeKubeconfigToDisk : M B () :=
  file ← getKubernetesConfig;
  match os_Create os with
  | Some _ => panic
  | None =>
      modify (write_cwd "admin.conf" "");;
      match file_Write os with
      | Some err => of_err (errors_Join
          [Some (ErrWrap "writing kubeadm init yaml config admin.conf failed" err); file_Close os])
      | None =>
          modify (write_cwd "admin.conf" file);;
          match os_Setenv os with
          | Some err => of_err (errors_Join [Some err; file_Close os])
          | None =>
              modify (setenv "admin.conf");;
              of_err (errors_Join [None; file_Close os])
          end
      end
  end.

(** ** kubernetes.go *)

Definition establishClientGoConnection : M B () := λ b,
  match KUBECONFIG b with
  | None => (Fail (ErrNew "KUBECONFIG environment variable not set"), b)
  | Some val =>
      match client_for os (cwd b !! val) with
      | inl err => (Fail err, b)
      | inr client => (Ret (), set_client (Some client) b)
      end
  end.

Definition configureKubernetes : M B BootstrapTokenDiscovery :=
  writeKubeconfigToDisk;;
  establishClientGoConnection;;
  caFileContentPem ← wrapping "loading ca.crt file" getKubernetesRootCert;
  getJoinToken DefaultTimeout caFileContentPem.

Definition BootstrapKubernetes (schedule : list nat) : M B (option EtcdCredentials) := λ b,
  (InstallKubernetes (k8sConfig b);;
   joinToken ← configureKubernetes;
   JoinClusterCoordinator schedule joinToken;;
   getEtcdCredentials) b.
End methods.

(** ** What the agents promise *)

(** A connection is open from a successful dial until it is closed, a successful call of
    an execution starts that command on the connection's machine (a failing one may have),
    and every call comes back. *)
Class AgentLaws (W : Type) `{AgentClient W} : Type := {
  conns : W → list positive;
  commands : W → list (string * string * list string);
  grpc_Dial_law addr w r w' : grpc_Dial addr w = (r, w') → returns r ∧ commands w' = commands w ∧
    match r with
    | Ret c => conn_target c = addr ∧ conns w' ≡ₚ c :: conns w
    | _ => conns w' ≡ₚ conns w
    end;
  conn_Close_law c w r w' : conn_Close c w = (r, w') → returns r ∧ commands w' = commands w ∧
    (c ∈ conns w → conns w ≡ₚ c :: conns w');
  api_WriteFile_law c d n content w r w' : api_WriteFile c d n content w = (r, w') →
    returns r ∧ commands w' = commands w ∧ conns w' ≡ₚ conns w;
  api_ReadFile_law c d n w r w' : api_ReadFile c d n w = (r, w') →
    returns r ∧ commands w' = commands w ∧ conns w' ≡ₚ conns w;
  api_Exec_law c command args w r w' : api_ExecReturnStream c command args w = (r, w') →
    returns r ∧ conns w' ≡ₚ conns w ∧
    ∃ started, commands w' = commands w ++ started ∧
      (∀ msgs, r = Ret msgs → started = [(conn_target c, command, args)]);
  ctx_Err_law w r w' : ctx_Err w = (r, w') → (∃ e, r = Ret e) ∧ commands w' = commands w ∧
    conns w' ≡ₚ conns w
}.

(** ** Lemmas *)

Abbreviation command := (string * string * list string)%type.

(** *** What a part of the bootstrap does to the machines *)

Section effect.
Context {W : Type} `{AgentLaws W} {S : Type} (get : S → W) (I : S → Prop).

(** [m] leaves the open connections and the started commands as they are. *)
Definition silent {A} (m : M S A) : Prop := ∀ s r s', I s → m s = (r, s') → returns r →
  I s' ∧ conns (get s') ≡ₚ conns (get s) ∧ commands (get s') = commands (get s).

(** [m] closes what it opens, however it comes back, and when it succeeds it has started
    commands as described by [Q]. *)
Definition effect {A} (m : M S A) (Q : A → list command → Prop) : Prop :=
  ∀ s r s', I s → m s = (r, s') → returns r →
    I s' ∧ conns (get s') ≡ₚ conns (get s) ∧
    ∀ a, r = Ret a → ∃ l, commands (get s') = commands (get s) ++ l ∧ Q a l.

Lemma silent_effect {A} (m : M S A) : silent m → effect m (λ _ l, l = []).
Proof.
  intros Hm s r s' Hi E Hr. destruct (Hm s r s' Hi E Hr) as (? & ? & Hc). split_and!; [done..|].
  intros a _. exists []. by rewrite app_nil_r.
Qed.

Lemma silent_ret {A} (a : A) : silent (mret a).
Proof. by intros s r s' Hi [= <- <-] _. Qed.
Lemma silent_fail {A} e : silent (@fail S A e).
Proof. by intros s r s' Hi [= <- <-] _. Qed.
Lemma silent_of_sum {A} (x : error + A) : silent (of_sum x).
Proof. destruct x; [apply silent_fail|apply silent_ret]. Qed.
Lemma silent_of_err x : silent (of_err x).
Proof. destruct x; [apply silent_fail|apply silent_ret]. Qed.
Lemma silent_panic {A} : silent (@panic S A).
Proof. by intros s r s' Hi [= <- <-] []. Qed.

Lemma silent_bind {A B} (m : M S A) (f : A → M S B) :
  silent m → (∀ a, silent (f a)) → silent (m ≫= f).
Proof.
  intros Hm Hf s r s'' Hi. unfold mbind, M_bind. destruct (m s) as [r1 s1] eqn:E1.
  destruct r1 as [a|e| |]; [|by intros [= <- <-] _; eapply (Hm _ _ _ Hi E1)|by intros [= <- <-]..].
  destruct (Hm _ _ _ Hi E1) as (Hi1 & Hc1 & Hk1); [done|].
  intros E2 Hr. destruct (Hf a _ _ _ Hi1 E2 Hr) as (? & Hc2 & Hk2).
  split_and!; [done|by rewrite Hc2|congruence].
Qed.

Lemma silent_attempt {A} (m : M S A) : silent m → silent (attempt m).
Proof.
  intros Hm s r s' Hi. unfold attempt. destruct (m s) as [[a|e| |] s1] eqn:E1; intros [= <- <-] Hr;
    try done; by eapply (Hm _ _ _ Hi E1).
Qed.

Lemma silent_wrapping {A} msg (m : M S A) : silent m → silent (wrapping msg m).
Proof.
  intros Hm. apply silent_bind; [by apply silent_attempt|].
  intros []; [apply silent_fail|apply silent_ret].
Qed.

Lemma effect_bind {A B} (m : M S A) (f : A → M S B) Q R :
  effect m Q → (∀ a l, Q a l → effect (f a) (R a)) →
  effect (m ≫= f) (λ b l, ∃ a l1 l2, l = l1 ++ l2 ∧ Q a l1 ∧ R a b l2).
Proof.
  intros Hm Hf s r s'' Hi. unfold mbind, M_bind. destruct (m s) as [r1 s1] eqn:E1.
  destruct r1 as [a|e| |]; [|intros [= <- <-] _|by intros [= <- <-]..].
  - destruct (Hm _ _ _ Hi E1) as (Hi1 & Hc1 & Hk1); [done|].
    destruct (Hk1 a eq_refl) as (l1 & Hl1 & HQ). intros E2 Hr.
    destruct (Hf a l1 HQ _ _ _ Hi1 E2 Hr) as (? & Hc2 & Hk2). split_and!; [done|by rewrite Hc2|].
    intros b ->. destruct (Hk2 b eq_refl) as (l2 & Hl2 & HR). exists (l1 ++ l2).
    rewrite Hl2, Hl1, app_assoc. split; [done|]. by exists a, l1, l2.
  - destruct (Hm _ _ _ Hi E1) as (? & ? & _); [done|]. by split_and!.
Qed.

(** The common cases: only one part of a sequence starts commands. *)
Lemma effect_silent_bind {A B} (m : M S A) (f : A → M S B) Q :
  silent m → (∀ a, effect (f a) Q) → effect (m ≫= f) Q.
Proof.
  intros Hm Hf s r s'' Hi. unfold mbind, M_bind. destruct (m s) as [r1 s1] eqn:E1.
  destruct r1 as [a|e| |]; [|intros [= <- <-] _|by intros [= <- <-]..].
  - destruct (Hm _ _ _ Hi E1) as (Hi1 & Hc1 & Hk1); [done|]. intros E2 Hr.
    destruct (Hf a _ _ _ Hi1 E2 Hr) as (? & Hc2 & Hk2). rewrite <-Hk1. split_and!; [done|by rewrite Hc2|done].
  - destruct (Hm _ _ _ Hi E1) as (? & ? & _); [done|]. by split_and!.
Qed.

Lemma effect_bind_silent {A B} (m : M S A) (f : A → M S B) Q :
  effect m (λ _, Q) → (∀ a, silent (f a)) → effect (m ≫= f) (λ _, Q).
Proof.
  intros Hm Hf s r s'' Hi. unfold mbind, M_bind. destruct (m s) as [r1 s1] eqn:E1.
  destruct r1 as [a|e| |]; [|intros [= <- <-] _|by intros [= <- <-]..].
  - destruct (Hm _ _ _ Hi E1) as (Hi1 & Hc1 & Hk1); [done|].
    destruct (Hk1 a eq_refl) as (l & Hl & HQ). intros E2 Hr.
    destruct (Hf a _ _ _ Hi1 E2 Hr) as (? & Hc2 & Hk2). split_and!; [done|by rewrite Hc2|].
    intros _ _. exists l. split; [congruence|done].
  - destruct (Hm _ _ _ Hi E1) as (? & ? & _); [done|]. by split_and!.
Qed.

Lemma effect_ret {A} (a : A) (Q : A → list command → Prop) : Q a [] → effect (mret a) Q.
Proof.
  intros HQ s r s' Hi [= <- <-] _. split_and!; [done..|]. intros ? [= <-]. exists [].
  by rewrite app_nil_r.
Qed.
Lemma effect_fail {A} e (Q : A → list command → Prop) : effect (fail e) Q.
Proof. intros s r s' Hi [= <- <-] _. by split_and!. Qed.

Lemma effect_mono {A} (m : M S A) (Q R : A → list command → Prop) :
  effect m Q → (∀ a l, Q a l → R a l) → effect m R.
Proof.
  intros Hm HQ s r s' Hi E Hr. destruct (Hm _ _ _ Hi E Hr) as (? & ? & Hk). split_and!; [done..|].
  intros a ->. destruct (Hk a eq_refl) as (l & ? & ?). eauto.
Qed.
End effect.

(** The calls on a connection. *)
Section calls.
Context {W : Type} `{AgentLaws W}.
Abbreviation wsilent := (silent (λ w : W, w) (λ _, True)).
Abbreviation weffect := (effect (λ w : W, w) (λ _, True)).

Lemma WriteFile_silent c d n content : wsilent (api_WriteFile c d n content).
Proof. intros w r w' _ E _. apply api_WriteFile_law in E as (? & ? & ?). done. Qed.
Lemma ReadFile_silent c d n : wsilent (api_ReadFile c d n).
Proof. intros w r w' _ E _. apply api_ReadFile_law in E as (? & ? & ?). done. Qed.
Lemma ctx_Err_silent : wsilent ctx_Err.
Proof. intros w r w' _ E _. apply ctx_Err_law in E as (? & ? & ?). done. Qed.

Lemma recv_output_silent msgs : wsilent (recv_output msgs).
Proof.
  induction msgs as [|[e|d] msgs IH]; simpl; (apply silent_bind; [apply ctx_Err_silent|]);
    intros [err|]; try apply silent_fail.
  - by intros w r w' _ [= <- <-].
  - case_decide; [done|apply silent_ret].
Qed.

Lemma Exec_effect c command args :
  weffect (api_ExecReturnStream c command args) (λ _ l, l = [(conn_target c, command, args)]).
Proof.
  intros w r w' _ E _. apply api_Exec_law in E as (_ & Hc & l & Hl & Hs). split_and!; [done..|].
  intros msgs ->. exists l. eauto.
Qed.

(** A connection of one's own: it is closed again. *)
Lemma with_agent_inv {A} ip (body : positive → M W A) w r w' :
  with_agent ip body w = (r, w') → returns r →
  (commands w' = commands w ∧ conns w' ≡ₚ conns w ∧ ∃ e, r = Fail e) ∨
  ∃ c w1 w2, conn_target c = JoinHostPort ip PublicAPIport ∧ conns w1 ≡ₚ c :: conns w ∧
    commands w1 = commands w ∧ body c w1 = (r, w2) ∧
    commands w' = commands w2 ∧ (c ∈ conns w2 → conns w2 ≡ₚ c :: conns w').
Proof.
  unfold with_agent, mbind, M_bind. intros E Hr.
  destruct (grpc_Dial _ w) as [r1 w1] eqn:E1. destruct (grpc_Dial_law _ _ _ _ E1) as (Hr1 & Hk1 & Hc1).
  destruct r1 as [c|e| |]; [|simplify_eq; left; by split_and!; [..|eexists]|done..].
  right. destruct Hc1 as [Ht Hc1]. unfold defer, attempt in E. destruct (body c w1) as [r2 w2] eqn:E2.
  destruct (conn_Close c w2) as [r3 w3] eqn:E3. destruct (conn_Close_law _ _ _ _ E3) as (Hr3 & Hk3 & Hc3).
  assert (r = r2 ∧ w' = w3) as [-> ->].
  { destruct r2, r3; simplify_eq/=; done. }
  by exists c, w1, w2.
Qed.

Lemma with_agent_effect {A} ip (body : positive → M W A) Q :
  (∀ c, conn_target c = JoinHostPort ip PublicAPIport → weffect (body c) Q) →
  weffect (with_agent ip body) Q.
Proof.
  intros Hb w r w' _ E Hr.
  destruct (with_agent_inv _ _ _ _ _ E Hr) as [(? & ? & e & ->)|(c & w1 & w2 & Ht & Hc1 & Hk1 & E2 & Hk3 & Hc3)];
    [by split_and!|].
  destruct (Hb c Ht w1 r w2 I E2 Hr) as (_ & Hc2 & Hk2). split_and!; [done| |].
  - apply (Permutation_cons_inv (a := c)). rewrite <-Hc3, Hc2, Hc1; [done|].
    rewrite Hc2, Hc1. by left.
  - intros a ->. destruct (Hk2 a eq_refl) as (l & Hl & HQ). exists l. split; [congruence|done].
Qed.

Lemma with_agent_silent {A} ip (body : positive → M W A) :
  (∀ c, wsilent (body c)) → wsilent (with_agent ip body).
Proof.
  intros Hb w r w' _ E Hr.
  destruct (with_agent_inv _ _ _ _ _ E Hr) as [(? & ? & e & ->)|(c & w1 & w2 & Ht & Hc1 & Hk1 & E2 & Hk3 & Hc3)];
    [by split_and!|].
  destruct (Hb c w1 r w2 I E2 Hr) as (_ & Hc2 & Hk2). split_and!; [done| |congruence].
  apply (Permutation_cons_inv (a := c)). rewrite <-Hc3, Hc2, Hc1; [done|].
  rewrite Hc2, Hc1. by left.
Qed.

Lemma read_etcd_files_silent c : wsilent (read_etcd_files c).
Proof.
  apply silent_bind; [apply silent_attempt, ReadFile_silent|]. intros []; [apply silent_ret|].
  apply silent_bind; [apply silent_attempt, ReadFile_silent|]. intros []; apply silent_ret.
Qed.
End calls.

(** *** The joining of the workers *)

(** Changing one element of a list changes its image at most there. *)
Lemma omap_insert_perm {A B} (f : A → option B) (l : list A) i x y : l !! i = Some x →
  option_list (f x) ++ omap f (<[i := y]> l) ≡ₚ option_list (f y) ++ omap f l.
Proof.
  intros Hi. rewrite <-(take_drop_middle l i x Hi) at 2.
  rewrite insert_take_drop by (by eapply lookup_lt_Some). rewrite !omap_app.
  rewrite (Permutation_app_comm (omap f (take i l)) (omap f (y :: _))).
  rewrite (Permutation_app_comm (omap f (take i l)) (omap f (x :: _))). simpl.
  destruct (f x), (f y); simpl; (done || apply Permutation_swap).
Qed.

Section joins.
Context {W : Type} `{AgentLaws W}.
Variables (joinToken : BootstrapTokenDiscovery) (hash : string) (hashes : list string).
Hypothesis Hhash : CACertHashes joinToken = hash :: hashes.

Definition join_command (id ip : string) : command :=
  (JoinHostPort ip PublicAPIport, kubeadm, join_args joinToken hash id).

Definition open_conn (t : string * string * join_at) : option positive :=
  match t.2 with JoinExec c | JoinLoop c _ => Some c | _ => None end.
Definition started (t : string * string * join_at) : option command :=
  match t.2 with
  | JoinLoop _ _ | JoinEnd None => Some (join_command t.1.1 t.1.2)
  | _ => None
  end.

(** [conns0] and [commands0] are those of before; [ws] are the workers. *)
Record join_inv (conns0 : list positive) (commands0 : list command) (ws : list (string * string))
    (s : group W (string * string * join_at)) : Prop := {
  ji_workers : (threads s).*1 = ws;
  ji_conns : conns (shared s) ≡ₚ omap open_conn (threads s) ++ conns0;
  ji_target i id ip c : threads s !! i = Some (id, ip, JoinExec c) →
    conn_target c = JoinHostPort ip PublicAPIport;
  ji_err : errors_kept join_outcome s;
  ji_commands : first_err s = None →
    ∃ l, commands (shared s) = commands0 ++ l ∧ l ≡ₚ omap started (threads s)
}.

Lemma join_return_eq (c : positive) err (w : W) : ∃ w', join_return c err w = (Ret (JoinEnd err), w') ∧
  commands w' = commands w ∧ (c ∈ conns w → conns w ≡ₚ c :: conns w').
Proof.
  unfold join_return, attempt, mbind, M_bind. destruct (conn_Close c w) as [r w'] eqn:E.
  destruct (conn_Close_law _ _ _ _ E) as (Hr & Hk & Hc). exists w'.
  by destruct r.
Qed.

(** What one step of a goroutine does: [cs] are the commands it starts. *)
Record join_did (id ip : string) (t t' : join_at) (w w' : W) (cs : list command) : Prop := {
  jd_conns : option_list (open_conn (id, ip, t)) ++ conns w' ≡ₚ
             option_list (open_conn (id, ip, t')) ++ conns w;
  jd_target c : t' = JoinExec c → conn_target c = JoinHostPort ip PublicAPIport;
  jd_commands : commands w' = commands w ++ cs;
  jd_started : (∃ e, t' = JoinEnd (Some e)) ∨
    option_list (started (id, ip, t)) ++ cs ≡ₚ option_list (started (id, ip, t'));
  jd_ended e : t = JoinEnd (Some e) → t' = t
}.

(** A goroutine that returns from its loop or its execution. *)
Lemma join_did_return id ip t c err (w w1 : W) cs : open_conn (id, ip, t) = Some c → c ∈ conns w →
  conns w1 ≡ₚ conns w → commands w1 = commands w ++ cs →
  (is_Some err ∨ started (id, ip, t) = Some (join_command id ip) ∧ cs = []) →
  ∃ t' w' cs, join_return c err w1 = (Ret t', w') ∧ join_did id ip t t' w w' cs.
Proof.
  intros Ho Hin Hc Hk Hs. destruct (join_return_eq c err w1) as (w' & E & Hk' & Hc').
  exists (JoinEnd err), w', cs. split; [done|]. split; simpl.
  - rewrite Ho. simpl. rewrite <-Hc', Hc; [done|]. by rewrite Hc.
  - done.
  - congruence.
  - destruct Hs as [[e ->]|[-> ->]]; [left; by eexists|]. destruct err; [left; by eexists|by right].
  - intros e ->. done.
Qed.

Lemma join_next_spec cancelled id ip t (w : W) :
  (∀ c, t = JoinExec c → conn_target c = JoinHostPort ip PublicAPIport) →
  (∀ c, open_conn (id, ip, t) = Some c → c ∈ conns w) →
  ∃ t' w' cs, join_next joinToken cancelled id ip t w = (Ret t', w') ∧ join_did id ip t t' w w' cs.
Proof.
  intros Ht Ho. destruct t as [|c|c msgs|err]; simpl.
  - unfold attempt, mbind, M_bind. destruct (grpc_Dial _ w) as [r w1] eqn:E.
    apply grpc_Dial_law in E as (Hr & Hk & Hc). destruct r as [c|e| |]; try done.
    + destruct Hc as [Hc Hp]. exists (JoinExec c), w1, []. split; [done|].
      split; [done|by intros ? [= <-]|by rewrite app_nil_r|by right|done].
    + exists (JoinEnd (Some e)), w1, []. split; [done|].
      split; [done|done|by rewrite app_nil_r|left; by eexists|done].
  - rewrite Hhash. unfold attempt, mbind, M_bind.
    destruct (api_ExecReturnStream _ _ _ w) as [r w1] eqn:E.
    apply api_Exec_law in E as (Hr & Hc & l & Hl & Hs). destruct r as [msgs|e| |]; try done.
    + exists (JoinLoop c msgs), w1, l. split; [done|].
      split; [by rewrite Hc|done|done| |done]. right. simpl. rewrite (Hs msgs eq_refl), Ht by done. done.
    + eapply join_did_return; eauto.
  - unfold mbind, M_bind. destruct (ctx_Err w) as [r w1] eqn:E.
    apply ctx_Err_law in E as ([d ->] & Hk & Hc).
    assert (commands w1 = commands w ++ []) as Hk' by (by rewrite app_nil_r).
    destruct (match d with Some err => Some err | None => cancelled end) as [err|].
    { eapply join_did_return; eauto. }
    destruct msgs as [|[e|data] msgs].
    + exists (JoinLoop c []), w1, []. split; [done|]. split; [by rewrite Hc|done|done|by right|done].
    + eapply join_did_return; eauto.
    + case_decide.
      * exists (JoinLoop c msgs), w1, []. split; [done|]. split; [by rewrite Hc|done|done|by right|done].
      * eapply join_did_return; eauto.
  - exists (JoinEnd err), w, []. split; [done|].
    split; [done|done|by rewrite app_nil_r|right; by rewrite app_nil_r|done].
Qed.

Abbreviation turn := (join_turn joinToken).

Lemma join_turn_keeps conns0 commands0 ws s i t :
  join_inv conns0 commands0 ws s → threads s !! i = Some t →
  ∃ t' w', turn (group_ctx s) t (shared s) = (Ret t', w') ∧ t'.1 = t.1 ∧
    join_next joinToken (group_ctx s) t.1.1 t.1.2 t.2 (shared s) = (Ret t'.2, w') ∧
    join_inv conns0 commands0 ws (MkGroup w' (<[i := t']> (threads s))
      (match first_err s, join_outcome t' with None, Some err => err | e, _ => e end)).
Proof.
  intros [Hw Hc Ht He Hk] Hi. destruct t as [[id ip] t].
  destruct (join_next_spec (group_ctx s) id ip t (shared s)) as (t' & w' & cs & E & [Dc Dt Dk Ds De]).
  { intros c ->. by eapply Ht. }
  { intros c Hoc. rewrite Hc. apply elem_of_app. left. apply list_elem_of_omap.
    exists (id, ip, t). split; [by eapply list_elem_of_lookup_2|done]. }
  exists (id, ip, t'), w'. split; [unfold join_turn; by rewrite (bind_Ret _ _ _ _ _ E)|].
  split; [done|]. split; [done|]. split; simpl.
  - rewrite list_fmap_insert. simpl. rewrite list_insert_id; [done|].
    rewrite list_lookup_fmap, Hi. done.
  - pose proof (omap_insert_perm open_conn (threads s) i _ (id, ip, t') Hi) as Hp.
    apply (Permutation_app_inv_l (option_list (open_conn (id, ip, t)))).
    rewrite app_assoc, Hp, Dc, Hc. by rewrite app_assoc.
  - intros j id0 ip0 c [(<- & [= -> -> ->] & _)|[_ Hj]]%list_lookup_insert_Some; [by apply Dt|by eapply Ht].
  - by apply errors_kept_turn.
  - intros Hn. destruct (first_err s) eqn:Hn0; [done|].
    destruct (Hk eq_refl) as (l & Hl & Hp). exists (l ++ cs). rewrite Dk, Hl, app_assoc. split; [done|].
    pose proof (omap_insert_perm started (threads s) i _ (id, ip, t') Hi) as Hq.
    apply (Permutation_app_inv_l (option_list (started (id, ip, t)))). rewrite Hq, Hp.
    destruct Ds as [[e ->]|<-]; [by simpl in Hn|].
    rewrite <-app_assoc. apply Permutation_app_head, Permutation_app_comm.
Qed.

Lemma join_turns_keep conns0 commands0 ws :
  turn_keeps turn join_outcome (join_inv conns0 commands0 ws).
Proof.
  apply turn_keeps_intro. intros g i t Hg Hi _.
  destruct (join_turn_keeps _ _ _ _ _ _ Hg Hi) as (t' & w' & ? & _ & _ & ?). eauto.
Qed.

Lemma joins_ended ws l : l.*1 = ws →
  ((∀ t, t ∈ l → is_Some (join_outcome t)) → omap open_conn l = []) ∧
  ((∀ t, t ∈ l → join_outcome t = Some None) → omap started l = (λ '(id, ip), join_command id ip) <$> ws).
Proof.
  revert ws; induction l as [|[[id ip] t] l IH]; intros ws <-; [done|].
  destruct (IH _ eq_refl) as [Ho Hs]. split.
  - intros Hall. assert (is_Some (join_outcome (id, ip, t))) as [x Hx] by (apply Hall; by left).
    destruct t; try done. simpl. apply Ho. intros t' Ht'. apply Hall. by right.
  - intros Hall. assert (join_outcome (id, ip, t) = Some None) as Hx by (apply Hall; by left).
    destruct t as [| | |[]]; try done. simpl. f_equal. apply Hs. intros t' Ht'. apply Hall. by right.
Qed.

(** *** Every goroutine can end *)

(** A stream that comes to an end, or to an output that is not empty. *)
Definition ending (msgs : list (error + return_response)) : Prop :=
  Exists (λ m, match m with inl _ => True | inr d => Output d ≠ "" end) msgs.
Definition ending_at (t : join_at) : Prop :=
  match t with JoinLoop _ msgs => ending msgs | _ => True end.

Hypothesis executions_end : ∀ c args w msgs w',
  api_ExecReturnStream c kubeadm args w = (Ret msgs, w') → ending msgs.

Lemma join_return_end c err (w : W) t' w' : join_return c err w = (Ret t', w') → t' = JoinEnd err.
Proof. destruct (join_return_eq c err w) as (w1 & -> & _). by intros [= <- _]. Qed.

(** How many steps a goroutine that is past its execution has left. *)
Definition left_in (t : join_at) : nat :=
  match t with
  | JoinEnd _ => 0 | JoinLoop _ msgs => 1 + length msgs | JoinExec _ | JoinDial => 0
  end.
Definition phase (t : join_at) : nat :=
  match t with JoinDial => 2 | JoinExec _ => 1 | JoinLoop _ _ | JoinEnd _ => 0 end.

Lemma join_next_progress cancelled id ip t (w : W) t' w' : ending_at t →
  join_next joinToken cancelled id ip t w = (Ret t', w') →
  ending_at t' ∧ ((∃ e, t' = JoinEnd e) ∨ (phase t' < phase t)%nat ∨
    (phase t' = phase t ∧ left_in t' < left_in t)%nat).
Proof.
  intros Ht E. destruct t as [|c|c msgs|e]; simpl in *.
  - unfold attempt, mbind, M_bind, mret, M_ret in E. destruct (grpc_Dial _ w) as [[c|e| |] w1]; simplify_eq/=.
    + split; [done|]. right. left. lia.
    + split; [done|]. left. by eexists.
  - rewrite Hhash in E. unfold attempt, mbind, M_bind, mret, M_ret in E.
    destruct (api_ExecReturnStream _ _ _ w) as [[msgs|e| |] w1] eqn:Ee; try done.
    + injection E as <- <-. split; [by eapply executions_end|]. right. left. simpl. lia.
    + apply join_return_end in E as ->. split; [done|]. left. by eexists.
  - unfold mbind, M_bind in E. destruct (ctx_Err w) as [[d|e| |] w1]; try done.
    destruct (match d with Some err => Some err | None => cancelled end) as [err|].
    { apply join_return_end in E as ->. split; [done|]. left. by eexists. }
    destruct msgs as [|[e|data] msgs]; [by apply Exists_nil in Ht|..].
    + apply join_return_end in E as ->. split; [done|]. left. by eexists.
    + case_decide.
      * injection E as <- <-. apply Exists_cons in Ht as [?|Ht]; [done|]. split; [done|].
        right. right. simpl. lia.
      * apply join_return_end in E as ->. split; [done|]. left. by eexists.
  - injection E as <- <-. split; [done|]. left. by eexists.
Qed.

(** Nearer to the end: a later phase, or fewer messages to read. *)
Definition nearer (t t' : string * string * join_at) : Prop :=
  (phase t'.2 < phase t.2 ∨ phase t'.2 = phase t.2 ∧ left_in t'.2 < left_in t.2)%nat.

Lemma nearer_wf t : sn nearer t.
Proof.
  remember (phase t.2) as p eqn:Hp. revert t Hp. induction (lt_wf p) as [p _ IHp]. intros t ->.
  remember (left_in t.2) as n eqn:Hn. revert t IHp Hn. induction (lt_wf n) as [n _ IHn].
  intros t IHp ->. constructor. intros t' [Hlt|[Heq Hlt]]; [by eapply IHp|].
  eapply IHn; [exact Hlt| |done]. by rewrite Heq.
Qed.

Lemma joins_can_end conns0 commands0 ws s schedule : join_inv conns0 commands0 ws s →
  Forall (λ t, ending_at t.2) (threads s) →
  ∃ more, returns (group_run turn join_outcome (schedule ++ more) s).1.
Proof.
  intros Hs He. apply (group_can_end turn join_outcome
    (λ g, join_inv conns0 commands0 ws g ∧ Forall (λ t, ending_at t.2) (threads g)) nearer nearer_wf);
    [|done].
  intros g i t [Hg Hend] Hi Ho.
  destruct (join_turn_keeps _ _ _ _ _ _ Hg Hi) as (t' & w' & E & Ht & En & Hg').
  pose proof (Forall_lookup_1 _ _ _ _ Hend Hi) as Hti.
  destruct (join_next_progress _ _ _ _ _ _ _ Hti En) as [Ht' Hp].
  exists t', w'. split; [done|]. split; [split; [done|by apply Forall_insert]|].
  destruct Hp as [[e He']|Hlt]; [left|right; exact Hlt]. unfold join_outcome. rewrite He'. eauto.
Qed.

Lemma joins_start_inv `{RangeOrder} (w : W) ips : join_inv (conns w) (commands w) (range ips) (joins_start w ips).
Proof.
  split; simpl.
  - rewrite <-list_fmap_compose. induction (range ips) as [|[] l IHl]; simpl; [done|by f_equal].
  - by induction (range ips) as [|[] l IHl].
  - intros i id ip c Hi. rewrite list_lookup_fmap in Hi. by destruct (range ips !! i) as [[]|].
  - intros i t e Hi. simpl in Hi. rewrite list_lookup_fmap in Hi. destruct (range ips !! i) as [[]|]; by simplify_eq/=.
  - intros _. exists []. rewrite app_nil_r. split; [done|]. by induction (range ips) as [|[] l IHl].
Qed.
End joins.

(** *** The parts of the bootstrap *)

Section parts.
Context {W K : Type} `{AgentLaws W} `{Pki} `{TokenApi K} `{RangeOrder}.
Variables (os : local_calls K) (cp : string) (ws : gmap string string).
Abbreviation B := (bootstrapper W K).

(** The nodes stay those the bootstrapper was made for. *)
Definition nodes_are (b : B) : Prop := controlPlaneIP b = cp ∧ workerIPs b = ws.
Abbreviation bsilent := (silent vms nodes_are).
Abbreviation beffect := (effect vms nodes_are).

Lemma on_vms_effect {A} (m : M W A) Q : effect (λ w : W, w) (λ _, True) m Q → beffect (on_vms m) Q.
Proof.
  intros Hm b r b' Hb. unfold on_vms, zoom. destruct (m (vms b)) as [r1 w1] eqn:E. intros [= <- <-] Hr.
  destruct (Hm _ _ _ I E Hr) as (_ & ? & ?). by split_and!.
Qed.

Lemma on_vms_silent {A} (m : M W A) : silent (λ w : W, w) (λ _, True) m → bsilent (on_vms m).
Proof.
  intros Hm b r b' Hb. unfold on_vms, zoom. destruct (m (vms b)) as [r1 w1] eqn:E. intros [= <- <-] Hr.
  destruct (Hm _ _ _ I E Hr) as (_ & ? & ?). by split_and!.
Qed.

(** A method that reads the addresses of the nodes. *)
Lemma effect_at {A} (m m' : M B A) Q : (∀ b, nodes_are b → m b = m' b) → beffect m' Q → beffect m Q.
Proof. intros Hm H' b r b' Hb E. rewrite Hm in E by done. by apply (H' b r b'). Qed.
Lemma silent_at {A} (m m' : M B A) : (∀ b, nodes_are b → m b = m' b) → bsilent m' → bsilent m.
Proof. intros Hm H' b r b' Hb E. rewrite Hm in E by done. by apply (H' b r b'). Qed.

Lemma silent_modify (f : B → B) :
  (∀ b, vms (f b) = vms b ∧ (nodes_are b → nodes_are (f b))) → bsilent (modify f).
Proof. intros Hf b r b' Hb [= <- <-] _. destruct (Hf b) as [-> ?]. by split_and!; auto. Qed.

Lemma InstallKubernetes_effect conf :
  beffect (InstallKubernetes conf) (λ _ l, l = [(JoinHostPort cp PublicAPIport, kubeadm, init_args)]).
Proof.
  eapply effect_at; [intros b [E _]; unfold InstallKubernetes; by rewrite E|].
  apply on_vms_effect, with_agent_effect. intros c Hc.
  apply effect_silent_bind; [apply WriteFile_silent|]. intros _.
  apply effect_bind_silent; [|intros; apply silent_ret].
  apply effect_bind_silent; [|intros; apply recv_output_silent].
  rewrite <-Hc. apply Exec_effect.
Qed.

Lemma getKubernetesConfig_silent : bsilent getKubernetesConfig.
Proof.
  eapply silent_at; [intros b [E _]; unfold getKubernetesConfig; by rewrite E|].
  apply silent_bind; [apply on_vms_silent, with_agent_silent; intros; apply ReadFile_silent|].
  intros a. apply silent_bind; [by apply silent_modify|]. intros _. apply silent_ret.
Qed.

Lemma getKubernetesRootCert_silent : bsilent getKubernetesRootCert.
Proof.
  eapply silent_at; [intros b [E _]; unfold getKubernetesRootCert; by rewrite E|].
  apply on_vms_silent, with_agent_silent. intros; apply ReadFile_silent.
Qed.

Lemma writeKubeconfigToDisk_silent : bsilent (writeKubeconfigToDisk os).
Proof.
  apply silent_bind; [apply getKubernetesConfig_silent|]. intros file.
  destruct (os_Create os); [apply silent_panic|].
  apply silent_bind; [by apply silent_modify|]. intros _.
  destruct (file_Write os); [apply silent_of_err|].
  apply silent_bind; [by apply silent_modify|]. intros _.
  destruct (os_Setenv os); [apply silent_of_err|].
  apply silent_bind; [by apply silent_modify|]. intros _. apply silent_of_err.
Qed.

Lemma establishClientGoConnection_silent : bsilent (establishClientGoConnection os).
Proof.
  intros b r b' Hb. unfold establishClientGoConnection.
  destruct (KUBECONFIG b); [destruct (client_for os _)|]; intros [= <- <-] _; by split_and!.
Qed.

Lemma create_tokens_silent ts : bsilent (create_tokens ts).
Proof.
  intros b r b' Hb. unfold create_tokens. destruct (k8s_client b) as [k|]; [|by intros [= <- <-]].
  destruct (CreateNewTokens ts k) as [r1 k1]. intros [= <- <-] _. by split_and!.
Qed.

(** The token names the control plane and has the one hash that the joins use. *)
Definition token_for (tok : BootstrapTokenDiscovery) : Prop :=
  APIServerEndpoint tok = JoinHostPort cp "6443" ∧ ∃ hash, CACertHashes tok = [hash].

Lemma getJoinToken_effect ttl pem : beffect (getJoinToken ttl pem) (λ tok l, l = [] ∧ token_for tok).
Proof.
  eapply effect_at; [intros b [E _]; unfold getJoinToken; by rewrite E|].
  apply effect_silent_bind; [apply silent_wrapping, silent_of_sum|]. intros raw.
  apply effect_silent_bind; [apply silent_wrapping, silent_of_sum|]. intros tok.
  apply effect_silent_bind; [apply silent_wrapping, create_tokens_silent|]. intros _.
  destruct (pem_Decode pem); [|apply effect_fail].
  apply effect_silent_bind; [apply silent_wrapping, silent_of_sum|]. intros cert.
  apply effect_ret. split; [done|]. split; [done|]. by eexists.
Qed.

Lemma configureKubernetes_effect : beffect (configureKubernetes os) (λ tok l, l = [] ∧ token_for tok).
Proof.
  apply effect_silent_bind; [apply writeKubeconfigToDisk_silent|]. intros _.
  apply effect_silent_bind; [apply establishClientGoConnection_silent|]. intros _.
  apply effect_silent_bind; [apply silent_wrapping, getKubernetesRootCert_silent|]. intros pem.
  apply getJoinToken_effect.
Qed.

Lemma JoinClusterCoordinator_effect schedule tok hash : CACertHashes tok = [hash] →
  beffect (JoinClusterCoordinator schedule tok) (λ _ l,
    l ≡ₚ (λ '(id, ip), join_command tok hash id ip) <$> map_to_list ws).
Proof.
  intros Hh b r b' Hb E Hr. unfold JoinClusterCoordinator in E. pose proof Hb as [_ Hw].
  destruct (group_turns_keep _ _ _ schedule _ (join_turns_keep tok hash [] Hh _ _ _)
    (joins_start_inv tok hash (vms b) (workerIPs b))) as (s & Es & [Sw Sc _ Se Sk]).
  unfold group_run in E. rewrite (bind_Ret _ _ _ _ _ Es) in E.
  destruct (group_Wait join_outcome s) as [r1 s1] eqn:E1. injection E as <- <-.
  destruct (group_Wait_returns _ _ _ _ E1 Hr) as [-> Hend].
  destruct (joins_ended tok hash _ (threads s) Sw) as [Ho Hs]. rewrite Ho in Sc by done.
  split_and!; [done|done|]. intros [] ->. apply group_Wait_Ret in E1 as (_ & Hf & Hnil); [|done].
  destruct (Sk Hf) as (l & Hl & Hp). exists l. split; [exact Hl|].
  rewrite Hp, Hs, Hw; [apply fmap_Permutation, range_perm|done].
Qed.

Lemma getEtcdCredentials_silent : bsilent getEtcdCredentials.
Proof.
  eapply silent_at; [intros b [E _]; unfold getEtcdCredentials; by rewrite E|].
  apply on_vms_silent, with_agent_silent. intros c.
  apply silent_bind; [apply read_etcd_files_silent|]. intros [[caCert caKey]|]; [|apply silent_ret].
  apply silent_bind; [apply silent_of_sum|]. intros. apply silent_ret.
Qed.

Lemma BootstrapKubernetes_effect conf schedule :
  beffect (InstallKubernetes conf;; joinToken ← configureKubernetes os;
           JoinClusterCoordinator schedule joinToken;; getEtcdCredentials)
    (λ _ l, ∃ tok hash js, APIServerEndpoint tok = JoinHostPort cp "6443" ∧
       CACertHashes tok = [hash] ∧
       l = (JoinHostPort cp PublicAPIport, kubeadm, init_args) :: js ∧
       js ≡ₚ (λ '(id, ip), join_command tok hash id ip) <$> map_to_list ws).
Proof.
  eapply effect_mono.
  - eapply effect_bind; [apply InstallKubernetes_effect|]. intros _' ? ->.
    eapply effect_bind; [apply configureKubernetes_effect|]. intros tok ? (-> & He & hash & Hh).
    instantiate (1 := λ tok _ l, ∃ hash, CACertHashes tok = [hash] ∧
      l ≡ₚ (λ '(id, ip), join_command tok hash id ip) <$> map_to_list ws). simpl.
    apply effect_bind_silent; [|intros; apply getEtcdCredentials_silent].
    eapply effect_mono; [by eapply JoinClusterCoordinator_effect|].
    simpl. intros _ l Hl. by exists hash.
  - simpl. intros creds l (_ & l1 & l2 & -> & -> & tok & l3 & l4 & -> & (-> & He & _) & hash & Hh & Hp).
    by exists tok, hash, l4.
Qed.
End parts.

(** ** Theorems *)

Section theorems.
Context {W K : Type} `{AgentLaws W} `{Pki} `{TokenApi K} `{RangeOrder}.
Variables (os : local_calls K) (b : bootstrapper W K).
Abbreviation B := (bootstrapper W K).
Abbreviation cp_addr := (JoinHostPort (controlPlaneIP b) PublicAPIport).

(** C14: a bootstrap that comes back, with or without an error, has closed every connection
    it opened to an agent, in every interleaving of the joins. When it succeeds, the
    commands it has run are kubeadm init on the control plane, first and once, and then one
    kubeadm join on every worker, under the worker's name, all with the same token and hash
    and with the control plane's address. *)
Theorem BootstrapKubernetes_runs_kubeadm schedule r b' :
  BootstrapKubernetes os schedule b = (r, b') → returns r →
  conns (vms b') ≡ₚ conns (vms b) ∧
  ∀ creds, r = Ret creds → ∃ tok hash js,
    commands (vms b') = commands (vms b) ++ (cp_addr, kubeadm, init_args) :: js ∧
    js ≡ₚ (λ '(id, ip), (JoinHostPort ip PublicAPIport, kubeadm, join_args tok hash id)) <$>
            map_to_list (workerIPs b) ∧
    APIServerEndpoint tok = JoinHostPort (controlPlaneIP b) "6443" ∧ CACertHashes tok = [hash].
Proof.
  intros E Hr. unfold BootstrapKubernetes in E.
  destruct (BootstrapKubernetes_effect os (controlPlaneIP b) (workerIPs b) _ schedule b r b'
    (conj eq_refl eq_refl) E Hr) as (_ & Hc & Hk). split; [done|].
  intros creds Hcr. destruct (Hk creds Hcr) as (l & Hl & tok & hash & js & Ha & Hh & -> & Hp).
  by exists tok, hash, js.
Qed.

(** C40: the joining of the workers comes back: whatever the goroutines have done so far,
    there is a way on in which all end, and the call returns, as long as the agents'
    streams end or come to an output. *)
Theorem JoinClusterCoordinator_can_return tok hash schedule :
  CACertHashes tok = [hash] →
  (∀ c args w msgs w', api_ExecReturnStream c kubeadm args w = (Ret msgs, w') → ending msgs) →
  ∃ more, returns (JoinClusterCoordinator (schedule ++ more) tok b).1.
Proof.
  intros Hh Hends. destruct (joins_can_end tok hash [] Hh Hends _ _ _ _ schedule
    (joins_start_inv tok hash (vms b) (workerIPs b))) as [more Hm].
  { apply Forall_fmap, Forall_true. by intros []. }
  exists more. unfold JoinClusterCoordinator. by destruct (group_run _ _ _ _).
Qed.

(** When one of the control plane's etcd files cannot be read, the bootstrap does not
    fail: it returns no credentials and no error, which the command line then uses. *)
Theorem unreadable_etcd_files_give_no_credentials c w1 e :
  grpc_Dial cp_addr (vms b) = (Ret c, w1) →
  (∃ w2, api_ReadFile c "/etc/kubernetes/pki/etcd/" "ca.key" w1 = (Fail e, w2)) ∨
  (∃ caKey w2 w3, api_ReadFile c "/etc/kubernetes/pki/etcd/" "ca.key" w1 = (Ret caKey, w2) ∧
     api_ReadFile c "/etc/kubernetes/pki/etcd/" "ca.crt" w2 = (Fail e, w3)) →
  ∃ b', getEtcdCredentials b = (Ret None, b').
Proof.
  intros Hd Hf. unfold getEtcdCredentials, on_vms, zoom, with_agent.
  rewrite (bind_Ret _ _ _ _ _ Hd). unfold defer at 1.
  assert (∃ w2, read_etcd_files c w1 = (Ret None, w2)) as [w2 E].
  { unfold read_etcd_files, attempt, mbind, M_bind. destruct Hf as [[w2 ->]|(k & w2 & w3 & -> & ->)]; by eexists. }
  rewrite (bind_Ret _ _ _ _ _ E). unfold attempt, mbind, M_bind, mret, M_ret.
  destruct (conn_Close c w2) as [r3 w3] eqn:E3. apply conn_Close_law in E3 as [Hr _].
  destruct r3; try done; by eexists.
Qed.

(** When [admin.conf] cannot be created the client panics instead of reporting the
    error, whose message takes the name of the file that is not there. *)
Theorem unwritable_kubeconfig_panics file b1 e :
  getKubernetesConfig b = (Ret file, b1) → os_Create os = Some e →
  writeKubeconfigToDisk os b = (Panic, b1).
Proof. intros E He. unfold writeKubeconfigToDisk. by rewrite (bind_Ret _ _ _ _ _ E), He. Qed.
(** Credentials that are returned are complete, so that a store made with them uses TLS:
    the authority is the control plane's etcd authority, and the certificate is signed
    with its key. *)
Theorem credentials_are_complete creds b' : getEtcdCredentials b = (Ret (Some creds), b') →
  ∃ caCert ca caKey key cert, CaCertData creds = Some caCert ∧
    pem_Decode caCert ≫= (λ d, match x509_ParseCertificate d with inr c => Some c | _ => None end) = Some ca ∧
    rsa_GenerateKey = inr key ∧ x509_CreateCertificate ca ca key caKey = inr cert ∧
    PeerCertData creds = Some (pem_EncodeToMemory "CERTIFICATE" cert) ∧
    KeyData creds = Some (pem_EncodeToMemory "RSA PRIVATE KEY" (x509_MarshalPKCS1PrivateKey key)).
Proof.
  unfold getEtcdCredentials, on_vms, zoom. destruct (with_agent _ _ (vms b)) as [r w] eqn:E.
  intros [= -> _]. apply with_agent_inv in E; [|done].
  destruct E as [(_ & _ & e & ?)|(c & w1 & w2 & _ & _ & _ & E & _)]; [done|].
  apply bind_Ret_inv in E as ([[caCert caKey]|] & w3 & _ & E); [|done].
  apply bind_Ret_inv in E as (creds' & w4 & E & [= -> _]).
  unfold of_sum in E. destruct (generateEtcdCertificate caCert caKey) as [e|creds''] eqn:G; [done|].
  injection E as -> _. unfold generateEtcdCertificate in G.
  destruct (pem_Decode caCert) as [d|] eqn:Ed; [|done].
  destruct (x509_ParseCertificate d) as [|ca] eqn:Ec; [done|].
  destruct (pem_Decode caKey) as [kb|]; [|done].
  destruct (x509_ParsePKCS1PrivateKey kb) as [|cak]; [done|].
  destruct rsa_GenerateKey as [|key]; [done|].
  destruct (x509_CreateCertificate ca ca key cak) as [|cert] eqn:Ex; [done|].
  injection G as <-. exists caCert, ca, cak, key, cert. rewrite Ed. simpl. by rewrite Ec.
Qed.
End theorems.

(** *** The control plane's address *)

Lemma range_singleton `{RangeOrder} {V} (k : string) (v : V) : range {[k := v]} = [(k, v)].
Proof. apply Permutation_singleton_r. by rewrite range_perm, map_to_list_singleton. Qed.

(** The infrastructure names one master, and its address is the control plane's; with
    several, the order in which Go happens to visit the map decides. *)
Theorem control_plane_of_one_master {W K} `{RangeOrder} (w : W) env name ip ws conf :
  controlPlaneIP (@NewBootstrapper W K _ w env (MkNodeInformation {[name := ip]} ws) conf) = ip.
Proof. simpl. by rewrite range_singleton. Qed.

Definition range_reversed : RangeOrder :=
  {| range := λ V m, reverse (map_to_list m); range_perm := λ V m, reverse_Permutation _ |}.

Theorem control_plane_depends_on_order : ∃ nodes,
  controlPlaneIP (@NewBootstrapper () () range_canonical () None nodes "") ≠
  controlPlaneIP (@NewBootstrapper () () range_reversed () None nodes "").
Proof. exists (MkNodeInformation (<["a" := "10.42.0.2"]> {["b" := "10.42.0.3"]}) ∅). by vm_compute. Qed.

(** *** The agents' side: kubeadm over [VmApi] *)

(** The stream of an execution as the client receives it. *)
Definition agent_messages (start : string → list string → bool → error + process)
    (command : string) (args : list string) : list (error + return_response) :=
  match ExecCommandReturnStream start command args (MkSending [] None) with
  | (Fail e, s) => (inr <$> outbox s) ++ [inl e]
  | (_, s) => (inr <$> outbox s) ++ [inl io_EOF]
  end.

Section kubeadm.
Context {W : Type} `{AgentClient W}.
Hypothesis ctx_open : ∀ w : W, ctx_Err w = (Ret None, w).

Lemma recv_logs (logs : list (bool * string)) rest (w : W) :
  recv_output ((inr <$> ((λ c, Resp_Log c.2) <$> logs)) ++ rest) w = recv_output rest w.
Proof.
  induction logs as [|l logs IH]; [done|]. simpl. rewrite (bind_Ret _ _ _ _ _ (ctx_open w)). exact IH.
Qed.

(** What the client makes of a kubeadm run by an agent: its output when it ended well
    and wrote some; a command that ended well and wrote nothing to its standard output is
    taken for a failure (the end of the stream); a failed one is the agent's error. *)
Theorem kubeadm_outcome start args p (w : W) : start kubeadm args false = inr p →
  recv_output (agent_messages start kubeadm args) w =
    (match result p with
     | WaitNil => if decide (stdout_of p = "") then Fail io_EOF else Ret (stdout_of p)
     | _ => Fail (ErrStatus "Internal" "command exited with error code")
     end, w).
Proof.
  intros Hs. unfold agent_messages, ExecCommandReturnStream. rewrite Hs.
  rewrite (bind_Ret _ _ _ _ _ (pump_open (λ c, Resp_Log c.2) (chunks p) (MkSending [] None) eq_refl)).
  destruct (result p); simpl; rewrite ?fmap_app, <-?app_assoc, recv_logs;
    simpl; unfold mbind at 1, M_bind at 1; rewrite ?ctx_open; try done.
  case_decide; [|done]. unfold mbind at 1, M_bind at 1. by rewrite ctx_open.
Qed.
End kubeadm.

(** Kubeadm init reads the configuration the client has written: the path it is given
    is that of the file the agent has stored, with the client's content. *)
Theorem init_reads_the_written_config conf f f' :
  WriteFile "/tmp" "kubeadmconf.yaml" conf f = (Ret (), f') →
  ∃ path, init_args !! 2%nat = Some path ∧ os_ReadFile path f' = (Ret conf, f').
Proof.
  intros (f1 & _ & _ & (_ & Hd & Hdirs & Hf)%os_WriteFile_Ret)%WriteFile_Ret.
  exists "/tmp/kubeadmconf.yaml". split; [done|].
  change (filepath_Join "/tmp" "kubeadmconf.yaml") with "/tmp/kubeadmconf.yaml" in *.
  assert (is_dir f' (resolve "/tmp/kubeadmconf.yaml") = false) as Hd'.
  { unfold is_dir in *. by rewrite Hdirs. }
  unfold os_ReadFile. rewrite decide_False by done. by rewrite Hd', Hf, lookup_insert_eq.
Qed.

(** ** Agents to evaluate on *)

(** The machines by the address of their agent, each a file system, on which [programs]
    runs the commands; a handle encodes the address it is for. *)
Record fleet : Type := MkFleet {
  machines : gmap string fs;
  fleet_conns : list positive;
  fleet_started : list command
}.

Section fleet.
Variable programs : string → list string → bool → error + process.

Definition target_of (c : positive) : string := default "" (decode c).
Definition unreachable : error := ErrStatus "Unavailable" "connection refused".

Definition forget (c : positive) (l : list positive) : list positive :=
  match list_find (c =.) l with Some (i, _) => delete i l | None => l end.

(** A call of the agent that the connection leads to. *)
Definition on_machine {A} (c : positive) (m : M fs A) : M fleet A := λ w,
  match machines w !! target_of c with
  | None => (Fail unreachable, w)
  | Some f =>
      match m f with
      | (Ret a, f') => (Ret a, MkFleet (<[target_of c := f']> (machines w)) (fleet_conns w) (fleet_started w))
      | (Fail e, f') => (Fail e, MkFleet (<[target_of c := f']> (machines w)) (fleet_conns w) (fleet_started w))
      | _ => (Fail unreachable, w)
      end
  end.

#[export] Instance fleet_agents : AgentClient fleet := {
  grpc_Dial addr w := (Ret (encode addr), MkFleet (machines w) (encode addr :: fleet_conns w) (fleet_started w));
  conn_Close c w := (Ret (), MkFleet (machines w) (forget c (fleet_conns w)) (fleet_started w));
  api_WriteFile c d n content := on_machine c (WriteFile d n content);
  api_ReadFile c d n := on_machine c (ReadFile d n);
  api_ExecReturnStream c command args w :=
    (Ret (agent_messages programs command args),
     MkFleet (machines w) (fleet_conns w) (fleet_started w ++ [(target_of c, command, args)]));
  ctx_Err w := (Ret None, w);
  conn_target := target_of
}.

Lemma on_machine_law {A} c (m : M fs A) w r w' : on_machine c m w = (r, w') →
  returns r ∧ fleet_started w' = fleet_started w ∧ fleet_conns w' ≡ₚ fleet_conns w.
Proof.
  unfold on_machine. destruct (machines w !! target_of c) as [f|]; [|by intros [= <- <-]].
  destruct (m f) as [[] f']; by intros [= <- <-].
Qed.

#[export] Program Instance fleet_laws : AgentLaws fleet := {
  conns := fleet_conns;
  commands := fleet_started
}.
Next Obligation.
  intros addr w r w' [= <- <-]. split_and!; [done|done| |done]. simpl. unfold target_of. by rewrite decode_encode.
Qed.
Next Obligation.
  intros c w r w' [= <- <-]. split_and!; [done..|]. intros Hin. simpl. unfold forget.
  destruct (list_find (c =.) (fleet_conns w)) as [[i c']|] eqn:E.
  - apply list_find_Some in E as (Hi & <- & _). by apply delete_Permutation.
  - apply list_find_None in E. rewrite Forall_forall in E. by apply E in Hin.
Qed.
Next Obligation. intros c d n content w r w'. apply on_machine_law. Qed.
Next Obligation. intros c d n w r w'. apply on_machine_law. Qed.
Next Obligation.
  intros c command args w r w' [= <- <-]. split_and!; [done..|]. eexists. split; [done|]. by intros ? [= <-].
Qed.
Next Obligation. intros w r w' [= <- <-]. split_and!; [by eexists|done..]. Qed.

Lemma fleet_executions_end c command args w msgs w' :
  api_ExecReturnStream c command args w = (Ret msgs, w') → ending msgs.
Proof.
  intros [= <- _]. unfold agent_messages.
  destruct (ExecCommandReturnStream _ _ _ _) as [[] s]; apply Exists_app; right; by constructor.
Qed.
End fleet.

(** Certificates whose encodings are themselves; the content of the files says what they
    are. *)
#[export] Instance example_pki : Pki := {
  Cert := string; CaKey := string; RsaKey := string;
  pem_Decode s := if HasPrefix s "PEM " then Some (TrimPrefix s "PEM ") else None;
  pem_EncodeToMemory type s := "PEM " +:+ s;
  x509_ParseCertificate s := inr s;
  x509_ParsePKCS1PrivateKey s := inr s;
  x509_MarshalPKCS1PrivateKey k := k;
  x509_CreateCertificate _ parent key _ := inr (key +:+ " signed by " +:+ parent);
  rsa_GenerateKey := inr "key";
  pubkeypin_Hash c := "sha256:" +:+ c
}.

(** A cluster as the list of its tokens. *)
#[export] Instance example_tokens : TokenApi (list BootstrapToken) := {
  GenerateBootstrapToken := inr "abcdef.0123456789abcdef";
  NewBootstrapTokenString s := inr s;
  CreateNewTokens ts k := (Ret (), k ++ ts)
}.

Definition kubeadm_works (command : string) (args : list string) (tty : bool) : error + process :=
  inr (MkProcess [(true, "[preflight]"); (false, "done")] WaitNil 0 (Some None)).

Definition master_files : fs :=
  MkFs {[ ["tmp"] ]}
    (<[["admin.conf"; "kubernetes"; "etc"] := ("kubeconfig", 384%Z)]>
    (<[["ca.crt"; "pki"; "kubernetes"; "etc"] := ("PEM cluster-ca", 420%Z)]>
    (<[["ca.crt"; "etcd"; "pki"; "kubernetes"; "etc"] := ("PEM etcd-ca", 420%Z)]>
    {[ ["ca.key"; "etcd"; "pki"; "kubernetes"; "etc"] := ("PEM etcd-key", 384%Z) ]}))).

Definition two_workers : fleet :=
  MkFleet (<["10.42.0.2:9000" := master_files]>
          (<["10.42.0.3:9000" := MkFs ∅ ∅]> {["10.42.0.4:9000" := MkFs ∅ ∅]})) [] [].

Definition local_ok : local_calls (list BootstrapToken) :=
  MkLocal None None None None (λ c, match c with Some _ => inr [] | None => inl os_ErrNotExist end).

Definition example_nodes : NodeInformation :=
  MkNodeInformation {["delegatio-0" := "10.42.0.2"]}
    (<["delegatio-worker-0" := "10.42.0.3"]> {["delegatio-worker-1" := "10.42.0.4"]}).

Definition example_bootstrapper : bootstrapper fleet (list BootstrapToken) :=
  @NewBootstrapper _ _ range_canonical two_workers None example_nodes "kind: InitConfiguration".

(** The two joins take turns. *)
Definition example_run : res (option EtcdCredentials) * bootstrapper fleet (list BootstrapToken) :=
  @BootstrapKubernetes _ _ (fleet_agents kubeadm_works) example_pki example_tokens range_canonical
    local_ok [0; 1; 0; 1; 0; 1; 0; 1; 0; 1]%nat example_bootstrapper.

Definition example_creds : EtcdCredentials :=
  MkEtcdCredentials (Some "PEM key signed by etcd-ca") (Some "PEM key") (Some "PEM etcd-ca").

Lemma example_succeeds : example_run.1 = Ret (Some example_creds).
Proof. vm_compute. reflexivity. Qed.

Lemma BootstrapKubernetes_runs_kubeadm_witness :
  fleet_conns (vms example_run.2) ≡ₚ [] ∧ ∃ tok hash js,
    fleet_started (vms example_run.2) = ("10.42.0.2:9000", kubeadm, init_args) :: js ∧
    js ≡ₚ (λ '(id, ip), (JoinHostPort ip PublicAPIport, kubeadm, join_args tok hash id)) <$>
            map_to_list (Workers example_nodes).
Proof.
  pose proof (@BootstrapKubernetes_runs_kubeadm fleet (list BootstrapToken) _
    (fleet_laws kubeadm_works) example_pki example_tokens range_canonical local_ok
    example_bootstrapper [0; 1; 0; 1; 0; 1; 0; 1; 0; 1]%nat example_run.1 example_run.2) as Ht.
  destruct Ht as [Hc Hk]; [exact (surjective_pairing example_run)|rewrite example_succeeds; exact I|].
  split; [exact Hc|]. destruct (Hk _ example_succeeds) as (tok & hash & js & Hs & Hp & _).
  exists tok, hash, js. split; [exact Hs|exact Hp].
Defined.

Definition example_token : BootstrapTokenDiscovery :=
  MkDiscovery "abcdef.0123456789abcdef" "10.42.0.2:6443" ["sha256:cluster-ca"].

Lemma JoinClusterCoordinator_can_return_witness : ∃ more,
  returns (@JoinClusterCoordinator _ _ (fleet_agents kubeadm_works) range_canonical
    ([1; 1; 0]%nat ++ more) example_token example_bootstrapper).1.
Proof.
  apply (@JoinClusterCoordinator_can_return fleet (list BootstrapToken) _ (fleet_laws kubeadm_works)
    range_canonical example_bootstrapper example_token "sha256:cluster-ca" [1; 1; 0]%nat).
  - reflexivity.
  - intros c args w msgs w'. apply fleet_executions_end.
Defined.

(** The same control plane without its etcd files. *)
Definition no_etcd_files : bootstrapper fleet (list BootstrapToken) :=
  MkBootstrapper (MkFleet {["10.42.0.2:9000" := MkFs ∅ ∅]} [] []) None None "10.42.0.2" ∅ "" ∅ None.

Lemma unreadable_etcd_files_give_no_credentials_witness :
  ∃ b', @getEtcdCredentials fleet (list BootstrapToken) (fleet_agents kubeadm_works) example_pki no_etcd_files =
    (Ret None, b').
Proof.
  eapply (@unreadable_etcd_files_give_no_credentials fleet (list BootstrapToken) _
    (fleet_laws kubeadm_works) example_pki no_etcd_files).
  - reflexivity.
  - left. eexists. vm_compute. reflexivity.
Defined.

Definition read_only : local_calls (list BootstrapToken) :=
  MkLocal (Some (ErrExt "open admin.conf: permission denied")) None None None (λ _, inr []).
Definition admin_conf_read : res string * bootstrapper fleet (list BootstrapToken) :=
  @getKubernetesConfig _ _ (fleet_agents kubeadm_works) example_bootstrapper.

Lemma unwritable_kubeconfig_panics_witness :
  @writeKubeconfigToDisk _ _ (fleet_agents kubeadm_works) read_only example_bootstrapper =
    (Panic, admin_conf_read.2).
Proof.
  apply (@unwritable_kubeconfig_panics fleet (list BootstrapToken) (fleet_agents kubeadm_works)
    read_only example_bootstrapper "kubeconfig" admin_conf_read.2
    (ErrExt "open admin.conf: permission denied")).
  - apply (ran (@getKubernetesConfig _ _ (fleet_agents kubeadm_works))). vm_compute. reflexivity.
  - reflexivity.
Defined.

Lemma kubeadm_outcome_witness :
  @recv_output fleet (fleet_agents kubeadm_works) (agent_messages kubeadm_works kubeadm init_args) two_workers =
    (Ret "done", two_workers).
Proof.
  rewrite (@kubeadm_outcome fleet (fleet_agents kubeadm_works) (λ w, eq_refl) kubeadm_works init_args
    (MkProcess [(true, "[preflight]"); (false, "done")] WaitNil 0 (Some None)) two_workers eq_refl).
  vm_compute. reflexivity.
Defined.

Definition config_written : res () * fs := WriteFile "/tmp" "kubeadmconf.yaml" "kind: InitConfiguration" master_files.

Lemma init_reads_the_written_config_witness :
  ∃ path, init_args !! 2%nat = Some path ∧
    os_ReadFile path config_written.2 = (Ret "kind: InitConfiguration", config_written.2).
Proof.
  apply (init_reads_the_written_config _ master_files). apply ran. vm_compute. reflexivity.
Defined.
