(* ===== verification/KubeadmConfig.v ===== *)
(** internal/config/utils: the configuration that kubeadm init is given, and its encoding
    as a sequence of YAML documents.

    The types are those of k8s.io/kubernetes' kubeadm and k8s.io/kubelet, with the fields
    that are set; their group versions and the YAML serializer are parameters. *)
From S2P Require Import Prelude Config.

(** ** kubeadm_config.go *)

Record TypeMeta : Type := MkTypeMeta { APIVersion : string; Kind : string }.
Record Arg : Type := MkArg { arg_Name : string; arg_Value : string }.

Record InitConfiguration : Type := MkInit {
  init_TypeMeta : TypeMeta;
  CRISocket : string;
  KubeletExtraArgs : list Arg;
  BindPort : Z;
  SkipPhases : list string
}.
Record KubeClusterConfiguration : Type := MkKubeCluster {
  cluster_TypeMeta : TypeMeta;
  CertSANs : list string;
  ControllerManager_ExtraArgs : list Arg;
  Etcd_Local_ExtraArgs : list Arg
}.
Record KubeletConfiguration : Type := MkKubelet {
  kubelet_TypeMeta : TypeMeta;
  CgroupDriver : string
}.

Record kubeadmInitYAML : Type := MkInitYAML {
  yaml_Init : InitConfiguration;
  yaml_Cluster : KubeClusterConfiguration;
  yaml_Kubelet : KubeletConfiguration
}.

(** What the serializer gets: one of these objects. *)
Inductive kubeadm_object : Type :=
  | OInit (c : InitConfiguration)
  | OCluster (c : KubeClusterConfiguration)
  | OKubelet (c : KubeletConfiguration).

(** ** marshal.go *)

(** A field by reflection: not exported, of a type that is not a Kubernetes object, or an
    object. *)
Inductive field (O : Type) : Type := Unexported | NotObject | Object (o : O).
Arguments Unexported {O}.
Arguments NotObject {O}.
Arguments Object {O}.

(** A value by reflection: not a pointer, or a pointer to a struct or to something else. *)
Inductive value (O : Type) : Type := NonPointer | PointerToStruct (fields : list (field O)) | PointerToOther.
Arguments NonPointer {O}.
Arguments PointerToStruct {O}.
Arguments PointerToOther {O}.

Definition separator : string := "---" +:+ newline.

Section marshal.
Context {O : Type}.
Variable Encode : O → error + string.

(** The loop over the fields, at index [i], with what is in the buffer. *)
Fixpoint marshal_fields (i : nat) (fields : list (field O)) (buf : string) : error + string :=
  match fields with
  | [] => inr buf
  | Object obj :: fields' =>
      let buf := if decide (0 < i)%nat then buf +:+ separator else buf in
      match Encode obj with
      | inl err => inl err
      | inr doc => marshal_fields (S i) fields' (buf +:+ doc)
      end
  | _ :: fields' => marshal_fields (S i) fields' buf
  end.

Definition marshalK8SResources (resources : value O) : error + string :=
  match resources with
  | NonPointer => inl (ErrNew "marshal on non-pointer called")
  | PointerToStruct fields => marshal_fields 0 fields ""
  | PointerToOther => inr ""
  end.
End marshal.

Section config.
Variables (kubeadm_version kubelet_version : string) (Encode : kubeadm_object → error + string).

Definition initConfiguration : kubeadmInitYAML := {|
  yaml_Init := {|
    init_TypeMeta := {| APIVersion := kubeadm_version; Kind := "InitConfiguration" |};
    CRISocket := "unix:///var/run/crio/crio.sock";
    KubeletExtraArgs := [{| arg_Name := "cloud-provider"; arg_Value := "external" |}];
    BindPort := 6443;
    SkipPhases := ["addon/kube-proxy"; "show-join-command"]
  |};
  yaml_Cluster := {|
    cluster_TypeMeta := {| APIVersion := kubeadm_version; Kind := "ClusterConfiguration" |};
    CertSANs := ["127.0.0.1"];
    ControllerManager_ExtraArgs := [
      {| arg_Name := "flex-volume-plugin-dir";
         arg_Value := "/opt/libexec/kubernetes/kubelet-plugins/volume/exec/" |};
      {| arg_Name := "cloud-provider"; arg_Value := "external" |};
      {| arg_Name := "configure-cloud-routes"; arg_Value := "false" |}];
    Etcd_Local_ExtraArgs := []
  |};
  yaml_Kubelet := {|
    kubelet_TypeMeta := {| APIVersion := kubelet_version; Kind := "KubeletConfiguration" |};
    CgroupDriver := "systemd"
  |}
|}.

(** The struct's fields, all exported and all objects. *)
Definition yaml_fields (y : kubeadmInitYAML) : list (field kubeadm_object) :=
  [Object (OInit (yaml_Init y)); Object (OCluster (yaml_Cluster y)); Object (OKubelet (yaml_Kubelet y))].

Definition GetKubeInitConfig : error + string :=
  marshalK8SResources Encode (PointerToStruct (yaml_fields initConfiguration)).
End config.

(** ** Lemmas *)

Lemma str_app_nil_r (s : string) : s +:+ "" = s.
Proof. induction s as [|a s IH]; [done|]. by rewrite str_app_cons, IH. Qed.

Section lemmas.
Context {O : Type}.
Variable Encode : O → error + string.

(** All results, or the first error. *)
Fixpoint all_results {A} (rs : list (error + A)) : error + list A :=
  match rs with
  | [] => inr []
  | inl e :: _ => inl e
  | inr a :: rs' => match all_results rs' with inl e => inl e | inr l => inr (a :: l) end
  end.

(** Past the first field every object is preceded by a separator. *)
Lemma marshal_rest i objs buf : (0 < i)%nat →
  marshal_fields Encode i (Object <$> objs) buf =
    match all_results (Encode <$> objs) with
    | inl e => inl e
    | inr docs => inr (foldl (λ b d, (b +:+ separator) +:+ d) buf docs)
    end.
Proof.
  revert i buf. induction objs as [|o objs IH]; intros i buf Hi; [done|]. simpl.
  rewrite decide_True by done. destruct (Encode o) as [e|d]; [done|]. rewrite IH by lia.
  by destruct (all_results _).
Qed.

Lemma concat_foldl d docs buf :
  foldl (λ b d, (b +:+ separator) +:+ d) (buf +:+ d) docs = buf +:+ String.concat separator (d :: docs).
Proof.
  revert d buf. induction docs as [|d' docs IH]; intros d buf; [done|]. simpl.
  replace (((buf +:+ d) +:+ separator) +:+ d') with ((buf +:+ d +:+ separator) +:+ d')
    by (by rewrite !str_app_assoc).
  rewrite IH. change (String.concat separator (d :: d' :: docs)) with
    (d +:+ separator +:+ String.concat separator (d' :: docs)). by rewrite !str_app_assoc.
Qed.
End lemmas.

(** ** Theorems *)

(** The encoding of a struct of Kubernetes objects is the sequence of its fields'
    documents, in order, with a separator between any two and none around them; the error
    of the first field that cannot be encoded is returned as it is. *)
Theorem marshal_is_a_document_sequence {O} (Encode : O → error + string) o objs :
  marshalK8SResources Encode (PointerToStruct (Object <$> o :: objs)) =
    match all_results (Encode <$> o :: objs) with
    | inl e => inl e
    | inr docs => inr (String.concat separator docs)
    end.
Proof.
  unfold marshalK8SResources. rewrite !fmap_cons. cbn [marshal_fields all_results].
  destruct (Encode o) as [e|d]; [done|]. rewrite (marshal_rest Encode 1) by lia.
  destruct (all_results (Encode <$> objs)) as [e|docs]; [done|]. f_equal.
  exact (concat_foldl d docs "").
Qed.

(** A skipped first field leaves a separator in front: only then does the encoding begin
    with one. *)
Theorem skipped_first_field_leaves_separator {O} (Encode : O → error + string) o doc :
  Encode o = inr doc →
  marshalK8SResources Encode (PointerToStruct [NotObject; Object o]) = inr (separator +:+ doc).
Proof. intros E. simpl. by rewrite E. Qed.

(** The configuration of kubeadm init is three documents. *)
Theorem GetKubeInitConfig_documents kubeadm_version kubelet_version Encode d1 d2 d3 :
  let y := initConfiguration kubeadm_version kubelet_version in
  Encode (OInit (yaml_Init y)) = inr d1 → Encode (OCluster (yaml_Cluster y)) = inr d2 →
  Encode (OKubelet (yaml_Kubelet y)) = inr d3 →
  GetKubeInitConfig kubeadm_version kubelet_version Encode =
    inr (d1 +:+ separator +:+ d2 +:+ separator +:+ d3).
Proof.
  intros y E1 E2 E3. subst y. unfold GetKubeInitConfig, marshalK8SResources, yaml_fields.
  cbn [marshal_fields]. rewrite E1, E2, E3.
  repeat case_decide; try lia. by rewrite !str_app_assoc.
Qed.
