(* ===== verification/Grader.v ===== *)
(** grader/gradeapi: the grading service ([RequestGrading], the grader of type 1
    exercises) and the request a student's machine sends ([SendGradingRequest]).

    The directory /tmp is the state; what the operating system and the executed solution
    answer is the environment. *)
From S2P Require Import Prelude Config.

(** ** The surroundings *)

(** /tmp: contents and permissions of the files there. *)
Abbreviation tmp_dir := (gmap string (string * Z)).

Record surroundings : Type := MkSurroundings {
  (** [os.CreateTemp]: a new name, for a pattern. *)
  temp_name : tmp_dir → string → error + string;
  (** The errors of the new file's [Write], [Chmod] and [Sync]. *)
  write_error : option error;
  chmod_error : option error;
  sync_error : option error;
  (** [os.ReadDir]: names, and whether they are directories. *)
  ReadDir : string → error + list (string * bool);
  (** The output of a solution on an argument. *)
  Output : string → string → error + string
}.

(** [os.CreateTemp] makes a file that was not there. *)
Definition temp_fresh (env : surroundings) : Prop :=
  ∀ t pat n, temp_name env t pat = inr n → t !! n = None.

(** Permissions 0o600 and 0o700. *)
Definition mode_600 : Z := 384.
Definition mode_700 : Z := 448.

(** ** graders.go *)

Section graders.
Variable env : surroundings.
Abbreviation G := (M tmp_dir).

Definition CreateTemp (pattern : string) : G string := λ t,
  match temp_name env t pattern with
  | inl e => (Fail e, t)
  | inr n => (Ret n, <[n := ("", mode_600)]> t)
  end.

Definition Remove (name : string) : G () := modify (delete name).

Definition f_Write (name data : string) : G () :=
  of_err (write_error env);;
  modify (alter (λ f, (f.1 +:+ data, f.2)) name).

Definition f_Chmod (name : string) (mode : Z) : G () :=
  of_err (chmod_error env);;
  modify (alter (λ f, (f.1, mode)) name).

(** [executeCommand], the deadline of which is among the errors of [Output]. *)
Definition executeCommand (fileName arg : string) : G string := λ t,
  match t !! fileName with
  | None => (Fail os_ErrNotExist, t)
  | Some (program, _) =>
      match Output env program arg with inl e => (Fail e, t) | inr out => (Ret out, t) end
  end.

(** The returned file is its name; it was closed. *)
Definition writeFileToDisk (solution : string) : G string :=
  r ← attempt (CreateTemp "request-");
  match r with
  | inl _ => fail (ErrStatus "Internal" "failed to create content file")
  | inr f =>
      f_Write f solution;;
      f_Chmod f mode_700;;
      of_err (sync_error env);;
      mret f
  end.

(** ** type1.go *)

(** [s[:len(s)-4]]: a slice out of range panics. *)
Definition without_extension {S} (name : string) : M S string :=
  if decide (String.length name < 4)%nat then panic
  else mret (String.substring 0 (String.length name - 4) name).

(** The loop over the entries, which may return early; [exec] runs the solution. *)
Fixpoint grade_files {S} (exec : string → M S string) (inputDir : string) (files : list (string * bool))
    : M S (Z * option string) :=
  match files with
  | [] => mret (100%Z, None)
  | (name, isDir) :: files' =>
      if (isDir : bool) then grade_files exec inputDir files'
      else
        output ← exec (inputDir +:+ "/" +:+ name);
        expected ← without_extension name;
        if Contains output expected then grade_files exec inputDir files'
        else mret (0%Z, Some output)
  end.

Definition input_dir (id : Z) : string := "/exercises/exercise" +:+ Itoa id.

Definition GradeExerciseType1 (solution : string) (id : Z) : G (Z * option string) :=
  file ← writeFileToDisk solution;
  match ReadDir env (input_dir id) with
  | inl err => fail err
  | inr files => grade_files (executeCommand file) (input_dir id) files
  end.

(** ** request.go *)

Record RequestGradingRequest : Type := MkRequest {
  Id : Z; Nonce : string; Solution : string; Submit : bool
}.

Record RequestGradingResponse : Type := MkResponse { rPoints : Z; rLog : option string }.

Definition checkNonce (nonce : string) : G () := mret ().

Definition updatePointsUser (points : Z) (user : string) : G () := mret ().

Definition RequestGrading (req : RequestGradingRequest) : G RequestGradingResponse :=
  (if Submit req then
     r ← attempt (checkNonce (Nonce req));
     match r with
     | inl _ => fail (ErrStatus "Unauthenticated" "nonce check failed")
     | inr _ => mret ()
     end
   else mret ());;
  res ← (if decide (Id req = 1%Z) then
     r ← attempt (GradeExerciseType1 (Solution req) 1);
     match r with
     | inl _ => fail (ErrStatus "InvalidArgument" "failed to grade exercise one")
     | inr pl => mret pl
     end
   else mret (0%Z, None));
  mret (MkResponse (to_int32 res.1) res.2).

(** ** gradeapi.go *)

(** [os.Open]: the size the file says and the bytes one [Read] returns. *)
Definition fileNameToBytes (Open : string → error + (nat * string)) (fileName : string)
    : error + string :=
  match Open fileName with
  | inl err => inl err
  | inr (fileSize, got) =>
      let got := String.substring 0 fileSize got in
      inr (got +:+ String.concat "" (replicate (fileSize - String.length got)
                                       (String (Ascii.ascii_of_nat 0) "")))
  end.

(** The last element of a path below /tmp. *)
Definition nonce_of (name : string) : string := TrimPrefix name "/tmp/".

(** The dial and the call, whose argument is the request. *)
Definition SendGradingRequest (Open : string → error + (nat * string)) (Dial : option error)
    (Call : RequestGradingRequest → error + RequestGradingResponse) (fileName : string) : G Z :=
  f ← CreateTemp "gradingRequest-";
  defer (Remove f) (
    of_err (sync_error env);;
    let fileBytes := match fileNameToBytes Open fileName with inl _ => "" | inr b => b end in
    of_err Dial;;
    match Call (MkRequest 1 (nonce_of f) fileBytes false) with
    | inl err => fail err
    | inr resp => mret (rPoints resp)
    end).
End graders.

(** ** Lemmas *)

Section lemmas.
Variable env : surroundings.

(** What it takes to pass on an entry. *)
Definition passes (dir program : string) (e : string * bool) : Prop :=
  e.2 = true ∨
  (4 ≤ String.length e.1)%nat ∧ ∃ out, Output env program (dir +:+ "/" +:+ e.1) = inr out ∧
    Contains out (String.substring 0 (String.length e.1 - 4) e.1) = true.

Lemma grade_files_state dir file files t r t' : grade_files (executeCommand env file) dir files t = (r, t') → t' = t.
Proof.
  induction files as [|[n d] files IH]; simpl; [by intros [= _ ->]|].
  destruct d; [done|]. unfold executeCommand, without_extension, mbind, M_bind.
  destruct (t !! file) as [[p m]|]; [|by intros [= _ ->]].
  destruct (Output env p _) as [|out]; [by intros [= _ ->]|].
  destruct (decide _); [by intros [= _ ->]|]. simpl.
  destruct (Contains _ _); [done|by intros [= _ ->]].
Qed.

Lemma grade_files_full dir file files t program mode : t !! file = Some (program, mode) →
  (grade_files (executeCommand env file) dir files t).1 = Ret (100%Z, None) ↔ Forall (passes dir program) files.
Proof.
  intros Hf. induction files as [|[n d] files IH]; simpl; [by split|].
  rewrite Forall_cons, <-IH. destruct d.
  { split; [by intros; split; [left|]|by intros []]. }
  unfold executeCommand, without_extension, mbind, M_bind. rewrite Hf.
  unfold passes at 1. simpl. destruct (Output env program _) as [e|out]; simpl.
  { split; [done|]. by intros [[?|(_ & ? & ? & _)] _]. }
  destruct (decide _); simpl.
  { split; [done|]. intros [[?|(? & _)] _]; [done|lia]. }
  destruct (Contains out _) eqn:Ec.
  - split; [|by intros [_ ?]]. intros ?. split; [|done]. right. split; [lia|eauto].
  - split; [done|]. intros [[?|(_ & o & [= <-] & ?)] _]; congruence.
Qed.

Lemma writeFile_Ret sol t f t' : writeFileToDisk env sol t = (Ret f, t') →
  temp_name env t "request-" = inr f ∧ t' = <[f := (sol, mode_700)]> t.
Proof.
  unfold writeFileToDisk, attempt, CreateTemp, f_Write, f_Chmod, of_err, modify, fail, mret, M_ret, mbind, M_bind.
  destruct (temp_name env t _) as [|n]; [done|].
  destruct (write_error env), (chmod_error env), (sync_error env); try done.
  intros [= <- <-]. split; [done|]. apply map_eq. intros i. destruct (decide (i = n)) as [->|].
  - by rewrite !lookup_alter_eq, !lookup_insert_eq.
  - by rewrite !lookup_alter_ne, !lookup_insert_ne by done.
Qed.

Lemma writeFile_works sol t f : temp_name env t "request-" = inr f →
  write_error env = None → chmod_error env = None → sync_error env = None →
  writeFileToDisk env sol t = (Ret f, <[f := (sol, mode_700)]> t).
Proof.
  intros Hn Hw Hc Hs. destruct (writeFileToDisk env sol t) as [r t1] eqn:E.
  assert (r = Ret f) as ->.
  { apply (f_equal fst) in E. simpl in E. rewrite <-E.
    unfold writeFileToDisk, attempt, CreateTemp, f_Write, f_Chmod, of_err, mbind, M_bind.
    by rewrite Hn, Hw, Hc, Hs. }
  by apply writeFile_Ret in E as [_ ->].
Qed.
End lemmas.

(** The argument a solution is given contains what is expected of it. *)
Lemma argument_contains_name dir name :
  Contains (dir +:+ "/" +:+ name) (String.substring 0 (String.length name - 4) name) = true.
Proof.
  apply Contains_spec. exists (dir +:+ "/").
  destruct (substring_prefix (String.length name - 4)%nat name) as [r Hr]. exists r.
  by rewrite <-Hr, str_app_assoc.
Qed.

(** ** Theorems *)

Section theorems.
Variable env : surroundings.

(** C37: a solution gets the full points exactly when, for every regular file of the
    exercise's directory, its output contains the file's name without the extension;
    otherwise it gets none, or the grading fails. An empty exercise passes everyone. *)
Theorem GradeExerciseType1_exact sol id t f files :
  temp_name env t "request-" = inr f →
  write_error env = None → chmod_error env = None → sync_error env = None →
  ReadDir env (input_dir id) = inr files →
  ((GradeExerciseType1 env sol id t).1 = Ret (100%Z, None) ↔
    Forall (passes env (input_dir id) sol) files) ∧
  ∀ points log t', GradeExerciseType1 env sol id t = (Ret (points, log), t') →
    points = 100%Z ∨ points = 0%Z ∧ is_Some log.
Proof.
  intros Hn Hw Hc Hsy Hr.
  pose proof (writeFile_works env sol t f Hn Hw Hc Hsy) as E. set (t1 := <[f := _]> t) in E.
  unfold GradeExerciseType1. rewrite (bind_Ret _ _ _ _ _ E), Hr.
  assert (t1 !! f = Some (sol, mode_700)) as Hf by (apply lookup_insert_eq).
  split; [by apply grade_files_full with (mode := mode_700)|].
  clear E Hn Hr Hw Hc Hsy. intros points log t'. induction files as [|[n d] files IH]; simpl.
  { intros [= <- _ _]. by left. }
  destruct d; [done|]. unfold executeCommand, without_extension, mbind, M_bind. rewrite Hf.
  destruct (Output env sol _); [done|]. destruct (decide _); [done|]. simpl.
  destruct (Contains _ _); [done|]. intros [= <- <- _]. right. eauto.
Qed.

(** The name that is expected in the output is part of the argument the solution is
    given, so a program that prints its argument gets the full points on every exercise
    whose files have names of at least four characters. *)
Theorem echoing_gets_full_points sol id t f files :
  temp_name env t "request-" = inr f →
  write_error env = None → chmod_error env = None → sync_error env = None →
  ReadDir env (input_dir id) = inr files →
  (∀ arg, Output env sol arg = inr arg) →
  Forall (λ e, 4 ≤ String.length e.1)%nat files →
  (GradeExerciseType1 env sol id t).1 = Ret (100%Z, None).
Proof.
  intros Hn Hw Hc Hsy Hr Hecho Hlen.
  pose proof (writeFile_works env sol t f Hn Hw Hc Hsy) as E. set (t1 := <[f := _]> t) in E.
  unfold GradeExerciseType1. rewrite (bind_Ret _ _ _ _ _ E), Hr.
  apply grade_files_full with (program := sol) (mode := mode_700); [apply lookup_insert_eq|].
  eapply Forall_impl; [exact Hlen|]. intros [n d] Hl. right. split; [exact Hl|].
  eexists. split; [apply Hecho|apply argument_contains_name].
Qed.

(** A successful grading, whatever the points, leaves the solution in /tmp. *)
Theorem solutions_are_never_removed sol id t pl t' : temp_fresh env →
  GradeExerciseType1 env sol id t = (Ret pl, t') →
  ∃ f, t !! f = None ∧ t' = <[f := (sol, mode_700)]> t.
Proof.
  intros Hfresh (f & t1 & [Hn ->]%writeFile_Ret & E)%bind_Ret_inv. exists f.
  split; [by eapply Hfresh|]. destruct (ReadDir env _); [done|]. by eapply grade_files_state.
Qed.

(** The nonce proves nothing: the answer does not depend on it, nor on whether the
    request says it is a submission. *)
Theorem nonce_is_not_checked id n1 n2 sol s1 s2 t :
  RequestGrading env (MkRequest id n1 sol s1) t = RequestGrading env (MkRequest id n2 sol s2) t.
Proof. unfold RequestGrading. simpl. destruct s1, s2; reflexivity. Qed.

(** A request for another exercise than the first is answered with success and no
    points; nothing is graded. *)
Theorem unknown_exercise_is_accepted req t : Id req ≠ 1%Z →
  RequestGrading env req t = (Ret (MkResponse 0 None), t).
Proof.
  intros Hid. unfold RequestGrading, attempt, checkNonce, mbind, M_bind. rewrite decide_False by done.
  by destruct (Submit req).
Qed.

(** [SendGradingRequest] removes its nonce file on every path, and always asks for
    the first exercise without submitting; an unreadable solution is sent as an empty one. *)
Theorem SendGradingRequest_cleans_up Open Dial Call fileName t r t' : temp_fresh env →
  SendGradingRequest env Open Dial Call fileName t = (r, t') →
  t' = t ∧
  ∀ p, r = Ret p → ∃ nonce resp,
    Call (MkRequest 1 nonce (match fileNameToBytes Open fileName with inl _ => "" | inr b => b end)
            false) = inr resp ∧ p = rPoints resp.
Proof.
  intros Hfresh. unfold SendGradingRequest, CreateTemp, Remove, defer, of_err, modify, mbind, M_bind.
  destruct (temp_name env t _) as [e|f] eqn:Hn; [by intros [= <- <-]|].
  pose proof (Hfresh _ _ _ Hn) as Hf.
  assert (delete f (<[f := ("", mode_600)]> t) = t) as Hdel by (by apply delete_insert_id).
  destruct (sync_error env); simpl; [rewrite Hdel; by intros [= <- <-]|].
  destruct Dial; simpl; [rewrite Hdel; by intros [= <- <-]|].
  destruct (Call _) as [|resp] eqn:Ec; simpl; rewrite Hdel; intros [= <- <-]; split; try done.
  intros p [= <-]. eauto.
Qed.
End theorems.

(** ** Concrete runs *)

(** The first exercise has one input; a solution prints its argument. *)
Definition demo_env : surroundings :=
  MkSurroundings (λ t pat, match t !! ("/tmp/" +:+ pat) with
      | Some _ => inl (ErrExt "file exists") | None => inr ("/tmp/" +:+ pat) end)
    None None None (λ _, inr [("42.txt", false)]) (λ program arg, inr arg).

Lemma demo_fresh : temp_fresh demo_env.
Proof. intros t pat n. simpl. destruct (t !! _) eqn:E; [done|]. by intros [= <-]. Qed.

Lemma GradeExerciseType1_exact_witness :
  (GradeExerciseType1 demo_env "echo $1" 1 ∅).1 = Ret (100%Z, None) ↔
    Forall (passes demo_env "/exercises/exercise1" "echo $1") [("42.txt", false)].
Proof.
  exact (proj1 (GradeExerciseType1_exact demo_env "echo $1" 1 ∅ "/tmp/request-" [("42.txt", false)]
    eq_refl eq_refl eq_refl eq_refl eq_refl)).
Defined.

Lemma echoing_gets_full_points_witness :
  (GradeExerciseType1 demo_env "echo $1" 1 ∅).1 = Ret (100%Z, None).
Proof.
  apply (echoing_gets_full_points demo_env "echo $1" 1 ∅ "/tmp/request-" [("42.txt", false)]);
    try reflexivity. constructor; [|constructor]. simpl. lia.
Defined.

Lemma solutions_are_never_removed_witness :
  ∃ f t', GradeExerciseType1 demo_env "echo $1" 1 ∅ = (Ret (100%Z, None), t') ∧
    t' = <[f := ("echo $1", mode_700)]> ∅.
Proof.
  assert (GradeExerciseType1 demo_env "echo $1" 1 ∅ = (Ret (100%Z, None),
    (GradeExerciseType1 demo_env "echo $1" 1 ∅).2)) as E by (apply ran; vm_compute; reflexivity).
  destruct (solutions_are_never_removed demo_env _ _ _ _ _ demo_fresh E) as (f & _ & Hf).
  exists f. eexists. split; [exact E|exact Hf].
Defined.

Lemma unknown_exercise_is_accepted_witness :
  RequestGrading demo_env (MkRequest 2 "n" "s" true) ∅ = (Ret (MkResponse 0 None), ∅).
Proof. apply (unknown_exercise_is_accepted demo_env (MkRequest 2 "n" "s" true) ∅). discriminate. Defined.

Definition send_unreadable : M tmp_dir Z :=
  SendGradingRequest demo_env (λ _, inl os_ErrNotExist) None (λ _, inr (MkResponse 7 None)) "s".

Lemma SendGradingRequest_cleans_up_witness :
  send_unreadable ∅ = (Ret 7%Z, (send_unreadable ∅).2) ∧ (send_unreadable ∅).2 = ∅.
Proof.
  assert (send_unreadable ∅ = (Ret 7%Z, (send_unreadable ∅).2)) as E.
  { apply ran. vm_compute. reflexivity. }
  split; [exact E|].
  exact (proj1 (SendGradingRequest_cleans_up demo_env (λ _, inl os_ErrNotExist) None
    (λ _, inr (MkResponse 7 None)) "s" ∅ _ _ demo_fresh E)).
Defined.
