(* ===== verification/GraderTime.v ===== *)
(** grader/gradeapi/graders with its clock: the deadlines that [executeCommand] and
    [GradeExerciseType1] put on the runs of a solution, which [Grader] has among the errors
    of a run. The state is /tmp and the time in milliseconds, which only the runs take. *)
From S2P Require Import Prelude Config Grader.

(** ** Runs of a program *)

(** A run that is left alone: its exit, when it ends if it does, and for how long after its
    end the processes it has started keep its output open, if not forever. *)
Record execution : Type := MkExecution {
  outcome : error + string;
  ends : option N;
  orphans : option N
}.

Definition context_DeadlineExceeded : error := ErrVar "context deadline exceeded".
Definition killed : error := ErrExt "signal: killed".

(** [Output] of a command with a deadline, started at [now]: not started after it, killed at
    it. Only the program itself is killed, and the call returns when the output is closed,
    whatever the deadline, for no [WaitDelay] is set. *)
Definition cmd_Output (deadline : N) (x : execution) (now : N) : res string * N :=
  let '(r, finished) :=
    match ends x with
    | Some e => if decide (now + e < deadline)%N then (outcome x, (now + e)%N) else (inl killed, deadline)
    | None => (inl killed, deadline)
    end in
  match orphans x with
  | None => (Blocked, finished)
  | Some o => (match r with inl err => Fail err | inr out => Ret out end, (finished + o)%N)
  end.

(** The deadline of a context that is derived from one with or without a deadline. *)
Definition WithDeadline (ctx : option N) (d : N) : N :=
  match ctx with None => d | Some c => N.min c d end.

(** ** graders.go, type1.go *)

Record Graders : Type := MkGraders { singleExecTimeout : N; totalExecTimeout : N }.

Definition NewGraders : error + Graders := inr (MkGraders 1000%N 15000%N).

Section timed.
Variables (env : surroundings) (Exec : string → string → execution) (g : Graders).
Abbreviation clocked := (tmp_dir * N)%type.

Definition timed_executeCommand (ctx : option N) (fileName arg : string) : M clocked string := λ '(t, now),
  let deadline := WithDeadline ctx (now + singleExecTimeout g) in
  if decide (deadline ≤ now)%N then (Fail context_DeadlineExceeded, (t, now))
  else
    match t !! fileName with
    | None => (Fail os_ErrNotExist, (t, now))
    | Some (program, _) =>
        let (r, now') := cmd_Output deadline (Exec program arg) now in (r, (t, now'))
    end.

Definition timed_GradeExerciseType1 (ctx : option N) (solution : string) (id : Z)
    : M clocked (Z * option string) :=
  file ← zoom fst (λ t (s : tmp_dir * N), (t, s.2)) (writeFileToDisk env solution);
  match ReadDir env (input_dir id) with
  | inl err => fail err
  | inr files => λ s,
      let deadline := WithDeadline ctx (s.2 + totalExecTimeout g) in
      grade_files (timed_executeCommand (Some deadline) file) (input_dir id) files s
  end.
End timed.

(** ** Lemmas *)

(** The regular files of an exercise. *)
Definition inputs (files : list (string * bool)) : list string := (filter (λ f, f.2 = false) files).*1.

Lemma inputs_cons n (isdir : bool) files :
  inputs ((n, isdir) :: files) = if isdir then inputs files else n :: inputs files.
Proof. unfold inputs. rewrite filter_cons. by destruct isdir. Qed.

Definition total (dur : string → N) (names : list string) : N := foldr (λ n acc, dur n + acc)%N 0%N names.

Section lemmas.
Variables (env : surroundings) (Exec : string → string → execution) (g : Graders).

Lemma timed_write sol t f now : temp_name env t "request-" = inr f →
  write_error env = None → chmod_error env = None → sync_error env = None →
  zoom fst (λ t (s : tmp_dir * N), (t, s.2)) (writeFileToDisk env sol) (t, now) = (Ret f, (<[f := (sol, mode_700)]> t, now)).
Proof. intros. unfold zoom. simpl. by rewrite (writeFile_works env sol t f). Qed.

Lemma writeFile_not_blocked sol t : (writeFileToDisk env sol t).1 ≠ Blocked.
Proof.
  unfold writeFileToDisk, attempt, CreateTemp, f_Write, f_Chmod, of_err, modify, fail, mret, M_ret, mbind, M_bind.
  by destruct (temp_name env t _), (write_error env), (chmod_error env), (sync_error env).
Qed.

(** *** How long a run takes *)

Lemma cmd_time deadline x now r now' : (now ≤ deadline)%N → cmd_Output deadline x now = (r, now') →
  (r = Blocked → orphans x = None) ∧
  (r ≠ Blocked → ∃ o, orphans x = Some o ∧ now' ≤ deadline + o)%N.
Proof.
  unfold cmd_Output. intros Hd. destruct (orphans x) as [o|];
    (destruct (ends x) as [e|]; [case_decide|]); try destruct (outcome x); intros [= <- <-];
    (split; [done|intros Hr]); try done; exists o; (split; [done|lia]).
Qed.

(** A run that is not killed. *)
Lemma cmd_Ret deadline x now out now' : cmd_Output deadline x now = (Ret out, now') →
  outcome x = inr out ∧ ∃ e o, ends x = Some e ∧ orphans x = Some o ∧ (now + e < deadline)%N ∧ now' = (now + e + o)%N.
Proof.
  unfold cmd_Output. destruct (ends x) as [e|]; [case_decide|]; destruct (orphans x) as [o|]; try done;
    destruct (outcome x); try done. intros [= <- <-]. split; [done|]. by exists e, o.
Qed.

Lemma cmd_in_time deadline x now e : ends x = Some e → orphans x = Some 0%N → (now + e < deadline)%N →
  cmd_Output deadline x now = (match outcome x with inl err => Fail err | inr out => Ret out end, (now + e)%N).
Proof.
  intros He Ho Hd. unfold cmd_Output. rewrite He, Ho, decide_True by done. by rewrite N.add_0_r.
Qed.

Section loop.
Variables (deadline : N) (file dir program : string) (mode : Z).
Abbreviation timed_loop := (grade_files (timed_executeCommand Exec g (Some deadline) file) dir).
Abbreviation run_of := (λ name, Exec program (dir +:+ "/" +:+ name)).

Lemma loop_time files t now r t' now' : t !! file = Some (program, mode) →
  timed_loop files (t, now) = (r, (t', now')) →
  (r = Blocked → ∃ a, orphans (Exec program a) = None) ∧
  ∀ H, r ≠ Blocked → (∀ a o, orphans (Exec program a) = Some o → o ≤ H)%N →
    (now' ≤ N.max now (deadline + H))%N.
Proof.
  intros Hf. revert now. induction files as [|[n d] files IH]; simpl; intros now.
  { intros [= <- <- <-]. split; [done|lia]. }
  destruct d; [by apply IH|]. unfold without_extension, mbind, M_bind, timed_executeCommand at 1.
  case_decide as Hd; [intros [= <- <- <-]; split; [done|lia]|]. rewrite Hf.
  destruct (cmd_Output _ _ now) as [r1 now1] eqn:E. apply cmd_time in E as [Hb Hn]; [|lia].
  assert (r1 = Blocked ∨ r1 ≠ Blocked) as [->|Hr1] by (destruct r1; auto); [intros [= <- <- <-]; split; [eauto|done]|].
  destruct (Hn Hr1) as (o & Ho & Hle). unfold WithDeadline in Hle.
  assert (∀ H, (∀ a o, orphans (Exec program a) = Some o → o ≤ H) → now1 ≤ N.max now (deadline + H))%N
    as Hmax by (intros H HH; specialize (HH _ _ Ho); lia).
  destruct r1 as [out|e| |]; try done; simpl; try (intros [= <- <- <-]; split; [done|auto]).
  destruct (decide _); simpl; [intros [= <- <- <-]; split; [done|auto]|].
  destruct (Contains _ _); [|intros [= <- <- <-]; split; [done|auto]].
  intros [Hex Hr]%IH. split; [done|]. intros H Hb' HH. specialize (Hr H Hb' HH). specialize (Hmax H HH). lia.
Qed.

(** Full points come after a run on every input, one after the other. *)
Lemma loop_full files t now t' now' d : t !! file = Some (program, mode) →
  (∀ name e, name ∈ inputs files → ends (run_of name) = Some e → d ≤ e)%N →
  timed_loop files (t, now) = (Ret (100%Z, None), (t', now')) →
  inputs files = [] ∨ (now + d * N.of_nat (length (inputs files)) < deadline)%N.
Proof.
  intros Hf. revert now. induction files as [|[n isdir] files IH]; cbn [grade_files]; intros now Hd; [by left|].
  rewrite inputs_cons in *. destruct isdir; [by apply IH|].
  unfold without_extension, mbind, M_bind, timed_executeCommand at 1. case_decide as Hn; [done|]. rewrite Hf.
  destruct (cmd_Output _ _ now) as [r1 now1] eqn:E. destruct r1 as [out|e| |]; try done; simpl.
  apply cmd_Ret in E as (_ & e & o & He & _ & Hlt & ->). simpl in Hlt.
  destruct (decide _); simpl; [done|]. destruct (Contains _ _); [|done].
  pose proof (Hd n e ltac:(by left) He) as Hde. intros E. right.
  apply IH in E as [E|Hr]; [rewrite E; simpl; lia|cbn [length] in *; lia|].
  intros name e' Hin. apply Hd. by right.
Qed.

(** With enough time for all runs the clock makes no difference. *)
Lemma loop_in_time (dur : string → N) files t now : t !! file = Some (program, mode) →
  (∀ p a, Output env p a = outcome (Exec p a)) →
  (∀ name, name ∈ inputs files → ends (run_of name) = Some (dur name) ∧ orphans (run_of name) = Some 0%N ∧
     dur name < singleExecTimeout g)%N →
  (now + total dur (inputs files) < deadline)%N →
  (timed_loop files (t, now)).1 = (grade_files (executeCommand env file) dir files t).1.
Proof.
  intros Hf Ho. revert now. induction files as [|[n isdir] files IH]; cbn [grade_files]; intros now Hd Ht; [done|].
  rewrite inputs_cons in *. destruct isdir; [by apply IH|].
  change (total dur (n :: inputs files)) with (dur n + total dur (inputs files))%N in Ht.
  unfold without_extension, mbind, M_bind, timed_executeCommand at 1, executeCommand at 1. simpl.
  destruct (Hd n ltac:(by left)) as (He & Hor & Hlt). rewrite Hf, decide_False by lia.
  rewrite (cmd_in_time _ _ _ _ He Hor) by lia. rewrite Ho.
  destruct (outcome _) as [err|out]; [done|]. simpl. destruct (decide _); [done|]. simpl.
  destruct (Contains _ _); [|done]. apply IH; [intros name Hin; apply Hd; by right|lia].
Qed.
End loop.
End lemmas.

(** ** Theorems *)

Section theorems.
Variables (env : surroundings) (Exec : string → string → execution) (g : Graders).

(** C38: how long the grading of a solution takes. It does not return only if a run of that
    solution leaves behind a process that never closes its output. When it returns, at most
    fifteen seconds have passed, or what the context that was passed leaves of them, and the
    time for which a process that a run of the solution left behind may keep its output
    open; the solution itself may run for ever, and other programs may do anything. *)
Theorem grading_is_bounded g' H ctx sol id t now r t' now' :
  NewGraders = inr g' →
  timed_GradeExerciseType1 env Exec g' ctx sol id (t, now) = (r, (t', now')) →
  (r = Blocked → ∃ a, orphans (Exec sol a) = None) ∧
  (r ≠ Blocked → (∀ a o, orphans (Exec sol a) = Some o → o ≤ H)%N →
     (now' ≤ now + 15000 + H)%N ∧ ∀ c, ctx = Some c → (now' ≤ N.max now c + H)%N).
Proof.
  intros [= <-]. pose proof (writeFile_not_blocked env sol t) as Hb.
  unfold timed_GradeExerciseType1, zoom, mbind, M_bind. cbn [fst snd].
  destruct (writeFileToDisk env sol t) as [r0 t1] eqn:Ew. simpl in Hb.
  assert (∀ ctx : option N, now ≤ now + 15000 + H ∧ ∀ c, ctx = Some c → now ≤ N.max now c + H)%N as Hnow
    by (intros ?; split; lia).
  destruct r0 as [f|e| |]; try done; try (intros [= <- <- <-]; split; [done|by intros _ _]).
  apply writeFile_Ret in Ew as [_ ->].
  destruct (ReadDir env _) as [e|files]; [intros [= <- <- <-]; split; [done|by intros _ _]|].
  intros E%(loop_time Exec _ _ f (input_dir id) sol mode_700); [|apply lookup_insert_eq].
  destruct E as [Hbl Hl]. split; [done|]. intros Hr HH. specialize (Hl H Hr HH). simpl in Hl.
  split; [|intros c ->]; unfold WithDeadline in Hl; [destruct ctx|]; lia.
Qed.

(** And for a solution that ends in time on every input, leaving nothing behind, the
    deadlines make no difference: the result is that of the grading without a clock. *)
Theorem fast_solutions_are_graded (dur : string → N) sol id t now f files :
  temp_name env t "request-" = inr f →
  write_error env = None → chmod_error env = None → sync_error env = None →
  ReadDir env (input_dir id) = inr files →
  (∀ p a, Output env p a = outcome (Exec p a)) →
  (∀ name, name ∈ inputs files → let x := Exec sol (input_dir id +:+ "/" +:+ name) in
     ends x = Some (dur name) ∧ orphans x = Some 0%N ∧ dur name < singleExecTimeout g)%N →
  (total dur (inputs files) < totalExecTimeout g)%N →
  (timed_GradeExerciseType1 env Exec g None sol id (t, now)).1 = (GradeExerciseType1 env sol id t).1.
Proof.
  intros Hn Hw Hc Hs Hr Ho Hd Ht. unfold timed_GradeExerciseType1, GradeExerciseType1.
  rewrite (bind_Ret _ _ _ _ _ (timed_write env sol t f now Hn Hw Hc Hs)).
  rewrite (bind_Ret _ _ _ _ _ (writeFile_works env sol t f Hn Hw Hc Hs)). rewrite Hr. simpl.
  apply (loop_in_time env Exec g _ f (input_dir id) sol mode_700 dur); [apply lookup_insert_eq|done|exact Hd|lia].
Qed.

(** A solution that takes some time on each of many inputs gets no full points, right or
    wrong: all of its runs together have the fifteen seconds. *)
Theorem slow_solutions_fail d ctx sol id t now f files :
  temp_name env t "request-" = inr f →
  write_error env = None → chmod_error env = None → sync_error env = None →
  ReadDir env (input_dir id) = inr files → inputs files ≠ [] →
  (∀ name e, name ∈ inputs files → ends (Exec sol (input_dir id +:+ "/" +:+ name)) = Some e → d ≤ e)%N →
  (totalExecTimeout g ≤ d * N.of_nat (length (inputs files)))%N →
  (timed_GradeExerciseType1 env Exec g ctx sol id (t, now)).1 ≠ Ret (100%Z, None).
Proof.
  intros Hn Hw Hc Hs Hr Hne Hd Ht. unfold timed_GradeExerciseType1.
  rewrite (bind_Ret _ _ _ _ _ (timed_write env sol t f now Hn Hw Hc Hs)), Hr. simpl.
  destruct (grade_files _ _ files _) as [r [t' now']] eqn:E. simpl. intros ->.
  destruct (loop_full Exec g _ f (input_dir id) sol mode_700 files _ now t' now' d
    (lookup_insert_eq _ _ _) Hd E) as [?|Hlt]; [done|].
  unfold WithDeadline in Hlt. destruct ctx; lia.
Qed.

(** A run that leaves a process behind which never closes its output keeps the grading, and
    the request it belongs to, from ever returning. *)
Theorem orphan_blocks_the_grading sol id t now f name files :
  temp_name env t "request-" = inr f →
  write_error env = None → chmod_error env = None → sync_error env = None →
  ReadDir env (input_dir id) = inr ((name, false) :: files) →
  (0 < singleExecTimeout g)%N → (0 < totalExecTimeout g)%N →
  orphans (Exec sol (input_dir id +:+ "/" +:+ name)) = None →
  (timed_GradeExerciseType1 env Exec g None sol id (t, now)).1 = Blocked.
Proof.
  intros Hn Hw Hc Hs Hr H1' H2' Ho. unfold timed_GradeExerciseType1.
  rewrite (bind_Ret _ _ _ _ _ (timed_write env sol t f now Hn Hw Hc Hs)), Hr. cbn [grade_files].
  unfold timed_executeCommand at 1, mbind, M_bind. simpl. rewrite decide_False by lia.
  rewrite lookup_insert_eq. unfold cmd_Output. rewrite Ho.
  by destruct (ends _) as [e|]; [case_decide|].
Qed.
End theorems.

(** ** Concrete runs, with [NewGraders] *)

Definition the_graders : Graders := MkGraders 1000%N 15000%N.
Example the_graders_made : NewGraders = inr the_graders.
Proof. done. Qed.

(** A program that prints its argument, and one that never ends. *)
Definition echo (program arg : string) : execution := MkExecution (inr arg) (Some 20%N) (Some 0%N).
Definition spin (program arg : string) : execution := MkExecution (inl killed) None (Some 0%N).
Definition daemon (program arg : string) : execution := MkExecution (inr arg) (Some 20%N) None.

Lemma grading_is_bounded_witness :
  let run := timed_GradeExerciseType1 demo_env spin the_graders None "while :; do :; done" 1 (∅, 7%N) in
  run.1 ≠ Blocked ∧ (run.2.2 ≤ 7 + 15000 + 0)%N.
Proof.
  intros run. assert (run.1 ≠ Blocked) as Hr by (by vm_compute). split; [exact Hr|].
  destruct (grading_is_bounded demo_env spin the_graders 0 None "while :; do :; done" 1 ∅ 7 run.1 run.2.1 run.2.2)
    as [_ H].
  - reflexivity.
  - unfold run. destruct (timed_GradeExerciseType1 _ _ _ _ _ _ _) as [? []]. reflexivity.
  - apply H; [exact Hr|]. intros a o [= <-]. reflexivity.
Defined.

(** The run is killed after a second. *)
Example spinning_takes_a_second :
  let run := timed_GradeExerciseType1 demo_env spin the_graders None "while :; do :; done" 1 (∅, 7%N) in
  run.1 = Fail killed ∧ run.2.2 = 1007%N.
Proof. by vm_compute. Qed.

Lemma fast_solutions_are_graded_witness :
  (timed_GradeExerciseType1 demo_env echo the_graders None "echo $1" 1 (∅, 7%N)).1 =
    (GradeExerciseType1 demo_env "echo $1" 1 ∅).1.
Proof.
  apply (fast_solutions_are_graded demo_env echo the_graders (λ _, 20%N) "echo $1" 1 ∅ 7 "/tmp/request-" [("42.txt", false)]);
    try reflexivity. intros name _. by split_and!.
Defined.

Lemma slow_solutions_fail_witness :
  (timed_GradeExerciseType1 demo_env (λ _ arg, MkExecution (inr arg) (Some 15000%N) (Some 0%N)) the_graders None
     "sleep 15; echo $1" 1 (∅, 7%N)).1 ≠ Ret (100%Z, None).
Proof.
  apply (slow_solutions_fail demo_env (λ _ arg, MkExecution (inr arg) (Some 15000%N) (Some 0%N)) the_graders 15000 None
    "sleep 15; echo $1" 1 ∅ 7 "/tmp/request-" [("42.txt", false)]); try reflexivity; [discriminate|].
  intros name e _ [= <-]. reflexivity.
Defined.

Lemma orphan_blocks_the_grading_witness :
  (timed_GradeExerciseType1 demo_env daemon the_graders None "sleep inf & echo $1" 1 (∅, 7%N)).1 = Blocked.
Proof.
  apply (orphan_blocks_the_grading demo_env daemon the_graders "sleep inf & echo $1" 1 ∅ 7 "/tmp/request-" "42.txt" []);
    reflexivity.
Defined.
