(* ===== verification/Processes.v ===== *)
(** The processes that run in the cluster: ssh/main.go with the beginning of the server's
    [Start], the agent's (agent/server) and the grader's (grader/server) gRPC servers, and
    the binary by which a user asks for a grading (grader/user), each with its main and its
    command line, and gradeapi.go's [New].

    A process holds the client and the store it has opened; what makes the client is
    [K8sApi.NewClient]. log.Fatal ends a process with the code 1. *)
From S2P Require Import Prelude Flags Config StoreApi EtcdStore StoreWrapper Templates K8sApi SshKube Server Installer Grader.

(** ** Clients and stores *)

Record process (C S : Type) : Type := MkProcess { p_client : option C; p_store : option S }.
Arguments MkProcess {C S}.
Arguments p_client {C S}.
Arguments p_store {C S}.

Definition new_process {C S} : process C S := MkProcess None None.

Section processes.
Context {C S : Type} `{KubeClient C} `{KVStore S}.
Variables (new_client : error + C)
  (New : list string → option string → option string → option string → error + S)
  (stat : option error) (read : error + string) (reads : list (error + string)).
Abbreviation P := (process C S).

(** [NewK8sAPIWrapper]: the agent's core and its API, which it also makes, do not fail. *)
Definition NewK8sAPIWrapper : M P () := λ p,
  match new_client with
  | inl err => (Fail err, p)
  | inr c => (Ret (), MkProcess (Some c) (p_store p))
  end.

(** [client.GetStore()]. *)
Definition open_store : M P () := λ p,
  match p_client p with
  | None => (Panic, p)
  | Some c =>
      match GetStore New stat read reads c with
      | (Ret store, c') => (Ret (), MkProcess (Some c') (Some store))
      | (Fail err, c') => (Fail err, MkProcess (Some c') (p_store p))
      | (Panic, c') => (Panic, MkProcess (Some c') (p_store p))
      | (Blocked, c') => (Blocked, MkProcess (Some c') (p_store p))
      end
  end.

(** A call of the wrapper around the store. *)
Definition on_opened {A} (m : M S A) : M P A := λ p,
  match p_store p with
  | None => (Panic, p)
  | Some s => match m s with (r, s') => (r, MkProcess (p_client p) (Some s')) end
  end.

(** ** ssh/main.go *)

(** The start of [Server.Start]: the host key's parsing and the listener; the accept loop
    is [ServerLoop.server_step]. [inl] is an exit. *)
Definition ssh_address : string := "0.0.0.0:2200".
Definition Start {K} (ParsePrivateKey : string → error + K) (Listen : string → option error)
    (privateKey : string) : Z + K :=
  match ParsePrivateKey privateKey with
  | inl _ => inl 1%Z
  | inr private =>
      match Listen ssh_address with
      | Some _ => inl 1%Z
      | None => inr private
      end
  end.

Definition ssh_main {K} (ParsePrivateKey : string → error + K) (Listen : string → option error)
    : M P (Z + K) :=
  dpanic NewK8sAPIWrapper;;
  dpanic open_store;;
  keys ← dpanic (on_opened GetAllKeys);
  privKey ← dpanic (on_opened GetPrivKey);
  mret (Start ParsePrivateKey Listen privKey).

(** ** The gRPC servers *)

(** The listener and [Serve], for which the function waits; the exit code. *)
Definition serve (Listen : string → option error) (Serve : option error) (bindIP bindPort : string) : Z :=
  match Listen (JoinHostPort bindIP bindPort) with
  | Some _ => 1
  | None => match Serve with Some _ => 1 | None => 0 end
  end.

(** *** The command lines *)

Definition debug_flag : gmap string flag_kind := {[ "debug" := BoolFlag ]}.
Definition agent_flags : gmap string flag_kind := <[ "container" := BoolFlag ]> debug_flag.

(** The level of gRPC's own messages. *)
Inductive grpc_logging : Type := LogAll | LogWarnings.
Definition grpc_logger (values : gmap string string) : grpc_logging :=
  if flag_on values "debug" then LogAll else LogWarnings.

(** The beginning of each main: the flags of [os.Args] and the building of the logger, whose
    error ends the process. [inl] is an exit. *)
Definition parse_flags (formal : gmap string flag_kind) (Build : option error) (os_Args : list string)
    : Z + gmap string string :=
  match flag_Parse formal ∅ (tail os_Args) with
  | FlagExit code => inl code
  | Flags values _ => match Build with Some _ => inl 1%Z | None => inr values end
  end.

(** *** The agent *)

(** core.go: the core "does not need any state", and making it does not fail; the agent's
    API holds it. *)
Record Core : Type := MkCore {}.
Definition NewCore : error + Core := inr MkCore.
Record API : Type := NewAPI { core : Core }.

(** The message of the mode in which the agent says it runs, and the exit code. *)
Definition agent_run (Listen : string → option error) (Serve : API → option error) (bindIP bindPort : string)
    (containerMode : bool) : string * Z :=
  let mode := if containerMode then "running in container mode" else "running in qemu mode" in
  match NewCore with
  | inl _ => (mode, 1%Z)
  | inr core => (mode, serve Listen (Serve (NewAPI core)) bindIP bindPort)
  end.

Definition agent_main (Build : option error) (Listen : string → option error) (Serve : API → option error)
    (os_Args : list string) : Z + (grpc_logging * (string * Z)) :=
  match parse_flags agent_flags Build os_Args with
  | inl code => inl code
  | inr values =>
      inr (grpc_logger values, agent_run Listen Serve DefaultIP PublicAPIport (flag_on values "container"))
  end.

(** *** The grader *)

(** gradeapi.go: [NewGraders] does not fail. *)
Definition gradeapi_New : M P () := dpanic NewK8sAPIWrapper;; dpanic open_store.

Definition grader_run (Listen : string → option error) (Serve : option error) (bindIP bindPort : string)
    : M P Z :=
  gradeapi_New;; mret (serve Listen Serve bindIP bindPort).

Definition grader_main (Build : option error) (Listen : string → option error) (Serve : option error)
    (os_Args : list string) : M P Z :=
  match parse_flags debug_flag Build os_Args with
  | inl code => mret code
  | inr _ => grader_run Listen Serve DefaultIP (Itoa GradeAPIport)
  end.

(** ** grader/user *)

(** The target that [SendGradingRequest] dials. *)
Definition grader_target : string :=
  "grader-service." +:+ GraderNamespaceName +:+ ".svc.cluster.local:" +:+ Itoa GradeAPIport.

Definition user_run (env : surroundings) (Open : string → error + (nat * string)) (Dial : string → option error)
    (Call : RequestGradingRequest → error + RequestGradingResponse) (args : list string) : M (P * tmp_dir) Z :=
  if decide (length args ≠ 2%nat) then mret 1%Z
  else
    zoom fst (λ p w, (p, w.2)) gradeapi_New;;
    r ← attempt (zoom snd (λ t w, (w.1, t))
          (SendGradingRequest env Open (Dial grader_target) Call (nth 1 args "")));
    mret (match r with inl _ => 1%Z | inr points => 0%Z end).

(** The arguments of [user_run] are those of the process, flags included. *)
Definition user_main (Build : option error) (env : surroundings) (Open : string → error + (nat * string))
    (Dial : string → option error) (Call : RequestGradingRequest → error + RequestGradingResponse)
    (os_Args : list string) : M (P * tmp_dir) Z :=
  match parse_flags debug_flag Build os_Args with
  | inl code => mret code
  | inr _ => user_run env Open Dial Call os_Args
  end.
End processes.

(** ** ssh/main.go: signals *)

(** [registerSignalHandler] in its goroutine, before each of its calls. *)
Inductive sig_at : Type := SigReceive | SigCancel | SigStop | SigClose | SigDone.

#[export] Instance sig_at_eq_dec : EqDecision sig_at.
Proof. solve_decision. Defined.

(** [notified] while signals are relayed to [sigs]. *)
Record ssh_signals : Type := MkSshSignals {
  sigs : gochan ();
  notified : bool;
  ssh_cancelled : bool;
  sig_handler : sig_at
}.

(** A signal is relayed without waiting for room. Nobody receives from [done], which has no
    buffer, so that the last send has no step. *)
Inductive ssh_signal_step (s : ssh_signals) : ssh_signals → Prop :=
  | step_relay q :
      notified s = true → ch_send () (sigs s) = (Ret (), q) →
      ssh_signal_step s (MkSshSignals q (notified s) (ssh_cancelled s) (sig_handler s))
  | step_sig_receive x q :
      sig_handler s = SigReceive → ch_recv (sigs s) = (Ret x, q) →
      ssh_signal_step s (MkSshSignals q (notified s) (ssh_cancelled s) SigCancel)
  | step_sig_cancel :
      sig_handler s = SigCancel →
      ssh_signal_step s (MkSshSignals (sigs s) (notified s) true SigStop)
  | step_sig_stop :
      sig_handler s = SigStop →
      ssh_signal_step s (MkSshSignals (sigs s) false (ssh_cancelled s) SigClose)
  | step_sig_close q :
      sig_handler s = SigClose → ch_close (sigs s) = (Ret (), q) →
      ssh_signal_step s (MkSshSignals q (notified s) (ssh_cancelled s) SigDone).

Definition ssh_signals_start : ssh_signals := MkSshSignals (ch_make 1) true false SigReceive.

(** ** Lemmas *)

(** *** What an installation leaves in the cluster and in the store *)

Section installed.
Context {C S : Type} `{KubeLaws C} `{HelmApi C} `{KVStoreLaws S} `{RangeOrder}
  `{Json ContainerInformation} `{Json UserInformation}.
Variable env : environment.
Abbreviation inst := (installer C S).

(** An object that is created stays while the rest keeps it. *)
Lemma created_stays ns o (rest : M inst ()) i i' :
  stable (λ i, has (key_of ns o) o (client i)) rest →
  (kube (kube_Create ns o);; rest) i = (Ret (), i') → has (key_of ns o) o (client i').
Proof.
  intros Hst ([] & i1 & [(_ & E1 & _)%create_Ret _]%kube_Ret & E)%bind_Ret_inv.
  apply (Hst _ _ _ E). unfold has. rewrite E1. apply lookup_insert_eq.
Qed.

(** An update only replaces what exists. *)
Definition lacks (k : obj_key) (c : C) : Prop := kube_objs c !! k = None.

Lemma create_lacks k ns o : key_of ns o ≠ k → stable (lacks k) (kube_Create ns o).
Proof.
  intros Hne c [] c' (_ & E & _)%create_Ret Hk. unfold lacks. by rewrite E, lookup_insert_ne.
Qed.

Lemma AddData_lacks k ns n key v : stable (lacks k) (AddDataToConfigMap ns n key v).
Proof.
  intros c [] c' (cm & Hc & E)%AddData_Ret Hk. unfold lacks in *. rewrite E, lookup_insert_ne; [done|congruence].
Qed.

Lemma rbac_lacks k ns n : k.1.1 ≠ "ClusterRoleBinding" → stable (lacks k) (CreateClusterRoleBinding ns n).
Proof.
  intros Hne c [] c' E Hk. unfold CreateClusterRoleBinding, attempt, mbind, M_bind in E.
  destruct (kube_GetClusterRoleBinding _ c) as [[rb|e| |] c1] eqn:E1; try done;
    apply kube_GetClusterRoleBinding_law in E1 as [Ho _].
  - apply update_Ret in E. unfold lacks. rewrite E, Ho, lookup_insert_ne; [done|]. intros <-. by apply Hne.
  - eapply (create_lacks k); [|exact E|unfold lacks; by rewrite Ho]. intros <-. by apply Hne.
Qed.

Lemma put_data_lacks k ns n data : k ≠ ("ConfigMap", ns, n) →
  stable (lacks k) (createConfigMapAndPutData ns n data).
Proof.
  intros Hne. apply stable_bind; [by apply create_lacks, not_eq_sym|]. intros _.
  apply stable_for_each. intros []. apply AddData_lacks.
Qed.

Lemma ingress_lacks k ns : k ≠ ("ConfigMap", "default", "my-tcpservices-configmap") →
  k.1.1 ≠ "IngressClass" → k.1.1 ≠ "Ingress" → stable (lacks k) (CreateIngress ns).
Proof.
  intros H1' H2' H3'. apply stable_bind; [by apply create_lacks, not_eq_sym|intros _].
  apply stable_bind; [apply AddData_lacks|intros _].
  apply stable_bind; [|intros _]; apply create_lacks; intros <-; [by apply H2'|by apply H3'].
Qed.

Lemma put_ssh_data_lacks k ns : k ≠ ("ConfigMap", ns, "etcd-credentials") →
  stable (λ i : inst, lacks k (client i)) (put_ssh_data ns).
Proof. intros Hne i. by apply kube_stable, put_data_lacks. Qed.

Ltac lacks_steps :=
  repeat first
    [ apply stable_bind; [|intros ?]
    | apply on_store_stable | apply lift_sum_stable | apply put_ssh_data_lacks
    | apply kube_stable; first [apply create_lacks | apply rbac_lacks | apply ingress_lacks]
    | apply stable_for_each; intros [] | apply stable_ret ].

(** No step makes a config map for a namespace of its own. *)
Lemma initializations_lack ns conf : ns ≠ SSHNamespaceName → ns ≠ GraderNamespaceName →
  stable (λ i : inst, lacks ("ConfigMap", ns, "etcd-credentials") (client i)) (initalizeChallenges conf) ∧
  stable (λ i : inst, lacks ("ConfigMap", ns, "etcd-credentials") (client i)) (initializeSSH env) ∧
  stable (λ i : inst, lacks ("ConfigMap", ns, "etcd-credentials") (client i)) initializeGrader.
Proof. intros H1' H2'. split_and!; lacks_steps; try done; intros [=]; congruence. Qed.

(** The store after the upload of the server's key. *)
Lemma kube_shared {A} (Q : option S → Prop) (m : M C A) : stable (λ i : inst, Q (SharedStore i)) (kube m).
Proof. by apply stable_zoom_other. Qed.

Lemma ssh_key_stored (i i' : inst) s m : SharedStore i = Some s → holds s m →
  initializeSSH env i = (Ret (), i') →
  ∃ key s', ReadFile env "./server_test" = inr key ∧ SharedStore i' = Some s' ∧
    holds s' (<[privKeyLocation := key]> m).
Proof.
  intros Hs Hm. unfold initializeSSH.
  intros ([] & i1 & [_ [Hs1 _]]%kube_Ret & ([] & i2 & [_ [Hs2 _]]%kube_Ret &
    (key & i3 & [Hkey ->]%lift_sum_Ret & ([] & i4 & [E4 _]%on_store_Ret & E)%bind_Ret_inv)
    %bind_Ret_inv)%bind_Ret_inv)%bind_Ret_inv.
  rewrite Hs2, Hs1, Hs in E4. unfold UploadSSHServerPrivKey, connected in E4.
  destruct (put_holds s m privKeyLocation key Hm) as (s' & Ep & Hm'). unfold PutPrivKey in E4. rewrite Ep in E4.
  injection E4 as E4. exists key, s'. split_and!; [done| |done].
  refine ((_ : stable (λ i, SharedStore i = Some s') _) i4 () i' E (eq_sym E4)).
  repeat (apply stable_bind; [apply (kube_shared (λ o, o = Some s'))|intros _]).
  apply (kube_shared (λ o, o = Some s')).
Qed.
End installed.

(** ** Theorems *)

(** A service leads to the pods of a template, on a port that a container of theirs has. *)
Definition routes (svc : ServiceObj) (t : PodTemplate) (port : Z) : Prop :=
  sv_Selector svc = Labels (pt_Meta t) ∧
  sv_Ports svc ≠ [] ∧ Forall (λ p, sp_TargetPort p = port) (sv_Ports svc) ∧
  Exists (λ c, Exists (λ q, cp_ContainerPort q = port) (ct_Ports c)) (PodContainers (pt_Spec t)).

Section theorems.
Context {C S : Type} `{KubeLaws C} `{HelmApi C} `{KVStoreLaws S} `{RangeOrder}
  `{Json ContainerInformation} `{Json UserInformation}.
Variables (env : environment) (apiHost : error + string)
  (New Reopen : list string → option string → option string → option string → error + S).
Abbreviation inst := (installer C S).
Abbreviation Install_ := (@InstallKubernetesApplications C S _ _ _ _ _ env apiHost New).

Lemma ssh_objects (i i' : inst) : initializeSSH env i = (Ret (), i') →
  has ("Service", "ssh", "ssh-relay-service") (OService (ServiceLoadBalancer "ssh" "ssh-relay" SSHPort)) (client i') ∧
  has ("Deployment", "ssh", "ssh-relay-deployment") (ODeployment (SSHDeployment "ssh" "ssh-relay" replicas)) (client i') ∧
  has ("Ingress", "ssh", "ingressssh") (OIngress (Ingress "ssh")) (client i').
Proof.
  intros E. unfold initializeSSH in E. do 6 apply bind_Ret_inv in E as (? & ? & _ & E). split_and!.
  - apply bind_Ret_inv in E as (? & ? & _ & E). unfold CreateServiceLoadBalancer in E.
    refine (created_stays "ssh" (OService _) _ _ _ _ E). installer_steps. done.
  - unfold CreateSSHDeployment in E.
    refine (created_stays "ssh" (ODeployment _) _ _ _ _ E). by installer_steps.
  - do 2 apply bind_Ret_inv in E as (? & ? & _ & E). apply kube_Ret in E as [E _]. unfold CreateIngress in E.
    do 3 apply bind_Ret_inv in E as (? & ? & _ & E). apply create_Ret in E as (_ & E & _).
    unfold has. rewrite E. apply lookup_insert_eq.
Qed.

Lemma grader_objects (i i' : inst) : initializeGrader i = (Ret (), i') →
  has ("Service", "grader", "grader-service") (OService (ServiceClusterIP "grader" "grader" GradeAPIport)) (client i') ∧
  has ("Deployment", "grader", "grader-deployment") (ODeployment (GraderDeployment "grader" "grader" replicas)) (client i').
Proof.
  intros E. unfold initializeGrader in E. do 4 apply bind_Ret_inv in E as (? & ? & _ & E). split.
  - apply bind_Ret_inv in E as (? & ? & _ & E). apply kube_Ret in E as [E _].
    apply create_Ret in E as (_ & E & _). unfold has. rewrite E. apply lookup_insert_eq.
  - unfold CreateGraderDeployment in E. refine (created_stays "grader" (ODeployment _) _ _ _ _ E).
    apply kube_stable, create_stable.
Qed.

(** A process that was started, and can open what it needs, listens on the port at every
    address of its container: with the address taken it exits. *)
Definition grader_listens_on (port : Z) : Prop :=
  ∀ (new_client : error + C) (N : list string → option string → option string → option string → error + S)
    stat read reads Listen Serve args values p p',
  parse_flags debug_flag None args = inr values → gradeapi_New new_client N stat read reads p = (Ret (), p') →
  grader_main new_client N stat read reads None Listen Serve args p =
    (Ret (match Listen ("0.0.0.0:" +:+ Itoa port), Serve with None, None => 0 | _, _ => 1 end)%Z, p').
Definition ssh_listens_on (port : Z) : Prop :=
  ∀ (K : Type) (ParsePrivateKey : string → error + K) Listen key hostKey, ParsePrivateKey key = inr hostKey →
  Start ParsePrivateKey Listen key =
    match Listen ("0.0.0.0:" +:+ Itoa port) with None => inr hostKey | Some _ => inl 1%Z end.

Lemma servers_listen : ssh_listens_on SSHPort ∧ grader_listens_on GradeAPIport.
Proof.
  split.
  - intros K Parse Listen key hostKey E. unfold Start. rewrite E. by destruct (Listen _).
  - intros nc N stat read reads Listen Serve args values p p' Ef En. unfold grader_main. rewrite Ef.
    unfold grader_run. rewrite (bind_Ret _ _ _ _ _ En). unfold serve, mret, M_ret.
    change (JoinHostPort DefaultIP (Itoa GradeAPIport)) with ("0.0.0.0:" +:+ Itoa GradeAPIport).
    by destruct (Listen _), Serve.
Qed.

(** C35: after a successful installation the cluster's services lead to the ports on which
    the processes listen: the ssh service, behind the ingress, to that of the ssh server
    and the grader's to that of the grading server; and the address that the users' binary
    dials is the grader service's, by name, namespace and port. *)
Theorem installed_services_lead_to_the_servers creds conf i i' :
  Install_ creds conf i = (Ret (), i') →
  (∃ svc dep ing port, has ("Service", SSHNamespaceName, Name (sv_Meta svc)) (OService svc) (client i') ∧
     has ("Deployment", SSHNamespaceName, Name (dp_Meta dep)) (ODeployment dep) (client i') ∧
     has ("Ingress", SSHNamespaceName, Name (in_Meta ing)) (OIngress ing) (client i') ∧
     in_ServiceName ing = Name (sv_Meta svc) ∧ (in_ServicePort ing ∈ (sp_Port <$> sv_Ports svc)) ∧
     routes svc (dp_Template dep) port ∧ ssh_listens_on port) ∧
  (∃ svc dep port, has ("Service", GraderNamespaceName, Name (sv_Meta svc)) (OService svc) (client i') ∧
     has ("Deployment", GraderNamespaceName, Name (dp_Meta dep)) (ODeployment dep) (client i') ∧
     routes svc (dp_Template dep) port ∧ grader_listens_on port ∧
     Forall (λ p, grader_target = Name (sv_Meta svc) +:+ "." +:+ GraderNamespaceName +:+
                                  ".svc.cluster.local:" +:+ Itoa (sp_Port p)) (sv_Ports svc)).
Proof.
  intros (host & st & i1 & i2 & i3 & i4 & _ & _ & _ & _ & _ & _ & E4 & E5)%install_steps.
  destruct (ssh_objects _ _ E4) as (Hs & Hd & Hi). destruct (grader_objects _ _ E5) as [Hgs Hgd].
  assert (∀ k o, k.1.1 ≠ "ClusterRoleBinding" → k ≠ ("ConfigMap", "grader", "etcd-credentials") →
    has k o (client i4) → has k o (client i')) as Hst.
  { intros k o Hk1 Hk2. exact (grader_stable k o Hk1 Hk2 _ _ _ E5). }
  split.
  - exists (ServiceLoadBalancer "ssh" "ssh-relay" SSHPort), (SSHDeployment "ssh" "ssh-relay" replicas), (Ingress "ssh"), SSHPort.
    split_and!; [by apply Hst, Hs|by apply Hst, Hd|by apply Hst, Hi|done|by left|..|apply servers_listen].
    split_and!; [done..|by repeat constructor|by repeat constructor].
  - exists (ServiceClusterIP "grader" "grader" GradeAPIport), (GraderDeployment "grader" "grader" replicas), GradeAPIport.
    split_and!; [exact Hgs|exact Hgd|..|apply servers_listen|by repeat constructor].
    split_and!; [done..|by repeat constructor|by repeat constructor].
Qed.

(** The store at the end of an installation. *)
Lemma installed_store creds conf (i i' : inst) :
  Install_ creds conf i = (Ret (), i') →
  (∀ endpoint st, New [endpoint] (CaCertData creds) (PeerCertData creds) (KeyData creds) = inr st →
     ∃ m, holds st m) →
  encodable (UUIDToUser conf) → encodable (PubKeyToUser conf) →
  ∃ key s m, ReadFile env "./server_test" = inr key ∧ SharedStore i' = Some s ∧ holds s m ∧
    m !! privKeyLocation = Some key.
Proof.
  intros (host & st & i1 & i2 & i3 & i4 & En & _ & _ & Es & E2 & E3 & E4 & E5)%install_steps Hn Hu Hp.
  destruct (Hn _ _ En) as [m Hm].
  assert (SharedStore i2 = Some st) as Es2.
  { apply bind_Ret_inv in E2 as (h & j & Eh & [_ [Es2 _]]%kube_Ret). apply api_host_Ret in Eh as ->. by rewrite Es2. }
  destruct (stored_records conf i2 i3 st m Es2 Hm Hu Hp E3) as (s3 & m3 & Es3 & Hm3 & _).
  destruct (ssh_key_stored env i3 i4 s3 m3 Es3 Hm3 E4) as (key & s4 & Hkey & Es4 & Hm4).
  exists key, s4, (<[privKeyLocation := key]> m3). split_and!; [done| |done|apply lookup_insert_eq].
  refine ((_ : stable (λ i, SharedStore i = Some s4) _) i4 () i' E5 Es4).
  repeat (apply stable_bind; [intros ?; apply (kube_shared (λ o, o = Some s4))|intros _]).
  apply (kube_shared (λ o, o = Some s4)).
Qed.

(** C34: the ssh server's process, started in its namespace after a successful installation,
    listens on port 2200 of every address, and its host key is the key file that the
    installer has put into the store; if that file is no private key or the address is
    taken, it exits with the code 1. Only an error of the cluster other than "not found" can
    make it panic instead, where a store opened anew holds what the installer's holds. *)
Theorem ssh_server_uses_the_installed_key {K} cert key ca conf (i i' : inst) stat read reads
    (ParsePrivateKey : string → error + K) Listen :
  Install_ (MkEtcdCredentials (Some cert) (Some key) (Some ca)) conf i = (Ret (), i') →
  (∀ endpoint st, New [endpoint] (Some ca) (Some cert) (Some key) = inr st → ∃ m, holds st m) →
  encodable (UUIDToUser conf) → encodable (PubKeyToUser conf) →
  (∀ endpoint s m, SharedStore i' = Some s → holds s m →
     ∃ st, Reopen [endpoint] (Some ca) (Some cert) (Some key) = inr st ∧ holds st m) →
  store_namespace stat read reads = inr SSHNamespaceName →
  ∃ pem, ReadFile env "./server_test" = inr pem ∧
    let started := (ssh_main (inr (client i')) Reopen stat read reads ParsePrivateKey Listen new_process).1 in
    started = Ret (match ParsePrivateKey pem, Listen "0.0.0.0:2200" with
                   | inr hostKey, None => inr hostKey
                   | _, _ => inl 1%Z
                   end) ∨
    started = Panic ∧ ∃ e c', GetStore Reopen stat read reads (client i') = (Fail e, c') ∧ IsNotFound e = false.
Proof.
  intros E Hn Hu Hp Hre Hns. destruct (installed_store _ _ _ _ E Hn Hu Hp) as (pem & s & m & Hpem & Hs & Hm & Hk).
  exists pem. split; [done|]. unfold ssh_main, dpanic, NewK8sAPIWrapper, open_store, attempt, mbind, M_bind. simpl.
  apply install_steps in E as (host & st & i1 & i2 & i3 & i4 & _ & Hd & _ & _ & E2 & E3 & E4 & E5).
  destruct (installed_credentials env apiHost _ _ _ E4 E5) as [Hc _].
  assert (sshData i3 = sshData i1) as Hd3.
  { destruct (data_steps env apiHost (λ d, d = sshData i1) conf) as (P2 & P3 & _).
    eapply P3; [exact E3|]. eapply P2; [exact E2|done]. }
  rewrite Hd3, Hd in Hc. destruct (GetStore Reopen stat read reads (client i')) as [r c'] eqn:Eg.
  destruct (GetStore_credentials Reopen _ _ _ _ _ _ _ _ Hc Hns Eg) as [->|(e & -> & He)];
    [|right; split; [done|by exists e, c']].
  destruct (ssh_data_lookup (MkEtcdCredentials (Some cert) (Some key) (Some ca)) host) as (-> & -> & -> & ->).
  simpl. destruct (Hre (JoinHostPort host "2379") s m Hs Hm) as (st' & -> & Hm'). left. simpl.
  unfold on_opened. simpl. destruct (all_keys_holds st' m Hm') as (ks & s1 & -> & Hm1 & _). simpl.
  destruct (get_holds s1 m privKeyLocation Hm1) as (s2 & _ & Eg2). rewrite Hk in Eg2.
  unfold GetPrivKey. rewrite Eg2. simpl. unfold Start, ssh_address, mret, M_ret. simpl.
  by destruct (ParsePrivateKey pem), (Listen "0.0.0.0:2200").
Qed.

(** C33: a user cannot have a solution graded. A successful installation puts etcd
    credentials into the namespaces of the two servers, and into no other, if there were
    none before in the other ones and the chart makes none. The users' binary, which needs a
    store of its own before it sends anything, then panics in the users' namespace without a
    request. *)
Theorem user_binary_panics conf creds (i i' : inst) stat read reads tmp Open Dial Call args t :
  let k ns := ("ConfigMap", ns, "etcd-credentials") in
  let servers ns := ns = SSHNamespaceName ∨ ns = GraderNamespaceName in
  (∀ ns, ¬ servers ns → lacks (k ns) (client i) ∧
     ∀ rel ns' chart vals, stable (lacks (k ns)) (RunWithContext rel ns' chart vals)) →
  Install_ creds conf i = (Ret (), i') →
  store_namespace stat read reads = inr UserNamespace → length args = 2%nat →
  (∀ ns, is_Some (kube_objs (client i') !! k ns) ↔ servers ns) ∧
  ∃ p, user_run (inr (client i')) Reopen stat read reads tmp Open Dial Call args (new_process, t) = (Panic, (p, t)).
Proof.
  intros k servers Hk (host & st & i1 & i2 & i3 & i4 & _ & _ & Hc & _ & E2 & E3 & E4 & E5)%install_steps Hns Ha.
  assert (∀ ns, ¬ servers ns → lacks (k ns) (client i')) as Hl.
  { intros ns Hn. destruct (Hk ns Hn) as [Hns' Hhelm]. rewrite <-Hc in Hns'.
    apply (cilium_stable env apiHost _ Hhelm _ _ _ E2) in Hns'.
    destruct (initializations_lack (S := S) env ns conf) as (P3 & P4 & P5); [intros ->; apply Hn; by left|intros ->; apply Hn; by right|].
    by apply (P3 _ _ _ E3), (P4 _ _ _ E4), (P5 _ _ _ E5) in Hns'. }
  destruct (installed_credentials env apiHost _ _ _ E4 E5) as [H1' H2']. clear E2 E3 E4 E5. split.
  - intros ns. split.
    + intros [o Ho]. destruct (decide (ns = SSHNamespaceName ∨ ns = GraderNamespaceName)) as [|Hn]; [done|]. apply Hl in Hn. unfold lacks in Hn. congruence.
    + intros [-> | ->]; [by eexists; apply H1'|by eexists; apply H2'].
  - specialize (Hl UserNamespace ltac:(by intros [?|?])). unfold user_run. rewrite decide_False by lia.
    unfold gradeapi_New, dpanic, NewK8sAPIWrapper, open_store, GetStore, GetConfigMapData, zoom, attempt, mbind, M_bind.
    simpl. rewrite Hns. destruct (kube_GetConfigMap _ _ (client i')) as [r c1] eqn:Eg.
    destruct (kube_GetConfigMap_law _ _ _ _ _ Eg) as [_ Hg]. 
    change (kube_objs (client i') !! ("ConfigMap", UserNamespace, "etcd-credentials") = None) in Hl. rewrite Hl in Hg.
    destruct r; try done. by eexists.
Qed.
End theorems.

(** *** Command lines *)

(** The users' binary with its [-debug] flag does not grade what follows the flag: it
    ends with its usage, or takes the flag itself for the solution's file. *)
Theorem debug_flag_hides_the_solution {C S} `{KubeClient C} `{KVStore S}
    (new_client : error + C) (New : list string → option string → option string → option string → error + S)
    stat read reads Build env Open Dial Call program args values rest :
  flag_Parse debug_flag ∅ args = Flags values rest → values ≠ ∅ →
  let main := user_main new_client New stat read reads Build env Open Dial Call (program :: args) in
  main = mret 1%Z ∨
  ∃ s, args = [s] ∧ rest = [] ∧ argument_of s ≠ NoFlag ∧
    main = user_run new_client New stat read reads env Open Dial Call [program; s].
Proof.
  intros E Hd. destruct (flag_Parse_first _ args values rest E Hd) as (s & args' & n & v & -> & Hs & Hr).
  unfold user_main, parse_flags. cbn [tail]. rewrite E. destruct Build as [e|]; [by left|].
  destruct args' as [|s' args']; [right|left].
  - exists s. apply suffix_nil_inv in Hr. split_and!; [done|done|by rewrite Hs|done].
  - unfold user_run. by rewrite decide_True by done.
Qed.

(** The agent's command line in the challenges' images, and that of the machines' service. *)
Example container_command Listen Serve :
  agent_main None Listen Serve ["/agent"; "--container"; "--debug"] =
    inr (LogAll, agent_run Listen Serve DefaultIP PublicAPIport true) ∧
  agent_main None Listen Serve ["/usr/bin/delegatio-agent"] =
    inr (LogWarnings, agent_run Listen Serve DefaultIP PublicAPIport false).
Proof. by split. Qed.

(** *** Signals of the ssh server *)

Definition sig_left (h : sig_at) : nat :=
  match h with SigReceive => 4 | SigCancel => 3 | SigStop => 2 | SigClose => 1 | SigDone => 0 end.
Definition ssh_signals_left (s : ssh_signals) : nat :=
  (2 * sig_left (sig_handler s) + (ch_cap (sigs s) - length (ch_buf (sigs s))))%nat.

Definition ssh_signals_inv (s : ssh_signals) : Prop :=
  ∃ b, sigs s = GoChan b 1 (bool_decide (sig_handler s = SigDone)) ∧ (length b ≤ 1)%nat ∧
    notified s = bool_decide (3 ≤ sig_left (sig_handler s) ∨ sig_handler s = SigStop)%nat ∧
    ssh_cancelled s = bool_decide (sig_left (sig_handler s) ≤ 2)%nat.

Lemma ssh_signals_inv_step s s' : ssh_signals_inv s → ssh_signal_step s s' → ssh_signals_inv s'.
Proof.
  intros (b & Hb & Hl & Hn & Hc) Hst. destruct s as [q n c h]. simpl in *. subst q.
  inversion Hst; clear Hst; simplify_eq/=; unfold ssh_signals_inv, ch_send, ch_recv, ch_close in *; simpl in *;
    repeat match goal with E : _ = (Ret _, _) |- _ => repeat case_match; simplify_eq/= end;
    try (destruct h; done); eexists; (split_and!; [done|..]); simpl; rewrite ?length_app; simpl; lia || done.
Qed.

Lemma ssh_signal_step_left s s' : ssh_signal_step s s' → (ssh_signals_left s' < ssh_signals_left s)%nat.
Proof.
  unfold ssh_signals_left. destruct s as [[b cap cl] n c h]. destruct 1; simpl in *; simplify_eq/=;
    unfold ch_send, ch_recv, ch_close in *; simpl in *;
    repeat match goal with E : _ = (Ret _, _) |- _ => repeat case_match; simplify_eq/= end;
    rewrite ?length_app; simpl; lia.
Qed.

(** The ssh server's signal handling never sends on the closed channel, and it can only
    stop when a signal has been handled and the server's context is cancelled; but its
    goroutine does not end: it is left in its send on a channel nobody receives from. *)
Theorem ssh_signals_cancel_the_server :
  sn ssh_signal_step ssh_signals_start ∧
  ∀ s, rtc ssh_signal_step ssh_signals_start s →
    (notified s = true → (ch_send () (sigs s)).1 ≠ Panic) ∧
    ((∀ s', ¬ ssh_signal_step s s') → ssh_cancelled s = true ∧ notified s = false ∧ sig_handler s = SigDone).
Proof.
  split; [apply (sn_measure _ ssh_signals_left), ssh_signal_step_left|]. intros s Hr.
  apply (rtc_invariant _ ssh_signals_inv) in Hr; [|exact ssh_signals_inv_step|].
  2:{ exists []. split_and!; [done|simpl; lia|done..]. }
  destruct Hr as (b & Hb & Hl & Hn & Hc). destruct s as [q n c h]. simpl in *. subst q n c. split.
  - unfold ch_send. destruct h; simpl; try done; by destruct (decide _).
  - intros Hs. destruct h; try done; exfalso.
    + destruct b as [|x b]; [by destruct (Hs _ ltac:(eapply step_relay; reflexivity))|].
      by destruct (Hs _ ltac:(eapply step_sig_receive; reflexivity)).
    + by destruct (Hs _ ltac:(eapply step_sig_cancel; reflexivity)).
    + by destruct (Hs _ ltac:(eapply step_sig_stop; reflexivity)).
    + by destruct (Hs _ ltac:(eapply step_sig_close; reflexivity)).
Qed.

(** ** Concrete runs, after [Installer]'s installation on an empty cluster *)

From S2P Require Import StdStore.

#[local] Existing Instance range_canonical.
#[local] Existing Instance uuid_json.
#[local] Existing Instance name_json.

Lemma installed_services_lead_to_the_servers_witness :
  ∃ svc dep port, has ("Service", GraderNamespaceName, Name (sv_Meta svc)) (OService svc) (client installed) ∧
    routes svc (dp_Template dep) port.
Proof.
  destruct (installed_services_lead_to_the_servers (H0 := cluster_laws) test_env (inr "10.0.0.1:6443") test_New test_creds test_conf
    new_installer installed installed_ok) as (_ & svc & dep & port & Hs & _ & Hr & _).
  exact (ex_intro _ svc (ex_intro _ dep (ex_intro _ port (conj Hs Hr)))).
Defined.

(** A store opened anew holds what the installer's holds. *)
Definition test_Reopen (_ : list string) (_ _ _ : option string) : error + StdStore :=
  match SharedStore installed with Some s => inr s | None => inl (ErrNew "no store") end.

Lemma ssh_server_uses_the_installed_key_witness :
  let started := (ssh_main (inr (client installed)) test_Reopen None (inr "ssh") []
    (λ pem, inr pem) (λ _, None) new_process).1 in
  started = Ret (inr "contents") ∨ started = Panic.
Proof.
  destruct (ssh_server_uses_the_installed_key (H0 := cluster_laws) test_env (inr "10.0.0.1:6443") test_New test_Reopen "cert" "key" "ca"
    test_conf new_installer installed None (inr "ssh") [] (λ pem, inr pem) (λ _, None) installed_ok)
    as (pem & Hpem & Hs).
  - intros ? st [= <-]. exists ∅. exact new_store_holds.
  - apply all_encodable.
  - apply all_encodable.
  - intros ? s m Hs Hm. exists s. unfold test_Reopen. rewrite Hs. by split.
  - reflexivity.
  - injection Hpem as <-. destruct Hs as [Hs|[Hs _]]; [left|right]; exact Hs.
Defined.

(** The process gets as far as listening. *)
Example ssh_server_starts :
  (ssh_main (inr (client installed)) test_Reopen None (inr "ssh") [] (λ pem, inr pem) (λ _, None) new_process).1 =
    Ret (inr "contents").
Proof. vm_compute. reflexivity. Qed.

Definition no_surroundings : surroundings :=
  MkSurroundings (λ _ _, inr "/tmp/gradingRequest-1") None None None (λ _, inr []) (λ _ _, inr "").

Lemma user_binary_panics_witness :
  is_Some (kube_objs (client installed) !! ("ConfigMap", "ssh", "etcd-credentials")) ∧
  ∃ p, user_run (inr (client installed)) test_Reopen None (inr "users") [] no_surroundings
    (λ _, inr (4%nat, "data")) (λ _, None) (λ _, inr (MkResponse 100 None)) ["grade"; "solution.sh"] (new_process, ∅) =
    (Panic, (p, ∅)).
Proof.
  destruct (user_binary_panics (H0 := cluster_laws) test_env (inr "10.0.0.1:6443") test_New test_Reopen test_conf test_creds
    new_installer installed None (inr "users") [] no_surroundings (λ _, inr (4%nat, "data")) (λ _, None)
    (λ _, inr (MkResponse 100 None)) ["grade"; "solution.sh"] ∅) as [Hs Hp].
  - intros ns _. split; [exact (lookup_empty _)|]. intros rel ns' chart vals. apply create_lacks. discriminate.
  - exact installed_ok.
  - reflexivity.
  - reflexivity.
  - exact (conj (proj2 (Hs "ssh") (or_introl eq_refl)) Hp).
Defined.

Lemma debug_flag_hides_the_solution_witness :
  user_main (inr (client installed)) test_Reopen None (inr "users") [] None no_surroundings
    (λ _, inr (4%nat, "data")) (λ _, None) (λ _, inr (MkResponse 100 None)) ["grade"; "-debug"; "solution.sh"] =
    mret 1%Z.
Proof.
  destruct (debug_flag_hides_the_solution (inr (client installed)) test_Reopen None (inr "users") [] None no_surroundings
    (λ _, inr (4%nat, "data")) (λ _, None) (λ _, inr (MkResponse 100 None)) "grade" ["-debug"; "solution.sh"]
    {[ "debug" := "true" ]} ["solution.sh"]) as [E|(s & E & _)]; [reflexivity|apply map_non_empty_singleton|exact E|discriminate].
Defined.
