(* ===== verification/PodFiles.v ===== *)
(** agent/vmapi/vmapi.go: the client of an agent by which the ssh server writes a file into
    a user's pod ([WriteFileInPodgRPC] with [dialInsecure]), on the class [AgentClient].

    The theorems put it together with the two sides: with the agents' file systems of
    [VmApi], and with the ssh connection that writes the user's key ([Connection]) through
    the wrapper of [SshKube]. *)
From S2P Require Import Prelude Config Templates K8sApi K8sUser Channels Connection SshKube.
From S2P Require Import TermSize ExecStream VmApi Bootstrapper.

Section client.
Context {C : Type} `{AgentClient C}.

(** [grpc.DialContext] with the API's own dialer, which blocks until it is connected. *)
Definition dialInsecure (target : string) : M C positive := grpc_Dial target.

Definition WriteFileInPodgRPC (endpoint : string) (conf : KubeFileWriteConfig) : M C () :=
  conn ← dialInsecure endpoint;
  defer (attempt (conn_Close conn);; mret ())
    (api_WriteFile conn (fw_FilePath conf) (fw_FileName conf) (fw_FileData conf)).

(** A cluster whose pods have agents; the other two calls of the interface are given. *)
Definition pods_with_agents (exec : bool → string → KubeExecConfig → M C ())
    (forward : bool → string → string → string → positive → M C ()) : PodApi C := {|
  CreateExecInPodgRPC := exec;
  SshKube.WriteFileInPodgRPC := WriteFileInPodgRPC;
  Client_CreatePodPortForward := forward
|}.
End client.

(** ** Theorems *)

Section fleet.
Variable programs : string → list string → bool → error + process.
Abbreviation write := (@WriteFileInPodgRPC fleet (fleet_agents programs)).

(** A file written into a pod ends up in the file system of the agent at the endpoint,
    under the joined path and with exactly the given content; no other file of it and no
    other machine is touched, the connection is closed and no command is run. *)
Theorem written_file_is_in_the_pod endpoint conf (w w' : fleet) f :
  write endpoint conf w = (Ret (), w') → machines w !! endpoint = Some f →
  ∃ f' mode, machines w' = <[endpoint := f']> (machines w) ∧
    files f' = <[resolve (filepath_Join (fw_FilePath conf) (fw_FileName conf)) := (fw_FileData conf, mode)]> (files f) ∧
    dirs f ⊆ dirs f' ∧ fleet_conns w' ≡ₚ fleet_conns w ∧ fleet_started w' = fleet_started w.
Proof.
  intros E Hf. apply bind_Ret_inv in E as (h & w1 & [= <- <-] & E).
  apply defer_Ret_inv in E as (w2 & E & Hw').
  assert (fleet_conns w2 ≡ₚ encode endpoint :: fleet_conns w ∧ fleet_started w2 = fleet_started w) as [Hc Hst].
  { cbn in E. by apply on_machine_law in E as (_ & ? & ?). }
  destruct (conn_Close_law (AgentLaws := fleet_laws programs) (encode endpoint) w2 _ _ eq_refl) as (_ & _ & Hcc).
  cbn in Hcc, Hw'. specialize (Hcc ltac:(rewrite Hc; by left)).
  apply (Permutation_trans (Permutation_sym Hc)), (Permutation_cons_inv (a := encode endpoint)) in Hcc.
  cbn in E. unfold on_machine, target_of in E. rewrite decode_encode in E. simpl in E. rewrite Hf in E.
  destruct (WriteFile _ _ _ f) as [r f'] eqn:Ew. destruct r as [[]|e| |]; try done. injection E as E.
  apply WriteFile_Ret in Ew as (f1 & Hf1 & Hd1 & (_ & _ & Hdirs & Hf')%os_WriteFile_Ret).
  subst w' w2. eexists f', _. by split_and!; [|rewrite Hf', Hf1|rewrite Hdirs| |].
Qed.
End fleet.

Section connection.
Context {C : Type} `{KubeClient C} `{AgentClient C} `{Payloads}.
Variables (exec : bool → string → KubeExecConfig → M C ()) (forward : bool → string → string → string → positive → M C ()).
#[local] Instance pods : PodApi C := pods_with_agents exec forward.

(** After a login by password the connection writes the private key of the login into
    the user's pod: it is sent to the agent at the pod's address, on the port the agents
    listen on, and the outcome is the agent's. *)
Theorem password_login_sends_the_key conn api uid priv svc pod h r (c c1 c2 c3 c4 : C) :
  Extensions conn = {[AuthenticationType := "pw"; AuthenticatedUserID := uid; AuthenticatedPrivKey := priv]} →
  GetService UserNamespace (uid +:+ "-service") c = (Ret svc, c1) →
  GetPod UserNamespace (uid +:+ "-statefulset-0") c1 = (Ret pod, c2) →
  grpc_Dial (JoinHostPort (PodIP pod) PublicAPIport) c2 = (Ret h, c3) →
  api_WriteFile h "/root/.ssh" "delegatio_priv_key" priv c3 = (r, c4) → returns r →
  (conn_Close h c4).1 = Ret () →
  writeFileToContainer conn api c = (r, (conn_Close h c4).2).
Proof.
  intros Hext Es Ep Ed Ew Hr Hc. unfold writeFileToContainer. rewrite Hext.
  set (m := {[AuthenticationType := "pw"; AuthenticatedUserID := uid; AuthenticatedPrivKey := priv]} : gmap string string).
  assert (m !! AuthenticationType = Some "pw" ∧ m !! AuthenticatedUserID = Some uid ∧
    m !! AuthenticatedPrivKey = Some priv) as (-> & -> & ->) by (by subst m; split_and!; simplify_map_eq).
  rewrite decide_False by (intros Hn; by apply Hn).
  change (Wrapper_WriteFileInPod (MkFileWriteConfig uid UserNamespace "delegatio_priv_key" "/root/.ssh" priv) c =
    (r, (conn_Close h c4).2)).
  unfold Wrapper_WriteFileInPod. rewrite (bind_Ret _ _ _ _ _ Es), (bind_Ret _ _ _ _ _ Ep).
  change ((conn ← grpc_Dial (JoinHostPort (PodIP pod) PublicAPIport);
    defer (attempt (conn_Close conn);; mret ()) (api_WriteFile conn "/root/.ssh" "delegatio_priv_key" priv)) c2 =
    (r, (conn_Close h c4).2)).
  rewrite (bind_Ret _ _ _ _ _ Ed). unfold defer. rewrite Ew. unfold attempt, mbind, M_bind.
  destruct (conn_Close h c4) as [rc c5]. simpl in Hc. subst rc. by destruct r.
Qed.
End connection.
