(* ===== verification/PodCalls.v ===== *)
(** The two long running calls on a pod, between the goroutines that make them ([ExecStream]
    for [CreateExecInPodgRPC], [PortForward] for [CreatePodPortForward]) and the ssh
    connection that waits for them ([Connection], over the wrapper of [SshKube]). *)
From S2P Require Import Prelude Config Templates K8sApi K8sUser.
From S2P Require Import PortForward TermSize ExecStream Channels Connection SshKube.

(** A call is a run of its goroutines: it never panics, and one that goes on for ever has come
    to a state from which no run ends it, for the goroutines are scheduled fairly. With a
    context that is done the stream of a command has an error for [Recv]. *)
Class PodApiRuns (C : Type) `{PodApi C} : Prop := {
  Exec_run endpoint conf c r c' : CreateExecInPodgRPC true endpoint conf c = (r, c') →
    r ≠ Panic ∧
    (r = Blocked → ∃ inb sin szs s, rtc exec_step (exec_start conf inb sin szs) s ∧
       ExecStream.ctx_done s = true ∧ (receiver s = RRecv → inbox s ≠ []) ∧
       ∀ s', rtc exec_step s s' → ¬ exec_finished s');
  PortForward_run ns pod port ch c r c' : Client_CreatePodPortForward true ns pod port ch c = (r, c') →
    r ≠ Panic ∧
    (r = Blocked → ∃ k l n n' s, pf_run pod port k l (n, pf_start) (n', s) ∧ pf_done s = true ∧
       ∀ n'' s' e, rtc (forward_step pod port) (n', s) (n'', s') → main s' ≠ Returned e)
}.

(** So such calls return once the context is done. *)
#[export] Instance runs_return {C} `{PodApiRuns C} : PodApiReturns C.
Proof.
  split; intros.
  - destruct (CreateExecInPodgRPC true endpoint conf c) as [r c'] eqn:E. exists r, c'.
    apply Exec_run in E as [Hp Hb]. split_and!; [done..|]. intros Hr.
    destruct (Hb Hr) as (inb & sin & szs & s & _ & Hd & Hi & Hn).
    destruct (cancelled_exec_can_finish s Hd Hi) as (s' & Hs & Hf). by apply (Hn s').
  - destruct (Client_CreatePodPortForward true ns pod port ch c) as [r c'] eqn:E. exists r, c'.
    apply PortForward_run in E as [Hp Hb]. split_and!; [done..|]. intros Hr.
    destruct (Hb Hr) as (k & l & n & n' & s & Hs & Hd & Hn).
    destruct (over_returns pod port k l n n' s Hs) as (n'' & s' & e & Hs' & Hm); [by do 3 right|].
    by apply (Hn n'' s' e).
Qed.


(** ** The cluster whose pods answer at once *)

#[export] Instance silent_runs : PodApiRuns cluster.
Proof. split; by intros * [= <- <-]. Qed.

