(* ===== verification/Qemu.v ===== *)
(** cli/infrastructure/qemu: the virtual machines. libvirt is a parameter ([Libvirt]); the
    deletion of what earlier runs left, the upload of the base image and the choice of an
    address are here; [QemuCreate] has the rest. *)
From S2P Require Import Prelude Config.

(** ** internal/config/definitions/qemu.go *)

Definition LibvirtStoragePoolPath : string := "/var/lib/libvirt/images/".
Definition BootDiskName : string := "delegatio-boot".
Definition DomainPrefixMaster : string := "delegatio-master-".
Definition DomainPrefixWorker : string := "delegatio-worker-".
Definition DiskPoolName : string := "delegatio-pool".
Definition NetworkName : string := "delegatio-net".

(** ** libvirt *)

Inductive kind : Type := Network | Domain | Pool.

#[export] Instance kind_eq_dec : EqDecision kind.
Proof. solve_decision. Defined.

(** The calls of [libvirtInterface], on handles: the lists are those of the active
    networks and domains and of the directory pools; [lv_Destroy] is that of networks and
    domains. A listed handle is to be given back by [lv_Free] or [vol_Free]. *)
Class Libvirt (L : Type) : Type := {
  lv_List : kind → M L (list positive);
  lv_GetName : kind → positive → M L string;
  lv_Destroy : kind → positive → M L ();
  lv_Free : kind → positive → M L ();
  vol_Free : positive → M L ();
  pool_IsActive : positive → M L bool;
  pool_Volumes : positive → M L (list positive);
  vol_Delete : positive → M L ();
  pool_Destroy : positive → M L ();
  pool_Delete : positive → M L ();
  pool_Undefine : positive → M L ()
}.

(** Its documented behaviour: a removal removes its one object, or fails, and then it may
    still have been applied; everything else leaves the objects as they are. *)
Class LibvirtLaws (L : Type) `{Libvirt L} : Type := {
  objs : L → kind → gmap positive string;
  lv_List_law k s r s' : lv_List k s = (r, s') → objs s' = objs s ∧ returns r ∧
    ∀ hs, r = Ret hs → ∀ h, is_Some (objs s k !! h) → h ∈ hs;
  lv_GetName_law k h s r s' : lv_GetName k h s = (r, s') → objs s' = objs s ∧ returns r ∧
    ∀ n, r = Ret n → objs s k !! h = Some n;
  lv_remove_law k h s r s' :
    (k ≠ Pool ∧ lv_Destroy k h s = (r, s')) ∨ (k = Pool ∧ pool_Undefine h s = (r, s')) →
    returns r ∧ (∀ j, j ≠ k → objs s' j = objs s j) ∧
    (objs s' k = delete h (objs s k) ∨ objs s' k = objs s k ∧ r ≠ Ret ());
  lv_Free_law k h s r s' : lv_Free k h s = (r, s') → objs s' = objs s ∧ returns r;
  vol_Free_law h s r s' : vol_Free h s = (r, s') → objs s' = objs s ∧ returns r;
  pool_IsActive_law h s r s' : pool_IsActive h s = (r, s') → objs s' = objs s ∧ returns r;
  pool_Volumes_law h s r s' : pool_Volumes h s = (r, s') → objs s' = objs s ∧ returns r;
  pool_op_law h s r s' :
    vol_Delete h s = (r, s') ∨ pool_Destroy h s = (r, s') ∨ pool_Delete h s = (r, s') →
    objs s' = objs s ∧ returns r
}.

(** ** delete.go and util.go: deletion *)

Section deletion.
Context {L : Type} `{Libvirt L}.

(** The loops of the deferred functions: an error of [Free] is dropped. *)
Definition free_all {A} (free : A → M L ()) (l : list A) : M L () :=
  for_each l (λ x, dropped (free x)).

Definition deleteNetwork : M L () :=
  nets ← lv_List Network;
  defer (free_all (lv_Free Network) nets) (for_each nets (λ net,
    name ← lv_GetName Network net;
    if decide (name ≠ NetworkName) then mret () else lv_Destroy Network net)).

Definition deleteDomains : M L () :=
  doms ← lv_List Domain;
  defer (free_all (lv_Free Domain) doms) (for_each doms (λ dom,
    name ← lv_GetName Domain dom;
    if negb (HasPrefix name DomainPrefixMaster) && negb (HasPrefix name DomainPrefixWorker)
    then mret () else lv_Destroy Domain dom)).

Definition deleteVolumesFromPool (pool : positive) : M L () :=
  volumes ← pool_Volumes pool;
  defer (free_all vol_Free volumes) (for_each volumes (λ volume,
    r ← attempt (vol_Delete volume);
    match r with inl err => fail (ErrWrap "volume delete" err) | inr _ => mret () end)).

Definition deletePool : M L () :=
  pools ← lv_List Pool;
  defer (free_all (lv_Free Pool) pools) (for_each pools (λ pool,
    name ← lv_GetName Pool pool;
    if decide (name ≠ DiskPoolName) then mret ()
    else
      active ← pool_IsActive pool;
      (if (active : bool) then deleteVolumesFromPool pool;; pool_Destroy pool;; pool_Delete pool
       else mret ());;
      pool_Undefine pool)).

(** An error of a deletion does not keep the others from running. *)
Definition TerminateInfrastructure : M L () :=
  r1 ← attempt deleteNetwork;
  r2 ← attempt deleteDomains;
  r3 ← attempt deletePool;
  let err (r : error + ()) := match r with inl e => Some e | inr _ => None end in
  of_err (errors_Join [err r1; err r2; err r3]).
End deletion.

(** ** util.go: the upload of the base image *)

(** [file.Read(buffer)], with what the environment makes of this call: an error, or how many
    bytes it would give, of which there is at least one and no more than the buffer holds and
    the file has; at the end of the file it is [io.EOF]. The bytes are put over the beginning
    of the buffer. *)
Definition file_Read (got : error + nat) (buffer content : list Z) : error + (list Z * list Z) :=
  match got, content with
  | inl err, _ => inl err
  | inr _, [] => inl io_EOF
  | inr num, _ =>
      let n := Nat.min (Nat.max 1 num) (Nat.min (length buffer) (length content)) in
      inr (take n content ++ drop n buffer, drop n content)
  end.

(** The loop: [cancelled], [gets] and [accepts] tell, of each iteration, whether the context
    is done, what the read gives (its number of bytes is ignored), and how many bytes of the
    buffer the non-blocking stream takes. It ends at the end of the file, after at most as
    many iterations as the file has bytes, and one. *)
Fixpoint upload_loop (cancelled : nat → bool) (gets accepts : nat → error + nat) (fuel i : nat)
    (buffer content sent : list Z) (transferredBytes : nat) : res nat * list Z :=
  match fuel with
  | O => (Blocked, sent)
  | S fuel' =>
      if cancelled i then (Fail ctx_Canceled, sent)
      else
        match file_Read (gets i) buffer content with
        | inl err =>
            if negb (same_error io_EOF err) then (Fail err, sent) else (Ret transferredBytes, sent)
        | inr (buffer, content) =>
            match accepts i with
            | inl err => (Fail err, sent)
            | inr num => upload_loop cancelled gets accepts fuel' (S i) buffer content
                           (sent ++ take num buffer) (transferredBytes + num)
            end
        end
  end.

(** [uploadBaseImage] once the stream and the image are open; [bufferSize] is 4 MiB. *)
Definition uploadBaseImage (bufferSize : nat) (cancelled : nat → bool) (gets accepts : nat → error + nat)
    (Finish : option error) (image : list Z) : res () * list Z :=
  match upload_loop cancelled gets accepts (1 + length image) 0 (replicate bufferSize 0%Z) image [] 0 with
  | (Ret transferredBytes, sent) =>
      match Finish with
      | Some err => (Fail err, sent)
      | None =>
          if decide (transferredBytes < length image)%nat
          then (Fail (ErrNew "only send some of the bytes"), sent) else (Ret (), sent)
      end
  | (Fail e, sent) => (Fail e, sent)
  | (Panic, sent) => (Panic, sent)
  | (Blocked, sent) => (Blocked, sent)
  end.

(** ** create.go: the boot volumes *)

(** [path.Join(definitions.LibvirtStoragePoolPath, id)]. *)
Definition boot_path (id : string) : string := LibvirtStoragePoolPath +:+ id.

(** ** util.go and block.go: addresses *)

(** The loop over a domain's interfaces: (name, its addresses with whether they are IPv4). *)
Definition last_ipv4 (ifaces : list (string * list (string * bool))) : string :=
  foldl (λ ip i, if decide (i.1 = "lo") then ip
                 else foldl (λ ip (a : string * bool), if a.2 then a.1 else ip) ip i.2) "" ifaces.

Definition getControlPlaneIP (ifaces : error + list (string * list (string * bool))) : error + string :=
  match ifaces with
  | inl err => inl err
  | inr l => let ip := last_ipv4 l in
             if decide (ip = "") then inl (ErrNew "could not find ip addr of domain") else inr ip
  end.

(** ** Lemmas *)

Section lemmas.
Context {L : Type} `{LibvirtLaws L}.
Implicit Types s : L.

(** The names that belong to this program. *)
Definition own (k : kind) (n : string) : bool :=
  match k with
  | Network => bool_decide (n = NetworkName)
  | Domain => HasPrefix n DomainPrefixMaster || HasPrefix n DomainPrefixWorker
  | Pool => bool_decide (n = DiskPoolName)
  end.

(** Nothing is added, and no foreign object is lost. *)
Definition spared (s s' : L) : Prop :=
  ∀ k h, objs s' k !! h = objs s k !! h ∨
    (objs s' k !! h = None ∧ ∃ n, objs s k !! h = Some n ∧ own k n = true).

Lemma spared_same s s' : objs s' = objs s → spared s s'.
Proof. intros E k h. left. by rewrite E. Qed.

Lemma spared_trans s1 s2 s3 : spared s1 s2 → spared s2 s3 → spared s1 s3.
Proof.
  intros H1' H2' k h. destruct (H1' k h) as [E1|[E1 Ho1]], (H2' k h) as [E2|[E2 Ho2]].
  - left. congruence.
  - right. rewrite <-E1. by split.
  - right. split; [congruence|done].
  - right. by split.
Qed.

Definition cleared (k : kind) (h : positive) (s : L) : Prop :=
  ∀ n, objs s k !! h = Some n → own k n = false.

Lemma cleared_spared k h s s' : spared s s' → cleared k h s → cleared k h s'.
Proof. intros Hs Hc n Hn. destruct (Hs k h) as [E|[E _]]; [|congruence]. apply Hc. congruence. Qed.

(** A deletion step, and a loop of such steps. *)
Definition deletes (k : kind) (h : positive) (m : M L ()) : Prop :=
  ∀ s r s', m s = (r, s') → spared s s' ∧ returns r ∧ (r = Ret () → cleared k h s').

Lemma deletes_loop k l (body : positive → M L ()) s r s' :
  (∀ h, deletes k h (body h)) → for_each l body s = (r, s') →
  spared s s' ∧ returns r ∧ (r = Ret () → ∀ h, h ∈ l → cleared k h s').
Proof.
  intros Hb. revert s; induction l as [|h l IH]; intros s; simpl.
  { intros [= <- <-]. split_and!; [by apply spared_same|done|]. intros _ h ?%elem_of_nil. done. }
  unfold mbind, M_bind. destruct (body h s) as [r1 s1] eqn:E1.
  destruct (Hb h s r1 s1 E1) as (Hs1 & Hr1 & Hc1).
  destruct r1 as [[]|e| |]; try done.
  - intros (Hs & Hr & Hc)%IH. split_and!; [by eapply spared_trans|done|].
    intros Hret h' [->|Hin]%elem_of_cons; [|by apply Hc].
    eapply cleared_spared; [exact Hs|]. by apply Hc1.
  - intros [= <- <-]. by split_and!.
Qed.

Lemma removal_deletes k h n (m : M L ()) :
  (∀ s r s', m s = (r, s') → (k ≠ Pool ∧ lv_Destroy k h s = (r, s')) ∨ (k = Pool ∧ pool_Undefine h s = (r, s'))) →
  own k n = true → ∀ s r s', objs s k !! h = Some n → m s = (r, s') →
  spared s s' ∧ returns r ∧ (r = Ret () → cleared k h s').
Proof.
  intros Hm Hn s r s' Hk E. destruct (lv_remove_law k h s r s' (Hm _ _ _ E)) as (Hr & Hj & Ho).
  split_and!; [|done|].
  - intros k' h'. destruct (decide (k' = k)) as [->|]; [|left; by rewrite Hj].
    destruct Ho as [->|[-> _]]; [|by left].
    destruct (decide (h' = h)) as [->|]; [|left; by rewrite lookup_delete_ne].
    right. rewrite lookup_delete_eq. eauto.
  - intros ->. destruct Ho as [Ho|[_ []]]; [|done]. intros n'. rewrite Ho, lookup_delete_eq. done.
Qed.

(** Look at a name, and remove the object when it is one's own. *)
Lemma named_deletes k h (f : string → M L ()) :
  (∀ n s r s', objs s k !! h = Some n → f n s = (r, s') →
     spared s s' ∧ returns r ∧ (r = Ret () → cleared k h s')) →
  deletes k h (name ← lv_GetName k h; f name).
Proof.
  intros Hf s r s'. unfold mbind, M_bind. destruct (lv_GetName k h s) as [r1 s1] eqn:E1.
  destruct (lv_GetName_law _ _ _ _ _ E1) as (Ho & Hr & Hn).
  destruct r1 as [n|e| |]; try done.
  - intros (Hs & ? & ?)%Hf; [|by rewrite Ho; apply Hn]. split_and!; [|done..].
    eapply spared_trans; [by apply spared_same|done].
  - intros [= <- <-]. split_and!; [by apply spared_same|done..].
Qed.

Lemma foreign_kept k h n s r s' : own k n = false → objs s k !! h = Some n →
  @mret (M L) _ () () s = (r, s') → spared s s' ∧ returns r ∧ (r = Ret () → cleared k h s').
Proof.
  intros Hn Hk [= <- <-]. split_and!; [by apply spared_same|done|]. intros _ n'. rewrite Hk. by intros [= <-].
Qed.

(** The emptying of a pool before it is undefined changes no object. *)
Definition quiet {A} (m : M L A) : Prop := ∀ s r s', m s = (r, s') → objs s' = objs s ∧ returns r.

Lemma quiet_bind {A B} (m : M L A) (f : A → M L B) : quiet m → (∀ a, quiet (f a)) → quiet (m ≫= f).
Proof.
  intros Hm Hf s r s'. unfold mbind, M_bind. destruct (m s) as [r1 s1] eqn:E.
  destruct (Hm _ _ _ E) as [Ho Hr]. destruct r1; try done.
  - intros [Ho' ?]%Hf. split; [congruence|done].
  - intros [= <- <-]. by split.
Qed.

Lemma quiet_ret {A} (a : A) : quiet (mret a).
Proof. intros s r s' [= <- <-]. done. Qed.

Lemma quiet_for_each {A} (l : list A) body : (∀ x, quiet (body x)) → quiet (for_each l body).
Proof. intros Hb. induction l; simpl; [apply quiet_ret|by apply quiet_bind]. Qed.

Lemma quiet_attempt {A} (m : M L A) : quiet m → quiet (attempt m).
Proof.
  intros Hm s r s'. unfold attempt. destruct (m s) as [r1 s1] eqn:E. destruct (Hm _ _ _ E) as [Ho Hr].
  destruct r1; try done; by intros [= <- <-].
Qed.

Lemma quiet_dropped {A} (m : M L A) : quiet m → quiet (dropped m).
Proof. intros Hm. apply quiet_bind; [by apply quiet_attempt|]. intros. apply quiet_ret. Qed.

Lemma quiet_free_all {A} (free : A → M L ()) l : (∀ x, quiet (free x)) → quiet (free_all free l).
Proof. intros Hf. apply quiet_for_each. intros x. by apply quiet_dropped. Qed.

(** A quiet deferred function leaves the outcome and the objects of the function. *)
Lemma defer_quiet {A} (d : M L ()) (m : M L A) s r s' : quiet d → defer d m s = (r, s') →
  ∃ s1, m s = (r, s1) ∧ objs s' = objs s1.
Proof.
  intros Hd. unfold defer. destruct (m s) as [r1 s1]. destruct (d s1) as [r2 s2] eqn:E2.
  destruct (Hd _ _ _ E2) as [Ho Hr]. destruct r1, r2; try done; intros [= <- <-]; eauto.
Qed.

Lemma quiet_defer {A} (d : M L ()) (m : M L A) : quiet d → quiet m → quiet (defer d m).
Proof.
  intros Hd Hm s r s' (s1 & E & Ho)%defer_quiet; [|done]. rewrite Ho. by apply Hm in E.
Qed.

Lemma free_listed_quiet k hs : quiet (free_all (lv_Free k) hs).
Proof. apply quiet_free_all. intros h s r s'. apply lv_Free_law. Qed.

Lemma empty_pool_quiet pool :
  quiet (active ← pool_IsActive pool;
    if (active : bool) then deleteVolumesFromPool pool;; pool_Destroy pool;; pool_Delete pool else mret ()).
Proof.
  apply quiet_bind; [intros ? ? ?; apply pool_IsActive_law|]. intros []; [|apply quiet_ret].
  apply quiet_bind.
  - apply quiet_bind; [intros ? ? ?; apply pool_Volumes_law|]. intros vs.
    apply quiet_defer; [apply quiet_free_all; intros ? ? ? ?; apply vol_Free_law|].
    apply quiet_for_each. intros v. apply quiet_bind.
    + apply quiet_attempt. intros s r s' E. eapply pool_op_law. by left.
    + intros []; [by intros s r s' [= <- <-]|apply quiet_ret].
  - intros _. apply quiet_bind; intros; intros s r s' E; eapply pool_op_law; eauto.
Qed.
End lemmas.

(** *** Each deletion *)

Section each.
Context {L : Type} `{LibvirtLaws L}.
Implicit Types s : L.

(** The loop over a listing leaves nothing of one's own. *)
Lemma listed_deletion k (body : positive → M L ()) s r s' :
  (∀ h, deletes k h (body h)) →
  (hs ← lv_List k; defer (free_all (lv_Free k) hs) (for_each hs body)) s = (r, s') →
  spared s s' ∧ returns r ∧ (r = Ret () → ∀ h, cleared k h s').
Proof.
  intros Hb. unfold mbind, M_bind. destruct (lv_List k s) as [r1 s1] eqn:E1.
  destruct (lv_List_law _ _ _ _ E1) as (Ho & Hr & Hl).
  destruct r1 as [hs|e| |]; try done.
  - intros (s2 & (Hs & Hr' & Hc)%(deletes_loop k) & Ho2)%defer_quiet; [|done|apply free_listed_quiet].
    split_and!; [|done|].
    + eapply spared_trans; [by apply spared_same|].
      eapply spared_trans; [done|by apply spared_same].
    + intros Hret h n. rewrite Ho2. intros Hn. destruct (objs s k !! h) eqn:Hh.
      * apply (Hc Hret h); [|done]. by eapply Hl; eauto.
      * destruct (Hs k h) as [E|[E _]]; rewrite ?Ho in E; congruence.
  - intros [= <- <-]. split_and!; [by apply spared_same|done..].
Qed.

Lemma deleteNetwork_spec s r s' : deleteNetwork s = (r, s') →
  spared s s' ∧ returns r ∧ (r = Ret () → ∀ h, cleared Network h s').
Proof.
  apply listed_deletion. intros h. apply named_deletes. intros n s1 r1 s1' Hk E.
  destruct (decide (n ≠ NetworkName)) as [Hn|Hn%dec_stable].
  - eapply foreign_kept; [|done|done]. simpl. by apply bool_decide_eq_false.
  - eapply (removal_deletes Network h n); [by left| |done|done]. by apply bool_decide_eq_true.
Qed.

Lemma deleteDomains_spec s r s' : deleteDomains s = (r, s') →
  spared s s' ∧ returns r ∧ (r = Ret () → ∀ h, cleared Domain h s').
Proof.
  apply listed_deletion. intros h. apply named_deletes. intros n s1 r1 s1' Hk E.
  rewrite <-negb_orb in E.
  destruct (HasPrefix n DomainPrefixMaster || HasPrefix n DomainPrefixWorker) eqn:Hn.
  - eapply (removal_deletes Domain h n); [by left|done..].
  - by eapply foreign_kept.
Qed.

Lemma deletePool_spec s r s' : deletePool s = (r, s') →
  spared s s' ∧ returns r ∧ (r = Ret () → ∀ h, cleared Pool h s').
Proof.
  apply listed_deletion. intros h. apply named_deletes. intros n s1 r1 s1' Hk E.
  destruct (decide (n ≠ DiskPoolName)) as [Hn|Hn%dec_stable].
  { eapply foreign_kept; [|done|done]. simpl. by apply bool_decide_eq_false. }
  pose proof (empty_pool_quiet h) as Hq.
  change ((active ← pool_IsActive h;
    (if (active : bool) then deleteVolumesFromPool h;; pool_Destroy h;; pool_Delete h else mret ());;
    pool_Undefine h) s1 = (r1, s1')) in E.
  assert (((active ← pool_IsActive h;
    if (active : bool) then deleteVolumesFromPool h;; pool_Destroy h;; pool_Delete h else mret ());;
    pool_Undefine h) s1 = (r1, s1')) as E'.
  { rewrite <-E. unfold mbind, M_bind. by destruct (pool_IsActive h s1) as [[]]. }
  clear E. unfold mbind at 1, M_bind at 1 in E'.
  destruct ((active ← pool_IsActive h; _) s1) as [r2 s2] eqn:E2.
  destruct (Hq _ _ _ E2) as [Ho Hr]. destruct r2 as [[]|e| |]; try done.
  - assert (own Pool n = true) as Hown by (by apply bool_decide_eq_true).
    destruct (removal_deletes Pool h n (pool_Undefine h) (λ s r s' E, or_intror (conj eq_refl E)) Hown s2 r1 s1')
      as (Hs & ? & ?); [by rewrite Ho|done|].
    split_and!; [|done..]. eapply spared_trans; [by apply spared_same|done].
  - simplify_eq. split_and!; [by apply spared_same|done..].
Qed.

End each.

(** *** The upload *)

(** The fuel is enough: the loop comes back. *)
Lemma upload_loop_returns cancelled gets accepts fuel i buffer content sent n r sent' :
  (0 < length buffer)%nat → (length content < fuel)%nat →
  upload_loop cancelled gets accepts fuel i buffer content sent n = (r, sent') → returns r.
Proof.
  revert i buffer content sent n. induction fuel as [|fuel IH]; intros i buffer content sent n Hb Hf; [lia|].
  simpl. destruct (cancelled i); [by intros [= <- <-]|]. unfold file_Read.
  destruct (gets i) as [e|k]; [by destruct (negb _); intros [= <- <-]|].
  destruct content as [|z content]; [by intros [= <- <-]|].
  destruct (accepts i) as [e|num]; [by intros [= <- <-]|]. apply IH.
  - rewrite length_app, length_take, length_drop. simpl. lia.
  - rewrite length_drop. simpl length in *. lia.
Qed.

Lemma uploadBaseImage_returns B cancelled gets accepts Finish image r sent : (0 < B)%nat →
  uploadBaseImage B cancelled gets accepts Finish image = (r, sent) → returns r.
Proof.
  intros HB. unfold uploadBaseImage. destruct (upload_loop _ _ _ _ _ _ _ _ _) as [r1 sent1] eqn:E.
  assert (returns r1) as Hr by (eapply upload_loop_returns; [| |exact E]; [by rewrite length_replicate|lia]).
  destruct r1; try done; [|by intros [= <- <-]]. destruct Finish; [by intros [= <- <-]|].
  case_decide; by intros [= <- <-].
Qed.

Section upload.
Context (B : nat) (HB : (0 < B)%nat) (cancelled : nat → bool) (gets accepts : nat → error + nat).

(** Iteration [i] goes well: the context is not done, the read gives what the buffer holds or
    the file has left, and the stream takes the whole buffer. *)
Definition smooth (i : nat) : Prop :=
  cancelled i = false ∧ (∃ n, gets i = inr n ∧ (B ≤ n)%nat) ∧ accepts i = inr B.

Lemma smooth_iteration fuel i buffer content sent n :
  smooth i → length buffer = B → content ≠ [] →
  ∃ buffer', length buffer' = B ∧ take (length content) buffer' = take B content ∧
    upload_loop cancelled gets accepts (S fuel) i buffer content sent n =
    upload_loop cancelled gets accepts fuel (S i) buffer' (drop B content) (sent ++ buffer') (n + B).
Proof.
  intros (Hc & (k & Hg & Hk) & Ha) Hb Hne. destruct content as [|z content]; [done|]. clear Hne.
  simpl upload_loop. rewrite Hc, Hg. unfold file_Read. remember (z :: content) as c eqn:E.
  assert (length c ≠ 0)%nat by (by subst c). rewrite Ha.
  set (m := Nat.min (Nat.max 1 k) (Nat.min (length buffer) (length c))).
  assert (m = Nat.min B (length c)) as -> by lia.
  exists (take (Nat.min B (length c)) c ++ drop (Nat.min B (length c)) buffer).
  assert (length (take (Nat.min B (length c)) c ++ drop (Nat.min B (length c)) buffer) = B) as Hl
    by (rewrite length_app, length_take, length_drop; lia).
  assert (drop (Nat.min B (length c)) c = drop B c) as Hd.
  { destruct (decide (length c ≤ B)%nat) as [Hle|Hgt]; [|by rewrite Nat.min_l by lia].
    rewrite Nat.min_r by lia. by rewrite !drop_ge by lia. }
  split_and!; [done| |by rewrite (take_ge _ B), Hd by lia].
  destruct (decide (length c ≤ B)%nat) as [Hle|Hgt].
  - rewrite Nat.min_r by lia. rewrite !(take_ge c) by lia. by rewrite take_app_length.
  - rewrite Nat.min_l, (drop_ge buffer), app_nil_r by lia. rewrite take_ge; [done|].
    rewrite length_take. lia.
Qed.

(** After [k] good iterations [k] buffers were sent, which start with the image as far as it
    was read. *)
Lemma smooth_iterations image fuel k : (∀ i, i < k → smooth i)%nat → (k * B < length image + B)%nat →
  ∃ buffer rest, length buffer = B ∧ length (take (k * B) image ++ rest) = (k * B)%nat ∧
    upload_loop cancelled gets accepts (k + fuel) 0 (replicate B 0%Z) image [] 0 =
    upload_loop cancelled gets accepts fuel k buffer (drop (k * B) image) (take (k * B) image ++ rest) (k * B).
Proof.
  revert fuel. induction k as [|k IH]; intros fuel Hs Hk.
  { exists (replicate B 0%Z), []. by rewrite length_replicate. }
  destruct (IH (S fuel)) as (b & rest & Hb & Hl & E); [auto with lia|lia|].
  assert (rest = []) as ->.
  { rewrite length_app, length_take in Hl. destruct rest; [done|]. simpl in Hl. lia. }
  rewrite app_nil_r in E, Hl.
  destruct (smooth_iteration fuel k b (drop (k * B) image) (take (k * B) image) (k * B))
    as (b' & Hb' & Ht & E'); [auto with lia|done| |].
  { intros Hd%(f_equal length). rewrite length_drop in Hd. simpl in Hd. lia. }
  exists b', (drop (length (drop (k * B) image)) b').
  replace (S k + fuel)%nat with (k + S fuel)%nat by lia.
  assert (take (S k * B) image ++ drop (length (drop (k * B) image)) b' = take (k * B) image ++ b') as ->.
  { rewrite <-(take_drop (length (drop (k * B) image)) b') at 2. rewrite Ht, app_assoc. f_equal.
    replace (S k * B)%nat with (k * B + B)%nat by lia.
    by rewrite take_take_drop. }
  split_and!; [done| |].
  - rewrite length_app, Hl, Hb'. lia.
  - rewrite E, E', drop_drop. do 2 f_equal; lia.
Qed.
(** How the upload goes on after [k] good iterations. *)
Lemma upload_after image Finish k : (∀ i, i < k → smooth i)%nat → (k * B < length image + B)%nat →
  ∃ rest, length (take (k * B) image ++ rest) = (k * B)%nat ∧ (length rest < B)%nat ∧
    let upload := uploadBaseImage B cancelled gets accepts Finish image in
    let sent := take (k * B) image ++ rest in
    (cancelled k = true → upload = (Fail ctx_Canceled, sent)) ∧
    (∀ err, cancelled k = false → gets k = inl err → same_error io_EOF err = false →
       upload = (Fail err, sent)) ∧
    (∀ n err, cancelled k = false → (k * B < length image)%nat → gets k = inr n → accepts k = inl err →
       upload = (Fail err, sent)) ∧
    (cancelled k = false → (length image ≤ k * B)%nat → (∀ err, gets k = inl err → err = io_EOF) →
       upload = (from_option Fail (Ret ()) Finish, image ++ rest)).
Proof.
  intros Hs Hk.
  assert (k ≤ length image)%nat as Hle by (destruct k; [lia|]; nia).
  destruct (smooth_iterations image (S (length image - k)) k Hs Hk) as (b & rest & Hb & Hl & E).
  replace (k + S (length image - k))%nat with (1 + length image)%nat in E by lia.
  exists rest. split; [done|]. split; [rewrite length_app, length_take in Hl; lia|].
  unfold uploadBaseImage. rewrite E. simpl upload_loop. split_and!.
  - by intros ->.
  - intros e -> ->. simpl. intros ->. done.
  - intros n e -> Hlt -> Ha. simpl.
    destruct (drop (k * B) image) eqn:Hd; [|by rewrite Ha].
    apply (f_equal length) in Hd. rewrite length_drop in Hd. simpl in Hd. lia.
  - intros -> Hge Hg. rewrite drop_ge, (take_ge image) in * by lia.
    rewrite length_app in Hl.
    destruct (gets k) as [e|n]; [rewrite (Hg e eq_refl)|]; simpl; (destruct Finish; simpl; [done|]);
      by rewrite decide_False by lia.
Qed.
End upload.

Lemma full_upload bufferSize image : (0 < bufferSize)%nat →
  ∃ garbage, uploadBaseImage bufferSize (λ _, false) (λ _, inr bufferSize) (λ _, inr bufferSize) None image =
      (Ret (), image ++ garbage) ∧ (length garbage < bufferSize)%nat.
Proof.
  intros HB. pose proof (Nat.div_mod_eq (length image + (bufferSize - 1)) bufferSize) as Hd.
  pose proof (Nat.mod_upper_bound (length image + (bufferSize - 1)) bufferSize) as Hm.
  destruct (upload_after bufferSize HB (λ _, false) (λ _, inr bufferSize) (λ _, inr bufferSize) image None
    ((length image + (bufferSize - 1)) / bufferSize)) as (g & _ & Hg & _ & _ & _ & H).
  - intros i _. repeat split. by exists bufferSize.
  - lia.
  - exists g. split; [|done]. apply H; [done|lia|done].
Qed.

(** *** The whole clean-up *)

Lemma TerminateInfrastructure_spec {L : Type} `{LibvirtLaws L} (s : L) r s' : TerminateInfrastructure s = (r, s') →
  (∀ k h n, objs s k !! h = Some n → own k n = false → objs s' k !! h = Some n) ∧
  (r = Ret () → ∀ k h n, objs s' k !! h = Some n → objs s k !! h = Some n ∧ own k n = false) ∧
  returns r ∧ spared s s'.
Proof.
  unfold TerminateInfrastructure, attempt, mbind, M_bind.
  destruct (deleteNetwork s) as [r1 s1] eqn:E1. destruct (deleteNetwork_spec _ _ _ E1) as (Hs1 & Hr1 & Hc1).
  destruct (deleteDomains s1) as [r2 s2] eqn:E2. destruct (deleteDomains_spec _ _ _ E2) as (Hs2 & Hr2 & Hc2).
  destruct (deletePool s2) as [r3 s3] eqn:E3. destruct (deletePool_spec _ _ _ E3) as (Hs3 & Hr3 & Hc3).
  assert (spared s s3) as Hs by (eapply spared_trans; [exact Hs1|by eapply spared_trans]).
  assert (∀ k h n, objs s k !! h = Some n → own k n = false → objs s3 k !! h = Some n) as Hkeep.
  { intros k h n Hk Hn. destruct (Hs k h) as [->|[_ (n' & Hk' & Hn')]]; [done|]. congruence. }
  destruct r1 as [[]|e1| |], r2 as [[]|e2| |], r3 as [[]|e3| |]; try done;
    simpl; rewrite E2; simpl; rewrite E3; simpl; unfold mret, M_ret, fail; intros ?; simplify_eq; (split; [exact Hkeep|split; [|by split]]); try done.
  intros _ k h n Hk. split.
  - destruct (Hs k h) as [E|[E _]]; congruence.
  - destruct k.
    + eapply (cleared_spared Network h s1); [by eapply spared_trans|by apply Hc1|done].
    + eapply (cleared_spared Domain h s2); [done|by apply Hc2|done].
    + by eapply (Hc3 eq_refl h).
Qed.

(** ** Theorems *)

Section theorems.
Context {L : Type} `{LibvirtLaws L}.
Implicit Types s : L.

(** The deletion of the infrastructure never touches a network, domain or pool of
    another name, even when it fails; when it succeeds, none of this program's is left.
    An error of one of the three deletions does not keep the others from running. *)
Theorem TerminateInfrastructure_deletes_own s r s' : TerminateInfrastructure s = (r, s') →
  (∀ k h n, objs s k !! h = Some n → own k n = false → objs s' k !! h = Some n) ∧
  (r = Ret () → ∀ k h n, objs s' k !! h = Some n → objs s k !! h = Some n ∧ own k n = false) ∧
  returns r.
Proof. intros (? & ? & ? & _)%TerminateInfrastructure_spec. by split_and!. Qed.
End theorems.

(** C39: the upload, as long as every read gives what the buffer holds or the file has left
    and the stream takes every buffer whole. After [k] such iterations [k] buffers were sent:
    the image as far as it was read and, once it is read to its end, less than a buffer of
    stale data. If the context is done now, the upload fails with [ctx.Err()]; an error of the
    read other than [io.EOF], or one of the stream, is its error; and at the end of the file
    it returns what [Finish] returns, with the whole image sent and that rest after it. *)
Theorem upload_is_the_image_and_a_rest bufferSize cancelled gets accepts Finish image k :
  (0 < bufferSize)%nat → (∀ i, i < k → smooth bufferSize cancelled gets accepts i)%nat →
  (k * bufferSize < length image + bufferSize)%nat →
  ∃ rest, length (take (k * bufferSize) image ++ rest) = (k * bufferSize)%nat ∧
    (length rest < bufferSize)%nat ∧
    let upload := uploadBaseImage bufferSize cancelled gets accepts Finish image in
    let sent := take (k * bufferSize) image ++ rest in
    (cancelled k = true → upload = (Fail ctx_Canceled, sent)) ∧
    (∀ err, cancelled k = false → gets k = inl err → same_error io_EOF err = false →
       upload = (Fail err, sent)) ∧
    (∀ n err, cancelled k = false → (k * bufferSize < length image)%nat → gets k = inr n →
       accepts k = inl err → upload = (Fail err, sent)) ∧
    (cancelled k = false → (length image ≤ k * bufferSize)%nat → (∀ err, gets k = inl err → err = io_EOF) →
       upload = (from_option Fail (Ret ()) Finish, image ++ rest)).
Proof. intros HB. by apply upload_after. Qed.

(** Three bytes too many follow an image of five bytes sent with a buffer of four. *)
Lemma upload_is_the_image_and_a_rest_witness :
  ∃ rest, uploadBaseImage 4 (λ _, false) (λ _, inr 4%nat) (λ _, inr 4%nat) None [1; 2; 3; 4; 5]%Z =
    (Ret (), [1; 2; 3; 4; 5]%Z ++ rest) ∧ length rest = 3%nat.
Proof.
  destruct (upload_is_the_image_and_a_rest 4 (λ _, false) (λ _, inr 4%nat) (λ _, inr 4%nat) None
    [1; 2; 3; 4; 5]%Z 2) as (rest & Hl & _ & _ & _ & _ & H).
  - lia.
  - intros i _. repeat split. by exists 4%nat.
  - simpl. lia.
  - exists rest. split; [apply H; [done|simpl; lia|done]|]. simpl in Hl. lia.
Defined.

(** What such an upload sends is within the length that was announced for the stream, twice
    the size of the image, unless the image is smaller than a buffer. *)
Theorem upload_fits_its_length bufferSize image : (0 < bufferSize)%nat → (bufferSize ≤ length image)%nat →
  (Z.of_nat (length image) * 2 < 2 ^ 64)%Z →
  ∃ sent, uploadBaseImage bufferSize (λ _, false) (λ _, inr bufferSize) (λ _, inr bufferSize) None image =
      (Ret (), sent) ∧
    (Z.of_nat (length sent) ≤ to_uint64 (Z.of_nat (length image) * 2))%Z.
Proof.
  intros HB Hlen Hmax. destruct (full_upload bufferSize image HB) as (g & E & Hg).
  exists (image ++ g). split; [done|]. unfold to_uint64. rewrite Z.mod_small by lia. rewrite length_app. lia.
Qed.

(** The check of the transferred bytes does not notice a buffer that was taken in part:
    here a byte of the image is missing, and the upload succeeds. *)
Theorem short_sends_go_unnoticed :
  ∃ sent, uploadBaseImage 4 (λ _, false) (λ _, inr 4%nat) (λ i, inr (if decide (i = 0)%nat then 3 else 4)%nat)
      None [1; 2; 3; 4; 5]%Z = (Ret (), sent) ∧ ¬ [1; 2; 3; 4; 5]%Z `prefix_of` sent.
Proof. eexists. split; [reflexivity|]. intros [k Hk]. discriminate. Qed.

(** Nor a read that gives less than the buffer holds before the end of the file, which its
    contract allows: the buffer is sent whole all the same, with a stale byte amid the image. *)
Theorem short_reads_go_unnoticed :
  ∃ sent, uploadBaseImage 4 (λ _, false) (λ i, inr (if decide (i = 0)%nat then 3 else 4)%nat) (λ _, inr 4%nat)
      None [1; 2; 3; 4; 5]%Z = (Ret (), sent) ∧ ¬ [1; 2; 3; 4; 5]%Z `prefix_of` sent.
Proof. eexists. split; [reflexivity|]. intros [k Hk]. discriminate. Qed.

(** ** A libvirt to evaluate on *)

Abbreviation host := (kind → gmap positive string).

Definition host_remove (k : kind) (h : positive) : M host () := λ s,
  (Ret (), λ j, if decide (j = k) then delete h (s j) else s j).

#[export] Instance host_libvirt : Libvirt host := {
  lv_List k s := (Ret (map_to_list (s k)).*1, s);
  lv_GetName k h s := (match s k !! h with Some n => Ret n | None => Fail (ErrExt "no such object") end, s);
  lv_Destroy := host_remove;
  lv_Free k h := mret ();
  vol_Free h := mret ();
  pool_IsActive h := mret true;
  pool_Volumes h := mret [];
  vol_Delete h := mret ();
  pool_Destroy h := mret ();
  pool_Delete h := mret ();
  pool_Undefine := host_remove Pool
}.

#[export] Program Instance host_laws : LibvirtLaws host := { objs s := s }.
Next Obligation.
  intros k s r s' [= <- <-]. split_and!; [done..|]. intros hs [= <-] h [n Hn].
  apply list_elem_of_fmap. exists (h, n). split; [done|]. by apply elem_of_map_to_list.
Qed.
Next Obligation.
  intros k h s r s' E. simpl in E. destruct (s k !! h) eqn:Hk; simplify_eq; split_and!; naive_solver.
Qed.
Next Obligation.
  intros k h s r s' E. assert (host_remove k h s = (r, s')) as E'.
  { by destruct E as [[_ ?]|[-> ?]]. }
  injection E' as <- <-. split_and!; [done| |left; by rewrite decide_True].
  intros j Hj. by rewrite decide_False.
Qed.
Next Obligation. intros k h s r s' [= <- <-]. done. Qed.
Next Obligation. intros h s r s' [= <- <-]. done. Qed.
Next Obligation. intros h s r s' [= <- <-]. done. Qed.
Next Obligation. intros h s r s' [= <- <-]. done. Qed.
Next Obligation. by intros h s r s' [[= <- <-]|[[= <- <-]|[= <- <-]]]. Qed.

(** A machine with a network of its own and one of this program. *)
Definition used_host : host := λ k,
  match k with Network => {[1%positive := "default"; 2%positive := "delegatio-net"]} | _ => ∅ end.

Definition cleaned : res () * host := TerminateInfrastructure used_host.

Lemma TerminateInfrastructure_deletes_own_witness :
  cleaned.1 = Ret () ∧ objs cleaned.2 Network !! 1%positive = Some "default".
Proof.
  split; [vm_compute; reflexivity|].
  destruct (TerminateInfrastructure_deletes_own (H0 := host_laws) used_host cleaned.1 cleaned.2
    (surjective_pairing cleaned)) as [H _].
  apply (H Network 1%positive "default"); reflexivity.
Defined.
