(* ===== verification/QemuDefs.v ===== *)
(** internal/config/definitions/qemu.go: the definitions of the network, the storage pool,
    the volumes and the machines that are given to libvirt.

    The types are those of libvirt.org/go/libvirtxml, with the fields that are set. Two
    functions derive the definitions of one machine, as cli/infrastructure/qemu/create.go
    does. The theorems say that the definitions fit together. *)
From S2P Require Import Prelude Config Qemu.

Definition BaseDiskName : string := "delegatio".

(** ** The network *)

Record NetworkForwardNATPort : Type := MkNATPort { nat_Start : Z; nat_End : Z }.
Record NetworkForward : Type := MkNetForward { fwd_Mode : string; fwd_NATPorts : list NetworkForwardNATPort }.
Record NetworkBridge : Type := MkBridge { br_Name : string; br_STP : string; br_Delay : string }.
Record NetworkDHCPRange : Type := MkDHCPRange { dhcp_Start : string; dhcp_End : string }.
Record NetworkIP : Type := MkNetworkIP {
  ip_Family : string;
  ip_Address : string;
  ip_Prefix : Z;
  ip_DHCP : list NetworkDHCPRange
}.
Record NetworkXML : Type := MkNetwork {
  net_Name : string;
  net_Forward : NetworkForward;
  net_Bridge : NetworkBridge;
  net_DNS_Enable : string;
  net_IPs : list NetworkIP
}.

Definition NetworkXMLConfig : NetworkXML := {|
  net_Name := NetworkName;
  net_Forward := {| fwd_Mode := "nat"; fwd_NATPorts := [{| nat_Start := 1024; nat_End := 65535 |}] |};
  net_Bridge := {| br_Name := "virbr1"; br_STP := "on"; br_Delay := "0" |};
  net_DNS_Enable := "yes";
  net_IPs := [{|
    ip_Family := "ipv4";
    ip_Address := "10.42.0.1";
    ip_Prefix := 16;
    ip_DHCP := [{| dhcp_Start := "10.42.0.2"; dhcp_End := "10.42.255.254" |}]
  |}]
|}.

(** ** The storage pool and the volumes *)

Record StoragePoolXML : Type := MkPool {
  sp_Name : string;
  sp_Type : string;
  sp_Target_Path : string;
  sp_Owner : string;
  sp_Group : string;
  sp_Mode : string
}.

Definition PoolXMLConfig : StoragePoolXML := {|
  sp_Name := DiskPoolName;
  sp_Type := "dir";
  sp_Target_Path := LibvirtStoragePoolPath;
  sp_Owner := "0";
  sp_Group := "0";
  sp_Mode := "0777"
|}.

(** A path with the format of the image under it: a target or a backing store. *)
Record StorageVolumeFile : Type := MkVolumeFile { vf_Path : string; vf_Format : string }.
Record StorageVolumeSize : Type := MkVolumeSize { vs_Unit : string; vs_Value : Z }.
Record StorageVolumeXML : Type := MkVolume {
  sv_Name : string;
  sv_Type : string;
  sv_Target : StorageVolumeFile;
  sv_BackingStore : option StorageVolumeFile;
  sv_Capacity : StorageVolumeSize
}.

Definition VolumeBootXMLConfig : StorageVolumeXML := {|
  sv_Name := BootDiskName;
  sv_Type := "file";
  sv_Target := {| vf_Path := LibvirtStoragePoolPath +:+ BootDiskName; vf_Format := "qcow2" |};
  sv_BackingStore := Some {| vf_Path := LibvirtStoragePoolPath +:+ BaseDiskName; vf_Format := "qcow2" |};
  sv_Capacity := {| vs_Unit := "GiB"; vs_Value := 100 |}
|}.

Definition VolumeBaseXMLConfig : StorageVolumeXML := {|
  sv_Name := BaseDiskName;
  sv_Type := "file";
  sv_Target := {| vf_Path := LibvirtStoragePoolPath +:+ BaseDiskName; vf_Format := "qcow2" |};
  sv_BackingStore := None;
  sv_Capacity := {| vs_Unit := "GiB"; vs_Value := 100 |}
|}.

(** ** The machines *)

Record DomainMemory : Type := MkMemory { mem_Value : Z; mem_Unit : string }.
Record DomainVCPU : Type := MkVCPU { vcpu_Placement : string; vcpu_Value : Z }.
Record DomainCPU : Type := MkCPU {
  cpu_Mode : string;
  cpu_Sockets : Z;
  cpu_Threads : Z;
  cpu_Cores : Z;
  cpu_Dies : Z
}.
(** [feat_flags] are the features that are present without attributes. *)
Record DomainFeatureList : Type := MkFeatures { feat_flags : list string; feat_SMM_State : string }.
Record DomainOS : Type := MkOS {
  os_Firmware : string;
  os_FirmwareFeatures : list (string * string);
  os_Arch : string;
  os_Machine : string;
  os_Type : string;
  os_Kernel : string;
  os_Initrd : string;
  os_Cmdline : string
}.
Record DomainDisk : Type := MkDisk {
  disk_Device : string;
  disk_Driver_Name : string;
  disk_Driver_Type : string;
  disk_Target_Dev : string;
  disk_Target_Bus : string;
  disk_Source_Index : Z;
  disk_Source_Pool : string;
  disk_Source_Volume : string
}.
Record DomainInterface : Type := MkInterface {
  if_Model : string;
  if_Source_Network : string;
  if_Source_Bridge : string;
  if_Alias : string
}.
Record DomainSerial : Type := MkSerial {
  ser_Source_Pty : string;
  ser_Target_Type : string;
  ser_Target_Port : Z;
  ser_Target_Model : string
}.
Record DomainConsole : Type := MkConsole {
  con_TTY : string;
  con_Source_Pty : string;
  con_Target_Type : string;
  con_Target_Port : Z
}.
Record DomainRNG : Type := MkRNG { rng_Model : string; rng_Device : string; rng_Alias : string }.
Record DomainDeviceList : Type := MkDevices {
  dev_Emulator : string;
  dev_Disks : list DomainDisk;
  dev_Interfaces : list DomainInterface;
  dev_Serials : list DomainSerial;
  dev_Consoles : list DomainConsole;
  dev_RNGs : list DomainRNG
}.
Record DomainXML : Type := MkDomain {
  dom_Name : string;
  dom_Type : string;
  dom_Memory : DomainMemory;
  dom_Partition : string;
  dom_VCPU : DomainVCPU;
  dom_CPU : DomainCPU;
  dom_Features : DomainFeatureList;
  dom_OS : DomainOS;
  dom_Devices : DomainDeviceList;
  dom_OnPoweroff : string;
  dom_OnCrash : string;
  dom_OnReboot : string
}.

Definition port : Z := 0.

Definition DomainXMLConfig : DomainXML := {|
  dom_Name := "MUST-BE-FILLED-WITH-STH-VM";
  dom_Type := "kvm";
  dom_Memory := {| mem_Value := 8; mem_Unit := "GiB" |};
  dom_Partition := "/machine";
  dom_VCPU := {| vcpu_Placement := "static"; vcpu_Value := 16 |};
  dom_CPU := {|
    cpu_Mode := "host-passthrough"; cpu_Sockets := 1; cpu_Threads := 1; cpu_Cores := 16; cpu_Dies := 1
  |};
  dom_Features := {| feat_flags := ["acpi"; "pae"; "apic"; "kvm"]; feat_SMM_State := "on" |};
  dom_OS := {|
    os_Firmware := "efi";
    os_FirmwareFeatures := [("secure-boot", "no")];
    os_Arch := "x86_64";
    os_Machine := "q35";
    os_Type := "hvm";
    os_Kernel := "/home/bschlueter/University/Github/delegatio/images/image.vmlinuz";
    os_Initrd := "/home/bschlueter/University/Github/delegatio/images/image.initrd";
    os_Cmdline := "console=ttyS0 root=/dev/vda2 rw"
  |};
  dom_Devices := {|
    dev_Emulator := "/usr/bin/qemu-system-x86_64";
    dev_Disks := [{|
      disk_Device := "disk";
      disk_Driver_Name := "qemu"; disk_Driver_Type := "qcow2";
      disk_Target_Dev := "vda"; disk_Target_Bus := "virtio";
      disk_Source_Index := 1;
      disk_Source_Pool := DiskPoolName; disk_Source_Volume := BootDiskName
    |}];
    dev_Interfaces := [{|
      if_Model := "virtio";
      if_Source_Network := NetworkName; if_Source_Bridge := "virbr1";
      if_Alias := "net0"
    |}];
    dev_Serials := [{|
      ser_Source_Pty := "/dev/pts/4";
      ser_Target_Type := "isa-serial"; ser_Target_Port := port; ser_Target_Model := "isa-serial"
    |}];
    dev_Consoles := [{|
      con_TTY := "/dev/pts/4"; con_Source_Pty := "/dev/pts/4";
      con_Target_Type := "serial"; con_Target_Port := port
    |}];
    dev_RNGs := [{| rng_Model := "virtio"; rng_Device := "/dev/urandom"; rng_Alias := "rng0" |}]
  |};
  dom_OnPoweroff := "destroy";
  dom_OnCrash := "destroy";
  dom_OnReboot := "restart"
|}.

(** ** create.go: the definitions of one machine *)

(** The copy of the boot volume's definition, under the name [id]; its target's path is
    the one that is set at the time. *)
Definition boot_volume (id targetPath : string) : StorageVolumeXML := {|
  sv_Name := id;
  sv_Type := sv_Type VolumeBootXMLConfig;
  sv_Target := {| vf_Path := targetPath; vf_Format := vf_Format (sv_Target VolumeBootXMLConfig) |};
  sv_BackingStore := sv_BackingStore VolumeBootXMLConfig;
  sv_Capacity := sv_Capacity VolumeBootXMLConfig
|}.

Definition set_Volume (id : string) (d : DomainDisk) : DomainDisk := {|
  disk_Device := disk_Device d;
  disk_Driver_Name := disk_Driver_Name d; disk_Driver_Type := disk_Driver_Type d;
  disk_Target_Dev := disk_Target_Dev d; disk_Target_Bus := disk_Target_Bus d;
  disk_Source_Index := disk_Source_Index d;
  disk_Source_Pool := disk_Source_Pool d; disk_Source_Volume := id
|}.

(** The deep copy of the machine's definition, under the name [id], with its first disk
    from the volume [id]; [None] is the panic of [Disks[0]] without disks. *)
Definition domain_for (id : string) : option DomainXML :=
  let d := DomainXMLConfig in
  match dev_Disks (dom_Devices d) with
  | [] => None
  | disk :: disks => Some {|
      dom_Name := id;
      dom_Type := dom_Type d;
      dom_Memory := dom_Memory d;
      dom_Partition := dom_Partition d;
      dom_VCPU := dom_VCPU d;
      dom_CPU := dom_CPU d;
      dom_Features := dom_Features d;
      dom_OS := dom_OS d;
      dom_Devices := {|
        dev_Emulator := dev_Emulator (dom_Devices d);
        dev_Disks := set_Volume id disk :: disks;
        dev_Interfaces := dev_Interfaces (dom_Devices d);
        dev_Serials := dev_Serials (dom_Devices d);
        dev_Consoles := dev_Consoles (dom_Devices d);
        dev_RNGs := dev_RNGs (dom_Devices d)
      |};
      dom_OnPoweroff := dom_OnPoweroff d;
      dom_OnCrash := dom_OnCrash d;
      dom_OnReboot := dom_OnReboot d
    |}
  end.

(** ** Theorems *)

(** IPv4 addresses as numbers. *)
Definition split_dots (s : string) : list string :=
  (fix go cur s := match s with
   | EmptyString => [cur]
   | String a s' => if decide (a = Ascii.ascii_of_nat 46) then cur :: go "" s'
                    else go (cur +:+ String a "") s'
   end) "" s.
Fixpoint octet (acc : Z) (s : string) : option Z :=
  match s with
  | EmptyString => if decide (acc < 256)%Z then Some acc else None
  | String a s' =>
      let n := Z.of_nat (Ascii.nat_of_ascii a) in
      if decide (48 ≤ n ≤ 57)%Z then octet (10 * acc + (n - 48)) s' else None
  end.
Definition ParseIPv4 (s : string) : option Z :=
  match mapM (octet 0) (split_dots s) with
  | Some [a; b; c; d] => Some (((a * 256 + b) * 256 + c) * 256 + d)%Z
  | _ => None
  end.

(** The range lies in the network of [addr], past its own address, and is large enough. *)
Definition range_fits (ip : NetworkIP) (needed : Z) (r : NetworkDHCPRange) : bool :=
  match ParseIPv4 (ip_Address ip), ParseIPv4 (dhcp_Start r), ParseIPv4 (dhcp_End r) with
  | Some a, Some lo, Some hi =>
      let hosts := (2 ^ (32 - ip_Prefix ip))%Z in
      bool_decide (a / hosts = lo / hosts ∧ lo / hosts = hi / hosts ∧ a < lo ∧
                   hi < a / hosts * hosts + hosts - 1 ∧ needed ≤ hi - lo + 1)%Z
  | _, _, _ => false
  end.

(** The definitions fit together, for every machine [id]: its disk is the volume of
    that name in the pool that is defined, in the volume's format, and holds the root file
    system that the kernel is told to mount; that volume's backing store is the base
    volume, with its path and format, and its own file lies in the pool's directory; its
    network interface is on the network and the bridge that are defined; its processors
    are those of its topology; and every address range of the network lies in the network
    past the bridge's address and has an address for each of the machines. *)
Theorem definitions_fit id : ∃ d disk,
  domain_for id = Some d ∧ dom_Name d = id ∧ dev_Disks (dom_Devices d) = [disk] ∧
  let volume := boot_volume id (boot_path id) in
  disk_Source_Pool disk = sp_Name PoolXMLConfig ∧ disk_Source_Volume disk = sv_Name volume ∧
  disk_Driver_Type disk = vf_Format (sv_Target volume) ∧
  Contains (os_Cmdline (dom_OS d)) ("root=/dev/" +:+ disk_Target_Dev disk) = true ∧
  sv_BackingStore volume = Some (sv_Target VolumeBaseXMLConfig) ∧
  HasPrefix (vf_Path (sv_Target volume)) (sp_Target_Path PoolXMLConfig) = true ∧
  Forall (λ i, if_Source_Network i = net_Name NetworkXMLConfig ∧
               if_Source_Bridge i = br_Name (net_Bridge NetworkXMLConfig)) (dev_Interfaces (dom_Devices d)) ∧
  (let c := dom_CPU d in vcpu_Value (dom_VCPU d) = cpu_Sockets c * cpu_Dies c * cpu_Cores c * cpu_Threads c)%Z ∧
  Forall (λ ip, forallb (range_fits ip (NumberOfMasters ClusterConfiguration + NumberOfWorkers ClusterConfiguration))
                  (ip_DHCP ip) = true) (net_IPs NetworkXMLConfig).
Proof.
  eexists _, _. split; [reflexivity|]. simpl. split_and!; try done.
  - apply HasPrefix_app.
  - by repeat constructor.
  - by repeat constructor.
Qed.
