(* ===== verification/QemuCreate.v ===== *)
(** cli/infrastructure/qemu: the creation of the virtual machines (create.go, qemu.go), the
    wait for them (block.go) and what is reported of them (util.go), over [Qemu]'s libvirt
    and the definitions of [QemuDefs]. [QemuWrapper] has wrapper.go, which implements the
    classes by the libvirt package.

    [LibvirtInstance] is the receiver with the machines' host behind its connection. Its two
    groups of goroutines run in an [Errgroup]. A loop that polls until a deadline is given
    how many times it finds the deadline not yet passed. *)
From S2P Require Import Prelude Config Errgroup Qemu QemuDefs.

(** ** libvirt: encoding, creation and lookup *)

(** [Marshal] of the definitions. *)
Class LibvirtXml : Type := {
  network_Marshal : NetworkXML → error + string;
  pool_Marshal : StoragePoolXML → error + string;
  volume_Marshal : StorageVolumeXML → error + string;
  domain_Marshal : DomainXML → error + string
}.

(** The interfaces of a machine: name, and addresses with whether they are IPv4. *)
Abbreviation interfaces := (list (string * list (string * bool))).

(** [agent_ExecCommand] is a call of the agent at an address, over a connection of its
    own; [conn_Close] closes the connection to libvirt. *)
Class LibvirtCreate (L : Type) : Type := {
  StoragePoolDefineXML : string → M L positive;
  pool_Build : positive → M L ();
  pool_Create : positive → M L ();
  LookupStoragePoolByTargetPath : string → M L positive;
  StorageVolCreateXML : positive → string → M L positive;
  NetworkCreateXML : string → M L positive;
  DomainCreateXML : string → M L positive;
  LookupDomainByName : string → M L positive;
  ListAllInterfaceAddresses : positive → M L interfaces;
  NewStream : M L positive;
  vol_Upload : positive → positive → Z → M L ();
  stream_Free : positive → M L ();
  agent_Dial : string → M L ();
  agent_ExecCommand : string → string → list string → M L ();
  lv_Close : M L ()
}.

(** Its documented behaviour: a creation adds the one object its definition names, or
    fails and adds nothing; everything else leaves the objects as they are. *)
Section laws.
Context {L : Type} `{LibvirtLaws L}.
Definition creates (k : kind) (name : string) (m : M L positive) : Prop :=
  ∀ s r s', m s = (r, s') → returns r ∧ (∀ j, j ≠ k → objs s' j = objs s j) ∧
    ((∃ h, r = Ret h ∧ objs s k !! h = None ∧ objs s' k = <[h := name]> (objs s k)) ∨
     (∃ e, r = Fail e) ∧ objs s' k = objs s k).
End laws.

Class LibvirtCreateLaws (L : Type) `{LibvirtLaws L, LibvirtXml, LibvirtCreate L} : Prop := {
  StoragePoolDefineXML_law d x : pool_Marshal d = inr x → creates Pool (sp_Name d) (StoragePoolDefineXML x);
  NetworkCreateXML_law d x : network_Marshal d = inr x → creates Network (net_Name d) (NetworkCreateXML x);
  DomainCreateXML_law d x : domain_Marshal d = inr x → creates Domain (dom_Name d) (DomainCreateXML x);
  pool_Build_law h : quiet (pool_Build h);
  pool_Create_law h : quiet (pool_Create h);
  LookupPool_law p : quiet (LookupStoragePoolByTargetPath p);
  VolCreate_law h x : quiet (StorageVolCreateXML h x);
  LookupDomain_law n : quiet (LookupDomainByName n);
  ListInterfaces_law h : quiet (ListAllInterfaceAddresses h);
  NewStream_law : quiet NewStream;
  vol_Upload_law h st n : quiet (vol_Upload h st n);
  stream_Free_law st : quiet (stream_Free st);
  agent_Dial_law a : quiet (agent_Dial a);
  agent_Exec_law a c l : quiet (agent_ExecCommand a c l);
  lv_Close_law : quiet lv_Close
}.

(** ** qemu.go: the receiver *)

(** [Conn] is nil before [ConnectWithInfrastructureService]; [Target_Path] is the path in
    the [Target] of the package's boot volume definition, which every copy shares. *)
Record LibvirtInstance (L : Type) : Type := MkInstance {
  Conn : option L;
  Target_Path : string;
  masterNodeNum : nat;
  workerNodeNum : nat;
  RegisteredPools : list string;
  RegisteredDisks : list string
}.
Arguments MkInstance {L}.
Arguments Conn {L}.
Arguments Target_Path {L}.
Arguments masterNodeNum {L}.
Arguments workerNodeNum {L}.
Arguments RegisteredPools {L}.
Arguments RegisteredDisks {L}.

Definition NewQemu {L} : LibvirtInstance L :=
  MkInstance None (LibvirtStoragePoolPath +:+ BootDiskName)
    (Z.to_nat (NumberOfMasters ClusterConfiguration)) (Z.to_nat (NumberOfWorkers ClusterConfiguration))
    [] [].

(** The surroundings of a run: [libvirt.NewConnect], the upload up to and after its loop
    (the opened image, the error of its [Stat], its reads and the stream in the iterations of the loop,
    the errors of [Finish] and of the file's close), and how often the loops that wait for a
    machine find their deadline not passed, with the error of the context when it is. *)
Record run_env (L : Type) : Type := MkRunEnv {
  NewConnect : string → error + L;
  fs_Open : error + list Z;
  file_Stat : option error;
  bufferSize : nat;
  stream_cancelled : nat → bool;
  image_gets : nat → error + nat;
  stream_accepts : nat → error + nat;
  stream_Finish : option error;
  image_Close : option error;
  polls : string → nat;
  agent_polls : string → nat;
  deadline_error : error
}.
Arguments NewConnect {L}.
Arguments fs_Open {L}.
Arguments file_Stat {L}.
Arguments bufferSize {L}.
Arguments stream_cancelled {L}.
Arguments image_gets {L}.
Arguments stream_accepts {L}.
Arguments stream_Finish {L}.
Arguments image_Close {L}.
Arguments polls {L}.
Arguments agent_polls {L}.
Arguments deadline_error {L}.

Section creation.
Context {L : Type} `{Libvirt L} `{LibvirtXml} `{LibvirtCreate L} `{RangeOrder}.
Variables (env : run_env L) (ImagePath : string).
Abbreviation Inst := (LibvirtInstance L).

Definition set_conn (c : option L) (i : Inst) : Inst :=
  MkInstance c (Target_Path i) (masterNodeNum i) (workerNodeNum i) (RegisteredPools i) (RegisteredDisks i).
Definition set_target (p : string) (i : Inst) : Inst :=
  MkInstance (Conn i) p (masterNodeNum i) (workerNodeNum i) (RegisteredPools i) (RegisteredDisks i).
Definition add_pool (n : string) (i : Inst) : Inst :=
  MkInstance (Conn i) (Target_Path i) (masterNodeNum i) (workerNodeNum i) (RegisteredPools i ++ [n])
    (RegisteredDisks i).
Definition add_disk (n : string) (i : Inst) : Inst :=
  MkInstance (Conn i) (Target_Path i) (masterNodeNum i) (workerNodeNum i) (RegisteredPools i)
    (RegisteredDisks i ++ [n]).

(** A call on the connection. *)
Definition on_conn {A} (m : M L A) : M Inst A := λ i,
  match Conn i with
  | None => (Panic, i)
  | Some l => match m l with (r, l') => (r, set_conn (Some l') i) end
  end.

Definition lifted {S A} (r : error + A) : M S A :=
  match r with inl e => fail e | inr a => mret a end.
(** An error under a message, by [%s]. *)
Definition relabel {S A} (msg : string) (m : M S A) : M S A :=
  r ← attempt m;
  match r with inl _ => fail (ErrNew msg) | inr a => mret a end.

(** [defer func() { _ = x.Free() }()]. *)
Definition freed {A} (free : M L ()) (m : M Inst A) : M Inst A := defer (dropped (on_conn free)) m.

Definition ConnectWithInfrastructureService (url : string) : M Inst () :=
  conn ← lifted (NewConnect env url);
  modify (set_conn (Some conn)).

(** ** create.go *)

Definition createStoragePool : M Inst () :=
  poolXMLString ← lifted (pool_Marshal PoolXMLConfig);
  poolObject ← relabel "error defining libvirt storage pool" (on_conn (StoragePoolDefineXML poolXMLString));
  freed (lv_Free Pool poolObject) (
    relabel "error building libvirt storage pool" (on_conn (pool_Build poolObject));;
    relabel "error creating libvirt storage pool" (on_conn (pool_Create poolObject));;
    modify (add_pool (sp_Name PoolXMLConfig))).

(** util.go: [uploadBaseImage] as a whole; the stream is announced to have twice the size
    of the file; the error of the file's close is joined to that
    of the function. *)
Definition upload_image (baseVolume : positive) : M Inst () :=
  stream ← on_conn NewStream;
  freed (stream_Free stream) (
    image ← relabel ("error while opening " +:+ ImagePath) (lifted (fs_Open env));
    r ← attempt (
      of_err (file_Stat env);;
      on_conn (vol_Upload baseVolume stream (to_uint64 (Z.of_nat (length image) * 2)));;
      ((λ i, ((uploadBaseImage (bufferSize env) (stream_cancelled env) (image_gets env)
                 (stream_accepts env) (stream_Finish env) image).1, i)) : M Inst ()));
    of_err (errors_Join [match r with inl e => Some e | inr _ => None end; image_Close env])).

(** The pool that is looked up here is not freed: the deferred call is commented out. *)
Definition createBaseImage : M Inst () :=
  volumeBaseXMLString ← lifted (volume_Marshal VolumeBaseXMLConfig);
  storagePool ← on_conn (LookupStoragePoolByTargetPath LibvirtStoragePoolPath);
  volumeBaseObject ← relabel "error creating libvirt storage volume 'base'"
    (on_conn (StorageVolCreateXML storagePool volumeBaseXMLString));
  freed (vol_Free volumeBaseObject) (
    modify (add_disk (sv_Name VolumeBaseXMLConfig));;
    upload_image volumeBaseObject).

Definition createNetwork : M Inst () :=
  networkXMLString ← lifted (network_Marshal NetworkXMLConfig);
  network ← on_conn (NetworkCreateXML networkXMLString);
  freed (lv_Free Network network) (mret ()).

(** The rest of [createBootImage] once the copy of the definition is encoded. *)
Definition create_boot_volume (id volumeBootXMLString : string) : M Inst () :=
  storagePool ← on_conn (LookupStoragePoolByTargetPath LibvirtStoragePoolPath);
  freed (lv_Free Pool storagePool) (
    bootVol ← relabel "error creating libvirt storage volume 'boot'"
      (on_conn (StorageVolCreateXML storagePool volumeBootXMLString));
    freed (vol_Free bootVol) (modify (add_disk id))).

Definition createDomain (id : string) : M Inst () :=
  match domain_for id with
  | None => panic
  | Some domainCpy =>
      domainXMLString ← lifted (domain_Marshal domainCpy);
      domain ← relabel "error creating libvirt domain" (on_conn (DomainCreateXML domainXMLString));
      freed (lv_Free Domain domain) (mret ())
  end.

Definition machine_name (controlPlane : bool) (number : nat) : string :=
  (if controlPlane then DomainPrefixMaster else DomainPrefixWorker) +:+ Itoa (Z.of_nat number).

(** [createInstance] in its goroutine: before the assignment of the shared path, before
    the encoding, before the creation of the volume, of the domain, or returned. *)
Inductive instance_at : Type :=
  | InstAssign
  | InstEncode
  | InstVolume (xml : string)
  | InstDomain
  | InstEnd (err : option error).

Definition instance_next (id : string) (t : instance_at) : M Inst instance_at :=
  match t with
  | InstAssign => modify (set_target (boot_path id));; mret InstEncode
  | InstEncode =>
      path ← gets Target_Path;
      mret (match volume_Marshal (boot_volume id path) with
            | inl err => InstEnd (Some err)
            | inr xml => InstVolume xml
            end)
  | InstVolume xml =>
      r ← attempt (create_boot_volume id xml);
      mret (match r with inl err => InstEnd (Some err) | inr _ => InstDomain end)
  | InstDomain =>
      r ← attempt (createDomain id);
      mret (InstEnd (match r with inl err => Some err | inr _ => None end))
  | InstEnd err => mret (InstEnd err)
  end.

(** The group's context is dropped: an error cancels nobody. *)
Definition instance_turn (cancelled : option error) (g : string * instance_at) : M Inst (string * instance_at) :=
  t' ← instance_next g.1 g.2;
  mret (g.1, t').
Definition instance_outcome (g : string * instance_at) : option (option error) :=
  match g.2 with InstEnd err => Some err | _ => None end.

(** ** qemu.go *)

(** The machines in the order in which their goroutines are started: workers, masters. *)
Definition machine_names (i : Inst) : list string :=
  (machine_name false <$> seq 0 (workerNodeNum i)) ++ (machine_name true <$> seq 0 (masterNodeNum i)).

Definition createInstances (schedule : list nat) : M Inst () := λ i,
  match group_run instance_turn instance_outcome schedule
          (MkGroup i ((λ id, (id, InstAssign)) <$> machine_names i) None) with
  | (r, g) => (r, shared g)
  end.
(** ** block.go *)

Fixpoint poll_network (n : nat) (domain : positive) : M L string :=
  match n with
  | O => fail (deadline_error env)
  | S n' =>
      iface ← ListAllInterfaceAddresses domain;
      let ip := last_ipv4 iface in
      if decide (ip = "") then poll_network n' domain else mret ip
  end.

Definition blockUntilNetworkIsReady (id : string) : M L string :=
  domain ← LookupDomainByName id;
  defer (dropped (lv_Free Domain domain)) (poll_network (polls env id) domain).

Fixpoint poll_agent (n : nat) (addr id : string) : M L () :=
  match n with
  | O => fail (deadline_error env)
  | S n' =>
      r ← attempt (agent_ExecCommand addr "hostnamectl" ["set-hostname"; id]);
      match r with inr _ => mret () | inl _ => poll_agent n' addr id end
  end.

Definition blockUntilDelegatioAgentIsReady (id : string) : M L () :=
  domain ← LookupDomainByName id;
  defer (dropped (lv_Free Domain domain)) (
    iface ← ListAllInterfaceAddresses domain;
    let ip := last_ipv4 iface in
    if decide (ip = "") then fail (ErrNew ("could not get ip addr of VM " +:+ DomainPrefixMaster +:+ "0"))
    else
      let addr := JoinHostPort ip PublicAPIport in
      agent_Dial addr;;
      poll_agent (agent_polls env id) addr id).

(** [blockUntilInstanceReady] in its goroutine: before each of its two waits, or returned. *)
Inductive wait_at : Type := WaitNetwork | WaitAgent | WaitEnd (err : option error).

Definition wait_turn (cancelled : option error) (g : string * wait_at) : M Inst (string * wait_at) :=
  t' ← (match g.2 with
        | WaitNetwork =>
            r ← attempt (on_conn (blockUntilNetworkIsReady g.1));
            mret (match r with inl err => WaitEnd (Some err) | inr _ => WaitAgent end)
        | WaitAgent =>
            r ← attempt (on_conn (blockUntilDelegatioAgentIsReady g.1));
            mret (WaitEnd (match r with inl err => Some err | inr _ => None end))
        | WaitEnd err => mret (WaitEnd err)
        end);
  mret (g.1, t').
Definition wait_outcome (g : string * wait_at) : option (option error) :=
  match g.2 with WaitEnd err => Some err | _ => None end.

(** ** util.go: what is reported *)

Definition control_plane_ip : M L string :=
  domain ← LookupDomainByName (DomainPrefixMaster +:+ "0");
  defer (dropped (lv_Free Domain domain)) (
    r ← attempt (ListAllInterfaceAddresses domain);
    lifted (getControlPlaneIP r)).

Definition getWorkerInstanceIPs (workerNodeNum : nat) : M L (gmap string string) :=
  fold_m (λ id nameToIP,
    let node := machine_name false id in
    ip ← blockUntilNetworkIsReady node;
    mret (<[node := ip]> nameToIP)) (seq 0 workerNodeNum) ∅.

Definition getNodeInformation : M Inst NodeInformation := λ i,
  on_conn (controlPlaneIP ← control_plane_ip;
           workerInstance ← getWorkerInstanceIPs (workerNodeNum i);
           mret (MkNodeInformation {["delegatio-0" := controlPlaneIP]} workerInstance)) i.

(** ** qemu.go: the whole *)

Definition waitUntilAllNodesAreReady (schedule : list nat) : M Inst NodeInformation := λ i,
  match group_run wait_turn wait_outcome schedule
          (MkGroup i ((λ id, (id, WaitNetwork)) <$> machine_names i) None) with
  | (Ret _, g) => getNodeInformation (shared g)
  | (Fail e, g) => (Fail e, shared g)
  | (Panic, g) => (Panic, shared g)
  | (Blocked, g) => (Blocked, shared g)
  end.

Definition Instance_TerminateInfrastructure : M Inst () := on_conn TerminateInfrastructure.
Definition TerminateConnection : M Inst () := on_conn lv_Close.

Definition InitializeInfrastructure (create_schedule wait_schedule : list nat) : M Inst NodeInformation :=
  Instance_TerminateInfrastructure;;
  createStoragePool;;
  createBaseImage;;
  createNetwork;;
  createInstances create_schedule;;
  waitUntilAllNodesAreReady wait_schedule.
End creation.

(** ** Lemmas *)

(** *** What is added *)

(** Nothing is lost, and what is new has one of this program's names. *)
Definition grows (o o' : kind → gmap positive string) : Prop :=
  ∀ k h, (∀ n, o k !! h = Some n → o' k !! h = Some n) ∧
         (∀ n, o' k !! h = Some n → o k !! h = Some n ∨ own k n = true).

Lemma grows_refl o : grows o o.
Proof. intros k h. eauto. Qed.

Lemma grows_trans o1 o2 o3 : grows o1 o2 → grows o2 o3 → grows o1 o3.
Proof.
  intros H1 H2 k h. destruct (H1 k h) as [A1 B1], (H2 k h) as [A2 B2]. split; [eauto|].
  intros n [Hn|Hn]%B2; [by apply B1|by right].
Qed.

#[export] Instance grows_preorder : PreOrder grows.
Proof. split; [exact grows_refl|exact grows_trans]. Qed.

(** An object named [n] is there. *)
Definition there (o : kind → gmap positive string) (k : kind) (n : string) : Prop :=
  ∃ h, o k !! h = Some n.

Lemma there_grows o o' k n : grows o o' → there o k n → there o' k n.
Proof. intros Hg [h Hh]. exists h. by apply Hg. Qed.

Section creates.
Context {L : Type} `{LibvirtCreateLaws L}.
Implicit Types s : L.

Lemma creates_grows k n (m : M L positive) s r s' : creates k n m → own k n = true →
  m s = (r, s') → grows (objs s) (objs s') ∧ (∀ h, r = Ret h → there (objs s') k n) ∧ returns r.
Proof.
  intros Hm Hn E. destruct (Hm s r s' E) as (Hr & Hj & Ho). split_and!; [|..|done].
  - intros j h. destruct (decide (j = k)) as [->|Hne]; [|by rewrite Hj; eauto].
    destruct Ho as [(h0 & _ & Hnone & ->)|[_ ->]]; [|eauto]. split.
    + intros n' Hn'. rewrite lookup_insert_ne; [done|]. intros ->. congruence.
    + intros n' [[<- <-]|[_ ?]]%lookup_insert_Some; auto.
  - intros h ->. destruct Ho as [(h0 & _ & _ & E')|[[e ?] _]]; [|done].
    exists h0. by rewrite E', lookup_insert_eq.
Qed.
End creates.

(** *** Operations on the receiver *)

Section ops.
Context {L : Type} `{LibvirtCreateLaws L}.
Abbreviation Inst := (LibvirtInstance L).

Definition things (i : Inst) : kind → gmap positive string :=
  match Conn i with Some l => objs l | None => λ _, ∅ end.
Definition same_size (i i' : Inst) : Prop :=
  masterNodeNum i' = masterNodeNum i ∧ workerNodeNum i' = workerNodeNum i.

(** Over a connection, [m] only adds objects of this program, and after a success [Q]
    holds; when [t] is set it always comes back. *)
Variable t : bool.
Definition adds {A} (m : M Inst A) (Q : A → (kind → gmap positive string) → Prop) : Prop :=
  ∀ i r i', is_Some (Conn i) → m i = (r, i') →
    (t = true → returns r) ∧
    (returns r → is_Some (Conn i') ∧ grows (things i) (things i') ∧ same_size i i' ∧
       ∀ a, r = Ret a → Q a (things i')).

Abbreviation plain m := (adds m (λ _ _, True)).

Lemma adds_mono {A} (m : M Inst A) (Q R : A → (kind → gmap positive string) → Prop) :
  adds m Q → (∀ a o, Q a o → R a o) → adds m R.
Proof.
  intros Hm HQ i r i' Hi E. destruct (Hm i r i' Hi E) as [Ht Hr]. split; [done|].
  intros (? & ? & ? & ?)%Hr. split_and!; eauto.
Qed.

Lemma adds_now {A} (m : M Inst A) Q :
  (∀ i, is_Some (Conn i) → returns (m i).1 ∧ Conn (m i).2 = Conn i ∧ same_size i (m i).2 ∧
     ∀ a, (m i).1 = Ret a → Q a (things i)) → adds m Q.
Proof.
  intros Hm i r i' Hi E. destruct (Hm i Hi) as (Hr & Hc & Hs & HQ). rewrite E in *. simpl in *.
  assert (things i' = things i) as Ht by (unfold things; by rewrite Hc).
  split; [done|]. intros _. rewrite Hc, Ht. split_and!; [done|apply grows_refl|apply Hs..|apply HQ].
Qed.

Lemma adds_ret {A} (a : A) (Q : A → (kind → gmap positive string) → Prop) :
  (∀ o, Q a o) → adds (mret a) Q.
Proof. intros HQ. apply adds_now. intros i _. split_and!; try done. by intros ? [= <-]. Qed.
Lemma adds_fail {A} e Q : adds (@fail Inst A e) Q.
Proof. apply adds_now. by intros i _. Qed.
Lemma adds_lifted {A} (x : error + A) : plain (lifted x).
Proof. destruct x; [apply adds_fail|by apply adds_ret]. Qed.
Lemma adds_of_err x : plain (of_err x).
Proof. destruct x; [apply adds_fail|by apply adds_ret]. Qed.
Lemma adds_modify (f : Inst → Inst) : (∀ i, Conn (f i) = Conn i ∧ same_size i (f i)) → plain (modify f).
Proof. intros Hf. apply adds_now. intros i _. destruct (Hf i) as [? ?]. by split_and!. Qed.
Lemma adds_gets {A} (f : Inst → A) : plain (gets f).
Proof. apply adds_now. by intros i _. Qed.

(** What holds after the first part still holds after the second when growth keeps it. *)
Definition lasting (P : (kind → gmap positive string) → Prop) : Prop :=
  ∀ o o', grows o o' → P o → P o'.

Lemma lasting_there k n : lasting (λ o, there o k n).
Proof. intros o o' Hg. by apply there_grows. Qed.
Lemma lasting_True : lasting (λ _, True).
Proof. done. Qed.

Lemma adds_bind {A B} (m : M Inst A) (f : A → M Inst B) P Q :
  adds m (λ _, P) → lasting P → (∀ a, adds (f a) Q) →
  adds (m ≫= f) (λ b o, P o ∧ Q b o).
Proof.
  intros Hm HP Hf i r i' Hi. unfold mbind, M_bind. destruct (m i) as [r1 i1] eqn:E1.
  destruct (Hm i r1 i1 Hi E1) as [Ht1 Hr1].
  destruct r1 as [a|e| |]; [|intros [= <- <-]..].
  - destruct (Hr1 I) as (Hi1 & Hg1 & [Hm1 Hw1] & HP1). intros E2.
    destruct (Hf a i1 r i' Hi1 E2) as [Ht2 Hr2]. split; [done|]. intros Hr.
    destruct (Hr2 Hr) as (Hi2 & Hg2 & [Hm2 Hw2] & HQ).
    split_and!; [done|by transitivity (things i1)|split; congruence|].
    intros b ->. split; [by eapply HP; [|by eapply HP1]|by apply HQ].
  - split; [done|]. intros _. destruct (Hr1 I) as (? & ? & ? & _). by split_and!.
  - split; [by intros Ht; destruct (Ht1 Ht)|by intros []].
  - split; [by intros Ht; destruct (Ht1 Ht)|by intros []].
Qed.

Lemma adds_then {A B} (m : M Inst A) (f : A → M Inst B) Q :
  plain m → (∀ a, adds (f a) Q) → adds (m ≫= f) Q.
Proof. intros Hm Hf. eapply adds_mono; [by apply adds_bind|]. by intros a o [_ ?]. Qed.

(** The last call decides: what follows it only picks the value. *)
Lemma adds_last {A B} (m : M Inst A) (f : A → M Inst B) P :
  adds m (λ _, P) → lasting P → (∀ a, plain (f a)) → adds (m ≫= f) (λ _, P).
Proof. intros Hm HP Hf. eapply adds_mono; [by apply (adds_bind m f P (λ _ _, True))|]. by intros a o [? _]. Qed.

Lemma adds_attempt {A} (m : M Inst A) P : adds m (λ _, P) →
  adds (attempt m) (λ r o, match r with inr _ => P o | inl _ => True end).
Proof.
  intros Hm i r i' Hi. unfold attempt. destruct (m i) as [r1 i1] eqn:E.
  destruct (Hm i r1 i1 Hi E) as [Ht Hr]. destruct r1 as [a|e| |]; intros [= <- <-].
  - split; [done|]. intros _. destruct (Hr I) as (? & ? & ? & HP). split_and!; [done..|].
    intros ? [= <-]. eauto.
  - split; [done|]. intros _. destruct (Hr I) as (? & ? & ? & _). split_and!; [done..|]. by intros ? [= <-].
  - split; [by intros Ht'; destruct (Ht Ht')|by intros []].
  - split; [by intros Ht'; destruct (Ht Ht')|by intros []].
Qed.

Lemma adds_relabel {A} msg (m : M Inst A) P : adds m (λ _, P) → adds (relabel msg m) (λ _, P).
Proof.
  intros Hm i r i' Hi E. unfold relabel, mbind, M_bind in E.
  destruct (attempt m i) as [r1 i1] eqn:E1.
  destruct (adds_attempt m P Hm i r1 i1 Hi E1) as [Ht Hr].
  destruct r1 as [[e|a]|e| |]; unfold fail, mret, M_ret in E; simplify_eq/=.
  - split; [done|]. intros _. destruct (Hr I) as (? & ? & ? & _). by split_and!.
  - split; [done|]. intros _. destruct (Hr I) as (? & ? & ? & HP). split_and!; [done..|]. intros ? _. by apply (HP (inr a) eq_refl).
  - split; [done|]. intros _. destruct (Hr I) as (? & ? & ? & _). by split_and!.
  - split; [by intros Ht'; destruct (Ht Ht')|by intros []].
  - split; [by intros Ht'; destruct (Ht Ht')|by intros []].
Qed.

Lemma on_conn_quiet {A} (m : M L A) : quiet m → plain (on_conn m).
Proof.
  intros Hm i r i' [l Hl]. unfold on_conn, things. rewrite Hl.
  destruct (m l) as [r1 l'] eqn:E. destruct (Hm _ _ _ E) as [Ho Hr].
  intros [= <- <-]. split; [done|]. intros _. simpl. rewrite Ho. by split_and!.
Qed.

(** A deferred free leaves what its function did. *)
Lemma freed_run {A} (free : M L ()) (m : M Inst A) i r i' : quiet free → freed free m i = (r, i') →
  ∃ r1 i1, m i = (r1, i1) ∧ (returns r → is_Some (Conn i1)) ∧
    (is_Some (Conn i1) → r = r1 ∧ things i' = things i1 ∧ same_size i1 i' ∧ is_Some (Conn i')).
Proof.
  intros Hq. apply quiet_dropped in Hq. unfold freed, defer.
  destruct (m i) as [r1 i1]. intros E. exists r1, i1. split; [done|].
  destruct (dropped (on_conn free) i1) as [r2 i2] eqn:E2.
  assert (is_Some (Conn i1) → returns r2 ∧ things i2 = things i1 ∧ same_size i1 i2 ∧ is_Some (Conn i2)) as Hd.
  { intros [l Hl]. specialize (Hq l). unfold dropped, attempt, mbind, M_bind, mret, M_ret, on_conn, things in *.
    rewrite Hl in *. destruct (free l) as [[]] eqn:Ef; injection E2 as <- <-;
      destruct (Hq _ _ eq_refl) as [Ho Hr]; simpl; by split_and!. }
  assert (Conn i1 = None → r2 = Panic) as Hn.
  { intros Hc. unfold dropped, attempt, mbind, M_bind, on_conn in E2. rewrite Hc in E2. by injection E2. }
  destruct (Conn i1) as [l|] eqn:Hc.
  - destruct (Hd ltac:(by eexists)) as (Hr2 & Ht & Hs & Hi2).
    destruct r1, r2; try done; injection E as <- <-; (split; [by eexists|]); intros _; by split_and!.
  - rewrite (Hn eq_refl) in E. destruct r1; injection E as <- <-; (split; [by intros []|by intros [? ?]]).
Qed.

Lemma adds_freed {A} (free : M L ()) (m : M Inst A) Q : quiet free → adds m Q → adds (freed free m) Q.
Proof.
  intros Hq Hm i r i' Hi (r1 & i1 & E & Hret & Hd)%freed_run; [|done].
  destruct (Hm i r1 i1 Hi E) as [Ht Hr]. split.
  - intros Htr. destruct (Hr (Ht Htr)) as (Hi1 & _). destruct (Hd Hi1) as (-> & _). by apply Ht.
  - intros Hr'. destruct (Hd (Hret Hr')) as (-> & Ho & [Hm1 Hw1] & Hi').
    destruct (Hr Hr') as (_ & Hg & [Hm2 Hw2] & HQ). rewrite Ho. split_and!; [done|done|split; congruence|done].
Qed.

Lemma on_conn_creates k n (m : M L positive) : creates k n m → own k n = true →
  adds (on_conn m) (λ _ o, there o k n).
Proof.
  intros Hm Hn i r i' [l Hl]. unfold on_conn, things. rewrite Hl.
  destruct (m l) as [r1 l'] eqn:E. destruct (creates_grows _ _ _ _ _ _ Hm Hn E) as (Hg & Ht & Hr).
  intros [= <- <-]. split; [done|]. intros _. simpl. split_and!; [done..|]. intros h ->. eauto.
Qed.
End ops.

(** *** The operations *)

Section parts.
Context {L : Type} `{LibvirtCreateLaws L}.
Variables (env : run_env L) (ImagePath : string) (t : bool).
Hypothesis buffer_nonempty : (0 < bufferSize env)%nat.
Abbreviation Inst := (LibvirtInstance L).
Abbreviation plain m := (adds t m (λ _ _, True)).

Lemma adds_lifted_bind {A B} (x : error + A) (f : A → M Inst B) Q :
  (∀ a, x = inr a → adds t (f a) Q) → adds t (lifted x ≫= f) Q.
Proof.
  intros Hf. destruct x as [e|a]; [|exact (Hf a eq_refl)].
  exact (adds_fail t (A := B) e Q).
Qed.

Lemma createStoragePool_adds : adds t createStoragePool (λ _ o, there o Pool DiskPoolName).
Proof.
  apply adds_lifted_bind. intros x Hx.
  apply adds_last; [|apply lasting_there|].
  - apply adds_relabel, on_conn_creates; [exact (StoragePoolDefineXML_law PoolXMLConfig x Hx)|by apply bool_decide_eq_true].
  - intros pool. apply adds_freed; [intros ? ? ?; apply lv_Free_law|].
    apply adds_then; [apply adds_relabel, on_conn_quiet, pool_Build_law|]. intros _.
    apply adds_then; [apply adds_relabel, on_conn_quiet, pool_Create_law|]. intros _.
    by apply adds_modify.
Qed.

Lemma upload_adds image : plain (λ i, ((uploadBaseImage (bufferSize env) (stream_cancelled env)
  (image_gets env) (stream_accepts env) (stream_Finish env) image).1, i)).
Proof.
  apply adds_now. intros i _. split_and!; try done. simpl.
  destruct (uploadBaseImage _ _ _ _ _ _) as [r sent] eqn:E. by eapply uploadBaseImage_returns.
Qed.

Lemma createBaseImage_adds : plain (createBaseImage env ImagePath).
Proof.
  apply adds_lifted_bind. intros x Hx.
  apply adds_then; [apply on_conn_quiet, LookupPool_law|]. intros pool.
  apply adds_then; [apply adds_relabel, on_conn_quiet, VolCreate_law|]. intros vol.
  apply adds_freed; [intros ? ? ?; apply vol_Free_law|].
  apply adds_then; [by apply adds_modify|]. intros _. unfold upload_image.
  apply adds_then; [apply on_conn_quiet, NewStream_law|]. intros st.
  apply adds_freed; [apply stream_Free_law|].
  apply adds_then; [apply adds_relabel, adds_lifted|]. intros image.
  apply adds_then; [|intros r; apply adds_of_err].
  eapply adds_mono; [apply adds_attempt|done].
  apply adds_then; [apply adds_of_err|]. intros _.
  apply adds_then; [apply on_conn_quiet, vol_Upload_law|]. intros _. apply upload_adds.
Qed.

Lemma createNetwork_adds : adds t createNetwork (λ _ o, there o Network NetworkName).
Proof.
  apply adds_lifted_bind. intros x Hx. apply adds_last; [|apply lasting_there|].
  2:{ intros n. apply adds_freed; [intros ? ? ?; apply lv_Free_law|by apply adds_ret]. }
  apply on_conn_creates; [exact (NetworkCreateXML_law NetworkXMLConfig x Hx)|by apply bool_decide_eq_true].
Qed.

Lemma create_boot_volume_adds id xml : plain (create_boot_volume id xml).
Proof.
  apply adds_then; [apply on_conn_quiet, LookupPool_law|]. intros pool.
  apply adds_freed; [intros ? ? ?; apply lv_Free_law|].
  apply adds_then; [apply adds_relabel, on_conn_quiet, VolCreate_law|]. intros vol.
  apply adds_freed; [intros ? ? ?; apply vol_Free_law|by apply adds_modify].
Qed.

Lemma createDomain_adds id : own Domain id = true → adds t (createDomain id) (λ _ o, there o Domain id).
Proof.
  intros Hid. unfold createDomain. destruct (domain_for id) as [d|] eqn:Hd; [|done].
  assert (dom_Name d = id) as Hn by (by injection Hd as <-).
  apply adds_lifted_bind. intros x Hx.
  apply adds_last; [|apply lasting_there|].
  2:{ intros h. apply adds_freed; [intros ? ? ?; apply lv_Free_law|by apply adds_ret]. }
  apply adds_relabel, on_conn_creates; [|done]. rewrite <-Hn. exact (DomainCreateXML_law d x Hx).
Qed.

Lemma machine_name_own c n : own Domain (machine_name c n) = true.
Proof. unfold machine_name, own. destruct c; by rewrite HasPrefix_app, ?orb_true_r. Qed.

Lemma instance_next_adds id a : own Domain id = true →
  adds t (instance_next id a) (λ a' o, a' = InstEnd None → a = InstEnd None ∨ there o Domain id).
Proof.
  intros Hid. destruct a as [| |xml| |err]; simpl.
  - apply adds_then; [by apply adds_modify|]. intros _. by apply adds_ret.
  - apply adds_then; [apply adds_gets|]. intros p. apply adds_ret. intros o. by destruct (volume_Marshal _).
  - apply adds_then; [eapply adds_mono; [apply adds_attempt, create_boot_volume_adds|done]|].
    intros r. apply adds_ret. intros o. by destruct r.
  - intros i r i' Hi E. unfold mbind, M_bind in E. destruct (attempt (createDomain id) i) as [r1 i1] eqn:E1.
    destruct (adds_attempt t _ _ (createDomain_adds id Hid) i r1 i1 Hi E1) as [Ht Hr].
    destruct r1 as [a|e| |]; unfold mret, M_ret in E; simplify_eq.
    + split; [done|]. intros _. destruct (Hr I) as (? & ? & ? & HP). split_and!; [done..|].
      intros a' [= <-]. specialize (HP a eq_refl). destruct a; [done|]. intros _. by right.
    + split; [done|]. intros _. destruct (Hr I) as (? & ? & ? & _). by split_and!.
    + split; [done|]. by intros [].
    + split; [done|]. by intros [].
  - apply adds_ret. intros o ->. by left.
Qed.
End parts.

(** *** The goroutines that create the machines *)

(** A goroutine inspects every error, so a turn of it has none. *)
Section turns.
Context {L : Type} `{Libvirt L} `{LibvirtXml} `{LibvirtCreate L}.

Lemma instance_next_never_fails id a (i : LibvirtInstance L) e i' : instance_next id a i ≠ (Fail e, i').
Proof.
  destruct a; simpl; unfold mbind, M_bind, modify, gets, mret, M_ret, attempt; repeat case_match; congruence.
Qed.

Lemma wait_turn_never_fails env c g (i : LibvirtInstance L) e i' : wait_turn env c g i ≠ (Fail e, i').
Proof.
  destruct g as [id []]; unfold wait_turn, mbind, M_bind, mret, M_ret, attempt; simpl; repeat case_match; congruence.
Qed.

(** The first two turns of a goroutine, in a group. *)
Lemma assign_turn (g : group (LibvirtInstance L) (string * instance_at)) k id : threads g !! k = Some (id, InstAssign) →
  group_step instance_turn instance_outcome k g =
    (Ret (), MkGroup (set_target (boot_path id) (shared g)) (<[k := (id, InstEncode)]> (threads g)) (first_err g)).
Proof. intros Hk. erewrite group_step_at; [|exact Hk|done|done]. by destruct (first_err g). Qed.

Lemma encode_turn (g : group (LibvirtInstance L) (string * instance_at)) k id xml : threads g !! k = Some (id, InstEncode) →
  volume_Marshal (boot_volume id (Target_Path (shared g))) = inr xml →
  group_step instance_turn instance_outcome k g =
    (Ret (), MkGroup (shared g) (<[k := (id, InstVolume xml)]> (threads g)) (first_err g)).
Proof.
  intros Hk Hx. erewrite (group_step_at _ _ _ _ _ (id, InstVolume xml)); [|exact Hk|done|].
  - by destruct (first_err g).
  - unfold instance_turn, instance_next, gets, mbind, M_bind, mret, M_ret. simpl. by rewrite Hx.
Qed.
End turns.

Section instances.
Context {L : Type} `{LibvirtCreateLaws L}.
Abbreviation Inst := (LibvirtInstance L).
Abbreviation turn := instance_turn.

Definition instances_inv (i0 : Inst) (g : group Inst (string * instance_at)) : Prop :=
  is_Some (Conn (shared g)) ∧ grows (things i0) (things (shared g)) ∧ same_size i0 (shared g) ∧
  (threads g).*1 = machine_names i0 ∧
  (∀ id, (id, InstEnd None) ∈ threads g → there (things (shared g)) Domain id) ∧
  errors_kept instance_outcome g.

Lemma machine_names_own (i : Inst) id : id ∈ machine_names i → own Domain id = true.
Proof.
  intros [Hin|Hin]%elem_of_app; apply list_elem_of_fmap in Hin as (n & -> & _); apply machine_name_own.
Qed.

(** How many turns a goroutine has left. *)
Definition instance_left (a : instance_at) : nat :=
  match a with InstAssign => 4 | InstEncode => 3 | InstVolume _ => 2 | InstDomain => 1 | InstEnd _ => 0 end.
Definition instance_nearer (g g' : string * instance_at) : Prop :=
  (instance_left g'.2 < instance_left g.2)%nat.

Lemma instance_nearer_wf g : sn instance_nearer g.
Proof. by apply (sn_measure _ (λ g, instance_left g.2)). Qed.

Lemma instance_next_left id a (i : Inst) a' i' : instance_next id a i = (Ret a', i') →
  (∃ e, a' = InstEnd e) ∨ (instance_left a' < instance_left a)%nat.
Proof.
  destruct a as [| |xml| |err]; simpl; unfold mbind, M_bind, modify, gets, mret, M_ret, attempt;
    repeat case_match; intros [= <- <-]; simpl; eauto; right; lia.
Qed.

Lemma instance_turn_keeps i0 g j t : instances_inv i0 g → threads g !! j = Some t →
  instance_outcome t = None →
  ∃ t' s', turn (group_ctx g) t (shared g) = (Ret t', s') ∧
    instances_inv i0 (MkGroup s' (<[j := t']> (threads g))
      (match first_err g, instance_outcome t' with None, Some err => err | e, _ => e end)) ∧
    (is_Some (instance_outcome t') ∨ instance_nearer t t').
Proof.
  intros (Hc & Hg & [Hm Hw] & Hn & Hd & He) Hj Ho. destruct t as [id a].
  assert (own Domain id = true) as Hid.
  { apply (machine_names_own i0). rewrite <-Hn. apply list_elem_of_fmap. exists (id, a).
    split; [done|by eapply list_elem_of_lookup_2]. }
  destruct (instance_next id a (shared g)) as [r i'] eqn:E.
  destruct (instance_next_adds true id a Hid _ _ _ Hc E) as [Hret Hr].
  specialize (Hr (Hret eq_refl)). destruct Hr as (Hc' & Hg' & [Hm' Hw'] & HQ).
  assert (∃ a', r = Ret a') as [a' ->].
  { destruct r as [a'|e| |]; [by eexists| |by destruct (Hret eq_refl)..].
    by apply instance_next_never_fails in E. }
  exists (id, a'), i'. split; [unfold instance_turn; by rewrite (bind_Ret _ _ _ _ _ E)|]. split.
  - split_and!; simpl; [done|by transitivity (things (shared g))|split; congruence| | |by apply errors_kept_turn].
    + rewrite list_fmap_insert, list_insert_id; [done|]. by rewrite list_lookup_fmap, Hj.
    + intros id' [k Hk]%list_elem_of_lookup_1.
      apply list_lookup_insert_Some in Hk as [(-> & [= -> ->] & _)|[_ Hk]].
      * destruct (HQ _ eq_refl eq_refl) as [->|?]; [done|done].
      * eapply there_grows; [exact Hg'|]. apply Hd. by eapply list_elem_of_lookup_2.
  - destruct (instance_next_left _ _ _ _ _ E) as [[e ->]|Hlt]; [left; by eexists|by right].
Qed.

Lemma instances_start (i : Inst) : is_Some (Conn i) →
  instances_inv i (MkGroup i ((λ id, (id, InstAssign)) <$> machine_names i) None).
Proof.
  intros Hc. split_and!; simpl; [done|apply grows_refl|done| | |].
  - rewrite <-list_fmap_compose. by rewrite list_fmap_id.
  - intros id Hin. apply list_elem_of_fmap in Hin as (? & ? & _). by simplify_eq.
  - intros j t e Hj. simpl in Hj. rewrite list_lookup_fmap in Hj.
    destruct (machine_names i !! j); by simplify_eq/=.
Qed.

(** A run of the group keeps all that, and after a success every machine is there. *)
Lemma createInstances_adds schedule (i : Inst) r i' : is_Some (Conn i) →
  createInstances schedule i = (r, i') → returns r →
  is_Some (Conn i') ∧ grows (things i) (things i') ∧ same_size i i' ∧
  (r = Ret () → ∀ id, id ∈ machine_names i → there (things i') Domain id).
Proof.
  intros Hc E Hr. unfold createInstances, group_run in E.
  assert (turn_keeps turn instance_outcome (instances_inv i)) as Hk.
  { apply turn_keeps_intro. intros g j t Hg Hj Ho.
    destruct (instance_turn_keeps i g j t Hg Hj Ho) as (t' & s' & ? & ? & _). eauto. }
  destruct (group_turns_keep _ _ _ schedule _ Hk (instances_start i Hc)) as (g & Es & Hg).
  rewrite (bind_Ret _ _ _ _ _ Es) in E. destruct (group_Wait instance_outcome g) as [r1 g1] eqn:E1.
  injection E as <- <-. destruct (group_Wait_returns _ _ _ _ E1 Hr) as [-> _].
  destruct Hg as (Hc' & Hg & Hs & Hn & Hd & He). split_and!; [done..|].
  intros ->. apply group_Wait_Ret in E1 as (_ & _ & Hnil); [|done]. intros id Hid.
  rewrite <-Hn in Hid. apply list_elem_of_fmap in Hid as ([id' a] & -> & Hin).
  specialize (Hnil _ Hin). unfold instance_outcome in Hnil. simpl in *.
  destruct a; simplify_eq. by apply Hd.
Qed.
(** Wait never panics. *)
Lemma createInstances_outcome schedule (i : Inst) r i' : is_Some (Conn i) →
  createInstances schedule i = (r, i') → r = Blocked ∨ returns r.
Proof.
  intros Hc E. unfold createInstances, group_run in E.
  destruct (group_turns_keep turn instance_outcome (instances_inv i) schedule
    (MkGroup i ((λ id, (id, InstAssign)) <$> machine_names i) None)) as (g & Es & _).
  { apply turn_keeps_intro. intros g j t Hg Hj Ho.
    destruct (instance_turn_keeps i g j t Hg Hj Ho) as (t' & s' & ? & ? & _). eauto. }
  { by apply instances_start. }
  rewrite (bind_Ret _ _ _ _ _ Es) in E. destruct (group_Wait instance_outcome g) as [r1 g1] eqn:E1.
  injection E as <- <-. by eapply group_Wait_outcome.
Qed.
End instances.

(** *** The wait for the machines *)

Section wait.
Context {L : Type} `{LibvirtCreateLaws L}.
Variable env : run_env L.
Abbreviation Inst := (LibvirtInstance L).

Lemma quiet_fail {A} e : quiet (@fail L A e).
Proof. by intros s r s' [= <- <-]. Qed.
Lemma quiet_lifted {A} (x : error + A) : quiet (lifted x).
Proof. destruct x; [apply quiet_fail|apply quiet_ret]. Qed.

Lemma free_domain_quiet h : quiet (dropped (lv_Free Domain h)).
Proof. apply quiet_dropped. intros s r s'. apply lv_Free_law. Qed.

Lemma poll_network_quiet n h : quiet (poll_network env n h).
Proof.
  induction n as [|n IH]; simpl; [apply quiet_fail|].
  apply quiet_bind; [apply ListInterfaces_law|]. intros l. case_decide; [done|apply quiet_ret].
Qed.
Lemma blockUntilNetworkIsReady_quiet id : quiet (blockUntilNetworkIsReady env id).
Proof.
  apply quiet_bind; [apply LookupDomain_law|]. intros.
  apply quiet_defer; [apply free_domain_quiet|apply poll_network_quiet].
Qed.

Lemma poll_agent_quiet n a id : quiet (poll_agent env n a id).
Proof.
  induction n as [|n IH]; simpl; [apply quiet_fail|].
  apply quiet_bind; [apply quiet_attempt, agent_Exec_law|]. intros []; [done|apply quiet_ret].
Qed.
Lemma blockUntilDelegatioAgentIsReady_quiet id : quiet (blockUntilDelegatioAgentIsReady env id).
Proof.
  apply quiet_bind; [apply LookupDomain_law|]. intros h. apply quiet_defer; [apply free_domain_quiet|].
  apply quiet_bind; [apply ListInterfaces_law|]. intros l. cbv zeta. case_decide; [apply quiet_fail|].
  apply quiet_bind; [apply agent_Dial_law|]. intros _. apply poll_agent_quiet.
Qed.

Lemma wait_turn_adds c g : adds true (wait_turn env c g) (λ g' _, g'.1 = g.1).
Proof.
  destruct g as [id [| |err]]; simpl.
  - apply adds_then; [|by intros; apply adds_ret].
    apply adds_then; [|by intros; apply adds_ret].
    eapply adds_mono; [apply adds_attempt, on_conn_quiet, blockUntilNetworkIsReady_quiet|done].
  - apply adds_then; [|by intros; apply adds_ret].
    apply adds_then; [|by intros; apply adds_ret].
    eapply adds_mono; [apply adds_attempt, on_conn_quiet, blockUntilDelegatioAgentIsReady_quiet|done].
  - apply adds_then; [by apply adds_ret|]. by intros; apply adds_ret.
Qed.

Lemma wait_turn_Ret c g (i : Inst) r i' : is_Some (Conn i) → wait_turn env c g i = (r, i') →
  ∃ g', r = Ret g'.
Proof.
  intros Hi E. destruct (wait_turn_adds c g i r i' Hi E) as [Hr _]. specialize (Hr eq_refl).
  destruct r as [g'|e| |]; [by eexists| |done..]. by apply wait_turn_never_fails in E.
Qed.

Definition waiting_inv (i0 : Inst) (g : group Inst (string * wait_at)) : Prop :=
  is_Some (Conn (shared g)) ∧ grows (things i0) (things (shared g)) ∧ same_size i0 (shared g).

Lemma waiting_keeps i0 : turn_keeps (wait_turn env) wait_outcome (waiting_inv i0).
Proof.
  apply turn_keeps_intro. intros g j t (Hc & Hg & [Hm Hw]) Hj _.
  destruct (wait_turn env (group_ctx g) t (shared g)) as [r i'] eqn:E.
  destruct (wait_turn_Ret _ _ _ _ _ Hc E) as [t' ->].
  destruct (wait_turn_adds _ _ _ _ _ Hc E) as [_ Hr].
  destruct (Hr Logic.I) as (Hc' & Hg' & [Hm' Hw'] & _). exists t', i'. split; [done|].
  split_and!; simpl; [done|by transitivity (things (shared g))|split; congruence].
Qed.

(** *** What is reported *)

Definition reported (n : nat) (nodes : NodeInformation) : Prop :=
  (∃ ip, ip ≠ "" ∧ Masters nodes = {["delegatio-0" := ip]}) ∧
  dom (Workers nodes) = list_to_set (machine_name false <$> seq 0 n) ∧
  ∀ name ip, Workers nodes !! name = Some ip → ip ≠ "".

Lemma control_plane_ip_quiet : quiet control_plane_ip.
Proof.
  apply quiet_bind; [apply LookupDomain_law|]. intros h. apply quiet_defer; [apply free_domain_quiet|].
  apply quiet_bind; [apply quiet_attempt, ListInterfaces_law|]. intros. apply quiet_lifted.
Qed.

Lemma getWorkerInstanceIPs_quiet n : quiet (getWorkerInstanceIPs env n).
Proof.
  unfold getWorkerInstanceIPs. generalize (∅ : gmap string string).
  induction (seq 0 n) as [|k l IH]; intros m; simpl; [apply quiet_ret|].
  apply quiet_bind; [|done].
  apply quiet_bind; [apply blockUntilNetworkIsReady_quiet|]. intros. apply quiet_ret.
Qed.

Lemma poll_network_nonempty k h (s : L) ip s' : poll_network env k h s = (Ret ip, s') → ip ≠ "".
Proof.
  revert s. induction k as [|k IH]; intros s; [done|]. simpl.
  intros (l & s1 & _ & E)%bind_Ret_inv. case_decide; [by apply IH in E|]. by injection E as <- _.
Qed.

Lemma getWorkerInstanceIPs_reports n (s : L) m s' : getWorkerInstanceIPs env n s = (Ret m, s') →
  dom m = list_to_set (machine_name false <$> seq 0 n) ∧ ∀ name ip, m !! name = Some ip → ip ≠ "".
Proof.
  unfold getWorkerInstanceIPs. intros E.
  assert (∀ (l : list nat) (acc : gmap string string) (s : L) m s', fold_m (λ id nameToIP,
      ip ← blockUntilNetworkIsReady env (machine_name false id);
      mret (<[machine_name false id := ip]> nameToIP)) l acc s = (Ret m, s') →
    (∀ name ip, acc !! name = Some ip → ip ≠ "") →
    dom m = list_to_set (machine_name false <$> l) ∪ dom acc ∧
    ∀ name ip, m !! name = Some ip → ip ≠ "") as Hgen.
  { clear. induction l as [|k l IH]; intros acc s m s' E Hacc; simpl in *.
    { injection E as <- <-. split; [set_solver|done]. }
    apply bind_Ret_inv in E as (acc' & s1 & E1 & E).
    apply bind_Ret_inv in E1 as (ip & s2 & Eip & E1). injection E1 as <- <-.
    apply bind_Ret_inv in Eip as (h & s3 & _ & Eip).
    apply defer_Ret_inv in Eip as (s4 & Eip%poll_network_nonempty & _).
    destruct (IH _ _ _ _ E) as [Hd Hn].
    - intros name ip' [[_ <-]|[_ ?]]%lookup_insert_Some; eauto.
    - split; [|done]. rewrite Hd, dom_insert_L. set_solver. }
  destruct (Hgen _ _ _ _ _ E) as [-> Hn]; [done|]. split; [set_solver|done].
Qed.

Lemma getNodeInformation_adds (i : Inst) r i' : is_Some (Conn i) → getNodeInformation env i = (r, i') →
  returns r ∧ is_Some (Conn i') ∧ grows (things i) (things i') ∧ same_size i i' ∧
  ∀ nodes, r = Ret nodes → reported (workerNodeNum i) nodes.
Proof.
  intros Hi E. unfold getNodeInformation in E.
  set (m := mbind _ control_plane_ip) in E.
  assert (quiet m) as Hq.
  { apply quiet_bind; [apply control_plane_ip_quiet|]. intros ip.
    apply quiet_bind; [apply getWorkerInstanceIPs_quiet|]. intros. apply quiet_ret. }
  destruct (on_conn_quiet true m Hq i r i' Hi E) as [Hret Hr]. specialize (Hret eq_refl).
  destruct (Hr Hret) as (Hc & Hg & Hs & _). split_and!; [done..|]. intros nodes ->.
  unfold on_conn in E. destruct Hi as [l Hl]. rewrite Hl in E. destruct (m l) as [r1 l1] eqn:Em.
  injection E as -> _. apply bind_Ret_inv in Em as (ip & l2 & Eip & Em).
  apply bind_Ret_inv in Em as (ws & l3 & Ews & [= <- _]).
  apply getWorkerInstanceIPs_reports in Ews as [Hd Hn]. split; [|by split].
  exists ip. split; [|done]. apply bind_Ret_inv in Eip as (h & l4 & _ & Eip).
  apply defer_Ret_inv in Eip as (l6 & Eip & _).
  apply bind_Ret_inv in Eip as (x & l5 & _ & Eip). unfold getControlPlaneIP in Eip.
  destruct x as [e|ifs]; [done|]. case_decide; [done|]. by injection Eip as <- _.
Qed.

Lemma waitUntilAllNodesAreReady_adds schedule (i : Inst) r i' : is_Some (Conn i) →
  waitUntilAllNodesAreReady env schedule i = (r, i') → returns r →
  is_Some (Conn i') ∧ grows (things i) (things i') ∧
  ∀ nodes, r = Ret nodes → reported (workerNodeNum i) nodes.
Proof.
  intros Hi E Hr. unfold waitUntilAllNodesAreReady, group_run in E.
  destruct (group_turns_keep _ _ _ schedule (MkGroup i ((λ id, (id, WaitNetwork)) <$> machine_names i) None)
    (waiting_keeps i)) as (g & Es & Hc & Hg & [Hm Hw]); [by split_and!|].
  rewrite (bind_Ret _ _ _ _ _ Es) in E. destruct (group_Wait wait_outcome g) as [r1 g1] eqn:E1.
  destruct r1 as [[]|e| |]; simplify_eq; try done.
  - destruct (group_Wait_returns _ _ _ _ E1 Logic.I) as [-> _].
    destruct (getNodeInformation_adds _ _ _ Hc E) as (_ & Hc' & Hg' & _ & Hrep).
    split_and!; [done|by transitivity (things (shared g))|]. rewrite <-Hw. exact Hrep.
  - destruct (group_Wait_returns _ _ _ _ E1 Logic.I) as [-> _]. by split_and!.
Qed.
Lemma waitUntilAllNodesAreReady_outcome schedule (i : Inst) r i' : is_Some (Conn i) →
  waitUntilAllNodesAreReady env schedule i = (r, i') → r = Blocked ∨ returns r.
Proof.
  intros Hi E. unfold waitUntilAllNodesAreReady, group_run in E.
  destruct (group_turns_keep _ _ _ schedule (MkGroup i ((λ id, (id, WaitNetwork)) <$> machine_names i) None)
    (waiting_keeps i)) as (g & Es & Hc & _); [by split_and!|].
  rewrite (bind_Ret _ _ _ _ _ Es) in E. destruct (group_Wait wait_outcome g) as [r1 g1] eqn:E1.
  destruct (group_Wait_outcome _ _ _ _ E1) as [->|Hr]; [simplify_eq; by left|].
  destruct r1 as [[]|e| |]; simplify_eq; try done; [|by right].
  destruct (group_Wait_returns _ _ _ _ E1 Hr) as [-> _].
  right. by eapply getNodeInformation_adds.
Qed.
End wait.

(** ** Theorems *)

Section theorems.
Context {L : Type} `{LibvirtCreateLaws L}.
Variables (env : run_env L) (ImagePath : string).
Hypothesis buffer_nonempty : (0 < bufferSize env)%nat.
Abbreviation Inst := (LibvirtInstance L).

(** One stage of a sequence: it ends the sequence, or the rest goes on after it. *)
Lemma adds_run {A B} (m : M Inst A) (f : A → M Inst B) Q (i : Inst) r i' :
  adds true m Q → is_Some (Conn i) → (m ≫= f) i = (r, i') →
  (∃ e, r = Fail e ∧ is_Some (Conn i') ∧ grows (things i) (things i')) ∨
  ∃ a i1, f a i1 = (r, i') ∧ is_Some (Conn i1) ∧ grows (things i) (things i1) ∧ same_size i i1 ∧
    Q a (things i1).
Proof.
  intros Hm Hi. unfold mbind, M_bind. destruct (m i) as [r1 i1] eqn:E1.
  destruct (Hm i r1 i1 Hi E1) as [Hret Hr]. specialize (Hret eq_refl).
  destruct (Hr Hret) as (Hc & Hg & Hs & HQ). destruct r1 as [a|e| |]; try done.
  - intros E. right. exists a, i1. split_and!; eauto.
  - intros [= <- <-]. left. by exists e.
Qed.

(** What comes after the initial clean-up only adds, whatever happens. *)
Lemma built create_schedule wait_schedule (i : Inst) r i' : is_Some (Conn i) →
  (createStoragePool;; createBaseImage env ImagePath;; createNetwork;;
   createInstances create_schedule;; waitUntilAllNodesAreReady env wait_schedule) i = (r, i') →
  returns r →
  is_Some (Conn i') ∧ grows (things i) (things i') ∧
  ∀ nodes, r = Ret nodes → there (things i') Pool DiskPoolName ∧ there (things i') Network NetworkName ∧
    (∀ id, id ∈ machine_names i → there (things i') Domain id) ∧ reported (workerNodeNum i) nodes.
Proof.
  intros Hi E Hr.
  apply (adds_run _ _ _ _ _ _ (createStoragePool_adds true) Hi) in E
    as [(e & -> & ? & ?)|(a1 & i1 & E & Hi1 & Hg1 & [Hm1 Hw1] & Hpool)]; [by split_and!|].
  apply (adds_run _ _ _ _ _ _ (createBaseImage_adds env ImagePath true buffer_nonempty) Hi1) in E
    as [(e & -> & ? & ?)|(a2 & i2 & E & Hi2 & Hg2 & [Hm2 Hw2] & _)];
    [split_and!; [done|by transitivity (things i1)|done]|].
  apply (adds_run _ _ _ _ _ _ (createNetwork_adds true) Hi2) in E
    as [(e & -> & ? & ?)|(a3 & i3 & E & Hi3 & Hg3 & [Hm3 Hw3] & Hnet)];
    [split_and!; [done|transitivity (things i1); [done|by transitivity (things i2)]|done]|].
  assert (grows (things i) (things i3)) as Hg by (transitivity (things i1); [done|by transitivity (things i2)]).
  unfold mbind, M_bind in E. destruct (createInstances create_schedule i3) as [r4 i4] eqn:E4.
  assert (returns r4) as Hr4 by (by destruct r4; simplify_eq).
  destruct (createInstances_adds _ _ _ _ Hi3 E4 Hr4) as (Hi4 & Hg4 & [Hm4 Hw4] & Hd).
  destruct r4 as [[]|e| |]; simplify_eq; try done;
    [|split_and!; [done|by transitivity (things i3)|done]].
  destruct (waitUntilAllNodesAreReady_adds env _ _ _ _ Hi4 E Hr) as (Hi5 & Hg5 & Hrep).
  split_and!; [done|transitivity (things i3); [done|by transitivity (things i4)]|].
  intros nodes ->. specialize (Hrep nodes eq_refl).
  assert (machine_names i3 = machine_names i) as Hn by (unfold machine_names; congruence).
  rewrite Hn in Hd. split_and!.
  - eapply there_grows; [|exact Hpool]. do 3 (etransitivity; [eassumption|]). by transitivity (things i4).
  - eapply there_grows; [|exact Hnet]. by transitivity (things i4).
  - intros id Hid. eapply there_grows; [exact Hg5|]. by apply Hd.
  - by replace (workerNodeNum i) with (workerNodeNum i4) by congruence.
Qed.

(** An initialisation over a connection does not panic; it comes back unless a schedule is
    too short. *)
Lemma initialization_returns create_schedule wait_schedule (i : Inst) r i' : is_Some (Conn i) →
  InitializeInfrastructure env ImagePath create_schedule wait_schedule i = (r, i') →
  r = Blocked ∨ returns r.
Proof.
  intros [l Hl] E. unfold InitializeInfrastructure, mbind at 1, M_bind at 1 in E.
  unfold Instance_TerminateInfrastructure, on_conn in E. rewrite Hl in E.
  destruct (TerminateInfrastructure l) as [r0 l0] eqn:E0.
  apply TerminateInfrastructure_spec in E0 as (_ & _ & Hr0 & _).
  destruct r0 as [[]|e| |]; simplify_eq/=; try done; [|by right].
  assert (is_Some (Conn (set_conn (Some l0) i))) as Hi by (by eexists).
  apply (adds_run _ _ _ _ _ _ (createStoragePool_adds true) Hi) in E
    as [(e & -> & _)|(a1 & i1 & E & Hi1 & _)]; [by right|].
  apply (adds_run _ _ _ _ _ _ (createBaseImage_adds env ImagePath true buffer_nonempty) Hi1) in E
    as [(e & -> & _)|(a2 & i2 & E & Hi2 & _)]; [by right|].
  apply (adds_run _ _ _ _ _ _ (createNetwork_adds true) Hi2) in E
    as [(e & -> & _)|(a3 & i3 & E & Hi3 & _)]; [by right|].
  unfold mbind, M_bind in E. destruct (createInstances create_schedule i3) as [r4 i4] eqn:E4.
  destruct (createInstances_outcome _ _ _ _ Hi3 E4) as [->|Hr4]; [simplify_eq; by left|].
  destruct (createInstances_adds _ _ _ _ Hi3 E4 Hr4) as (Hi4 & _).
  destruct r4 as [[]|e| |]; simplify_eq; try done; [|by right].
  by eapply waitUntilAllNodesAreReady_outcome.
Qed.

Lemma initialization_cleaned create_schedule wait_schedule (i : Inst) s r i' s1 s2 :
  Conn i = Some s →
  InitializeInfrastructure env ImagePath create_schedule wait_schedule i = (r, i') → returns r →
  Conn i' = Some s1 → TerminateInfrastructure s1 = (Ret (), s2) →
  ∀ k h n, objs s2 k !! h = Some n ↔ objs s k !! h = Some n ∧ own k n = false.
Proof.
  intros Hc E Hr Hc' Et k h n. apply TerminateInfrastructure_spec in Et as (Hkeep & Hgone & _).
  specialize (Hgone eq_refl). unfold InitializeInfrastructure, mbind at 1, M_bind at 1 in E.
  unfold Instance_TerminateInfrastructure, on_conn in E. rewrite Hc in E.
  destruct (TerminateInfrastructure s) as [r0 s0] eqn:E0.
  apply TerminateInfrastructure_spec in E0 as (Hkeep0 & Hgone0 & _ & Hsp).
  assert (grows (objs s0) (objs s1)) as Hg.
  { destruct r0 as [[]|e| |]; simplify_eq/=; try done.
    apply built in E as (_ & Hg & _); [|by eexists|done]. unfold things in Hg. by rewrite Hc' in Hg. }
  split.
  - intros [Hn1 Hown]%Hgone. split; [|done]. apply Hg in Hn1 as [Hn0|?]; [|congruence].
    destruct (Hsp k h) as [E'|[E' _]]; congruence.
  - intros [Hn Hown]. apply Hkeep; [|done]. apply Hg. by apply Hkeep0.
Qed.


Lemma initialization_builds create_schedule wait_schedule (i : Inst) nodes i' :
  is_Some (Conn i) →
  InitializeInfrastructure env ImagePath create_schedule wait_schedule i = (Ret nodes, i') →
  there (things i') Pool DiskPoolName ∧ there (things i') Network NetworkName ∧
  (∀ id, id ∈ machine_names i → there (things i') Domain id) ∧ reported (workerNodeNum i) nodes.
Proof.
  intros [l Hl] E. apply bind_Ret_inv in E as ([] & i1 & E1 & E).
  unfold Instance_TerminateInfrastructure, on_conn in E1. rewrite Hl in E1.
  destruct (TerminateInfrastructure l) as [r1 l1]. injection E1 as -> <-.
  by eapply built in E as (_ & _ & Hn); [exact (Hn nodes eq_refl)|eexists|].
Qed.

(** When the infrastructure is initialised successfully, in any interleaving of its
    goroutines, the network, the storage pool and every one of the machines exist, and what
    is reported names exactly one master, with an address, and exactly the workers that
    were asked for, each with an address. *)
Theorem InitializeInfrastructure_builds create_schedule wait_schedule (i : Inst) nodes i' :
  is_Some (Conn i) →
  InitializeInfrastructure env ImagePath create_schedule wait_schedule i = (Ret nodes, i') →
  there (things i') Pool DiskPoolName ∧ there (things i') Network NetworkName ∧
  (∀ id, id ∈ machine_names i → there (things i') Domain id) ∧ reported (workerNodeNum i) nodes.
Proof. apply initialization_builds. Qed.

(** Whatever an initialisation has done, also when it failed half-way, a clean-up that
    succeeds removes it all: what is left on the host are the objects of before that are
    not this program's. *)
Theorem failed_initialization_is_cleaned_up create_schedule wait_schedule (i : Inst) s r i' s1 s2 :
  Conn i = Some s →
  InitializeInfrastructure env ImagePath create_schedule wait_schedule i = (r, i') → returns r →
  Conn i' = Some s1 → TerminateInfrastructure s1 = (Ret (), s2) →
  ∀ k h n, objs s2 k !! h = Some n ↔ objs s k !! h = Some n ∧ own k n = false.
Proof. apply initialization_cleaned. Qed.

(** Two goroutines that create machines, past the encoding of their boot volumes' definitions.
    When they take turns, both volumes get the path of the second: the copies of the
    definition share its target. One after the other, each gets its own. *)
Theorem boot_volumes_can_share_a_path a b xa xb xa' (i : Inst) :
  volume_Marshal (boot_volume a (boot_path a)) = inr xa → volume_Marshal (boot_volume b (boot_path b)) = inr xb →
  volume_Marshal (boot_volume a (boot_path b)) = inr xa' →
  let run schedule := group_turns instance_turn instance_outcome schedule
    (MkGroup i [(a, InstAssign); (b, InstAssign)] None) in
  let i' := set_target (boot_path b) (set_target (boot_path a) i) in
  run [0; 1; 0; 1]%nat = (Ret (), MkGroup i' [(a, InstVolume xa'); (b, InstVolume xb)] None) ∧
  run [0; 0; 1; 1]%nat = (Ret (), MkGroup i' [(a, InstVolume xa); (b, InstVolume xb)] None).
Proof.
  intros Ha Hb Ha' run i'. unfold run, group_turns. simpl. split.
  - erewrite bind_Ret; [|by apply (assign_turn _ 0 a)]. erewrite bind_Ret; [|by apply (assign_turn _ 1 b)].
    erewrite bind_Ret; [|by apply (encode_turn _ 0 a xa')].
    erewrite bind_Ret; [|by apply (encode_turn _ 1 b xb)]. done.
  - erewrite bind_Ret; [|by apply (assign_turn _ 0 a)]. erewrite bind_Ret; [|by apply (encode_turn _ 0 a xa)].
    erewrite bind_Ret; [|by apply (assign_turn _ 1 b)].
    erewrite bind_Ret; [|by apply (encode_turn _ 1 b xb)]. done.
Qed.

(** The creation of the machines comes back: whatever its goroutines have done so far,
    there is a way on in which all end. *)
Theorem createInstances_can_return schedule (i : Inst) : is_Some (Conn i) →
  ∃ more, returns (createInstances (schedule ++ more) i).1.
Proof.
  intros Hi. destruct (group_can_end instance_turn instance_outcome (instances_inv i) instance_nearer
    instance_nearer_wf (instance_turn_keeps i) _ schedule (instances_start i Hi)) as [more Hm].
  exists more. unfold createInstances. by destruct (group_run _ _ _ _).
Qed.
End theorems.

(** ** A host to evaluate on *)

(** The definitions are encoded as the names they give. *)
#[export] Instance named_xml : LibvirtXml := {
  network_Marshal d := inr (net_Name d);
  pool_Marshal d := inr (sp_Name d);
  volume_Marshal d := inr (sv_Name d);
  domain_Marshal d := inr (dom_Name d)
}.

Definition host_create (k : kind) (name : string) : M host positive := λ s,
  let h := fresh (dom (s k)) in
  (Ret h, λ j, if decide (j = k) then <[h := name]> (s j) else s j).

#[export] Instance host_create_libvirt : LibvirtCreate host := {
  StoragePoolDefineXML := host_create Pool;
  pool_Build h := mret ();
  pool_Create h := mret ();
  LookupStoragePoolByTargetPath p := mret 1%positive;
  StorageVolCreateXML p x := mret 1%positive;
  NetworkCreateXML := host_create Network;
  DomainCreateXML := host_create Domain;
  LookupDomainByName n s := (match (map_to_list (filter (λ kv, kv.2 = n) (s Domain))) with
                             | (h, _) :: _ => Ret h
                             | [] => Fail (ErrExt "Domain not found")
                             end, s);
  ListAllInterfaceAddresses h := mret [("lo", [("127.0.0.1", true)]); ("eth0", [("10.42.0.2", true)])];
  NewStream := mret 1%positive;
  vol_Upload h st n := mret ();
  stream_Free st := mret ();
  agent_Dial a := mret ();
  agent_ExecCommand a c l := mret ();
  lv_Close := mret ()
}.

Lemma host_create_law k name : creates k name (host_create k name).
Proof.
  intros s r s' [= <- <-]. split_and!; [done|intros j Hj; simpl; by rewrite decide_False|].
  left. eexists. split; [done|]. simpl. rewrite decide_True by done. split; [|done].
  apply not_elem_of_dom. apply is_fresh.
Qed.

#[export] Instance host_create_laws : LibvirtCreateLaws host.
Proof.
  split; try (intros; apply quiet_ret).
  - intros d x [= <-]. apply host_create_law.
  - intros d x [= <-]. apply host_create_law.
  - intros d x [= <-]. apply host_create_law.
  - intros n s r s' [= <- <-]. split; [done|]. by destruct (map_to_list _) as [|[]].
Qed.

Definition host_env : run_env host :=
  MkRunEnv _ (λ _, inr used_host) (inr [1; 2; 3; 4; 5]%Z) None 4 (λ _, false) (λ _, inr 4%nat) (λ _, inr 4%nat) None None
    (λ _, 3%nat) (λ _, 3%nat) ctx_DeadlineExceeded.

Definition connected : LibvirtInstance host :=
  MkInstance (Some used_host) (LibvirtStoragePoolPath +:+ BootDiskName) 1 2 [] [].

(** The three machines are created in turns. *)
Definition initialized : res NodeInformation * LibvirtInstance host :=
  InitializeInfrastructure host_env "image.qcow2" [0; 1; 2; 0; 1; 2; 0; 1; 2; 0; 1; 2]%nat
    [0; 0; 1; 2; 1; 2]%nat connected.

Definition host_nodes : NodeInformation :=
  MkNodeInformation {["delegatio-0" := "10.42.0.2"]}
    (<["delegatio-worker-1" := "10.42.0.2"]> {["delegatio-worker-0" := "10.42.0.2"]}).

Lemma initialized_nodes : initialized.1 = Ret host_nodes.
Proof. vm_compute. reflexivity. Qed.

Lemma InitializeInfrastructure_builds_witness :
  there (things initialized.2) Domain "delegatio-master-0" ∧ reported 2 host_nodes.
Proof.
  destruct (InitializeInfrastructure_builds (H3 := host_create_laws) host_env "image.qcow2" ltac:(simpl; lia)
    [0; 1; 2; 0; 1; 2; 0; 1; 2; 0; 1; 2]%nat [0; 0; 1; 2; 1; 2]%nat connected host_nodes initialized.2)
    as (_ & _ & Hd & Hr).
  - by eexists.
  - apply (ran (InitializeInfrastructure _ _ _ _)). exact initialized_nodes.
  - split; [|exact Hr]. apply Hd. vm_compute. repeat constructor.
Defined.

(** An initialisation that fails when the image cannot be opened, and the clean-up. *)
Definition no_image : run_env host :=
  MkRunEnv _ (λ _, inr used_host) (inl os_ErrNotExist) None 4 (λ _, false) (λ _, inr 4%nat) (λ _, inr 4%nat) None None
    (λ _, 3%nat) (λ _, 3%nat) ctx_DeadlineExceeded.
Definition half_way : res NodeInformation * LibvirtInstance host :=
  InitializeInfrastructure no_image "image.qcow2" [] [] connected.
Definition half_way_host : host := default used_host (Conn half_way.2).
Definition cleaned_half_way : res () * host := TerminateInfrastructure half_way_host.

Lemma failed_initialization_is_cleaned_up_witness :
  objs cleaned_half_way.2 Pool !! 1%positive = Some "delegatio-pool" ↔
  objs used_host Pool !! 1%positive = Some "delegatio-pool" ∧ own Pool "delegatio-pool" = false.
Proof.
  refine (failed_initialization_is_cleaned_up (H3 := host_create_laws) no_image "image.qcow2" _
    [] [] connected used_host half_way.1 half_way.2 half_way_host cleaned_half_way.2 _ _ _ _ _ Pool 1 "delegatio-pool").
  - simpl. lia.
  - reflexivity.
  - exact (surjective_pairing half_way).
  - vm_compute. exact I.
  - reflexivity.
  - apply (ran TerminateInfrastructure). vm_compute. reflexivity.
Defined.

Lemma createInstances_can_return_witness :
  ∃ more, returns (createInstances ([2; 1; 2]%nat ++ more) connected).1.
Proof. apply (createInstances_can_return (H3 := host_create_laws)). by eexists. Defined.

Lemma boot_volumes_can_share_a_path_witness :
  (group_turns instance_turn instance_outcome [0; 1; 0; 1]%nat
    (MkGroup connected [("delegatio-worker-0", InstAssign); ("delegatio-worker-1", InstAssign)] None)).1 = Ret ().
Proof.
  rewrite (proj1 (boot_volumes_can_share_a_path (H1 := named_xml) (H2 := host_create_libvirt) "delegatio-worker-0" "delegatio-worker-1"
    "delegatio-worker-0" "delegatio-worker-1" "delegatio-worker-0" connected eq_refl eq_refl eq_refl)). reflexivity.
Defined.
