(* ===== verification/QemuRefs.v ===== *)
(** cli/infrastructure/qemu: the references to libvirt's objects. Every handle that a
    listing, a lookup or a creation returns is a reference that [Free] gives back; the
    operations of [Qemu] and [QemuCreate] release what they acquire, on every path, except
    for one pool. *)
From stdpp Require Import countable gmultiset.
From S2P Require Import Prelude Config Errgroup Qemu QemuDefs QemuCreate.

Inductive handle : Type := HObj (k : kind) (h : positive) | HVol (h : positive) | HStream (h : positive).

#[export] Instance handle_eq_dec : EqDecision handle.
Proof. solve_decision. Defined.
#[export] Instance kind_countable : Countable kind :=
  inj_countable (λ k, match k with Network => 0 | Domain => 1 | Pool => 2 end%nat)
    (λ n, match n with 0 => Some Network | 1 => Some Domain | _ => Some Pool end%nat)
    (λ k, match k with Network => eq_refl | Domain => eq_refl | Pool => eq_refl end).
#[export] Instance handle_countable : Countable handle :=
  inj_countable' (λ x, match x with HObj k h => inl (k, h) | HVol h => inr (inl h) | HStream h => inr (inr h) end)
    (λ c : kind * positive + (positive + positive),
       match c with inl kh => HObj kh.1 kh.2 | inr (inl h) => HVol h | inr (inr h) => HStream h end)
    (λ x, match x with HObj _ _ => eq_refl | HVol _ => eq_refl | HStream _ => eq_refl end).

(** ** Taking and giving references *)

Section balance.
Context {S : Type}.
Variables (ok : S → Prop) (held : S → gmultiset handle).

(** [m] comes back; if it succeeds it has taken a reference to each of [hs]. *)
Definition takes {A} (hs : A → list handle) (m : M S A) : Prop :=
  ∀ s r s', ok s → m s = (r, s') → returns r ∧ ok s' ∧
    held s' = held s ⊎ match r with Ret a => list_to_set_disj (hs a) | _ => ∅ end.
Definition keeps {A} (m : M S A) : Prop := takes (λ _, []) m.

(** [m] comes back and gives the references [xs] back, if they are there to give. *)
Definition releases (xs : list handle) (m : M S ()) : Prop :=
  ∀ s r s', ok s → m s = (r, s') → returns r ∧ ok s' ∧
    (list_to_set_disj xs ⊆ held s → held s' = held s ∖ list_to_set_disj xs).

Lemma keeps_now {A} (m : M S A) :
  (∀ s, ok s → returns (m s).1 ∧ ok (m s).2 ∧ held (m s).2 = held s) → keeps m.
Proof.
  intros Hm s r s' Hs E. destruct (Hm s Hs) as (? & ? & Hh). rewrite E in *. simpl in *.
  split_and!; [done..|]. rewrite Hh. destruct r; multiset_solver.
Qed.

Lemma keeps_held {A} (m : M S A) s r s' : keeps m → ok s → m s = (r, s') →
  returns r ∧ ok s' ∧ held s' = held s.
Proof. intros Hm Hs E. destruct (Hm s r s' Hs E) as (? & ? & ->). split_and!; [done..|]. destruct r; multiset_solver. Qed.

Lemma keeps_ret {A} (a : A) : keeps (mret a).
Proof. by apply keeps_now. Qed.
Lemma keeps_fail {A} e : keeps (@fail S A e).
Proof. by apply keeps_now. Qed.
Lemma keeps_of_err e : keeps (of_err e).
Proof. destruct e; [apply keeps_fail|apply keeps_ret]. Qed.
Lemma keeps_lifted {A} (x : error + A) : keeps (lifted x).
Proof. destruct x; [apply keeps_fail|apply keeps_ret]. Qed.

Lemma takes_bind {A B} (hs : B → list handle) (m : M S A) (f : A → M S B) :
  keeps m → (∀ a, takes hs (f a)) → takes hs (m ≫= f).
Proof.
  intros Hm Hf s r s' Hs. unfold mbind, M_bind. destruct (m s) as [r1 s1] eqn:E1.
  destruct (keeps_held m s r1 s1 Hm Hs E1) as (Hr1 & Hs1 & Hh1).
  destruct r1 as [a|e| |]; try done.
  - intros E. rewrite <-Hh1. by apply (Hf a).
  - intros [= <- <-]. split_and!; [done..|]. rewrite Hh1. multiset_solver.
Qed.

Lemma keeps_then {A B} (m : M S A) (f : A → M S B) : keeps m → (∀ a, keeps (f a)) → keeps (m ≫= f).
Proof. apply takes_bind. Qed.

(** An inspected error is no error. *)
Lemma keeps_attempted {A} (m : M S A) : keeps m → keeps (attempt m).
Proof.
  intros Hm s r s' Hs. unfold attempt. destruct (m s) as [r1 s1] eqn:E1.
  destruct (Hm s r1 s1 Hs E1) as (Hr & Hs1 & Hh). destruct r1; try done; by intros [= <- <-].
Qed.

Lemma keeps_for_each {A} (l : list A) body : (∀ x, keeps (body x)) → keeps (for_each l body).
Proof. intros Hb. induction l; simpl; [apply keeps_ret|by apply keeps_then]. Qed.

Lemma keeps_fold {A B} (l : list A) (body : A → B → M S B) acc :
  (∀ x a, keeps (body x a)) → keeps (fold_m body l acc).
Proof. intros Hb. revert acc; induction l; intros acc; simpl; [apply keeps_ret|by apply keeps_then]. Qed.

Lemma takes_relabel {A} (hs : A → list handle) msg (m : M S A) : takes hs m → takes hs (relabel msg m).
Proof.
  intros Hm s r s' Hs. unfold relabel, attempt, mbind, M_bind. destruct (m s) as [r1 s1] eqn:E1.
  specialize (Hm s r1 s1 Hs E1). destruct r1; by intros [= <- <-].
Qed.

Lemma releases_dropped x m : releases [x] m → releases [x] (dropped m).
Proof.
  intros Hm s r s' Hs. unfold dropped, attempt, mbind, M_bind. destruct (m s) as [r1 s1] eqn:E1.
  destruct (Hm s r1 s1 Hs E1) as (Hr & Hs1 & Hh). destruct r1; try done; by intros [= <- <-].
Qed.

(** The deferred loop gives back a whole listing. *)
Lemma releases_free_all (mk : positive → handle) free (l : list positive) :
  (∀ h, releases [mk h] (free h)) → releases (mk <$> l) (free_all free l).
Proof.
  intros Hf. induction l as [|h l IH]; simpl.
  { intros s r s' Hs [= <- <-]. split_and!; [done..|]. intros _. multiset_solver. }
  intros s r s' Hs. unfold free_all. simpl. unfold mbind, M_bind.
  destruct (dropped (free h) s) as [r1 s1] eqn:E1.
  destruct (releases_dropped _ _ (Hf h) s r1 s1 Hs E1) as (Hr1 & Hs1 & Hh1).
  destruct r1 as [[]|e| |]; try done.
  - intros E. destruct (IH s1 r s' Hs1 E) as (Hr & Hs' & Hh). split_and!; [done..|].
    intros Hsub. rewrite Hh; rewrite Hh1 by multiset_solver; multiset_solver.
  - intros [= <- <-]. exfalso. unfold dropped, attempt, mbind, M_bind in E1. by destruct (free h s) as [[]].
Qed.

(** What is taken and given back by a deferred call is balanced, whatever the function
    does in between. *)
Lemma held_while {A B} (hs : A → list handle) (m : M S A) (d : A → M S ()) (f : A → M S B) :
  takes hs m → (∀ a, releases (hs a) (d a)) → (∀ a, keeps (f a)) →
  keeps (m ≫= λ a, defer (d a) (f a)).
Proof.
  intros Hm Hd Hf s r s' Hs. unfold mbind, M_bind. destruct (m s) as [r1 s1] eqn:E1.
  destruct (Hm s r1 s1 Hs E1) as (Hr1 & Hs1 & Hh1). destruct r1 as [a|e| |]; try done.
  - unfold defer. destruct (f a s1) as [r2 s2] eqn:E2.
    destruct (keeps_held _ _ _ _ (Hf a) Hs1 E2) as (Hr2 & Hs2 & Hh2).
    destruct (d a s2) as [r3 s3] eqn:E3. destruct (Hd a s2 r3 s3 Hs2 E3) as (Hr3 & Hs3 & Hh3).
    rewrite Hh2, Hh1 in Hh3. specialize (Hh3 ltac:(multiset_solver)).
    destruct r2, r3; try done; intros [= <- <-]; split_and!; try done; rewrite Hh3; multiset_solver.
  - by intros [= <- <-].
Qed.
End balance.

(** ** libvirt's references *)

(** The documented behaviour of the bindings: listings, lookups, creations and [NewStream]
    return references, each [Free] gives its own back, and nothing else changes them. *)
Class LibvirtRefs (L : Type) `{Libvirt L, LibvirtCreate L} : Type := {
  refs : L → gmultiset handle;
  List_refs k : takes (λ _, True) refs (fmap (HObj k)) (lv_List k);
  GetName_refs k h : keeps (λ _, True) refs (lv_GetName k h);
  Destroy_refs k h : keeps (λ _, True) refs (lv_Destroy k h);
  Free_refs k h : releases (λ _, True) refs [HObj k h] (lv_Free k h);
  IsActive_refs h : keeps (λ _, True) refs (pool_IsActive h);
  Volumes_refs h : takes (λ _, True) refs (fmap HVol) (pool_Volumes h);
  vol_Delete_refs h : keeps (λ _, True) refs (vol_Delete h);
  vol_Free_refs h : releases (λ _, True) refs [HVol h] (vol_Free h);
  pool_Destroy_refs h : keeps (λ _, True) refs (pool_Destroy h);
  pool_Delete_refs h : keeps (λ _, True) refs (pool_Delete h);
  pool_Undefine_refs h : keeps (λ _, True) refs (pool_Undefine h);
  PoolDefine_refs x : takes (λ _, True) refs (λ h, [HObj Pool h]) (StoragePoolDefineXML x);
  pool_Build_refs h : keeps (λ _, True) refs (pool_Build h);
  pool_Create_refs h : keeps (λ _, True) refs (pool_Create h);
  LookupPool_refs p : takes (λ _, True) refs (λ h, [HObj Pool h]) (LookupStoragePoolByTargetPath p);
  VolCreate_refs h x : takes (λ _, True) refs (λ v, [HVol v]) (StorageVolCreateXML h x);
  NetworkCreate_refs x : takes (λ _, True) refs (λ h, [HObj Network h]) (NetworkCreateXML x);
  DomainCreate_refs x : takes (λ _, True) refs (λ h, [HObj Domain h]) (DomainCreateXML x);
  LookupDomain_refs n : takes (λ _, True) refs (λ h, [HObj Domain h]) (LookupDomainByName n);
  Interfaces_refs h : keeps (λ _, True) refs (ListAllInterfaceAddresses h);
  NewStream_refs : takes (λ _, True) refs (λ st, [HStream st]) NewStream;
  vol_Upload_refs h st n : keeps (λ _, True) refs (vol_Upload h st n);
  stream_Free_refs st : releases (λ _, True) refs [HStream st] (stream_Free st);
  agent_Dial_refs a : keeps (λ _, True) refs (agent_Dial a);
  agent_Exec_refs a c l : keeps (λ _, True) refs (agent_ExecCommand a c l)
}.

Create HintDb refs.
#[local] Hint Resolve GetName_refs Destroy_refs IsActive_refs vol_Delete_refs pool_Destroy_refs
  pool_Delete_refs pool_Undefine_refs pool_Build_refs pool_Create_refs Interfaces_refs vol_Upload_refs
  agent_Dial_refs agent_Exec_refs keeps_ret keeps_fail keeps_of_err keeps_lifted keeps_attempted : refs.

(** Go through a function of balanced calls. *)
Ltac balance :=
  repeat (first
    [ solve [eauto with refs]
    | apply keeps_then; [|intros ?]
    | progress (cbv zeta)
    | case_match
    | apply keeps_attempted ]).

Section clean_up.
Context {L : Type} `{LibvirtRefs L}.
Abbreviation keeps := (keeps (λ _, True) refs).

(** A listing whose elements are freed by the deferred loop. *)
Lemma listing_keeps k (body : list positive → M L ()) : (∀ hs, keeps (body hs)) →
  keeps (hs ← lv_List k; defer (free_all (lv_Free k) hs) (body hs)).
Proof.
  intros Hb. apply held_while with (hs := fmap (HObj k)); [apply List_refs| |done].
  intros hs. apply releases_free_all. intros h. apply Free_refs.
Qed.

Lemma deleteNetwork_keeps : keeps deleteNetwork.
Proof. apply listing_keeps. intros hs. apply keeps_for_each. intros h. balance. Qed.

Lemma deleteDomains_keeps : keeps deleteDomains.
Proof. apply listing_keeps. intros hs. apply keeps_for_each. intros h. balance. Qed.

Lemma deleteVolumesFromPool_keeps h : keeps (deleteVolumesFromPool h).
Proof.
  apply held_while with (hs := fmap HVol); [apply Volumes_refs| |].
  - intros vs. apply releases_free_all. intros v. apply vol_Free_refs.
  - intros vs. apply keeps_for_each. intros v. balance.
Qed.
#[local] Hint Resolve deleteVolumesFromPool_keeps : refs.

Lemma deletePool_keeps : keeps deletePool.
Proof. apply listing_keeps. intros hs. apply keeps_for_each. intros h. balance. Qed.
#[local] Hint Resolve deleteNetwork_keeps deleteDomains_keeps deletePool_keeps : refs.

Lemma TerminateInfrastructure_keeps : keeps TerminateInfrastructure.
Proof. unfold TerminateInfrastructure. balance. Qed.

(** A domain that is looked up is freed. *)
Lemma domain_keeps {A} id (f : positive → M L A) : (∀ h, keeps (f h)) →
  keeps (domain ← LookupDomainByName id; defer (dropped (lv_Free Domain domain)) (f domain)).
Proof.
  intros Hf. apply held_while with (hs := λ h, [HObj Domain h]); [apply LookupDomain_refs| |done].
  intros h. apply releases_dropped, Free_refs.
Qed.

Variable env : run_env L.

Lemma poll_network_keeps n h : keeps (poll_network env n h).
Proof. induction n; simpl; balance. Qed.
Lemma poll_agent_keeps n a id : keeps (poll_agent env n a id).
Proof. induction n; simpl; balance. Qed.
#[local] Hint Resolve poll_network_keeps poll_agent_keeps : refs.

Lemma blockUntilNetworkIsReady_keeps id : keeps (blockUntilNetworkIsReady env id).
Proof. apply domain_keeps. intros h. balance. Qed.
Lemma blockUntilDelegatioAgentIsReady_keeps id : keeps (blockUntilDelegatioAgentIsReady env id).
Proof. apply domain_keeps. intros h. balance. Qed.
#[local] Hint Resolve blockUntilNetworkIsReady_keeps blockUntilDelegatioAgentIsReady_keeps : refs.

Lemma control_plane_ip_keeps : keeps control_plane_ip.
Proof. apply domain_keeps. intros h. balance. Qed.
Lemma getWorkerInstanceIPs_keeps n : keeps (getWorkerInstanceIPs env n).
Proof. apply keeps_fold. intros x a. cbv zeta. balance. Qed.
End clean_up.

#[local] Hint Resolve TerminateInfrastructure_keeps blockUntilNetworkIsReady_keeps
  blockUntilDelegatioAgentIsReady_keeps control_plane_ip_keeps getWorkerInstanceIPs_keeps : refs.

(** ** The receiver's references *)

Section receiver.
Context {L : Type} `{LibvirtRefs L}.
Abbreviation Inst := (LibvirtInstance L).

Definition connected_to_libvirt (i : Inst) : Prop := is_Some (Conn i).
Definition held (i : Inst) : gmultiset handle :=
  match Conn i with Some l => refs l | None => ∅ end.
Abbreviation keeps := (keeps connected_to_libvirt held).

Lemma on_conn_takes {A} (hs : A → list handle) (m : M L A) :
  takes (λ _, True) refs hs m → takes connected_to_libvirt held hs (on_conn m).
Proof.
  intros Hm i r i' [l Hl]. unfold on_conn, held. rewrite Hl. destruct (m l) as [r1 l'] eqn:E.
  destruct (Hm l r1 l' Logic.I E) as (Hr & _ & Hh). intros [= <- <-]. split_and!; [done|by eexists|done].
Qed.

Lemma on_conn_releases xs (m : M L ()) :
  releases (λ _, True) refs xs m → releases connected_to_libvirt held xs (on_conn m).
Proof.
  intros Hm i r i' [l Hl]. unfold on_conn, held. rewrite Hl. destruct (m l) as [r1 l'] eqn:E.
  destruct (Hm l r1 l' Logic.I E) as (Hr & _ & Hh). intros [= <- <-]. split_and!; [done|by eexists|done].
Qed.

Lemma on_conn_keeps {A} (m : M L A) : QemuRefs.keeps (λ _, True) refs m → keeps (on_conn m).
Proof. apply on_conn_takes. Qed.

Lemma modify_keeps (f : Inst → Inst) : (∀ i, Conn (f i) = Conn i) → keeps (modify f).
Proof.
  intros Hf. apply keeps_now. intros i Hi. simpl. unfold connected_to_libvirt, held. by rewrite Hf.
Qed.

(** A reference that is taken and freed by a deferred call. *)
Lemma freed_while {A} (mk : positive → handle) (m : M Inst positive) free (f : positive → M Inst A) :
  takes connected_to_libvirt held (λ h, [mk h]) m →
  (∀ h, releases (λ _, True) refs [mk h] (free h)) → (∀ h, keeps (f h)) →
  keeps (h ← m; freed (free h) (f h)).
Proof.
  intros Hm Hd Hf. apply held_while with (hs := λ h, [mk h]); [done| |done].
  intros h. by apply releases_dropped, on_conn_releases.
Qed.
End receiver.

#[local] Hint Extern 1 (keeps connected_to_libvirt held (on_conn _)) => apply on_conn_keeps : refs.
#[local] Hint Extern 1 (keeps connected_to_libvirt held (modify _)) => apply modify_keeps; done : refs.
#[local] Hint Extern 1 (takes connected_to_libvirt held _ (on_conn _)) => apply on_conn_takes : refs.
#[local] Hint Resolve List_refs Volumes_refs PoolDefine_refs LookupPool_refs VolCreate_refs NetworkCreate_refs
  DomainCreate_refs LookupDomain_refs NewStream_refs Free_refs vol_Free_refs stream_Free_refs takes_relabel : refs.

Section creation.
Context {L : Type} `{LibvirtRefs L} `{LibvirtXml}.
Variables (env : run_env L) (ImagePath : string).
Hypothesis buffer_nonempty : (0 < bufferSize env)%nat.
Abbreviation Inst := (LibvirtInstance L).
Abbreviation keeps := (keeps connected_to_libvirt (held (L := L))).

Lemma relabel_keeps {A} msg (m : M Inst A) : keeps m → keeps (relabel msg m).
Proof. apply takes_relabel. Qed.
#[local] Hint Resolve relabel_keeps : refs.

Lemma createStoragePool_keeps : keeps createStoragePool.
Proof.
  unfold createStoragePool. apply keeps_then; [balance|]. intros x.
  apply (freed_while (HObj Pool)); [eauto 6 with refs..|]. intros h. balance.
Qed.

Lemma createNetwork_keeps : keeps createNetwork.
Proof.
  apply keeps_then; [balance|]. intros x.
  apply (freed_while (HObj Network)); [eauto 6 with refs..|]. intros h. balance.
Qed.

Lemma createDomain_keeps id : keeps (createDomain id).
Proof.
  unfold createDomain. destruct (domain_for id) as [d|] eqn:Hd; [|done].
  apply keeps_then; [balance|]. intros x.
  apply (freed_while (HObj Domain)); [eauto 6 with refs..|]. intros h. balance.
Qed.

Lemma create_boot_volume_keeps id xml : keeps (create_boot_volume id xml).
Proof.
  apply (freed_while (HObj Pool)); [eauto 6 with refs..|]. intros h.
  apply (freed_while HVol); [eauto 6 with refs..|]. intros v. balance.
Qed.
#[local] Hint Resolve createDomain_keeps create_boot_volume_keeps : refs.

Lemma upload_keeps image : keeps (λ i, ((uploadBaseImage (bufferSize env) (stream_cancelled env)
  (image_gets env) (stream_accepts env) (stream_Finish env) image).1, i)).
Proof.
  apply keeps_now. intros i Hi. split_and!; [|done..]. simpl.
  destruct (uploadBaseImage _ _ _ _ _ _) as [r sent] eqn:E. by eapply uploadBaseImage_returns.
Qed.

Lemma upload_image_keeps vol : keeps (upload_image env ImagePath vol).
Proof.
  apply (freed_while HStream); [eauto 6 with refs..|]. intros st.
  apply keeps_then; [balance|]. intros image. apply keeps_then; [|intros; balance].
  apply keeps_attempted. apply keeps_then; [balance|]. intros _.
  apply keeps_then; [balance|]. intros _. apply upload_keeps.
Qed.
#[local] Hint Resolve upload_image_keeps : refs.

Lemma instance_next_keeps id a : keeps (instance_next id a).
Proof.
  destruct a; simpl; balance. all: apply keeps_now; by intros.
Qed.

Lemma wait_turn_keeps c g : keeps (wait_turn env c g).
Proof. destruct g as [id []]; unfold wait_turn; simpl; balance. Qed.
End creation.

(** *** The groups of goroutines *)

Section groups.
Context {L : Type} `{LibvirtRefs L} `{LibvirtXml}.
Variables (env : run_env L) (ImagePath : string).
Abbreviation Inst := (LibvirtInstance L).
Abbreviation keeps := (keeps connected_to_libvirt (held (L := L))).

(** As [takes] for a function that may be left waiting: [extra] is what it has taken. *)
Definition ends_with {A} (i : Inst) (r : res A) (i' : Inst) (extra : gmultiset handle) : Prop :=
  (r = Blocked ∨ returns r) ∧ connected_to_libvirt i' ∧ held i' = held i ⊎ extra.

Lemma group_run_ends {T} (next : option error → T → M Inst T) outcome schedule ts (i : Inst) r g :
  (∀ c t, keeps (next c t)) → (∀ c t i e i', next c t i ≠ (Fail e, i')) →
  connected_to_libvirt i → group_run next outcome schedule (MkGroup i ts None) = (r, g) →
  ends_with i r (shared g) ∅.
Proof.
  intros Hk Hf Hi E. unfold group_run in E.
  destruct (group_turns_keep next outcome (λ g, connected_to_libvirt (shared g) ∧ held (shared g) = held i)
    schedule (MkGroup i ts None)) as (g1 & E1 & Hc & Hh); [|done|].
  { apply turn_keeps_intro. intros g1 j t [Hc Hh] _ _. destruct (next (group_ctx g1) t (shared g1)) as [r1 i1] eqn:E1.
    destruct (keeps_held _ _ _ _ _ _ (Hk _ _) Hc E1) as (Hr & Hc1 & Hh1).
    destruct r1 as [t'|e| |]; [|by apply Hf in E1|done..]. exists t', i1. split; [done|]. simpl. by rewrite Hh1. }
  rewrite (bind_Ret _ _ _ _ _ E1) in E. split; [by eapply group_Wait_outcome|].
  assert (g = g1) as -> by (unfold group_Wait, of_err, mret, M_ret, fail in E; repeat case_match; simplify_eq; done).
  split; [done|]. rewrite Hh. multiset_solver.
Qed.

Lemma createInstances_ends schedule (i : Inst) r i' : connected_to_libvirt i →
  createInstances schedule i = (r, i') → ends_with i r i' ∅.
Proof.
  intros Hi E. unfold createInstances in E. destruct (group_run _ _ _ _) as [r1 g] eqn:Eg.
  injection E as <- <-. eapply group_run_ends; [| |exact Hi|exact Eg].
  - intros c [id a]. unfold instance_turn. apply keeps_then; [apply instance_next_keeps|]. intros. apply keeps_ret.
  - intros c [id a] j e j'. unfold instance_turn, mbind, M_bind. simpl.
    destruct (instance_next id a j) as [[]] eqn:En; try done. by apply instance_next_never_fails in En.
Qed.

Lemma getNodeInformation_keeps : keeps (getNodeInformation env).
Proof.
  intros i r i' Hi E. unfold getNodeInformation in E. eapply on_conn_takes; [|exact Hi|exact E].
  apply keeps_then; [apply control_plane_ip_keeps|]. intros ip.
  apply keeps_then; [apply getWorkerInstanceIPs_keeps|]. intros. apply keeps_ret.
Qed.

Lemma waitUntilAllNodesAreReady_ends schedule (i : Inst) r i' : connected_to_libvirt i →
  waitUntilAllNodesAreReady env schedule i = (r, i') → ends_with i r i' ∅.
Proof.
  intros Hi E. unfold waitUntilAllNodesAreReady in E. destruct (group_run _ _ _ _) as [r1 g] eqn:Eg.
  apply group_run_ends in Eg as (Hr1 & Hc & Hh);
    [|intros c t; apply wait_turn_keeps|intros; apply wait_turn_never_fails|done].
  destruct r1 as [[]|e| |]; simplify_eq.
  - destruct (keeps_held _ _ _ _ _ _ getNodeInformation_keeps Hc E) as (Hr & Hc' & Hh').
    split_and!; [by right|done|]. rewrite Hh'. rewrite Hh. multiset_solver.
  - split_and!; [by right|done..].
  - by destruct Hr1.
  - split_and!; [by left|done..].
Qed.

(** A balanced stage and what follows it. *)
Lemma stage_ends {A B} (m : M Inst A) (f : A → M Inst B) (i : Inst) r i' :
  keeps m → connected_to_libvirt i → (m ≫= f) i = (r, i') →
  ((∃ e, r = Fail e) ∧ ends_with i r i' ∅) ∨
  ∃ a i1, f a i1 = (r, i') ∧ connected_to_libvirt i1 ∧ held i1 = held i.
Proof.
  intros Hm Hi. unfold mbind, M_bind. destruct (m i) as [r1 i1] eqn:E1.
  destruct (keeps_held _ _ _ _ _ _ Hm Hi E1) as (Hr & Hc & Hh). destruct r1 as [a|e| |]; try done.
  - intros E. right. eauto.
  - intros [= <- <-]. left. split; [by eexists|]. split_and!; [by right|done|]. rewrite Hh. multiset_solver.
Qed.

(** *** The base image and the whole *)

Hypothesis buffer_nonempty : (0 < bufferSize env)%nat.

(** At most one reference, to a pool. *)
Definition a_pool_at_most (leak : gmultiset handle) : Prop := leak = ∅ ∨ ∃ p, leak = {[+ HObj Pool p +]}.

Lemma createBaseImage_leaks (i : Inst) r i' : connected_to_libvirt i →
  createBaseImage env ImagePath i = (r, i') →
  ∃ leak, ends_with i r i' leak ∧ a_pool_at_most leak ∧ (r = Ret () → ∃ p, leak = {[+ HObj Pool p +]}) ∧ returns r.
Proof.
  intros Hi E. eapply stage_ends in E as [[[e ->] ?]|(x & i1 & E & Hi1 & Hh1)]; [| |apply keeps_lifted|done].
  { exists ∅. split_and!; [done|by left|done..]. }
  unfold mbind at 1, M_bind at 1 in E. set (lookup := on_conn _) in E.
  destruct (lookup i1) as [r2 i2] eqn:E2.
  destruct (on_conn_takes _ _ (LookupPool_refs _) i1 r2 i2 Hi1 E2) as (Hr2 & Hi2 & Hh2). clearbody lookup.
  destruct r2 as [pool|e| |]; simplify_eq; try done.
  2:{ exists ∅. split; [split_and!; [by right|done|by rewrite Hh2, Hh1]|]. split_and!; [by left|done..]. }
  eapply keeps_held in E as (Hr & Hi' & Hh'); [| |exact Hi2].
  - exists {[+ HObj Pool pool +]}. split; [|split_and!; [right; by eexists|by eexists|done]].
    split_and!; [by right|done|]. rewrite Hh', Hh2, Hh1. simpl. multiset_solver.
  - apply (freed_while HVol); [eauto 6 with refs..|]. intros v.
    apply keeps_then; [by apply modify_keeps|]. intros _. by apply upload_image_keeps.
Qed.

Lemma creation_leaks create_schedule wait_schedule (i : Inst) r i' : connected_to_libvirt i →
  (createBaseImage env ImagePath;; createNetwork;; createInstances create_schedule;;
   waitUntilAllNodesAreReady env wait_schedule) i = (r, i') →
  ∃ leak, ends_with i r i' leak ∧ a_pool_at_most leak ∧ (∀ nodes, r = Ret nodes → ∃ p, leak = {[+ HObj Pool p +]}).
Proof.
  intros Hi E. unfold mbind at 1, M_bind at 1 in E. destruct (createBaseImage env ImagePath i) as [r1 i1] eqn:E1.
  destruct (createBaseImage_leaks _ _ _ Hi E1) as (leak & (_ & Hi1 & Hh1) & Hone & Hp & Hr1).
  exists leak. destruct r1 as [[]|e| |]; simplify_eq; try done; [|split; [split_and!; [by right|done..]|done]].
  assert (∀ (r : res NodeInformation) i', ends_with i1 r i' ∅ → ends_with i r i' leak) as Hlift.
  { intros r0 i0 (? & ? & Hh0). split_and!; [done..|]. rewrite Hh0, Hh1. multiset_solver. }
  split; [|split; [done|by intros; apply Hp]]. apply Hlift.
  eapply stage_ends in E as [[_ ?]|(x & i2 & E & Hi2 & Hh2)]; [done| |apply createNetwork_keeps|done].
  unfold mbind, M_bind in E. destruct (createInstances create_schedule i2) as [r3 i3] eqn:E3.
  destruct (createInstances_ends _ _ _ _ Hi2 E3) as (Hr3 & Hi3 & Hh3).
  assert (held i3 = held i1) as Hh31 by (rewrite Hh3, Hh2; multiset_solver).
  destruct r3 as [[]|e| |]; simplify_eq.
  - destruct (waitUntilAllNodesAreReady_ends _ _ _ _ Hi3 E) as (? & ? & Hh'). split_and!; [done..|].
    by rewrite Hh', Hh31.
  - split_and!; [by right|done|]. rewrite Hh31. multiset_solver.
  - by destruct Hr3.
  - split_and!; [by left|done|]. rewrite Hh31. multiset_solver.
Qed.
End groups.

(** ** Theorems *)

Section theorems.
Context {L : Type} `{LibvirtRefs L} `{LibvirtXml}.

(** The deletion of the infrastructure gives back every reference it takes, to networks,
    domains, pools and volumes, also when a call of it fails. *)
Theorem TerminateInfrastructure_releases (s : L) r s' : TerminateInfrastructure s = (r, s') → refs s' = refs s.
Proof. intros E. by eapply (keeps_held _ _ _ _ _ _ TerminateInfrastructure_keeps) in E as (_ & _ & ?). Qed.

(** C16: an initialisation of the infrastructure, whether it succeeds or fails, in any
    interleaving of its goroutines, has given back all references to libvirt's objects but
    one: the pool that [createBaseImage] looks up and never frees. After a success that one
    is always left, so the connection cannot be closed for good. *)
Theorem InitializeInfrastructure_leaks_one_pool env ImagePath create_schedule wait_schedule
    (i : LibvirtInstance L) r i' :
  (0 < bufferSize env)%nat → connected_to_libvirt i →
  InitializeInfrastructure env ImagePath create_schedule wait_schedule i = (r, i') →
  ∃ leak, held i' = held i ⊎ leak ∧ (leak = ∅ ∨ ∃ p, leak = {[+ HObj Pool p +]}) ∧
    ∀ nodes, r = Ret nodes → leak ≠ ∅.
Proof.
  intros Hb Hi E.
  eapply stage_ends in E as [[[e ->] (_ & _ & ?)]|(x & i1 & E & Hi1 & Hh1)];
    [exists ∅; split_and!; [done|by left|done]| |apply on_conn_keeps, TerminateInfrastructure_keeps|done].
  eapply stage_ends in E as [[[e ->] (_ & _ & ?)]|(y & i2 & E & Hi2 & Hh2)];
    [exists ∅; split_and!; [congruence|by left|done]| |apply createStoragePool_keeps|done].
  apply creation_leaks in E as (leak & (_ & _ & Hh) & Hone & Hp); [|done..].
  exists leak. split_and!; [congruence|done|]. intros nodes (p & ->)%Hp. multiset_solver.
Qed.
End theorems.

(** ** A host that counts references *)

Abbreviation counting := (host * gmultiset handle)%type.

(** A call of the host that returns references, and one that gives one back. *)
Definition counted {A} (hs : A → list handle) (m : M host A) : M counting A := λ c,
  match m c.1 with
  | (Ret a, s) => (Ret a, (s, c.2 ⊎ list_to_set_disj (hs a)))
  | (r, s) => (r, (s, c.2))
  end.
Definition given_back (x : handle) : M counting () := λ c, (Ret (), (c.1, c.2 ∖ {[+ x +]})).
Abbreviation uncounted := (counted (λ _, [])).

#[export] Instance counting_libvirt : Libvirt counting := {
  lv_List k := counted (fmap (HObj k)) (lv_List k);
  lv_GetName k h := uncounted (lv_GetName k h);
  lv_Destroy k h := uncounted (lv_Destroy k h);
  lv_Free k h := given_back (HObj k h);
  vol_Free h := given_back (HVol h);
  pool_IsActive h := uncounted (pool_IsActive h);
  pool_Volumes h := counted (fmap HVol) (pool_Volumes h);
  vol_Delete h := uncounted (vol_Delete h);
  pool_Destroy h := uncounted (pool_Destroy h);
  pool_Delete h := uncounted (pool_Delete h);
  pool_Undefine h := uncounted (pool_Undefine h)
}.

#[export] Instance counting_create : LibvirtCreate counting := {
  StoragePoolDefineXML x := counted (λ h, [HObj Pool h]) (StoragePoolDefineXML x);
  pool_Build h := uncounted (pool_Build h);
  pool_Create h := uncounted (pool_Create h);
  LookupStoragePoolByTargetPath p := counted (λ h, [HObj Pool h]) (LookupStoragePoolByTargetPath p);
  StorageVolCreateXML h x := counted (λ v, [HVol v]) (StorageVolCreateXML h x);
  NetworkCreateXML x := counted (λ h, [HObj Network h]) (NetworkCreateXML x);
  DomainCreateXML x := counted (λ h, [HObj Domain h]) (DomainCreateXML x);
  LookupDomainByName n := counted (λ h, [HObj Domain h]) (LookupDomainByName n);
  ListAllInterfaceAddresses h := uncounted (ListAllInterfaceAddresses h);
  NewStream := counted (λ st, [HStream st]) NewStream;
  vol_Upload h st n := uncounted (vol_Upload h st n);
  stream_Free st := given_back (HStream st);
  agent_Dial a := uncounted (agent_Dial a);
  agent_ExecCommand a c l := uncounted (agent_ExecCommand a c l);
  lv_Close := uncounted lv_Close
}.

Lemma counted_takes {A} (hs : A → list handle) (m : M host A) :
  (∀ s, returns (m s).1) → takes (λ _, True) snd hs (counted hs m).
Proof.
  intros Hm c r c' _. unfold counted. specialize (Hm c.1). destruct (m c.1) as [[a|e| |] s]; try done;
    intros [= <- <-]; split_and!; try done. multiset_solver.
Qed.

Lemma given_back_releases x : releases (λ _, True) snd [x] (given_back x).
Proof. intros c r c' _ [= <- <-]. split_and!; [done..|]. simpl. intros _. multiset_solver. Qed.

#[export] Instance counting_refs : LibvirtRefs counting.
Proof.
  refine {| refs := snd |}; intros; try apply given_back_releases; apply counted_takes; intros s; try done.
  - simpl. by destruct (s k !! h).
  - simpl. by destruct (map_to_list _) as [|[]].
Defined.

Definition counting_env : run_env counting :=
  MkRunEnv _ (λ _, inr (used_host, ∅)) (inr [1; 2; 3; 4; 5]%Z) None 4 (λ _, false) (λ _, inr 4%nat) (λ _, inr 4%nat) None None
    (λ _, 3%nat) (λ _, 3%nat) ctx_DeadlineExceeded.
Definition counting_start : LibvirtInstance counting :=
  MkInstance (Some (used_host, ∅)) (LibvirtStoragePoolPath +:+ BootDiskName) 1 2 [] [].
Definition counting_run : res NodeInformation * LibvirtInstance counting :=
  InitializeInfrastructure counting_env "image.qcow2" [0; 1; 2; 0; 1; 2; 0; 1; 2; 0; 1; 2]%nat
    [0; 0; 1; 2; 1; 2]%nat counting_start.

Lemma counting_run_nodes : counting_run.1 = Ret host_nodes.
Proof. vm_compute. reflexivity. Qed.

Definition counting_clean : res () * counting := TerminateInfrastructure (used_host, {[+ HVol 1 +]}).

Lemma TerminateInfrastructure_releases_witness :
  counting_clean.1 = Ret () ∧ refs counting_clean.2 = refs (L := counting) (used_host, {[+ HVol 1 +]}).
Proof.
  split; [vm_compute; reflexivity|].
  exact (TerminateInfrastructure_releases (H1 := counting_refs) _ counting_clean.1 counting_clean.2
    (surjective_pairing counting_clean)).
Defined.

Lemma no_part_of_nothing (X Y Z : gmultiset handle) : X = Y ⊎ Z → X = ∅ → Z = ∅.
Proof. multiset_solver. Qed.

Lemma InitializeInfrastructure_leaks_one_pool_witness : held counting_run.2 ≠ ∅.
Proof.
  destruct (InitializeInfrastructure_leaks_one_pool (H1 := counting_refs) counting_env "image.qcow2"
    [0; 1; 2; 0; 1; 2; 0; 1; 2; 0; 1; 2]%nat [0; 0; 1; 2; 1; 2]%nat counting_start counting_run.1 counting_run.2)
    as (leak & Hh & _ & Hne).
  - simpl. lia.
  - by eexists.
  - exact (surjective_pairing counting_run).
  - intros He. exact (Hne host_nodes counting_run_nodes (no_part_of_nothing _ _ _ Hh He)).
Defined.
