(* ===== verification/QemuWrapper.v ===== *)
(** cli/infrastructure/qemu/wrapper.go: the wrappers that make interfaces of the structs of
    libvirt.org/go/libvirt. The package is the class [LibvirtGo]; the program's classes
    [Libvirt] and [LibvirtCreate] are implemented by calls of the wrappers' methods, and
    behave as the package does. *)
From S2P Require Import Prelude Config Errgroup Qemu QemuDefs QemuCreate.

(** ** libvirt.org/go/libvirt *)

(** The methods of [Connect], [Network], [Domain], [StoragePool], [StorageVol] and [Stream]
    that are used, on the handles that the structs hold, and the flags they are given. *)
Class LibvirtGo (C : Type) : Type := {
  CONNECT_LIST_NETWORKS_ACTIVE : Z;
  CONNECT_LIST_DOMAINS_ACTIVE : Z;
  CONNECT_LIST_STORAGE_POOLS_DIR : Z;
  STORAGE_POOL_DEFINE_VALIDATE : Z;
  STORAGE_POOL_BUILD_NEW : Z;
  STORAGE_POOL_CREATE_NORMAL : Z;
  STORAGE_POOL_DELETE_NORMAL : Z;
  STORAGE_VOL_DELETE_NORMAL : Z;
  DOMAIN_NONE : Z;
  DOMAIN_INTERFACE_ADDRESSES_SRC_LEASE : Z;
  STREAM_NONBLOCK : Z;
  go_ListAllNetworks : Z → M C (list positive);
  go_ListAllStoragePools : Z → M C (list positive);
  go_ListAllDomains : Z → M C (list positive);
  go_LookupDomainByName : string → M C positive;
  go_LookupStoragePoolByTargetPath : string → M C positive;
  go_StoragePoolDefineXML : string → Z → M C positive;
  go_NetworkCreateXML : string → M C positive;
  go_DomainCreateXML : string → Z → M C positive;
  go_NewStream : Z → M C positive;
  go_Close : M C Z;
  network_GetName : positive → M C string;
  network_Destroy : positive → M C ();
  network_Free : positive → M C ();
  domain_GetName : positive → M C string;
  domain_Destroy : positive → M C ();
  domain_Free : positive → M C ();
  domain_Interfaces : positive → Z → M C interfaces;
  go_StorageVolCreateXML : positive → string → Z → M C positive;
  go_ListAllStorageVolumes : positive → Z → M C (list positive);
  go_pool_Build : positive → Z → M C ();
  go_pool_Create : positive → Z → M C ();
  go_pool_GetName : positive → M C string;
  go_pool_IsActive : positive → M C bool;
  go_pool_Destroy : positive → M C ();
  go_pool_Delete : positive → Z → M C ();
  go_pool_Undefine : positive → M C ();
  go_pool_Free : positive → M C ();
  go_vol_Upload : positive → positive → Z → Z → Z → M C ();
  go_vol_Free : positive → M C ();
  go_vol_Delete : positive → Z → M C ();
  go_stream_Free : positive → M C ()
}.

(** The calls of the agents, over the network. *)
Class MachineAgents (C : Type) : Type := {
  machine_Dial : string → M C ();
  machine_ExecCommand : string → string → list string → M C ()
}.

(** ** Interfaces *)

(** A pointer; [None] is nil. *)
Abbreviation ptr := (option positive).

(** A value of one of the interfaces [network], [domain], [storagePool], [storageVolume] and
    [stream]: nil, a pointer of the type that the wrapper uses for it (for pools and volumes
    the pointer that the wrapper struct holds), or a value of any other type. *)
Inductive iface : Type := Nil | Ptr (p : ptr) | Other.

(** A Go function that returns a value and an error: the value is there with the error, too. *)
Definition results {C A} (nil : A) (m : M C A) : M C (A * option error) :=
  r ← attempt m;
  mret (match r with inl err => (nil, Some err) | inr a => (a, None) end).

(** The same for a pointer. *)
Definition results_ptr {C} (m : M C positive) : M C (ptr * option error) :=
  r ← attempt m;
  mret (match r with inl err => (None, Some err) | inr p => (Some p, None) end).

(** A caller that looks at the error first. *)
Definition checked {C A} (m : M C (A * option error)) : M C A :=
  res ← m;
  match res.2 with Some err => fail err | None => mret res.1 end.

(** A method call on an interface value: on a nil interface and on a nil pointer, whose
    handle is read, it panics. *)
Definition on_ptr {C A} (x : iface) (m : positive → M C A) : M C A :=
  match x with Ptr (Some p) => m p | _ => panic end.

Abbreviation wrapped h := (Ptr (Some h)).

Section wrapper.
Context {C : Type} `{LibvirtGo C}.

(** The loops [for i := 0; i < len(l); i++] that append [mk(&l[i])]: what is appended is the
    address of a cell of [l], which is read when the loop is over and the result is used;
    nobody writes to the cells. *)
Definition append_all (l : list positive) (mk : ptr → iface) : M C (list iface) :=
  addresses ← fold_m (λ i acc, if decide (i < length l)%nat then mret (acc ++ [i]) else panic)
                     (seq 0 (length l)) [];
  mret ((λ i, mk (l !! i)) <$> addresses).

(** ** connectionWrapper *)

Definition ListAllNetworks (flags : Z) : M C (list iface * option error) :=
  res ← results [] (go_ListAllNetworks flags);
  match res with
  | (_, Some err) => mret ([], Some err)
  | (noPtrNets, None) => nets ← append_all noPtrNets Ptr; mret (nets, None)
  end.

Definition ListAllStoragePools (flags : Z) : M C (list iface * option error) :=
  res ← results [] (go_ListAllStoragePools flags);
  match res with
  | (_, Some err) => mret ([], Some err)
  | (noPtrPools, err) => pools ← append_all noPtrPools Ptr; mret (pools, err)
  end.

Definition ListAllDomains (flags : Z) : M C (list iface * option error) :=
  res ← results [] (go_ListAllDomains flags);
  match res with
  | (_, Some err) => mret ([], Some err)
  | (noPtrDomains, None) => domains ← append_all noPtrDomains Ptr; mret (domains, None)
  end.

(** A function that returns the results of another as an interface and an error: the
    pointer is put into the interface whether or not there is an error. *)
Definition forward (m : M C (ptr * option error)) : M C (iface * option error) :=
  res ← m; mret (Ptr res.1, res.2).
(** One that returns nil with an error, and a new wrapper struct without. *)
Definition wrap (m : M C (ptr * option error)) : M C (iface * option error) :=
  res ← m;
  match res with
  | (_, Some err) => mret (Nil, Some err)
  | (p, None) => mret (Ptr p, None)
  end.

Definition wrapper_LookupDomainByName (id : string) : M C (iface * option error) :=
  forward (results_ptr (go_LookupDomainByName id)).
Definition wrapper_LookupStoragePoolByTargetPath (path : string) : M C (iface * option error) :=
  wrap (results_ptr (go_LookupStoragePoolByTargetPath path)).
Definition wrapper_StoragePoolDefineXML (xmlConfig : string) (flags : Z) : M C (iface * option error) :=
  wrap (results_ptr (go_StoragePoolDefineXML xmlConfig flags)).
Definition wrapper_NetworkCreateXML (xmlConfig : string) : M C (iface * option error) :=
  forward (results_ptr (go_NetworkCreateXML xmlConfig)).
Definition wrapper_DomainCreateXML (xmlConfig : string) (flags : Z) : M C (iface * option error) :=
  forward (results_ptr (go_DomainCreateXML xmlConfig flags)).
Definition wrapper_NewStream (flags : Z) : M C (iface * option error) :=
  forward (results_ptr (go_NewStream flags)).
Definition wrapper_Close : M C (Z * option error) := results 0%Z go_Close.

(** ** poolWrapper *)

Definition wrapper_StorageVolCreateXML (p : iface) (xmlConfig : string) (flags : Z) : M C (iface * option error) :=
  on_ptr p (λ pool, wrap (results_ptr (go_StorageVolCreateXML pool xmlConfig flags))).

Definition wrapper_ListAllStorageVolumes (p : iface) (flags : Z) : M C (list iface * option error) :=
  on_ptr p (λ pool,
    res ← results [] (go_ListAllStorageVolumes pool flags);
    match res with
    | (_, Some err) => mret ([], Some err)
    | (vols, None) => slice ← append_all vols Ptr; mret (slice, None)
    end).

Definition wrapper_Build (p : iface) (flags : Z) : M C () := on_ptr p (λ pool, go_pool_Build pool flags).
Definition wrapper_Create (p : iface) (flags : Z) : M C () := on_ptr p (λ pool, go_pool_Create pool flags).
Definition wrapper_GetName (p : iface) : M C string := on_ptr p go_pool_GetName.
Definition wrapper_IsActive (p : iface) : M C bool := on_ptr p go_pool_IsActive.
Definition wrapper_Destroy (p : iface) : M C () := on_ptr p go_pool_Destroy.
Definition wrapper_Delete (p : iface) (flags : Z) : M C () := on_ptr p (λ pool, go_pool_Delete pool flags).
Definition wrapper_Undefine (p : iface) : M C () := on_ptr p go_pool_Undefine.
Definition wrapper_pool_Free (p : iface) : M C () := on_ptr p go_pool_Free.

(** ** storageVolumeWrapper *)

(** The type assertion holds for every [*libvirt.Stream], a nil one included. *)
Definition wrapper_Upload (v : iface) (stream : iface) (offset len flags : Z) : M C () :=
  match stream with
  | Ptr libvirtStream => on_ptr v (λ volume, on_ptr (Ptr libvirtStream) (λ st, go_vol_Upload volume st offset len flags))
  | _ => fail (ErrNew "stream is not a libvirt stream")
  end.
Definition wrapper_vol_Free (v : iface) : M C () := on_ptr v go_vol_Free.
Definition wrapper_vol_Delete (v : iface) (flags : Z) : M C () := on_ptr v (λ volume, go_vol_Delete volume flags).

(** ** The program's interface *)

(** The handle behind an interface value, as the callers use it. *)
Definition handle_of (x : iface) : M C positive := on_ptr x mret.
Definition handles_of (l : list iface) : M C (list positive) :=
  fold_m (λ x acc, p ← handle_of x; mret (acc ++ [p])) l [].

(** The methods of [network] and [domain] are those of the package's structs. *)
#[local] Instance wrapper_libvirt : Libvirt C := {
  lv_List k :=
    (l ← checked (match k with
                  | Network => ListAllNetworks CONNECT_LIST_NETWORKS_ACTIVE
                  | Domain => ListAllDomains CONNECT_LIST_DOMAINS_ACTIVE
                  | Pool => ListAllStoragePools CONNECT_LIST_STORAGE_POOLS_DIR
                  end);
     handles_of l);
  lv_GetName k h :=
    match k with
    | Network => on_ptr (wrapped h) network_GetName
    | Domain => on_ptr (wrapped h) domain_GetName
    | Pool => wrapper_GetName (wrapped h)
    end;
  lv_Destroy k h :=
    match k with
    | Network => on_ptr (wrapped h) network_Destroy
    | Domain => on_ptr (wrapped h) domain_Destroy
    | Pool => wrapper_Destroy (wrapped h)
    end;
  lv_Free k h :=
    match k with
    | Network => on_ptr (wrapped h) network_Free
    | Domain => on_ptr (wrapped h) domain_Free
    | Pool => wrapper_pool_Free (wrapped h)
    end;
  vol_Free h := wrapper_vol_Free (wrapped h);
  pool_IsActive h := wrapper_IsActive (wrapped h);
  pool_Volumes h := (l ← checked (wrapper_ListAllStorageVolumes (wrapped h) 0); handles_of l);
  vol_Delete h := wrapper_vol_Delete (wrapped h) STORAGE_VOL_DELETE_NORMAL;
  pool_Destroy h := wrapper_Destroy (wrapped h);
  pool_Delete h := wrapper_Delete (wrapped h) STORAGE_POOL_DELETE_NORMAL;
  pool_Undefine h := wrapper_Undefine (wrapped h)
}.

#[local] Instance wrapper_create `{MachineAgents C} : LibvirtCreate C := {
  StoragePoolDefineXML x := (p ← checked (wrapper_StoragePoolDefineXML x STORAGE_POOL_DEFINE_VALIDATE); handle_of p);
  pool_Build h := wrapper_Build (wrapped h) STORAGE_POOL_BUILD_NEW;
  pool_Create h := wrapper_Create (wrapped h) STORAGE_POOL_CREATE_NORMAL;
  LookupStoragePoolByTargetPath p := (x ← checked (wrapper_LookupStoragePoolByTargetPath p); handle_of x);
  StorageVolCreateXML h x := (v ← checked (wrapper_StorageVolCreateXML (wrapped h) x 0); handle_of v);
  NetworkCreateXML x := (n ← checked (wrapper_NetworkCreateXML x); handle_of n);
  DomainCreateXML x := (d ← checked (wrapper_DomainCreateXML x DOMAIN_NONE); handle_of d);
  LookupDomainByName n := (d ← checked (wrapper_LookupDomainByName n); handle_of d);
  ListAllInterfaceAddresses h := on_ptr (wrapped h) (λ d, domain_Interfaces d DOMAIN_INTERFACE_ADDRESSES_SRC_LEASE);
  NewStream := (st ← checked (wrapper_NewStream STREAM_NONBLOCK); handle_of st);
  vol_Upload h st n := wrapper_Upload (wrapped h) (wrapped st) 0 n 0;
  stream_Free st := on_ptr (wrapped st) go_stream_Free;
  agent_Dial := machine_Dial;
  agent_ExecCommand := machine_ExecCommand;
  lv_Close := (n ← checked wrapper_Close; mret ())
}.
End wrapper.

(** ** The package as the program's interface *)

(** The calls that the wrappers' methods stand for. *)
Section direct.
Context {C : Type} `{LibvirtGo C}.

Definition go_libvirt : Libvirt C := {|
  lv_List k :=
    match k with
    | Network => go_ListAllNetworks CONNECT_LIST_NETWORKS_ACTIVE
    | Domain => go_ListAllDomains CONNECT_LIST_DOMAINS_ACTIVE
    | Pool => go_ListAllStoragePools CONNECT_LIST_STORAGE_POOLS_DIR
    end;
  lv_GetName k := match k with Network => network_GetName | Domain => domain_GetName | Pool => go_pool_GetName end;
  lv_Destroy k := match k with Network => network_Destroy | Domain => domain_Destroy | Pool => go_pool_Destroy end;
  lv_Free k := match k with Network => network_Free | Domain => domain_Free | Pool => go_pool_Free end;
  vol_Free := go_vol_Free;
  pool_IsActive := go_pool_IsActive;
  pool_Volumes h := go_ListAllStorageVolumes h 0;
  vol_Delete h := go_vol_Delete h STORAGE_VOL_DELETE_NORMAL;
  pool_Destroy := go_pool_Destroy;
  pool_Delete h := go_pool_Delete h STORAGE_POOL_DELETE_NORMAL;
  pool_Undefine := go_pool_Undefine
|}.

Definition go_create `{MachineAgents C} : LibvirtCreate C := {|
  StoragePoolDefineXML x := go_StoragePoolDefineXML x STORAGE_POOL_DEFINE_VALIDATE;
  pool_Build h := go_pool_Build h STORAGE_POOL_BUILD_NEW;
  pool_Create h := go_pool_Create h STORAGE_POOL_CREATE_NORMAL;
  LookupStoragePoolByTargetPath := go_LookupStoragePoolByTargetPath;
  StorageVolCreateXML h x := go_StorageVolCreateXML h x 0;
  NetworkCreateXML := go_NetworkCreateXML;
  DomainCreateXML x := go_DomainCreateXML x DOMAIN_NONE;
  LookupDomainByName := go_LookupDomainByName;
  ListAllInterfaceAddresses h := domain_Interfaces h DOMAIN_INTERFACE_ADDRESSES_SRC_LEASE;
  NewStream := go_NewStream STREAM_NONBLOCK;
  vol_Upload h st n := go_vol_Upload h st 0 n 0;
  stream_Free := go_stream_Free;
  agent_Dial := machine_Dial;
  agent_ExecCommand := machine_ExecCommand;
  lv_Close := (n ← go_Close; mret ())
|}.

(** ** Lemmas *)

(** The loops wrap every element, in order. *)
Lemma append_all_eq l mk (s : C) : append_all l mk s = (Ret ((λ h, mk (Some h)) <$> l), s).
Proof.
  unfold append_all.
  assert (∀ k i, (i + k ≤ length l)%nat →
    fold_m (λ i acc, if decide (i < length l)%nat then mret (acc ++ [i]) else panic) (seq i k) (seq 0 i) s =
    (Ret (seq 0 (i + k)), s)) as Hgen.
  { induction k as [|k IH]; intros i Hi; cbn [seq fold_m]; [by rewrite Nat.add_0_r|].
    rewrite decide_True by lia. specialize (IH (S i)). rewrite seq_S in IH. simpl in IH.
    rewrite Nat.add_succ_r. apply IH. lia. }
  rewrite (bind_Ret _ _ _ _ _ (Hgen (length l) 0%nat ltac:(lia))). unfold mret, M_ret. do 2 f_equal.
  apply list_eq. intros i. rewrite !list_lookup_fmap. destruct (decide (i < length l)%nat) as [Hi|Hi].
  - rewrite lookup_seq_lt by lia. simpl. by destruct (lookup_lt_is_Some_2 l i Hi) as [h ->].
  - rewrite lookup_seq_ge by lia. by rewrite lookup_ge_None_2 by lia.
Qed.

Lemma handles_of_eq l (s : C) : handles_of ((λ h, Ptr (Some h)) <$> l) s = (Ret l, s).
Proof.
  unfold handles_of. enough (∀ acc, fold_m (λ x acc, p ← handle_of x; mret (acc ++ [p]))
    ((λ h, Ptr (Some h)) <$> l) acc s = (Ret (acc ++ l), s)) as Hgen by exact (Hgen []).
  induction l as [|p l IH]; intros acc; simpl; [by rewrite app_nil_r|].
  etransitivity; [apply (IH (acc ++ [p]))|]. by rewrite <-app_assoc.
Qed.

(** A wrapped listing whose error is checked is the listing. *)
Lemma listing_eq (f : M C (list iface * option error)) (m : M C (list positive)) (s : C) :
  f s = match m s with
        | (Ret l, s') => (Ret ((λ h, Ptr (Some h)) <$> l, None), s')
        | (Fail e, s') => (Ret ([], Some e), s')
        | (Panic, s') => (Panic, s')
        | (Blocked, s') => (Blocked, s')
        end → (l ← checked f; handles_of l) s = m s.
Proof.
  intros E. unfold checked, mbind, M_bind. rewrite E. destruct (m s) as [[l|e| |] s']; try done.
  apply handles_of_eq.
Qed.

Ltac through m s := unfold results, attempt, mbind, M_bind, mret, M_ret; destruct (m s) as [[l|e| |] s']; try done;
  by rewrite append_all_eq.

Lemma ListAllNetworks_eq fl (s : C) : (l ← checked (ListAllNetworks fl); handles_of l) s = go_ListAllNetworks fl s.
Proof. apply listing_eq. unfold ListAllNetworks. through (go_ListAllNetworks fl) s. Qed.
Lemma ListAllDomains_eq fl (s : C) : (l ← checked (ListAllDomains fl); handles_of l) s = go_ListAllDomains fl s.
Proof. apply listing_eq. unfold ListAllDomains. through (go_ListAllDomains fl) s. Qed.
Lemma ListAllStoragePools_eq fl (s : C) :
  (l ← checked (ListAllStoragePools fl); handles_of l) s = go_ListAllStoragePools fl s.
Proof. apply listing_eq. unfold ListAllStoragePools. through (go_ListAllStoragePools fl) s. Qed.
Lemma ListAllStorageVolumes_eq h fl (s : C) :
  (l ← checked (wrapper_ListAllStorageVolumes (wrapped h) fl); handles_of l) s = go_ListAllStorageVolumes h fl s.
Proof. apply listing_eq. unfold wrapper_ListAllStorageVolumes. simpl. through (go_ListAllStorageVolumes h fl) s. Qed.

Lemma forward_eq (m : M C positive) (s : C) : (p ← checked (forward (results_ptr m)); handle_of p) s = m s.
Proof. unfold checked, forward, results_ptr, attempt, mbind, M_bind, mret, M_ret. by destruct (m s) as [[]]. Qed.
Lemma wrap_eq (m : M C positive) (s : C) : (p ← checked (wrap (results_ptr m)); handle_of p) s = m s.
Proof. unfold checked, wrap, results_ptr, attempt, mbind, M_bind, mret, M_ret. by destruct (m s) as [[]]. Qed.
Lemma close_eq (s : C) : (n ← checked wrapper_Close; mret ()) s = (n ← go_Close; mret ()) s.
Proof. unfold checked, wrapper_Close, results, attempt, mbind, M_bind, mret, M_ret. by destruct (go_Close s) as [[]]. Qed.
End direct.

(** *** The documented behaviour reaches the program *)

Section transfer.
Context {C : Type} `{LibvirtGo C} `{MachineAgents C} `{LibvirtXml}.
Context `{LL : !@LibvirtLaws C go_libvirt}.

#[local] Instance wrapper_laws : @LibvirtLaws C wrapper_libvirt.
Proof.
  refine (@Build_LibvirtLaws C wrapper_libvirt (@objs C go_libvirt LL) _ _ _ _ _ _ _ _).
  - intros k s r s' E. apply (lv_List_law (H := go_libvirt) k s r s'). rewrite <-E. symmetry.
    destruct k; [apply ListAllNetworks_eq|apply ListAllDomains_eq|apply ListAllStoragePools_eq].
  - intros k h s r s' E. apply (lv_GetName_law (H := go_libvirt) k h s r s'). by destruct k.
  - intros k h s r s' E. apply (lv_remove_law (H := go_libvirt) k h s r s'). by destruct k.
  - intros k h s r s' E. apply (lv_Free_law (H := go_libvirt) k h s r s'). by destruct k.
  - apply (vol_Free_law (H := go_libvirt)).
  - apply (pool_IsActive_law (H := go_libvirt)).
  - intros h s r s' E. apply (pool_Volumes_law (H := go_libvirt) h s r s'). rewrite <-E. symmetry.
    apply ListAllStorageVolumes_eq.
  - apply (pool_op_law (H := go_libvirt)).
Defined.

Lemma quiet_through {A} (m m' : M C A) : (∀ s, m s = m' s) →
  quiet (H := go_libvirt) m' → quiet (H := wrapper_libvirt) m.
Proof. intros E Hm s r s' Es. apply (Hm s r s'). by rewrite <-E. Qed.

Lemma creates_through k n (m m' : M C positive) : (∀ s, m s = m' s) →
  creates (H := go_libvirt) k n m' → creates (H := wrapper_libvirt) k n m.
Proof. intros E Hm s r s' Es. apply (Hm s r s'). by rewrite <-E. Qed.

Context `{LCL : !@LibvirtCreateLaws C go_libvirt LL _ go_create}.

#[local] Instance wrapper_create_laws : @LibvirtCreateLaws C wrapper_libvirt wrapper_laws _ wrapper_create.
Proof.
  split.
  - intros d x E. eapply creates_through; [|exact (@StoragePoolDefineXML_law _ _ _ _ _ LCL d x E)]. apply wrap_eq.
  - intros d x E. eapply creates_through; [|exact (@NetworkCreateXML_law _ _ _ _ _ LCL d x E)]. apply forward_eq.
  - intros d x E. eapply creates_through; [|exact (@DomainCreateXML_law _ _ _ _ _ LCL d x E)]. apply forward_eq.
  - intros h. by eapply quiet_through; [|exact (@pool_Build_law _ _ _ _ _ LCL h)].
  - intros h. by eapply quiet_through; [|exact (@pool_Create_law _ _ _ _ _ LCL h)].
  - intros x. eapply quiet_through; [|exact (@LookupPool_law _ _ _ _ _ LCL x)]. apply wrap_eq.
  - intros h x. eapply quiet_through; [|exact (@VolCreate_law _ _ _ _ _ LCL h x)]. apply wrap_eq.
  - intros n. eapply quiet_through; [|exact (@LookupDomain_law _ _ _ _ _ LCL n)]. apply forward_eq.
  - intros h. by eapply quiet_through; [|exact (@ListInterfaces_law _ _ _ _ _ LCL h)].
  - eapply quiet_through; [|exact (@NewStream_law _ _ _ _ _ LCL)]. apply forward_eq.
  - intros h st n. by eapply quiet_through; [|exact (@vol_Upload_law _ _ _ _ _ LCL h st n)].
  - intros st. by eapply quiet_through; [|exact (@stream_Free_law _ _ _ _ _ LCL st)].
  - intros a. by eapply quiet_through; [|exact (@agent_Dial_law _ _ _ _ _ LCL a)].
  - intros a c l. by eapply quiet_through; [|exact (@agent_Exec_law _ _ _ _ _ LCL a c l)].
  - eapply quiet_through; [|exact (@lv_Close_law _ _ _ _ _ LCL)]. apply close_eq.
Qed.
End transfer.

(** ** Theorems *)

Section theorems.
Context {C : Type} `{LibvirtGo C} `{MachineAgents C}.
#[local] Existing Instances wrapper_libvirt wrapper_create wrapper_laws wrapper_create_laws.

(** An upload through anything but the package's own streams is refused before libvirt is
    called; with one of those it is the package's upload. *)
Theorem Upload_takes_the_packages_streams v stream offset len flags (s : C) :
  wrapper_Upload (wrapped v) stream offset len flags s =
  match stream with
  | Ptr (Some st) => go_vol_Upload v st offset len flags s
  | Ptr None => (Panic, s)
  | _ => (Fail (ErrNew "stream is not a libvirt stream"), s)
  end.
Proof. by destruct stream as [|[st|]|]. Qed.

(** A failed lookup of a pool returns a nil interface. A failed lookup of a domain does not:
    its interface holds a nil pointer, so that only the error tells, and a method of it
    panics. *)
Theorem failed_lookups_differ n p e e' (s s' : C) :
  go_LookupDomainByName n s = (Fail e, s') → go_LookupStoragePoolByTargetPath p s = (Fail e', s') →
  wrapper_LookupDomainByName n s = (Ret (Ptr None, Some e), s') ∧ Ptr None ≠ Nil ∧
  on_ptr (Ptr None) domain_GetName s' = (Panic, s') ∧
  wrapper_LookupStoragePoolByTargetPath p s = (Ret (Nil, Some e'), s').
Proof.
  intros Ed Ep. unfold wrapper_LookupDomainByName, wrapper_LookupStoragePoolByTargetPath, forward, wrap,
    results_ptr, attempt, mbind, M_bind. rewrite Ed, Ep. by split_and!.
Qed.

Context `{LibvirtXml} `{LL : !@LibvirtLaws C go_libvirt} `{LCL : !@LibvirtCreateLaws C go_libvirt LL _ go_create}.

(** C15: the whole, over the package: when [InitializeInfrastructure] succeeds through the
    wrappers, libvirt has the pool, the network and every machine, and when the clean-up
    succeeds through them, it has none of this program's objects and still all the others. *)
Theorem infrastructure_over_the_package env ImagePath create_schedule wait_schedule
    (i : LibvirtInstance C) nodes i' c c' :
  (0 < bufferSize env)%nat → is_Some (Conn i) →
  InitializeInfrastructure env ImagePath create_schedule wait_schedule i = (Ret nodes, i') →
  Conn i' = Some c → TerminateInfrastructure c = (Ret (), c') →
  let o := objs (H := go_libvirt) c in let o' := objs (H := go_libvirt) c' in
  there o Pool DiskPoolName ∧ there o Network NetworkName ∧
  (∀ id, id ∈ machine_names i → there o Domain id) ∧
  ∀ k h n, o' k !! h = Some n ↔ o k !! h = Some n ∧ own k n = false.
Proof.
  intros Hb Hi E Hc Et. pose proof (initialization_builds env ImagePath Hb _ _ _ _ _ Hi E) as (Hp & Hn & Hd & _).
  unfold things in Hp, Hn, Hd. rewrite Hc in Hp, Hn, Hd.
  apply TerminateInfrastructure_spec in Et as (Hkeep & Hgone & _ & _). specialize (Hgone eq_refl).
  split_and!; [exact Hp|exact Hn|exact Hd|]. intros k h n. split; [exact (Hgone k h n)|].
  intros [Ho Hown]. exact (Hkeep k h n Ho Hown).
Qed.
End theorems.

(** ** A package to evaluate on *)

#[local] Instance host_go : LibvirtGo host := {
  CONNECT_LIST_NETWORKS_ACTIVE := 2;
  CONNECT_LIST_DOMAINS_ACTIVE := 1;
  CONNECT_LIST_STORAGE_POOLS_DIR := 64;
  STORAGE_POOL_DEFINE_VALIDATE := 1;
  STORAGE_POOL_BUILD_NEW := 0;
  STORAGE_POOL_CREATE_NORMAL := 0;
  STORAGE_POOL_DELETE_NORMAL := 0;
  STORAGE_VOL_DELETE_NORMAL := 0;
  DOMAIN_NONE := 0;
  DOMAIN_INTERFACE_ADDRESSES_SRC_LEASE := 0;
  STREAM_NONBLOCK := 1;
  go_ListAllNetworks f := lv_List (Libvirt := host_libvirt) Network;
  go_ListAllStoragePools f := lv_List (Libvirt := host_libvirt) Pool;
  go_ListAllDomains f := lv_List (Libvirt := host_libvirt) Domain;
  go_LookupDomainByName := LookupDomainByName (LibvirtCreate := host_create_libvirt);
  go_LookupStoragePoolByTargetPath p s :=
    (if decide (s Pool = ∅) then Fail (ErrExt "Storage pool not found") else Ret 1%positive, s);
  go_StoragePoolDefineXML x f := StoragePoolDefineXML (LibvirtCreate := host_create_libvirt) x;
  go_NetworkCreateXML := NetworkCreateXML (LibvirtCreate := host_create_libvirt);
  go_DomainCreateXML x f := DomainCreateXML (LibvirtCreate := host_create_libvirt) x;
  go_NewStream f := NewStream (LibvirtCreate := host_create_libvirt);
  go_Close := mret 0%Z;
  network_GetName := lv_GetName (Libvirt := host_libvirt) Network;
  network_Destroy := host_remove Network;
  network_Free h := mret ();
  domain_GetName := lv_GetName (Libvirt := host_libvirt) Domain;
  domain_Destroy := host_remove Domain;
  domain_Free h := mret ();
  domain_Interfaces h f := ListAllInterfaceAddresses (LibvirtCreate := host_create_libvirt) h;
  go_StorageVolCreateXML h x f := StorageVolCreateXML (LibvirtCreate := host_create_libvirt) h x;
  go_ListAllStorageVolumes h f := mret [];
  go_pool_Build h f := mret ();
  go_pool_Create h f := mret ();
  go_pool_GetName := lv_GetName (Libvirt := host_libvirt) Pool;
  go_pool_IsActive h := mret true;
  go_pool_Destroy h := mret ();
  go_pool_Delete h f := mret ();
  go_pool_Undefine := host_remove Pool;
  go_pool_Free h := mret ();
  go_vol_Upload v st o n f := mret ();
  go_vol_Free v := mret ();
  go_vol_Delete v f := mret ();
  go_stream_Free st := mret ()
}.
#[local] Instance host_agents : MachineAgents host := {
  machine_Dial a := mret ();
  machine_ExecCommand a c l := mret ()
}.

#[local] Instance host_go_laws : @LibvirtLaws host go_libvirt.
Proof.
  refine (@Build_LibvirtLaws host go_libvirt id _ _ _ _ _ _ _ _).
  - intros k s r s' E. apply (@lv_List_law host host_libvirt host_laws k s r s'). by destruct k.
  - intros k h s r s' E. apply (@lv_GetName_law host host_libvirt host_laws k h s r s'). by destruct k.
  - intros k h s r s' E. apply (@lv_remove_law host host_libvirt host_laws k h s r s'). destruct k; naive_solver.
  - intros k h s r s' E. apply (@lv_Free_law host host_libvirt host_laws k h s r s'). by destruct k.
  - by intros h s r s' [= <- <-].
  - by intros h s r s' [= <- <-].
  - by intros h s r s' [= <- <-].
  - by intros h s r s' [[= <- <-]|[[= <- <-]|[= <- <-]]].
Defined.

#[local] Instance host_go_create_laws : @LibvirtCreateLaws host go_libvirt host_go_laws _ go_create.
Proof.
  split; try (intros; apply quiet_ret).
  - intros d x [= <-]. apply host_create_law.
  - intros d x [= <-]. apply host_create_law.
  - intros d x [= <-]. apply host_create_law.
  - intros p s r s' [= <- <-]. split; [done|]. by case_decide.
  - exact (@LookupDomain_law _ _ _ _ _ host_create_laws).
Qed.

Definition through_wrapper : res NodeInformation * LibvirtInstance host :=
  InitializeInfrastructure (H := wrapper_libvirt) (H1 := wrapper_create) host_env "image.qcow2"
    [0; 1; 2; 0; 1; 2; 0; 1; 2; 0; 1; 2]%nat [0; 0; 1; 2; 1; 2]%nat connected.
Definition through_wrapper_host : host := default used_host (Conn through_wrapper.2).
Definition through_wrapper_cleaned : res () * host := TerminateInfrastructure (H := wrapper_libvirt) through_wrapper_host.

Lemma through_wrapper_nodes : through_wrapper.1 = Ret host_nodes.
Proof. vm_compute. reflexivity. Qed.
Lemma through_wrapper_clean : through_wrapper_cleaned.1 = Ret ().
Proof. vm_compute. reflexivity. Qed.

Lemma infrastructure_over_the_package_witness :
  there (objs (H := go_libvirt) through_wrapper_host) Domain "delegatio-worker-1" ∧
  objs (H := go_libvirt) through_wrapper_cleaned.2 Network !! 1%positive = Some "default".
Proof.
  destruct (infrastructure_over_the_package (C := host) (H := host_go) host_env "image.qcow2"
    [0; 1; 2; 0; 1; 2; 0; 1; 2; 0; 1; 2]%nat [0; 0; 1; 2; 1; 2]%nat connected host_nodes through_wrapper.2
    through_wrapper_host through_wrapper_cleaned.2) as (_ & _ & Hd & Hc).
  - simpl. lia.
  - by eexists.
  - apply (ran (InitializeInfrastructure (H := wrapper_libvirt) _ _ _ _)). exact through_wrapper_nodes.
  - reflexivity.
  - apply (ran (TerminateInfrastructure (H := wrapper_libvirt))). exact through_wrapper_clean.
  - split; [apply Hd; vm_compute; repeat constructor|].
    apply Hc. split; [vm_compute; reflexivity|reflexivity].
Defined.

Lemma failed_lookups_differ_witness :
  wrapper_LookupDomainByName "delegatio-master-0" used_host = (Ret (Ptr None, Some (ErrExt "Domain not found")), used_host).
Proof.
  refine (proj1 (failed_lookups_differ (H := host_go) "delegatio-master-0" "" _ (ErrExt "Storage pool not found")
    used_host used_host _ _)); reflexivity.
Defined.
