(* ===== verification/Cli.v ===== *)
(** cli/run.go and cli/main.go: the command that builds a cluster, installs the
    applications, waits for an interrupt, saves the users' state and removes everything.

    The four phases are those of [QemuCreate], [Bootstrapper] (with [KubeadmConfig]),
    [Installer] and its terminate part; the state is what they work on. The handling of
    signals is the step relation [signal_step]. *)
From S2P Require Import Prelude Flags Config StoreApi EtcdStore StoreWrapper Templates K8sApi SshKube Installer.
From S2P Require Import Errgroup TermSize ExecStream VmApi Bootstrapper KubeadmConfig.
From S2P Require Import Qemu QemuDefs QemuCreate.

(** ** The state of a run *)

(** The machines' host, the agents on the machines, the environment's [KUBECONFIG], the
    installer once it is made, and the store of the termination. *)
Record cli (L W C S : Type) : Type := MkCli {
  infra : LibvirtInstance L;
  agents : W;
  kube_env : option string;
  apps : option (installer C S);
  final_store : option S
}.
Arguments MkCli {L W C S}.
Arguments infra {L W C S}.
Arguments agents {L W C S}.
Arguments kube_env {L W C S}.
Arguments apps {L W C S}.
Arguments final_store {L W C S}.

(** The schedules of the three groups of goroutines. *)
Record schedules : Type := MkSchedules {
  create_schedule : list nat;
  wait_schedule : list nat;
  join_schedule : list nat
}.

Section run.
Context {L W K C S : Type} `{Libvirt L} `{LibvirtXml} `{LibvirtCreate L}
  `{AgentClient W} `{Pki} `{TokenApi K}
  `{KubeClient C} `{HelmApi C} `{KVStore S}
  `{RangeOrder} `{Json ContainerInformation} `{Json UserInformation} `{Json UserConfiguration}.
Variables (machines : run_env L) (imageLocation : string) (local : local_calls K) (turns : schedules)
  (kubeadm_version kubelet_version : string) (Encode : kubeadm_object → error + string)
  (new_client : option string → error + C)
  (files : environment) (apiHost : error + string)
  (New Reopen : list string → option string → option string → option string → error + S)
  (os_WriteFile : string → string → option error)
  (interrupted : bool).
Abbreviation cli := (cli L W C S).

Definition set_infra (i : LibvirtInstance L) (c : cli) : cli :=
  MkCli i (agents c) (kube_env c) (apps c) (final_store c).
Definition on_infra {A} : M (LibvirtInstance L) A → M cli A := zoom infra set_infra.

Definition createInfrastructure : M cli NodeInformation :=
  on_infra (ConnectWithInfrastructureService machines "qemu:///system");;
  on_infra (InitializeInfrastructure machines imageLocation (create_schedule turns) (wait_schedule turns)).

Definition bootstrapKubernetes (nodes : NodeInformation) : M cli (option EtcdCredentials) :=
  kubeConf ← dpanic (lifted (GetKubeInitConfig kubeadm_version kubelet_version Encode));
  ((λ c,
    match BootstrapKubernetes local (join_schedule turns)
            (NewBootstrapper (agents c) (kube_env c) nodes kubeConf : bootstrapper W K) with
    | (r, b) => (r, MkCli (infra c) (vms b) (KUBECONFIG b) (apps c) (final_store c))
    end) : M cli (option EtcdCredentials)).

(** Nil credentials are dereferenced after the API server's address has been parsed. *)
Definition installKubernetesApplications (creds : option EtcdCredentials) (userConfig : UserConfiguration)
    : M cli () := λ c,
  match NewInstaller (new_client (kube_env c)) with
  | inl err => (Fail err, c)
  | inr kubeInstaller =>
      match (match creds with
             | None => (api_host apiHost;; panic : M (installer C S) ())
             | Some creds => InstallKubernetesApplications files apiHost New creds userConfig
             end) kubeInstaller with
      | (r, i) => (r, MkCli (infra c) (agents c) (kube_env c) (Some i) (final_store c))
      end
  end.

Definition handleTermination (creds : option EtcdCredentials) : M cli () := λ c,
  let on_final (m : M (option S) ()) := zoom final_store
    (λ s c, MkCli (infra c) (agents c) (kube_env c) (apps c) s) m in
  (dpanic (on_final (match new_client (kube_env c) with
     | inl err => fail err
     | inr _ => match creds with
                | None => panic
                | Some creds => NewTerminate apiHost Reopen creds
                end
     end));;
   on_final (SaveState os_WriteFile "./kubernetes-state.json")) c.

(** [<-ctx.Done()]. *)
Definition await_interrupt : M cli () := if interrupted then mret () else block.

(** What follows the deferred clean-up. *)
Definition phases : M cli () :=
  nodes ← dpanic createInfrastructure;
  creds ← dpanic (bootstrapKubernetes nodes);
  userConfig ← GetExampleConfig (λ name data, of_err (os_WriteFile name data));
  dpanic (installKubernetesApplications creds userConfig);;
  await_interrupt;;
  handleTermination creds.

(** Errors of the clean-up are only logged. *)
Definition cleanup : M cli () :=
  attempt (on_infra Instance_TerminateInfrastructure);;
  attempt (on_infra TerminateConnection);;
  mret ().

Definition run : M cli () := defer cleanup phases.

End run.

(** ** main.go *)

Definition cli_flags : gmap string flag_kind := {[ "path" := StringFlag ]}.

(** Without an image it prints the usage and exits; [run] is a function of the image. *)
Definition main {S} (run : string → M S ()) (os_Args : list string) : M S Z :=
  match flag_Parse cli_flags ∅ (tail os_Args) with
  | FlagExit code => mret code
  | Flags values _ =>
      let imageLocation := default "" (values !! "path") in
      if decide (imageLocation = "") then mret 1%Z
      else dpanic (run imageLocation);; mret 0%Z
  end.

(** ** main.go: signals *)

(** The goroutine of [registerSignalHandler]: in its select, before [cancelFunc], before
    the send on [stopped], or ended. *)
Inductive handler_at : Type := HandlerSelect | HandlerCancel | HandlerStop | HandlerEnd.

(** The command: before the call of the returned function, between its send on [done] and
    its receive from [stopped], or past it. *)
Inductive caller_at : Type := CallerRuns | CallerWaits | CallerReturned.

Record signals : Type := MkSignals {
  done_chan : gochan ();
  stopped_chan : gochan ();
  sig_ctx : bool;
  handler : handler_at;
  caller : caller_at
}.

Inductive signal_step (s : signals) : signals → Prop :=
  | step_signal :
      sig_ctx s = false →
      signal_step s (MkSignals (done_chan s) (stopped_chan s) true (handler s) (caller s))
  | step_handler_ctx :
      handler s = HandlerSelect → sig_ctx s = true →
      signal_step s (MkSignals (done_chan s) (stopped_chan s) (sig_ctx s) HandlerCancel (caller s))
  | step_handler_done x d :
      handler s = HandlerSelect → ch_recv (done_chan s) = (Ret x, d) →
      signal_step s (MkSignals d (stopped_chan s) (sig_ctx s) HandlerCancel (caller s))
  | step_handler_cancel :
      handler s = HandlerCancel →
      signal_step s (MkSignals (done_chan s) (stopped_chan s) true HandlerStop (caller s))
  | step_handler_stop p :
      handler s = HandlerStop → ch_send () (stopped_chan s) = (Ret (), p) →
      signal_step s (MkSignals (done_chan s) p (sig_ctx s) HandlerEnd (caller s))
  | step_caller_send d :
      caller s = CallerRuns → ch_send () (done_chan s) = (Ret (), d) →
      signal_step s (MkSignals d (stopped_chan s) (sig_ctx s) (handler s) CallerWaits)
  | step_caller_recv x p :
      caller s = CallerWaits → ch_recv (stopped_chan s) = (Ret x, p) →
      signal_step s (MkSignals (done_chan s) p (sig_ctx s) (handler s) CallerReturned).

Definition registerSignalHandler : signals :=
  MkSignals (ch_make 1) (ch_make 1) false HandlerSelect CallerRuns.

(** ** Lemmas *)

(** A written path is the image of the run. *)
Theorem main_runs_with_the_image {S} (run : string → M S ()) program image :
  image ≠ "" → main run [program; "-path=" +:+ image] = (dpanic (run image);; mret 0%Z) ∧
  main run [program; "--path"; image] = (dpanic (run image);; mret 0%Z) ∧
  main run [program] = mret 1%Z.
Proof.
  intros Hi. assert (cli_flags !! "path" = Some StringFlag) as Hk by done.
  assert (∀ v, default "" (<["path" := v]> (∅ : gmap string string) !! "path") = v) as Hv.
  { intros v. by rewrite lookup_insert_eq. }
  unfold main. cbn [tail flag_Parse].
  pose proof (argument_of_write ("path", image) eq_refl) as Ha. unfold write_flag in Ha. cbn [fst snd] in Ha.
  change ("-" +:+ "path" +:+ "=" +:+ image) with ("-path=" +:+ image) in Ha. rewrite Ha, Hk, Hv.
  change (argument_of "--path") with (Named "path" None). cbv iota beta. rewrite Hk, Hv.
  by rewrite decide_False by done.
Qed.

Section lemmas.
Context {L W K C S : Type} `{LibvirtCreateLaws L} `{AgentLaws W} `{Pki} `{TokenApi K}
  `{KubeClient C} `{HelmApi C} `{KVStore S}
  `{RangeOrder} `{Json ContainerInformation} `{Json UserInformation} `{Json UserConfiguration}.
Variables (machines : run_env L) (imageLocation : string) (local : local_calls K) (turns : schedules)
  (kubeadm_version kubelet_version : string) (Encode : kubeadm_object → error + string)
  (new_client : option string → error + C)
  (files : environment) (apiHost : error + string)
  (New Reopen : list string → option string → option string → option string → error + S)
  (os_WriteFile : string → string → option error)
  (interrupted : bool).
Hypothesis buffer_nonempty : (0 < bufferSize machines)%nat.
Abbreviation cli := (cli L W C S).
Abbreviation create := (createInfrastructure (S := S) (C := C) (W := W) machines imageLocation turns).
Abbreviation bootstrap := (bootstrapKubernetes (L := L) (C := C) (S := S) local turns
  kubeadm_version kubelet_version Encode).
Abbreviation install := (installKubernetesApplications (L := L) (W := W) new_client files apiHost New).
Abbreviation terminate := (handleTermination (L := L) (W := W) new_client apiHost Reopen os_WriteFile).
Abbreviation all_phases := (phases (L := L) machines imageLocation local turns
  kubeadm_version kubelet_version Encode new_client files apiHost New Reopen os_WriteFile interrupted).
Abbreviation whole_run := (run (L := L) machines imageLocation local turns
  kubeadm_version kubelet_version Encode new_client files apiHost New Reopen os_WriteFile interrupted).

(** [m] leaves a part of the state as it is. *)
Definition keeps {T A} (part : cli → T) (m : M cli A) : Prop := ∀ c, part (m c).2 = part c.

Section keeps.
Context {T : Type} (part : cli → T).

Lemma keeps_bind {A B} (m : M cli A) (f : A → M cli B) :
  keeps part m → (∀ a, keeps part (f a)) → keeps part (m ≫= f).
Proof.
  intros Hm Hf c. unfold mbind, M_bind. specialize (Hm c). destruct (m c) as [[a|e| |] c1]; simpl in *; try done.
  by rewrite Hf.
Qed.
Lemma keeps_dpanic {A} (m : M cli A) : keeps part m → keeps part (dpanic m).
Proof. intros Hm c. rewrite dpanic_state. apply Hm. Qed.

Lemma keeps_attempt {A} (m : M cli A) : keeps part m → keeps part (attempt m).
Proof. intros Hm c. specialize (Hm c). unfold attempt. by destruct (m c) as [[] ?]. Qed.

Lemma keeps_zoom {U A} (get : cli → U) set (m : M U A) :
  (∀ t c, part (set t c) = part c) → keeps part (zoom get set m).
Proof. intros Hs c. unfold zoom. destruct (m (get c)). apply Hs. Qed.

Lemma keeps_example_config (WriteFile : string → string → M cli ()) :
  (∀ n d, keeps part (WriteFile n d)) → keeps part (GetExampleConfig WriteFile).
Proof.
  intros Hw c. unfold GetExampleConfig. destruct (json_Marshal _) as [e|out]; [done|].
  apply keeps_bind; [by apply keeps_attempt|]. by intros [].
Qed.
End keeps.

(** Only the first phase works on the machines' host, only the second on the agents. *)
Lemma create_keeps_agents : keeps agents create.
Proof. apply keeps_bind; intros; by apply keeps_zoom. Qed.

Lemma cleanup_keeps_agents : keeps agents cleanup.
Proof. repeat (apply keeps_bind; [by apply keeps_attempt, keeps_zoom|intros]). done. Qed.

Lemma bootstrap_keeps_infra nodes : keeps infra (bootstrap nodes).
Proof.
  apply keeps_bind.
  - apply keeps_dpanic. intros c. by destruct (GetKubeInitConfig _ _ _).
  - intros conf c. by destruct (BootstrapKubernetes _ _ _).
Qed.

Section later.
Context {T : Type} (part : cli → T).
Hypothesis part_stays : ∀ c a s, part (MkCli (infra c) (agents c) (kube_env c) a s) = part c.

Lemma install_keeps creds conf : keeps part (install creds conf).
Proof.
  intros c. unfold installKubernetesApplications, NewInstaller. destruct (new_client _); [done|].
  destruct creds; [destruct (InstallKubernetesApplications _ _ _ _ _ _)|destruct ((_;; _ : M _ _) _)];
    apply part_stays.
Qed.

Lemma terminate_keeps creds : keeps part (terminate creds).
Proof.
  intros c. unfold handleTermination. cbv zeta. apply keeps_bind.
  - apply keeps_dpanic, keeps_zoom. intros. apply part_stays.
  - intros _. apply keeps_zoom. intros. apply part_stays.
Qed.

(** The phases after the bootstrap. *)
Lemma rest_keeps creds : keeps part (userConfig ← GetExampleConfig (λ name data, of_err (os_WriteFile name data));
  dpanic (install creds userConfig);; await_interrupt interrupted;; terminate creds).
Proof.
  apply keeps_bind; [apply keeps_example_config; intros; by destruct (os_WriteFile _ _)|]. intros conf.
  apply keeps_bind; [apply keeps_dpanic, install_keeps|]. intros _.
  apply keeps_bind; [by destruct interrupted|]. intros _. apply terminate_keeps.
Qed.
End later.

(** The phases leave the machines' host as the first one has. *)
Lemma phases_infra c : infra (all_phases c).2 = infra (create c).2.
Proof.
  unfold phases. unfold mbind at 1, M_bind at 1. pose proof (dpanic_state create c) as Hd.
  destruct (dpanic create c) as [r c1] eqn:E1. simpl in Hd. rewrite <-Hd.
  destruct r as [nodes|e| |]; try done.
  eassert (keeps infra _) as Hk; [|exact (Hk c1)].
  apply keeps_bind; [apply keeps_dpanic, bootstrap_keeps_infra|]. intros creds. by apply rest_keeps.
Qed.

(** The first phase over a host that can be reached. *)
Lemma create_on s0 c : NewConnect machines "qemu:///system" = inr s0 →
  create c = on_infra (InitializeInfrastructure machines imageLocation (create_schedule turns)
    (wait_schedule turns)) (set_infra (set_conn (Some s0) (infra c)) c).
Proof.
  intros Hn. unfold createInfrastructure. unfold mbind at 1, M_bind at 1.
  unfold on_infra at 1, zoom at 1, ConnectWithInfrastructureService. rewrite Hn. done.
Qed.

Lemma phases_not_blocked c : (all_phases c).1 ≠ Blocked → (create c).1 ≠ Blocked.
Proof.
  intros Hp Hc. apply Hp. unfold phases, mbind at 1, M_bind at 1.
  pose proof (dpanic_Blocked create c Hc) as Hd.
  destruct (dpanic create c) as [r c1]. simpl in Hd. by subst r.
Qed.

Lemma run_eq c : (all_phases c).1 ≠ Blocked →
  infra (whole_run c).2 = infra (cleanup (all_phases c).2).2 ∧
  ((cleanup (all_phases c).2).1 = Ret () → (whole_run c).1 = (all_phases c).1).
Proof.
  intros Hp. unfold run, defer. destruct (all_phases c) as [r c1]. simpl in *.
  destruct r; try done; by destruct (cleanup c1) as [[] c2].
Qed.

Lemma cleanup_on (c : cli) s1 s2 : Conn (infra c) = Some s1 → TerminateInfrastructure s1 = (Ret (), s2) →
  ∃ c' s', cleanup c = (Ret (), c') ∧ Conn (infra c') = Some s' ∧ objs s' = objs s2.
Proof.
  intros Hc Et. unfold cleanup, on_infra, zoom, Instance_TerminateInfrastructure, TerminateConnection,
    on_conn, attempt, mbind, M_bind. rewrite Hc, Et. simpl.
  destruct (lv_Close s2) as [r s3] eqn:E. destruct (lv_Close_law _ _ _ E) as [Ho Hr].
  destruct r; try done; simpl; (do 2 eexists; split; [reflexivity|split; [reflexivity|exact Ho]]).
Qed.
(** A first phase that succeeds, over a host that can be reached. *)
Lemma create_phase_Ret s0 c nodes c1 : NewConnect machines "qemu:///system" = inr s0 → create c = (Ret nodes, c1) →
  (∀ id, id ∈ machine_names (infra c) → there (things (infra c1)) Domain id) ∧
  reported (workerNodeNum (infra c)) nodes.
Proof.
  intros Hn E. rewrite (create_on s0 c Hn) in E. unfold on_infra, zoom in E. simpl in E.
  destruct (InitializeInfrastructure _ _ _ _ _) as [r0 i'] eqn:Ei. injection E as -> <-.
  apply bind_Ret_inv in Ei as ([] & i1 & E1 & E). cbn in E1.
  destruct (TerminateInfrastructure s0) as [r1 l1]. injection E1 as -> <-.
  eapply built in E as (_ & _ & Hb); [|exact buffer_nonempty|by eexists|exact I].
  destruct (Hb nodes eq_refl) as (_ & _ & Hd & Hr). by split.
Qed.

(** A bootstrap that succeeds, of an infrastructure with one master. *)
Lemma bootstrap_Ret nodes name ip c creds c2 : Masters nodes = {[name := ip]} →
  bootstrap nodes c = (Ret creds, c2) →
  conns (agents c2) ≡ₚ conns (agents c) ∧ ∃ tok hash js,
    commands (agents c2) = commands (agents c) ++ (JoinHostPort ip PublicAPIport, kubeadm, init_args) :: js ∧
    js ≡ₚ (λ '(id, addr), (JoinHostPort addr PublicAPIport, kubeadm, join_args tok hash id)) <$>
            map_to_list (Workers nodes) ∧
    APIServerEndpoint tok = JoinHostPort ip "6443" ∧ CACertHashes tok = [hash].
Proof.
  intros Hm E. apply bind_Ret_inv in E as (conf & c1 & E1 & E). apply dpanic_Ret in E1.
  assert (c1 = c) as -> by (destruct (GetKubeInitConfig _ _ _); by injection E1).
  set (b := NewBootstrapper (agents c) (kube_env c) nodes conf : bootstrapper W K) in E.
  destruct (BootstrapKubernetes local (join_schedule turns) b) as [r b'] eqn:Eb. injection E as -> <-.
  assert (controlPlaneIP b = ip) as Hip by (simpl; by rewrite Hm, range_singleton).
  unfold BootstrapKubernetes in Eb.
  destruct (BootstrapKubernetes_effect local ip (Workers nodes) _ _ b _ b' (conj Hip eq_refl) Eb I) as (_ & Hc & Hk).
  split; [exact Hc|]. destruct (Hk creds eq_refl) as (l & Hl & tok & hash & js & Ha & Hh & -> & Hp).
  by exists tok, hash, js.
Qed.
End lemmas.

(** ** Theorems *)

Section theorems.
Context {L W K C S : Type} `{LibvirtCreateLaws L} `{AgentLaws W} `{Pki} `{TokenApi K}
  `{KubeClient C} `{HelmApi C} `{KVStore S}
  `{RangeOrder} `{Json ContainerInformation} `{Json UserInformation} `{Json UserConfiguration}.
Variables (machines : run_env L) (imageLocation : string) (local : local_calls K) (turns : schedules)
  (kubeadm_version kubelet_version : string) (Encode : kubeadm_object → error + string)
  (new_client : option string → error + C)
  (files : environment) (apiHost : error + string)
  (New Reopen : list string → option string → option string → option string → error + S)
  (os_WriteFile : string → string → option error)
  (interrupted : bool).
Hypothesis buffer_nonempty : (0 < bufferSize machines)%nat.
Abbreviation cli := (cli L W C S).
Abbreviation create := (createInfrastructure (S := S) (C := C) (W := W) machines imageLocation turns).
Abbreviation bootstrap := (bootstrapKubernetes (L := L) (C := C) (S := S) local turns
  kubeadm_version kubelet_version Encode).
Abbreviation all_phases := (phases (L := L) machines imageLocation local turns
  kubeadm_version kubelet_version Encode new_client files apiHost New Reopen os_WriteFile interrupted).
Abbreviation whole_run := (run (L := L) machines imageLocation local turns
  kubeadm_version kubelet_version Encode new_client files apiHost New Reopen os_WriteFile interrupted).

(** C13: however a run ends, with success, with an error or with the panic of a failed phase,
    it leaves none of its networks, pools and machines on the host, and all of the others,
    when the last clean-up succeeds. *)
Theorem run_leaves_nothing_behind (c : cli) r c' s0 s1 :
  NewConnect machines "qemu:///system" = inr s0 → whole_run c = (r, c') → r ≠ Blocked →
  Conn (infra (all_phases c).2) = Some s1 → (TerminateInfrastructure s1).1 = Ret () →
  ∃ s', Conn (infra c') = Some s' ∧
    ∀ k h n, objs s' k !! h = Some n ↔ objs s0 k !! h = Some n ∧ own k n = false.
Proof.
  intros Hn E Hr Hc1 Ht. apply ran in Ht. set (s2 := (TerminateInfrastructure s1).2) in Ht.
  assert ((all_phases c).1 ≠ Blocked) as Hp.
  { intros Hb. apply Hr. unfold run, defer in E. destruct (all_phases c) as [r1 c1]. simpl in Hb.
    subst r1. by simplify_eq. }
  destruct (run_eq machines imageLocation local turns kubeadm_version kubelet_version Encode new_client
    files apiHost New Reopen os_WriteFile interrupted c Hp) as [Hi _].
  destruct (cleanup_on _ s1 s2 Hc1 Ht) as (c2 & s' & Ec & Hs' & Ho). rewrite Ec, E in Hi. simpl in Hi.
  exists s'. split; [by rewrite Hi|]. intros k h n. rewrite Ho.
  rewrite phases_infra, (create_on machines imageLocation turns s0 c Hn) in Hc1.
  apply phases_not_blocked in Hp. rewrite (create_on machines imageLocation turns s0 c Hn) in Hp.
  unfold on_infra, zoom in Hc1, Hp. simpl in Hc1, Hp.
  destruct (InitializeInfrastructure _ _ _ _ _) as [r0 i'] eqn:Ei. simpl in *.
  assert (is_Some (Conn (set_conn (Some s0) (infra c)))) as Hs0 by (by eexists).
  destruct (initialization_returns machines imageLocation buffer_nonempty _ _ _ _ _ Hs0 Ei) as [?|Hr0]; [done|].
  exact (initialization_cleaned machines imageLocation buffer_nonempty _ _ (set_conn (Some s0) (infra c))
    s0 r0 i' s1 s2 eq_refl Ei Hr0 Hc1 Ht k h n).
Qed.

(** C12: a run that succeeds has ended after the interrupt, and has bootstrapped the cluster on
    the machines it had created: each of them existed, the workers it joined are exactly
    those created, each under its own name and once, all to the master's address, kubeadm
    init ran once, before them, on the master, and no connection to an agent is left open. *)
Theorem run_bootstraps_the_created_machines (c c' : cli) s0 :
  NewConnect machines "qemu:///system" = inr s0 → whole_run c = (Ret (), c') →
  interrupted = true ∧ ∃ nodes c1 ip, create c = (Ret nodes, c1) ∧
    (∀ id, id ∈ machine_names (infra c) → there (things (infra c1)) Domain id) ∧
    init_args !! 4%nat = Some (machine_name true 0) ∧
    dom (Workers nodes) = list_to_set (machine_name false <$> seq 0 (workerNodeNum (infra c))) ∧
    Masters nodes = {["delegatio-0" := ip]} ∧ ip ≠ "" ∧
    conns (agents c') ≡ₚ conns (agents c) ∧ ∃ tok hash js,
      commands (agents c') = commands (agents c) ++ (JoinHostPort ip PublicAPIport, kubeadm, init_args) :: js ∧
      js ≡ₚ (λ '(id, addr), (JoinHostPort addr PublicAPIport, kubeadm, join_args tok hash id)) <$>
              map_to_list (Workers nodes) ∧
      APIServerEndpoint tok = JoinHostPort ip "6443" ∧ CACertHashes tok = [hash].
Proof.
  intros Hn E. apply defer_Ret_inv in E as (c4 & E & Hc').
  pose proof (cleanup_keeps_agents c4) as Ha4. rewrite Hc' in Ha4. rewrite Ha4. clear Hc' Ha4.
  apply bind_Ret_inv in E as (nodes & c1 & E1 & E). apply dpanic_Ret in E1.
  apply bind_Ret_inv in E as (creds & c2 & E2 & E). apply dpanic_Ret in E2.
  pose proof (rest_keeps new_client files apiHost New Reopen os_WriteFile interrupted
    agents (λ _ _ _, eq_refl) creds c2) as Ha2. rewrite E in Ha2. simpl in Ha2. rewrite Ha2.
  split.
  { apply bind_Ret_inv in E as (conf & c3 & _ & E). apply bind_Ret_inv in E as (_' & c3' & _ & E).
    by destruct interrupted. }
  destruct (create_phase_Ret machines imageLocation turns buffer_nonempty s0 c nodes c1 Hn E1)
    as (Hd & (ip & Hip & Hm) & Hw & _).
  pose proof (create_keeps_agents machines imageLocation turns c) as Ha1. rewrite E1 in Ha1. simpl in Ha1.
  rewrite <-Ha1. exists nodes, c1, ip. split_and!; try done; by eapply bootstrap_Ret in E2 as [? ?].
Qed.

(** When the machines' host cannot be reached, the clean-up itself dereferences the
    connection that was never made. *)
Theorem unreachable_host_panics_in_cleanup (c : cli) e :
  NewConnect machines "qemu:///system" = inl e → Conn (infra c) = None →
  all_phases c = (Panic, c) ∧ cleanup c = (Panic, c) ∧ whole_run c = (Panic, c).
Proof.
  intros Hn Hc. assert (set_infra (infra c) c = c) as Hset by (by destruct c).
  assert (all_phases c = (Panic, c)) as Hp.
  { assert (create c = (Fail e, c)) as Ec.
    { unfold createInfrastructure, mbind at 1, M_bind at 1.
      unfold on_infra at 1, zoom at 1, ConnectWithInfrastructureService. rewrite Hn. simpl. by rewrite Hset. }
    unfold phases, mbind at 1, M_bind at 1. by rewrite (dpanic_Fail _ _ _ _ Ec). }
  assert (cleanup c = (Panic, c)) as Hcl.
  { unfold cleanup, attempt, mbind, M_bind, on_infra, zoom, Instance_TerminateInfrastructure, on_conn.
    by rewrite Hc, Hset. }
  split_and!; [done..|]. unfold run, defer. by rewrite Hp, Hcl.
Qed.

(** A bootstrap that returns no credentials ends the run with a nil dereference. *)
Theorem missing_credentials_end_in_panic (c c1 c2 : cli) nodes :
  create c = (Ret nodes, c1) → bootstrap nodes c1 = (Ret None, c2) → (all_phases c).1 = Panic.
Proof.
  intros E1 E2. unfold phases.
  assert (dpanic create c = (Ret nodes, c1)) as D1.
  { unfold dpanic, attempt, mbind, M_bind. by rewrite E1. }
  assert (dpanic (bootstrap nodes) c1 = (Ret None, c2)) as D2.
  { unfold dpanic, attempt, mbind, M_bind. by rewrite E2. }
  rewrite (bind_Ret _ _ _ _ _ D1), (bind_Ret _ _ _ _ _ D2).
  unfold GetExampleConfig. destruct (json_Marshal _) as [e|out]; [done|].
  unfold mbind at 1, M_bind at 1, mbind at 1, M_bind at 1, attempt, of_err.
  destruct (os_WriteFile "config.json" out) as [e|]; [done|]. simpl. unfold dpanic, attempt, mbind, M_bind, installKubernetesApplications, NewInstaller.
  destruct (new_client (kube_env c2)) as [e|cl]; [done|].
  unfold api_host, mbind, M_bind, lift_sum. destruct apiHost as [e|h]; [done|].
  simpl. by destruct (SplitHostPort h) as [?|[]].
Qed.
End theorems.

(** *** Signals *)

Definition handler_left (h : handler_at) : nat :=
  match h with HandlerSelect => 3 | HandlerCancel => 2 | HandlerStop => 1 | HandlerEnd => 0 end.
Definition caller_left (c : caller_at) : nat :=
  match c with CallerRuns => 2 | CallerWaits => 1 | CallerReturned => 0 end.
Definition signals_left (s : signals) : nat :=
  ((if sig_ctx s then 0 else 1) + handler_left (handler s) + caller_left (caller s))%nat.

(** What the channels hold, wherever the two sides are. *)
Definition signals_inv (s : signals) : Prop :=
  (∃ d, done_chan s = GoChan d 1 false ∧ (caller s = CallerRuns → d = []) ∧
    (handler s = HandlerSelect → caller s = CallerWaits → d = [()])) ∧
  stopped_chan s = GoChan (match handler s, caller s with
                           | HandlerEnd, CallerReturned => []
                           | HandlerEnd, _ => [()]
                           | _, _ => []
                           end) 1 false ∧
  (caller s = CallerReturned → handler s = HandlerEnd) ∧
  (handler s = HandlerStop ∨ handler s = HandlerEnd → sig_ctx s = true).

Lemma signals_inv_step s s' : signals_inv s → signal_step s s' → signals_inv s'.
Proof.
  intros ((d & Hd & Hd1 & Hd2) & Hp & Hr & Hc) Hst. destruct s as [d0 p0 ctx h c]. simpl in *. subst d0 p0.
  inversion Hst; subst; simpl in *; unfold signals_inv, ch_recv, ch_send in *; simpl in *; clear Hst.
  all: repeat match goal with E : _ = (Ret _, _) |- _ => repeat case_match; simplify_eq/= end.
  all: split_and!; try (eexists; split_and!; [done|..]); naive_solver.
Qed.

Lemma signal_step_left s s' : signal_step s s' → (signals_left s' < signals_left s)%nat.
Proof.
  unfold signals_left. destruct 1; simpl;
    repeat match goal with E : handler s = _ |- _ => rewrite E | E : caller s = _ |- _ => rewrite E
           | E : sig_ctx s = _ |- _ => rewrite E end; simpl; repeat case_match; lia.
Qed.

(** The signal handling always comes to its end. No run of it is infinite, and a run can
    only stop when the goroutine has ended, the command's call of the returned function has
    come back and the context is done, in whatever order a signal and the end of the
    command come. *)
Theorem registerSignalHandler_ends :
  sn signal_step registerSignalHandler ∧
  ∀ s, rtc signal_step registerSignalHandler s → (∀ s', ¬ signal_step s s') →
    handler s = HandlerEnd ∧ caller s = CallerReturned ∧ sig_ctx s = true.
Proof.
  split; [apply (sn_measure _ signals_left), signal_step_left|]. intros s Hr Hstuck.
  apply (rtc_invariant _ signals_inv) in Hr; [|exact signals_inv_step|].
  2:{ split; [by eexists|by split_and!; naive_solver]. }
  destruct Hr as ((d & Hd & Hd1 & Hd2) & Hp & Hr & Hc). destruct s as [d0 p0 ctx h c]. simpl in *. subst d0 p0.
  destruct c.
  - specialize (Hd1 eq_refl) as ->. by destruct (Hstuck _ ltac:(eapply step_caller_send; reflexivity)).
  - destruct h.
    + specialize (Hd2 eq_refl eq_refl) as ->. by destruct (Hstuck _ ltac:(eapply step_handler_done; reflexivity)).
    + by destruct (Hstuck _ ltac:(eapply step_handler_cancel; reflexivity)).
    + by destruct (Hstuck _ ltac:(eapply step_handler_stop; reflexivity)).
    + by destruct (Hstuck _ ltac:(eapply step_caller_recv; reflexivity)).
  - specialize (Hr eq_refl) as ->. split_and!; auto.
Qed.

(** ** A run to evaluate *)

From S2P Require Import StdStore.

#[local] Existing Instance range_canonical.
#[local] Existing Instance uuid_json.
#[local] Existing Instance name_json.

Definition configuration_json : Json UserConfiguration := {|
  json_Marshal _ := inr "{}";
  json_Unmarshal _ := inl (ErrExt "unexpected end of JSON input")
|}.
#[local] Existing Instance configuration_json.

Abbreviation example_cli := (cli host fleet cluster StdStore).

(** One machine answers at the address that [host_libvirt] reports; the goroutines of the
    creation, of the wait and of the joins take turns. *)
Definition one_machine : fleet := MkFleet {["10.42.0.2:9000" := master_files]} [] [].
Definition start : example_cli := MkCli NewQemu one_machine None None None.
Definition all_turns : list nat := concat (replicate 12 (seq 0 8)).
Definition example_turns : schedules := MkSchedules all_turns all_turns all_turns.
Definition unreachable_host : run_env host :=
  MkRunEnv _ (λ _, inl (ErrExt "Failed to connect socket")) (inl os_ErrNotExist) None 4 (λ _, false)
    (λ _, inr 4%nat) (λ _, inr 4%nat) None None (λ _, 3%nat) (λ _, 3%nat) ctx_DeadlineExceeded.

Definition example_phases (machines : run_env host) (c : example_cli) : res () * example_cli :=
  @phases host fleet (list BootstrapToken) cluster StdStore _ _ _ (fleet_agents kubeadm_works) example_pki
    example_tokens _ test_helm _ _ _ _ _ machines "image.qcow2" local_ok example_turns "v1.24.3" "v1.24.3"
    (λ _, inr "doc") (λ _, inr (MkCluster ∅ ∅)) test_env (inr "10.0.0.1:6443") test_New test_New
    (λ _ _, None) true c.
Definition example_run_of (machines : run_env host) (c : example_cli) : res () * example_cli :=
  @run host fleet (list BootstrapToken) cluster StdStore _ _ _ (fleet_agents kubeadm_works) example_pki
    example_tokens _ test_helm _ _ _ _ _ machines "image.qcow2" local_ok example_turns "v1.24.3" "v1.24.3"
    (λ _, inr "doc") (λ _, inr (MkCluster ∅ ∅)) test_env (inr "10.0.0.1:6443") test_New test_New
    (λ _ _, None) true c.

Definition after_run : res () * example_cli := example_run_of host_env start.

Lemma example_run_succeeds : after_run.1 = Ret ().
Proof. vm_compute. reflexivity. Qed.

Definition host_after_phases : host := default used_host (Conn (infra (example_phases host_env start).2)).

Lemma after_run_eq : example_run_of host_env start = (Ret (), after_run.2).
Proof. exact (ran (example_run_of host_env) start () example_run_succeeds). Qed.

Lemma host_after_phases_eq : Conn (infra (example_phases host_env start).2) = Some host_after_phases.
Proof.
  assert (Is_true (if Conn (infra (example_phases host_env start).2) is Some _ then true else false)) as Hc.
  { vm_compute. exact I. }
  unfold host_after_phases. by destruct (Conn _).
Qed.

Lemma run_leaves_nothing_behind_witness :
  ∃ s', Conn (infra after_run.2) = Some s' ∧
    (objs s' Network !! 1%positive = Some "default" ↔
     objs used_host Network !! 1%positive = Some "default" ∧ own Network "default" = false).
Proof.
  destruct (@run_leaves_nothing_behind host fleet (list BootstrapToken) cluster StdStore _ _ _ _
    host_create_laws (fleet_agents kubeadm_works) example_pki example_tokens _ test_helm _
    _ _ _ _ host_env "image.qcow2" local_ok example_turns "v1.24.3" "v1.24.3" (λ _, inr "doc")
    (λ _, inr (MkCluster ∅ ∅)) test_env (inr "10.0.0.1:6443") test_New test_New (λ _ _, None) true
    ltac:(simpl; lia) start (Ret ()) after_run.2 used_host host_after_phases) as (s' & Hs & Ho).
  - reflexivity.
  - exact after_run_eq.
  - discriminate.
  - exact host_after_phases_eq.
  - vm_compute. reflexivity.
  - exists s'. split; [exact Hs|exact (Ho Network 1%positive "default")].
Defined.

Lemma run_bootstraps_the_created_machines_witness :
  ∃ nodes c1 ip, @createInfrastructure host fleet cluster StdStore _ _ _ host_env "image.qcow2" example_turns start =
      (Ret nodes, c1) ∧ Masters nodes = {["delegatio-0" := ip]} ∧
    fleet_conns (agents after_run.2) ≡ₚ [] ∧
    ∃ tok hash js, fleet_started (agents after_run.2) = (JoinHostPort ip PublicAPIport, kubeadm, init_args) :: js ∧
      js ≡ₚ (λ '(id, addr), (JoinHostPort addr PublicAPIport, kubeadm, join_args tok hash id)) <$>
              map_to_list (Workers nodes).
Proof.
  destruct (@run_bootstraps_the_created_machines host fleet (list BootstrapToken) cluster StdStore _ _ _ _
    host_create_laws (fleet_agents kubeadm_works) (fleet_laws kubeadm_works) example_pki example_tokens _ test_helm _
    _ _ _ _ host_env "image.qcow2" local_ok example_turns "v1.24.3" "v1.24.3" (λ _, inr "doc")
    (λ _, inr (MkCluster ∅ ∅)) test_env (inr "10.0.0.1:6443") test_New test_New (λ _ _, None) true
    ltac:(simpl; lia) start after_run.2 used_host)
    as (_ & nodes & c1 & ip & Ec & _ & _ & _ & Hm & _ & Hc & tok & hash & js & Hj & Hp & _).
  - reflexivity.
  - exact after_run_eq.
  - exists nodes, c1, ip. split; [exact Ec|]. split; [exact Hm|]. split; [exact Hc|].
    exists tok, hash, js. split; [exact Hj|exact Hp].
Defined.

Lemma unreachable_host_panics_in_cleanup_witness : example_run_of unreachable_host start = (Panic, start).
Proof.
  apply (@unreachable_host_panics_in_cleanup host fleet (list BootstrapToken) cluster StdStore _ _ _
    (fleet_agents kubeadm_works) example_pki example_tokens _ test_helm _ _ _ _ _ unreachable_host "image.qcow2"
    local_ok example_turns "v1.24.3" "v1.24.3" (λ _, inr "doc") (λ _, inr (MkCluster ∅ ∅)) test_env
    (inr "10.0.0.1:6443") test_New test_New (λ _ _, None) true start (ErrExt "Failed to connect socket")).
  - reflexivity.
  - reflexivity.
Defined.

(** The same machine without the files of etcd. *)
Definition no_etcd_start : example_cli :=
  MkCli NewQemu (MkFleet {["10.42.0.2:9000" := MkFs {[ ["tmp"] ]}
    (<[["admin.conf"; "kubernetes"; "etc"] := ("kubeconfig", 384%Z)]>
    {[ ["ca.crt"; "pki"; "kubernetes"; "etc"] := ("PEM cluster-ca", 420%Z) ]})]} [] []) None None None.
Definition created : res NodeInformation * example_cli :=
  @createInfrastructure host fleet cluster StdStore _ _ _ host_env "image.qcow2" example_turns no_etcd_start.
Definition bootstrapped : res (option EtcdCredentials) * example_cli :=
  @bootstrapKubernetes host fleet (list BootstrapToken) cluster StdStore (fleet_agents kubeadm_works) example_pki
    example_tokens _ local_ok example_turns "v1.24.3" "v1.24.3" (λ _, inr "doc") host_nodes created.2.

Lemma missing_credentials_end_in_panic_witness : (example_phases host_env no_etcd_start).1 = Panic.
Proof.
  apply (@missing_credentials_end_in_panic host fleet (list BootstrapToken) cluster StdStore _ _ _
    (fleet_agents kubeadm_works) example_pki example_tokens _ test_helm _ _ _ _ _ host_env "image.qcow2"
    local_ok example_turns "v1.24.3" "v1.24.3" (λ _, inr "doc") (λ _, inr (MkCluster ∅ ∅)) test_env
    (inr "10.0.0.1:6443") test_New test_New (λ _ _, None) true no_etcd_start created.2 bootstrapped.2 host_nodes).
  - apply ran. vm_compute. reflexivity.
  - apply ran. vm_compute. reflexivity.
Defined.
